(** * ECCONet 3.0 / Matrix CAN library: shallow embedding and verification

    The C99 sources under [ECCONet-3.0-C99/] are embedded as Rocq functions
    over [Z].  A C object of type [uintN_t] is a [Z] in [0, 2^N); every
    place where the C code wraps around or narrows is written out with the
    conversions below.  Global data objects ([MatrixEventIndex],
    [MatrixTransmitter], [MatrixCanAddress], ...) become records that are
    passed explicitly. *)

From Stdlib Require Import ZArith List Bool Lia Permutation.
Import ListNotations.
Local Open Scope Z_scope.

(** ** Fixed-width integer conversions *)

Definition u8 (z : Z) : Z := z mod 256.
Definition u16 (z : Z) : Z := z mod 65536.
Definition u32 (z : Z) : Z := z mod 4294967296.
(** Conversion to [int8_t] / [int32_t] (two's complement narrowing). *)
Definition i8 (z : Z) : Z := (z + 128) mod 256 - 128.
Definition i32 (z : Z) : Z := (z + 2147483648) mod 4294967296 - 2147483648.

(** ** matrix_token_regions.h, matrix_tokens.h *)

Definition Region_Base__Local_Variables : Z := 1.
Definition Region_Size__Local_Variables : Z := 199.
Definition Subreg_Base__Local_Two_Byte : Z := 120.
Definition Subreg_Base__Local_Four_Byte : Z := 170.
Definition Subreg_Base__Local_Zero_Byte : Z := 190.
Definition Region_Base__Indexed_One_Byte_Inputs : Z := 200.
Definition Region_Base__Named_One_Byte : Z := 1000.
Definition Region_Base__Named_Misc_One_Byte : Z := 3000.
Definition Region_Base__Named_Two_Byte : Z := 5000.
Definition Region_Base__Named_Four_Byte : Z := 7000.
Definition Region_Base__Named_Zero_Byte : Z := 8000.
Definition Region_Base__Indexed_Sequencer_Three_Byte : Z := 8150.
Definition Region_Size__Indexed_Sequencer_Three_Byte : Z := 10.
Definition Region_Base__FTP_Requests : Z := 8160.
Definition Region_Size__FTP_Requests : Z := 10.
Definition Region_Base__FTP_Responses : Z := 8170.
Definition Region_Size__FTP_Response : Z := 22.

Definition KeyPrefix_Command : Z := 0x00.
Definition KeyPrefix_OutputStatus : Z := 0x20.
Definition KeyPrefix_InputStatus : Z := 0x40.
Definition KeyPrefix_BinaryRepeat : Z := 0x60.
Definition KeyPrefix_AnalogRepeat : Z := 0x80.
Definition KeyPrefix_PatternSync : Z := 0xA0.
Definition KeyPrefix_Mask : Z := 0xE0.

Definition KeyNull : Z := 0.
Definition KeyRequestAddress : Z := Region_Base__Named_Misc_One_Byte.
Definition KeyResponseAddressInUse : Z := Region_Base__Named_Misc_One_Byte + 1.
Definition KeyTokenSequencerPattern : Z := Region_Base__Named_Two_Byte.
Definition KeyTokenSequencerSync : Z := Region_Base__Named_Two_Byte + 1.

(** [TOKEN]: [flags] and [address] are [uint8_t], [key] is [uint16_t],
    [value] is [int32_t]. *)
Record TOKEN : Type := mkTOKEN {
  flags : Z;
  address : Z;
  key : Z;
  value : Z
}.

(** ** matrix_tokens.c *)

Definition Key_GetPrefix (key : Z) : Z :=
  u8 (u16 (Z.land (Z.shiftr key 8) KeyPrefix_Mask)).

Definition Key_WithoutPrefix (key : Z) : Z :=
  Z.land key (Z.lnot (Z.shiftl KeyPrefix_Mask 8)).

Definition Key_IsInputStatus (key : Z) : bool :=
  Z.land key (Z.shiftl KeyPrefix_Mask 8) =? Z.shiftl KeyPrefix_InputStatus 8.

Definition Key_IsOutputStatus (key : Z) : bool :=
  Z.land key (Z.shiftl KeyPrefix_Mask 8) =? Z.shiftl KeyPrefix_OutputStatus 8.

Definition Key_IsCommand (key : Z) : bool :=
  Z.land key (Z.shiftl KeyPrefix_Mask 8) =? Z.shiftl KeyPrefix_Command 8.

Definition Key_IsLocalVariable (key : Z) : bool :=
  let key := Z.land key (Z.lnot (Z.shiftl KeyPrefix_Mask 8)) in
  (key >=? Region_Base__Local_Variables) &&
  (key <? Region_Base__Local_Variables + Region_Size__Local_Variables).

Definition Key_IsFtpRequest (key : Z) : bool :=
  let key := Z.land key (Z.lnot (Z.shiftl KeyPrefix_Mask 8)) in
  (key >=? Region_Base__FTP_Requests) &&
  (key <? Region_Base__FTP_Requests + Region_Size__FTP_Requests).

Definition Key_IsFtpResponse (key : Z) : bool :=
  let key := Z.land key (Z.lnot (Z.shiftl KeyPrefix_Mask 8)) in
  (key >=? Region_Base__FTP_Responses) &&
  (key <? Region_Base__FTP_Responses + Region_Size__FTP_Response).

Definition Key_ValueSize (key : Z) : Z :=
  let key := Z.land key 0x1fff in
  if key =? 0 then 0
  else if Region_Base__Indexed_One_Byte_Inputs >? key then
    if Subreg_Base__Local_Two_Byte >? key then 1
    else if Subreg_Base__Local_Four_Byte >? key then 2
    else if Subreg_Base__Local_Zero_Byte >? key then 4
    else 0
  else if Region_Base__Named_Two_Byte >? key then 1
  else if Region_Base__Named_Four_Byte >? key then 2
  else if Region_Base__Named_Zero_Byte >? key then 4
  else if Region_Base__Indexed_Sequencer_Three_Byte >? key then 0
  else if Region_Base__FTP_Requests >? key then 3
  else 0.

(** ** matrix_event_index.c

    The state is the single [uint16_t MatrixEventIndex.eventIndex]
    (matrix_event_index.h); the functions take and return a [uint8_t]
    index. *)

Definition MatrixEventIndex_Reset : Z := 0.

(** Returns the index, which is the state converted to [uint8_t], and the
    (possibly bumped) state. *)
Definition Matrix_GetEventIndex (eventIndex : Z) : Z * Z :=
  let eventIndex := if 0 =? eventIndex then u16 (eventIndex + 1) else eventIndex in
  (u8 eventIndex, eventIndex).

Definition Matrix_NextEventIndex (eventIndex : Z) : Z :=
  let eventIndex := u16 (eventIndex + 1) in
  if 0 =? eventIndex then u16 (eventIndex + 1) else eventIndex.

Definition Matrix_NewEventIndex (index eventIndex : Z) : Z :=
  if 0 =? index then eventIndex
  else
    let result := i8 (index - eventIndex) in
    if (0 =? eventIndex) || (result >? 0) then index else eventIndex.

Definition Matrix_IsEventIndexExpired (index eventIndex : Z) : bool :=
  if 0 =? index then false
  else
    let result := i8 (index - eventIndex) in
    result <? 0.

(** ** matrix_crc.c *)

Definition MATRIX_MESSAGE_CRC_INIT_VALUE : Z := 0.
Definition MATRIX_MESSAGE_CRC_POLY_VALUE : Z := 0xA001.

(** The [while (bit--)] loop of [Matrix_AddByteToCRC16]. *)
Fixpoint AddByteToCRC16_bits (bit : nat) (byte crc : Z) : Z :=
  match bit with
  | O => crc
  | S bit' =>
      let crc' :=
        if Z.land (Z.lxor byte (u8 crc)) 1 =? 0
        then Z.shiftr crc 1
        else Z.lxor (Z.shiftr crc 1) (u16 MATRIX_MESSAGE_CRC_POLY_VALUE) in
      AddByteToCRC16_bits bit' (Z.shiftr byte 1) crc'
  end.

Definition Matrix_AddByteToCRC16 (byte crc : Z) : Z :=
  AddByteToCRC16_bits 8 byte crc.

(** [Matrix_ComputeCRC16 bytes numBytes] reads [bytes[0 .. numBytes-1]];
    the list is the memory starting at the pointer. *)
Definition Matrix_ComputeCRC16 (bytes : list Z) (numBytes : nat) : Z :=
  match numBytes with
  | O => 0
  | _ => fold_left (fun crc b => Matrix_AddByteToCRC16 b crc)
                   (firstn numBytes bytes) MATRIX_MESSAGE_CRC_INIT_VALUE
  end.

(** [Matrix_IsMessageChecksumValid].  With [numBytes = 1] the C code indexes
    [bytes[numBytes - 2]] below the buffer; that case has no defined result
    and is [None] here. *)
Definition Matrix_IsMessageChecksumValid (bytes : list Z) (numBytes : nat)
  : option bool :=
  match numBytes with
  | O => Some false
  | S O => None
  | S (S n) =>
      let messageCrc := nth n bytes 0 in
      let messageCrc := u16 (Z.lor (Z.shiftl messageCrc 8) (nth (S n) bytes 0)) in
      Some (messageCrc =? Matrix_ComputeCRC16 bytes n)
  end.

(** ** matrix_can_address.c *)

Definition MATRIX_CAN_ID_ADDRESS_BIT_WIDTH : Z := 7.
Definition MATRIX_CAN_ID_ADDRESS_MASK : Z := 0x7F.
Definition DEVICE_ADDRESS_XOR_VALUE : Z := 0x64.

(** [MATRIX_CAN_ADDRESS_OBJECT]; [file_address] and [file_isStatic] are the
    two bytes of the embedded [MATRIX_CAN_ADDRESS_FILE_OBJECT]. *)
Record MATRIX_CAN_ADDRESS_OBJECT : Type := mkCanAddress {
  xorIndex : Z;          (* uint16_t *)
  addressOffset : Z;     (* uint16_t *)
  requestTime : Z;       (* uint32_t *)
  proposedAddress : Z;   (* uint8_t *)
  file_address : Z;      (* uint8_t *)
  file_isStatic : Z      (* uint8_t *)
}.

Definition Matrix_GetCanAddress (ca : MATRIX_CAN_ADDRESS_OBJECT) : Z :=
  file_address ca.

Definition Matrix_IsCanAddressStatic (ca : MATRIX_CAN_ADDRESS_OBJECT) : bool :=
  negb (0 =? file_isStatic ca).

Definition Matrix_IsCanAddressValid (ca : MATRIX_CAN_ADDRESS_OBJECT) : bool :=
  ((file_address ca >=? 1) && (file_address ca <=? 120))
  || negb (0 =? file_isStatic ca).

(** [MatrixCanAddress_CanTokenIn]: the new address object and the tokens
    handed to [Matrix_PrivateSendCanToken]. *)
Definition MatrixCanAddress_CanTokenIn (token : TOKEN)
    (ca : MATRIX_CAN_ADDRESS_OBJECT) : MATRIX_CAN_ADDRESS_OBJECT * list TOKEN :=
  if ((key token =? KeyResponseAddressInUse) && (value token =? proposedAddress ca))
     || (negb (0 =? file_address ca) && (file_address ca =? address token)
         && (file_isStatic ca =? 0))
  then
    (mkCanAddress (xorIndex ca) (addressOffset ca) (requestTime ca) 0 0
                  (file_isStatic ca), [])
  else if (key token =? KeyRequestAddress) && (value token =? file_address ca)
  then
    (ca, [mkTOKEN (flags token) 0 KeyResponseAddressInUse (file_address ca)])
  else (ca, []).

(** The sixteen bytes of [uint32_t guid[4]] as [(uint8_t * )guid] walks them
    (least significant byte first; the algorithm only sums them). *)
Definition guid_bytes (guid : list Z) : list Z :=
  flat_map (fun w => [Z.land w 0xFF; Z.land (Z.shiftr w 8) 0xFF;
                      Z.land (Z.shiftr w 16) 0xFF; Z.land (Z.shiftr w 24) 0xFF])
           guid.

(** The address computed by one pass of the [do] body. *)
Definition proposed_address (guid : list Z) (xorIndex addressOffset : Z) : Z :=
  let numBits := MATRIX_CAN_ID_ADDRESS_BIT_WIDTH in
  let mask := MATRIX_CAN_ID_ADDRESS_MASK in
  let xorValue :=
    Z.lor (Z.shiftr DEVICE_ADDRESS_XOR_VALUE xorIndex)
          (Z.land (Z.shiftl DEVICE_ADDRESS_XOR_VALUE (numBits - xorIndex)) mask) in
  let address :=
    fold_left (fun address b => u32 (address + Z.lxor b xorValue))
              (guid_bytes guid) 0 in
  let address := u32 (address + addressOffset) in
  Z.land address mask.

(** The bump of [xorIndex] / [addressOffset] at the end of the [do] body. *)
Definition bump_xor_index (xorIndex addressOffset : Z) : Z * Z :=
  let numBits := MATRIX_CAN_ID_ADDRESS_BIT_WIDTH in
  let mask := MATRIX_CAN_ID_ADDRESS_MASK in
  let xorIndex := u16 (xorIndex + 1) in
  if xorIndex >=? numBits
  then (0, Z.land (u16 (addressOffset + 1)) mask)
  else (xorIndex, addressOffset).

(** [MatrixCanAddress_GetNextProposedCanAddress]: the [do ... while] loop,
    bounded by [fuel] passes; [None] when the fuel runs out.  The shift
    [numBits - xorIndex] is only defined for [xorIndex <= 7]. *)
Fixpoint MatrixCanAddress_GetNextProposedCanAddress (fuel : nat)
    (guid : list Z) (xorIndex addressOffset : Z) : option (Z * (Z * Z)) :=
  match fuel with
  | O => None
  | S fuel' =>
      let address := proposed_address guid xorIndex addressOffset in
      let '(xorIndex', addressOffset') := bump_xor_index xorIndex addressOffset in
      if (address =? 0) || (address >? 120)
      then MatrixCanAddress_GetNextProposedCanAddress fuel' guid xorIndex' addressOffset'
      else Some (address, (xorIndex', addressOffset'))
  end.

(** [IsMatrixTimerExpired(x)] from matrix.h. *)
Definition IsMatrixTimerExpired (systemTime x : Z) : bool :=
  0 <=? i32 (systemTime - x).

(** [MatrixCanAddress_Clock]: new address object, tokens handed to
    [Matrix_PrivateSendCanToken], and the new [Matrix.nextStatusTime] when the
    candidate is adopted. *)
Definition MatrixCanAddress_Clock (fuel : nat) (guid : list Z) (systemTime : Z)
    (ca : MATRIX_CAN_ADDRESS_OBJECT)
  : option (MATRIX_CAN_ADDRESS_OBJECT * list TOKEN * option Z) :=
  if negb (Matrix_IsCanAddressValid ca) then
    if 0 =? proposedAddress ca then
      match MatrixCanAddress_GetNextProposedCanAddress fuel guid
              (xorIndex ca) (addressOffset ca) with
      | None => None
      | Some (a, (xi, ao)) =>
          Some (mkCanAddress xi ao (u32 (systemTime + 100)) (u8 a)
                             (file_address ca) (file_isStatic ca),
                [mkTOKEN 0 0 KeyRequestAddress (u8 a)], None)
      end
    else if IsMatrixTimerExpired systemTime (requestTime ca) then
      Some (mkCanAddress (xorIndex ca) (addressOffset ca) (requestTime ca) 0
                         (proposedAddress ca) (file_isStatic ca),
            [mkTOKEN 0 0 KeyResponseAddressInUse (proposedAddress ca)],
            Some (u32 (systemTime + 1200)))
    else Some (ca, [], None)
  else Some (ca, [], None).

(** ** matrix_config.h, matrix_transmitter.h *)

Definition CAN_FRAME_MAX_NUM_BYTES : Z := 8.
Definition CAN_BROADCAST_ADDRESS : Z := 0.
Definition CAN_TX_STREAM_BUFFER_SIZE : Z := 40.
Definition CAN_TX_STREAM_FIFO_SIZE : Z := 2 * CAN_FRAME_MAX_NUM_BYTES.
Definition MATRIX_MESSAGE_MAX_TOKEN_REPEATS : Z := 32.
Definition MATRIX_MESSAGE_FRAME_TYPE_SINGLE : Z := 0x1C.
Definition MATRIX_MESSAGE_FRAME_TYPE_BODY : Z := 0x1D.
Definition MATRIX_MESSAGE_FRAME_TYPE_LAST : Z := 0x1E.
Definition MATRIX_CAN_ID_FRAME_INDEX_MASK : Z := 0x1F.
Definition MATRIX_MESSAGE_CRC_SIZE : Z := 2.

(** [ECCONET_CAN_FRAME_ID], the bit-field variant: frameIndex:5,
    destinationAddress:7, isEvent:1, reserved:4, sourceAddress:7,
    frameType:5.  A store to a field keeps the field's low bits. *)
Record ECCONET_CAN_FRAME_ID : Type := mkFrameId {
  id_frameIndex : Z;
  id_destinationAddress : Z;
  id_isEvent : Z;
  id_reserved : Z;
  id_sourceAddress : Z;
  id_frameType : Z
}.

Definition set_frameType (ty : Z) (id : ECCONET_CAN_FRAME_ID) : ECCONET_CAN_FRAME_ID :=
  mkFrameId (id_frameIndex id) (id_destinationAddress id) (id_isEvent id)
            (id_reserved id) (id_sourceAddress id) (Z.land ty 0x1F).

Definition set_isEvent (e : Z) (id : ECCONET_CAN_FRAME_ID) : ECCONET_CAN_FRAME_ID :=
  mkFrameId (id_frameIndex id) (id_destinationAddress id) (Z.land e 1)
            (id_reserved id) (id_sourceAddress id) (id_frameType id).

(** [MATRIX_TX_CAN_FRAME].  The C code packs the identifier, the frame
    index and the data size into one [uint32_t id]; here the three parts are
    kept as fields: [tx_id] is the identifier with the frame index or-ed
    into its (otherwise zero) index field. *)
Record MATRIX_TX_CAN_FRAME : Type := mkTxFrame {
  tx_id : ECCONET_CAN_FRAME_ID;
  tx_dataSize : Z;
  tx_data : list Z
}.

(** [MATRIX_TRANSMITTER].  [fifo] holds [fifo[0 .. fifoIndex-1]], so
    [fifoIndex] is its length.  [enqueued] is a history of the frames written
    to the ring [streamBuffer], oldest first; it has no counterpart in C. *)
Record MATRIX_TRANSMITTER : Type := mkTransmitter {
  idAddress : ECCONET_CAN_FRAME_ID;
  fifo : list Z;
  numBytesSent : Z;                 (* uint16_t *)
  crc : Z;                          (* uint16_t *)
  frameIndex : Z;                   (* uint16_t *)
  streamBuffer : list MATRIX_TX_CAN_FRAME;
  streamBufferWriteIndex : Z;       (* uint16_t *)
  streamBufferReadIndex : Z;        (* uint16_t *)
  enqueued : list MATRIX_TX_CAN_FRAME
}.

Definition fifoIndex (tx : MATRIX_TRANSMITTER) : Z := Z.of_nat (length (fifo tx)).

(** Array store [a[i] = x]; nothing is stored outside the array. *)
Fixpoint array_set {A : Type} (a : list A) (i : nat) (x : A) : list A :=
  match a, i with
  | [], _ => []
  | _ :: a', O => x :: a'
  | y :: a', S i' => y :: array_set a' i' x
  end.

(** ** matrix_transmitter.c *)

Definition SendFrame (tx : MATRIX_TRANSMITTER) : Z * MATRIX_TRANSMITTER :=
  let dataSize :=
    u8 (if fifoIndex tx <=? CAN_FRAME_MAX_NUM_BYTES
        then fifoIndex tx else CAN_FRAME_MAX_NUM_BYTES) in
  if 0 =? dataSize then (-1, tx)
  else
    let writeIndex :=
      if streamBufferWriteIndex tx >=? CAN_TX_STREAM_BUFFER_SIZE
      then 0 else streamBufferWriteIndex tx in
    let id := idAddress tx in
    let frame :=
      mkTxFrame
        (mkFrameId (Z.lor (id_frameIndex id) (frameIndex tx))
                   (id_destinationAddress id) (id_isEvent id) (id_reserved id)
                   (id_sourceAddress id) (id_frameType id))
        dataSize
        (firstn (Z.to_nat dataSize) (fifo tx)) in
    (0,
     mkTransmitter
       id
       (skipn (Z.to_nat dataSize) (fifo tx))
       (u16 (numBytesSent tx + dataSize))
       (crc tx)
       (Z.land (frameIndex tx + 1) MATRIX_CAN_ID_FRAME_INDEX_MASK)
       (array_set (streamBuffer tx) (Z.to_nat writeIndex) frame)
       (u16 (writeIndex + 1))
       (streamBufferReadIndex tx)
       (enqueued tx ++ [frame])).

Definition MatrixTransmitter_AddByte (byte : Z) (tx : MATRIX_TRANSMITTER)
  : MATRIX_TRANSMITTER :=
  let byte := u8 byte in
  let tx :=
    mkTransmitter (idAddress tx) (fifo tx ++ [byte]) (numBytesSent tx)
                  (Matrix_AddByteToCRC16 byte (crc tx)) (frameIndex tx)
                  (streamBuffer tx) (streamBufferWriteIndex tx)
                  (streamBufferReadIndex tx) (enqueued tx) in
  if CAN_TX_STREAM_FIFO_SIZE <=? fifoIndex tx then snd (SendFrame tx) else tx.

Definition MatrixTransmitter_AddInt16 (value : Z) (tx : MATRIX_TRANSMITTER)
  : MATRIX_TRANSMITTER :=
  MatrixTransmitter_AddByte value (MatrixTransmitter_AddByte (Z.shiftr value 8) tx).

(** The loop [while (valueSize--) AddByte(value >> (8 * valueSize))]. *)
Fixpoint AddValueBytes (valueSize : nat) (value : Z) (tx : MATRIX_TRANSMITTER)
  : MATRIX_TRANSMITTER :=
  match valueSize with
  | O => tx
  | S n => AddValueBytes n value
             (MatrixTransmitter_AddByte (Z.shiftr value (8 * Z.of_nat n)) tx)
  end.

Definition MatrixTransmitter_AddToken (token : TOKEN) (tx : MATRIX_TRANSMITTER)
  : MATRIX_TRANSMITTER :=
  let tx := MatrixTransmitter_AddByte (Z.shiftr (key token) 8) tx in
  let tx := MatrixTransmitter_AddByte (key token) tx in
  let valueSize :=
    if KeyPrefix_PatternSync =? Key_GetPrefix (key token)
    then 1 else Key_ValueSize (key token) in
  AddValueBytes (Z.to_nat valueSize) (value token) tx.

(** [MatrixTransmitter_StartMessageWithAddressAndKey]; [ownAddress] is
    [Matrix_GetCanAddress()], and the event index is threaded through
    [Matrix_GetEventIndex]. *)
Definition MatrixTransmitter_StartMessageWithAddressAndKey
    (ownAddress eventIndex : Z) (destinationAddress key : Z)
    (tx : MATRIX_TRANSMITTER) : MATRIX_TRANSMITTER * Z :=
  let id :=
    mkFrameId 0 (Z.land destinationAddress 0x7F) 0 0 (Z.land ownAddress 0x7F)
              MATRIX_MESSAGE_FRAME_TYPE_BODY in
  let tx :=
    mkTransmitter id [] 0 0 (frameIndex tx) (streamBuffer tx)
                  (streamBufferWriteIndex tx) (streamBufferReadIndex tx)
                  (enqueued tx) in
  let with_id i :=
    mkTransmitter i (fifo tx) (numBytesSent tx) (crc tx) (frameIndex tx)
                  (streamBuffer tx) (streamBufferWriteIndex tx)
                  (streamBufferReadIndex tx) (enqueued tx) in
  if (key =? KeyRequestAddress) || (key =? KeyResponseAddressInUse) then
    (MatrixTransmitter_AddByte 0 tx, eventIndex)
  else if (KeyPrefix_InputStatus =? Key_GetPrefix key)
          || (KeyPrefix_OutputStatus =? Key_GetPrefix key) then
    let '(e, eventIndex) := Matrix_GetEventIndex eventIndex in
    (MatrixTransmitter_AddByte e (with_id (set_isEvent 1 id)), eventIndex)
  else
    let '(e, eventIndex) := Matrix_GetEventIndex eventIndex in
    (MatrixTransmitter_AddByte e tx, eventIndex).

Definition MatrixTransmitter_StartMessage
    (ownAddress eventIndex : Z) (destinationAddress : Z)
    (tx : MATRIX_TRANSMITTER) : MATRIX_TRANSMITTER * Z :=
  MatrixTransmitter_StartMessageWithAddressAndKey ownAddress eventIndex
    destinationAddress KeyNull tx.

(** The [while (0 != fifoIndex)] loop of [MatrixTransmitter_FinishMessage];
    each pass removes at least one byte, so [fuel] passes bounded by the fifo
    length suffice. *)
Fixpoint FinishMessage_loop (fuel : nat) (isSingleFrame : bool)
    (tx : MATRIX_TRANSMITTER) : Z * MATRIX_TRANSMITTER :=
  match fuel with
  | O => (0, tx)
  | S fuel' =>
      if 0 =? fifoIndex tx then (0, tx)
      else
        let numBytesToSend :=
          u16 (if fifoIndex tx <=? CAN_FRAME_MAX_NUM_BYTES
               then fifoIndex tx else CAN_FRAME_MAX_NUM_BYTES) in
        let tx :=
          if fifoIndex tx =? numBytesToSend then
            mkTransmitter
              (set_frameType (if isSingleFrame
                              then MATRIX_MESSAGE_FRAME_TYPE_SINGLE
                              else MATRIX_MESSAGE_FRAME_TYPE_LAST) (idAddress tx))
              (fifo tx) (numBytesSent tx) (crc tx) (frameIndex tx)
              (streamBuffer tx) (streamBufferWriteIndex tx)
              (streamBufferReadIndex tx) (enqueued tx)
          else tx in
        let '(status, tx) := SendFrame tx in
        if negb (0 =? status) then (status, tx)
        else FinishMessage_loop fuel' isSingleFrame tx
  end.

Definition MatrixTransmitter_FinishMessage (tx : MATRIX_TRANSMITTER)
  : Z * MATRIX_TRANSMITTER :=
  let isSingleFrame := 8 >=? numBytesSent tx + fifoIndex tx in
  let tx :=
    if negb isSingleFrame then
      let crc := crc tx in
      MatrixTransmitter_AddByte crc (MatrixTransmitter_AddByte (Z.shiftr crc 8) tx)
    else tx in
  FinishMessage_loop (S (length (fifo tx))) isSingleFrame tx.

(** ** matrix_time_logic.h *)

Definition MtlFlagsInputBitstate : Z := 0x01.
Definition MtlFlagsSkipToggle : Z := 0x02.
Definition MtlFlagsIsEquationOutput : Z := 0x04.
Definition MtlFlagsShouldBroadcast : Z := 0x08.
Definition MtlFlagsTokenReceived : Z := 0x10.

Record MTL_TOKEN : Type := mkMtlToken {
  token : TOKEN;
  timestamp : Z;        (* uint16_t *)
  mappedTokenKey : Z    (* uint16_t *)
}.

(** [t->token.key], [t->token.value], [t->token.flags] *)
Definition token_key (t : MTL_TOKEN) : Z := key (token t).
Definition token_value (t : MTL_TOKEN) : Z := value (token t).
Definition token_flags (t : MTL_TOKEN) : Z := flags (token t).

(** ** matrix_codec.c

    A pointer into the token array is the list of tokens from the pointer to
    [lastToken]; a byte sink is the list of bytes in call order; a token sink
    is the list of tokens in call order. *)

(** [token->token.flags & MtlFlagsShouldBroadcast] *)
Definition should_broadcast (t : MTL_TOKEN) : bool :=
  negb (Z.land (token_flags t) MtlFlagsShouldBroadcast =? 0).

(** Reading through a token pointer; past the array the content is
    unspecified (a zero token here), which no path below relies on. *)
Definition deref (p : list MTL_TOKEN) : MTL_TOKEN :=
  hd (mkMtlToken (mkTOKEN 0 0 0 0) 0 0) p.

(** [do ++p; while ((p < lastToken) && !(p->token.flags & MtlFlagsShouldBroadcast));] *)
Fixpoint skip_unflagged (p : list MTL_TOKEN) : list MTL_TOKEN :=
  match p with
  | [] => []
  | t :: p' => if should_broadcast t then p else skip_unflagged p'
  end.

Definition next_status_token (p : list MTL_TOKEN) : list MTL_TOKEN :=
  skip_unflagged (tl p).

Definition OutputTokenKey (key : Z) : list Z :=
  [u8 (Z.shiftr key 8); u8 key].

(** [while (valueSize--) byteSink(value >> (8 * valueSize));] *)
Fixpoint output_value_bytes (valueSize : nat) (value : Z) : list Z :=
  match valueSize with
  | O => []
  | S n => u8 (Z.shiftr value (8 * Z.of_nat n)) :: output_value_bytes n value
  end.

(** The value parameter is a [uint32_t]. *)
Definition OutputTokenValue (value valueSize : Z) : list Z :=
  output_value_bytes (Z.to_nat valueSize) (u32 value).

Definition OutputToken (t : MTL_TOKEN) : list Z :=
  [u8 (Z.shiftr (token_key t) 8); u8 (token_key t)]
  ++ output_value_bytes (Z.to_nat (Key_ValueSize (token_key t))) (token_value t).

(** The series search [while (numAnalogRepeats < MAX - 1)] of
    [MatrixCodec_Compress]; returns [(numAnalogRepeats, numBinaryRepeats,
    value)].  Every pass bumps [numAnalogRepeats], so 31 passes suffice. *)
Fixpoint find_series (fuel : nat) (valueSize : Z)
    (numAnalogRepeats numBinaryRepeats value key : Z)
    (compareToken : list MTL_TOKEN) : Z * Z * Z :=
  match fuel with
  | O => (numAnalogRepeats, numBinaryRepeats, value)
  | S fuel' =>
      if numAnalogRepeats <? MATRIX_MESSAGE_MAX_TOKEN_REPEATS - 1 then
        let compareToken := next_status_token compareToken in
        match compareToken with
        | [] => (numAnalogRepeats, numBinaryRepeats, value)
        | c :: _ =>
            if negb (token_key c =? key)
               || negb (Key_ValueSize (token_key c) =? valueSize)
            then (numAnalogRepeats, numBinaryRepeats, value)
            else
              let value :=
                if (0 =? value) && negb (0 =? token_value c)
                then token_value c else value in
              let numBinaryRepeats :=
                if (0 =? token_value c) || (token_value c =? value)
                then numBinaryRepeats + 1
                else MATRIX_MESSAGE_MAX_TOKEN_REPEATS in
              find_series fuel' valueSize (numAnalogRepeats + 1) numBinaryRepeats
                          value (key + 1) compareToken
        end
      else (numAnalogRepeats, numBinaryRepeats, value)
  end.

(** The bitmap loop [while (numBinaryRepeats--)] and the closing
    [if (bit) byteSink(byte)]; returns the bytes and the advanced token
    pointer. *)
Fixpoint binary_bitmap (numBinaryRepeats : nat) (bit byte : Z)
    (token : list MTL_TOKEN) : list Z * list MTL_TOKEN :=
  match numBinaryRepeats with
  | O => (if bit =? 0 then [] else [byte], token)
  | S n =>
      let byte :=
        if negb (0 =? token_value (deref token))
        then u8 (Z.lor byte (Z.shiftl 1 bit)) else byte in
      let bit := bit + 1 in
      if bit >=? 8 then
        let '(bytes, token') := binary_bitmap n 0 0 (next_status_token token) in
        (byte :: bytes, token')
      else binary_bitmap n bit byte (next_status_token token)
  end.

(** The loop [while (numAnalogRepeats--)] over the values of the series. *)
Fixpoint analog_values (numAnalogRepeats : nat) (valueSize : Z)
    (token : list MTL_TOKEN) : list Z * list MTL_TOKEN :=
  match numAnalogRepeats with
  | O => ([], token)
  | S n =>
      let bytes := OutputTokenValue (token_value (deref token)) valueSize in
      let '(more, token') := analog_values n valueSize (next_status_token token) in
      (bytes ++ more, token')
  end.

(** One pass of the loop [while (token < lastToken)]: the bytes sent to the
    sink and the advanced token pointer. *)
Definition Compress_step (t : MTL_TOKEN) (rest : list MTL_TOKEN)
  : list Z * list MTL_TOKEN :=
  let token := t :: rest in
  if negb (should_broadcast t) then ([], rest)
  else
    let valueSize := Key_ValueSize (token_key t) in
    if 0 =? valueSize then (OutputToken t, rest)
    else
      let '(numAnalogRepeats, numBinaryRepeats, value) :=
        find_series 31 valueSize 0 0 (token_value t) (token_key t + 1) token in
      if negb (numBinaryRepeats =? 0)
         && (numBinaryRepeats <? MATRIX_MESSAGE_MAX_TOKEN_REPEATS) then
        let header :=
          [u8 (Z.lor numBinaryRepeats KeyPrefix_BinaryRepeat)]
          ++ OutputTokenKey (token_key t)
          ++ OutputTokenValue value valueSize in
        let '(bitmap, token') :=
          binary_bitmap (Z.to_nat (numBinaryRepeats + 1)) 0 0 token in
        (header ++ bitmap, token')
      else if negb (numAnalogRepeats =? 0) then
        let header :=
          [u8 (Z.lor numAnalogRepeats KeyPrefix_AnalogRepeat)] ++ OutputToken t in
        let '(values, token') :=
          analog_values (Z.to_nat numAnalogRepeats) valueSize
                        (next_status_token token) in
        (header ++ values, token')
      else (OutputToken t, rest).

Fixpoint Compress_loop (fuel : nat) (token : list MTL_TOKEN) : list Z :=
  match fuel, token with
  | O, _ => []
  | _, [] => []
  | S fuel', t :: rest =>
      let '(bytes, token') := Compress_step t rest in
      bytes ++ Compress_loop fuel' token'
  end.

(** [MatrixCodec_Compress]: the status and the bytes sent to the sink.  Every
    pass advances the pointer, so one pass per token suffices. *)
Definition MatrixCodec_Compress (tokens : list MTL_TOKEN) : Z * list Z :=
  match tokens with
  | [] => (-1, [])
  | _ => (0, Compress_loop (length tokens) tokens)
  end.

(** [CheckStreamPointer(); x = **byte; ++*byte;] *)
Definition read_byte (bytes : list Z) : option (Z * list Z) :=
  match bytes with
  | [] => None
  | b :: bytes' => Some (b, bytes')
  end.

(** The loop [for (n = 0; n < valueSize; ++n)] that shifts value bytes in;
    [wrap] is the width of the accumulator ([int32_t token.value] or
    [uint32_t value]). *)
Fixpoint read_value (wrap : Z -> Z) (valueSize : nat) (acc : Z) (bytes : list Z)
  : option (Z * list Z) :=
  match valueSize with
  | O => Some (acc, bytes)
  | S n =>
      match read_byte bytes with
      | None => None
      | Some (b, bytes') =>
          read_value wrap n (wrap (Z.lor (wrap (Z.shiftl acc 8)) b)) bytes'
      end
  end.

(** The analog series loop [while (numRepeats--)]; the result is
    [(ok, tokens sent to the sink, stream pointer)].  [MatrixCodec_Decompress]
    leaves [token.flags] unset; 0 stands for it.  Where a value is cut short
    by the end of the data, the bytes of the value that were there have been
    consumed one by one: [CheckStreamPointer] returns with the pointer at
    [lastByte]. *)
Fixpoint decompress_analog (numRepeats : nat) (valueSize : nat) (key address : Z)
    (bytes : list Z) : bool * list TOKEN * list Z :=
  match numRepeats with
  | O => (true, [], bytes)
  | S n =>
      match read_value i32 valueSize 0 bytes with
      | None => (false, [], [])
      | Some (v, bytes') =>
          let '(ok, tokens, rest) :=
            decompress_analog n valueSize (u16 (key + 1)) address bytes' in
          (ok, mkTOKEN 0 address key v :: tokens, rest)
      end
  end.

(** The binary series loop [while (numRepeats--)]. *)
Fixpoint decompress_binary (numRepeats : nat) (bitIndex bitFlags : Z)
    (key value address : Z) (bytes : list Z) : bool * list TOKEN * list Z :=
  match numRepeats with
  | O => (true, [], bytes)
  | S n =>
      let bitFlags := Z.shiftr bitFlags 1 in
      let bitIndex := u16 (bitIndex + 1) in
      let emit bitIndex bitFlags bytes :=
        let '(ok, tokens, rest) :=
          decompress_binary n bitIndex bitFlags (u16 (key + 1)) value address bytes in
        (ok,
         mkTOKEN 0 address key
                 (if negb (Z.land bitFlags 1 =? 0) then i32 value else 0)
         :: tokens,
         rest) in
      if bitIndex >=? 8 then
        match read_byte bytes with
        | None => (false, [], bytes)
        | Some (b, bytes') => emit 0 b bytes'
        end
      else emit bitIndex bitFlags bytes
  end.

(** One pass of the loop [while ( *byte < lastByte)]:
    [(Some status, tokens, pointer)] when the function returns in this pass,
    [(None, tokens, pointer)] when the loop goes on.  Every [return -1] of
    [CheckStreamPointer] happens with the pointer at [lastByte], also inside
    a value, whose bytes are consumed one by one. *)
Definition Decompress_step (address : Z) (b : Z) (bytes' : list Z)
  : option Z * list TOKEN * list Z :=
  let bytes := b :: bytes' in
  let tokenType := Z.land b KeyPrefix_Mask in
  if KeyPrefix_AnalogRepeat <? tokenType then (Some 0, [], bytes)
  else
    let isRepeat :=
      (KeyPrefix_BinaryRepeat =? tokenType) || (KeyPrefix_AnalogRepeat =? tokenType) in
    let numRepeats :=
      Z.land b (MATRIX_MESSAGE_MAX_TOKEN_REPEATS - 1) + 1 in
    let bytes := if isRepeat then bytes' else bytes in
    match read_byte bytes with
    | None => (Some (-1), [], bytes)
    | Some (k1, bytes) =>
        match read_byte bytes with
        | None => (Some (-1), [], bytes)
        | Some (k2, bytes) =>
            let key := u16 (Z.lor (u16 (Z.shiftl k1 8)) k2) in
            let valueSize := Z.to_nat (Key_ValueSize key) in
            if tokenType =? KeyPrefix_AnalogRepeat then
              let '(ok, tokens, rest) :=
                decompress_analog (Z.to_nat numRepeats) valueSize key address bytes in
              (if ok then None else Some (-1), tokens, rest)
            else if tokenType =? KeyPrefix_BinaryRepeat then
              match read_value u32 valueSize 0 bytes with
              | None => (Some (-1), [], [])
              | Some (value, bytes) =>
                  let '(ok, tokens, rest) :=
                    decompress_binary (Z.to_nat numRepeats) 8 0 key value address bytes in
                  (if ok then None else Some (-1), tokens, rest)
              end
            else
              match read_value i32 valueSize 0 bytes with
              | None => (Some (-1), [], [])
              | Some (v, bytes) => (None, [mkTOKEN 0 address key v], bytes)
              end
        end
    end.

Fixpoint Decompress_loop (fuel : nat) (address : Z) (bytes : list Z)
  : Z * list TOKEN * list Z :=
  match fuel, bytes with
  | O, _ => (0, [], bytes)
  | _, [] => (0, [], [])
  | S fuel', b :: bytes' =>
      match Decompress_step address b bytes' with
      | (Some status, tokens, rest) => (status, tokens, rest)
      | (None, tokens, rest) =>
          let '(status, more, rest') := Decompress_loop fuel' address rest in
          (status, tokens ++ more, rest')
      end
  end.

(** [MatrixCodec_Decompress] on the [numBytes] bytes at [*byte]: the status,
    the tokens sent to the sink, and the bytes from the final [*byte] on.
    Every pass that goes on consumes at least two bytes. *)
Definition MatrixCodec_Decompress (bytes : list Z) (address : Z)
  : Z * list TOKEN * list Z :=
  match bytes with
  | [] => (-1, [], [])
  | _ => Decompress_loop (length bytes) address bytes
  end.

(** ** matrix_receiver.h, matrix_receiver.c *)

Definition MR_FRAME_FLAG_NONE : Z := 0.
Definition MR_FRAME_FLAG_SINGLE : Z := 1.
Definition MR_FRAME_FLAG_BODY : Z := 2.
Definition MR_FRAME_FLAG_LAST : Z := 3.

(** [MATRIX_RX_CAN_FRAME]; all scalar fields are [uint32_t], [rx_data] is
    the eight-byte array [data]. *)
Record MATRIX_RX_CAN_FRAME : Type := mkRxFrame {
  senderAddress : Z;
  rx_frameIndex : Z;
  frameFlags : Z;
  rx_isEvent : Z;
  rx_dataSize : Z;
  timeStamp : Z;
  rx_data : list Z
}.

(** The eight bytes of the [data] array. *)
Definition data8 (f : MATRIX_RX_CAN_FRAME) : list Z :=
  firstn 8 (rx_data f ++ repeat 0 8%nat).

(** The search for the next message: the loop
    [while (nextMessageFrame < lastFrame)] of [ProcessMessagesInStream],
    started at [messageFrame].  Returns [numMessageFrames],
    [numMessageBytes], the frames passed over, the new [nextMessageFrame]
    and [isCompleteMessage]. *)
Fixpoint next_message (sender frameIndex numMessageFrames numMessageBytes : Z)
    (passed nextMessageFrame : list MATRIX_RX_CAN_FRAME)
  : Z * Z * list MATRIX_RX_CAN_FRAME * list MATRIX_RX_CAN_FRAME * bool :=
  match nextMessageFrame with
  | [] => (numMessageFrames, numMessageBytes, passed, [], false)
  | f :: rest =>
      if negb (frameIndex =? rx_frameIndex f) || negb (senderAddress f =? sender)
      then (numMessageFrames, numMessageBytes, passed, nextMessageFrame, false)
      else if MR_FRAME_FLAG_SINGLE =? frameFlags f
      then (1, u16 (rx_dataSize f), passed ++ [f], rest, true)
      else
        let numMessageFrames := u16 (numMessageFrames + 1) in
        let numMessageBytes := u16 (numMessageBytes + rx_dataSize f) in
        if MR_FRAME_FLAG_LAST =? frameFlags f
        then (numMessageFrames, numMessageBytes, passed ++ [f], rest,
              numMessageFrames >? 1)
        else next_message sender
               (Z.land (frameIndex + 1) MATRIX_CAN_ID_FRAME_INDEX_MASK)
               numMessageFrames numMessageBytes (passed ++ [f]) rest
  end.

(** What the receiver hands on, and to whom. *)
Inductive DISPATCH : Type :=
| ReceiveCanToken (t : TOKEN)
    (* Matrix_PrivateReceiveCanToken(&token), the pattern sync token *)
| FTPClient_ServerResponseIn (sender key : Z) (body : list Z)
| FTPServer_ClientRequestIn (sender key : Z) (body : list Z)
| Codec_Decompress (sender : Z) (bytes : list Z).
    (* MatrixCodec_Decompress(&frameData, numMessageBytes, sender,
       &Matrix_PrivateReceiveCanToken) *)

(** A hand-over together with the message it was taken from: the number of
    frames, the byte count as summed from the frames (CRC included) and the
    concatenated frame data at [messageFrame->data]. *)
Record DELIVERY : Type := mkDelivery {
  delivered : DISPATCH;
  numMessageFrames : Z;
  numMessageBytes : Z;
  messageData : list Z
}.

(** The body of [if (isCompleteMessage)] up to the erasure of the message:
    [None] where the checksum test has no defined result, else the event
    index after [Matrix_NewEventIndex] and the hand-over, if any. *)
Definition process_message (eventIndex : Z) (messageFrame : MATRIX_RX_CAN_FRAME)
    (frames : list MATRIX_RX_CAN_FRAME) (numFrames numBytes : Z)
  : option (Z * option DELIVERY) :=
  let frameData := concat (map data8 frames) in
  let deliver d := Some (mkDelivery d numFrames numBytes frameData) in
  let valid :=
    if numFrames =? 1 then Some true
    else Matrix_IsMessageChecksumValid frameData (Z.to_nat numBytes) in
  match valid with
  | None => None
  | Some false => Some (eventIndex, None)
  | Some true =>
      let numMessageBytes :=
        if CAN_FRAME_MAX_NUM_BYTES <? numBytes
        then u16 (numBytes - MATRIX_MESSAGE_CRC_SIZE) else numBytes in
      if 3 <=? numMessageBytes then
        let byte1 := nth 1 frameData 0 in
        let byte2 := nth 2 frameData 0 in
        let key :=
          u16 (Z.lor (Z.shiftl (u16 (Z.land byte1 (Z.lnot KeyPrefix_Mask))) 8) byte2) in
        let body :=
          firstn (Z.to_nat (numMessageBytes - 3)) (skipn 3 frameData) in
        if KeyPrefix_PatternSync =? Z.land byte1 KeyPrefix_Mask then
          Some (eventIndex,
                deliver (ReceiveCanToken
                           (mkTOKEN 0 (u8 (senderAddress messageFrame))
                                    KeyTokenSequencerSync key)))
        else if Key_IsFtpResponse key then
          Some (eventIndex,
                deliver (FTPClient_ServerResponseIn
                           (u8 (senderAddress messageFrame)) key body))
        else if Key_IsFtpRequest key then
          Some (eventIndex,
                deliver (FTPServer_ClientRequestIn
                           (u8 (senderAddress messageFrame)) key body))
        else
          let byte0 := nth 0 frameData 0 in
          let eventIndex := Matrix_NewEventIndex byte0 eventIndex in
          let isCommand :=
            (0 =? Z.land byte1 KeyPrefix_Mask)
            && (numMessageBytes =? 3 + Key_ValueSize key) in
          if negb (rx_isEvent messageFrame =? 0) || isCommand
             || negb (Matrix_IsEventIndexExpired byte0 eventIndex)
          then
            Some (eventIndex,
                  deliver (Codec_Decompress
                             (u8 (senderAddress messageFrame))
                             (firstn (Z.to_nat (u16 (numMessageBytes - 1)))
                                     (skipn 1 frameData))))
          else Some (eventIndex, None)
      else Some (eventIndex, None)
  end.

(** [ProcessMessagesInStream] on the stream buffer as [SortNewFrames] leaves
    it: the walk [while (messageFrame < lastFrame)].  A pass only reads
    frames at or after [messageFrame], which the erasure of earlier messages
    does not touch.  [downstream d e] is the event index after the consumer
    of [d] has run (it may send tokens and so bump the index).  Every pass
    moves on by at least one frame. *)
Fixpoint ProcessMessagesInStream (downstream : DISPATCH -> Z -> Z) (fuel : nat)
    (eventIndex : Z) (messageFrame : list MATRIX_RX_CAN_FRAME)
  : option (Z * list DELIVERY) :=
  match fuel, messageFrame with
  | O, _ => Some (eventIndex, [])
  | _, [] => Some (eventIndex, [])
  | S fuel', m :: rest =>
      if MR_FRAME_FLAG_NONE =? frameFlags m
      then ProcessMessagesInStream downstream fuel' eventIndex rest
      else
        let '(numFrames, numBytes, frames, nextMessageFrame, isCompleteMessage) :=
          next_message (senderAddress m) (rx_frameIndex m) 0 0 [] messageFrame in
        if isCompleteMessage then
          match process_message eventIndex m frames numFrames numBytes with
          | None => None
          | Some (eventIndex, None) =>
              ProcessMessagesInStream downstream fuel' eventIndex nextMessageFrame
          | Some (eventIndex, Some d) =>
              match ProcessMessagesInStream downstream fuel'
                      (downstream (delivered d) eventIndex) nextMessageFrame with
              | None => None
              | Some (eventIndex, ds) => Some (eventIndex, d :: ds)
              end
          end
        else ProcessMessagesInStream downstream fuel' eventIndex nextMessageFrame
  end.

(** ** matrix.c *)

(** The global objects used by the send path: [Matrix] (its two timers),
    [MatrixEventIndex], [MatrixCanAddress] and [MatrixTransmitter]. *)
Record MATRIX_STATE : Type := mkState {
  systemTime : Z;            (* uint32_t *)
  nextStatusTime : Z;        (* uint32_t *)
  MatrixEventIndex : Z;      (* uint16_t *)
  MatrixCanAddress : MATRIX_CAN_ADDRESS_OBJECT;
  MatrixTransmitter : MATRIX_TRANSMITTER
}.

Definition Matrix_DelayStatusUpdate15mS (m : MATRIX_STATE) : MATRIX_STATE :=
  if 15 >? i32 (nextStatusTime m - systemTime m)
  then mkState (systemTime m) (u32 (nextStatusTime m + 15)) (MatrixEventIndex m)
               (MatrixCanAddress m) (MatrixTransmitter m)
  else m.

(** One pass of the [for] body of [Matrix_PrivateSendCanToken]. *)
Definition send_token_once (token : TOKEN) (m : MATRIX_STATE) : MATRIX_STATE :=
  let '(tx, ei) :=
    MatrixTransmitter_StartMessageWithAddressAndKey
      (Matrix_GetCanAddress (MatrixCanAddress m)) (MatrixEventIndex m)
      (address token) (key token) (MatrixTransmitter m) in
  let tx := MatrixTransmitter_AddToken token tx in
  let tx := snd (MatrixTransmitter_FinishMessage tx) in
  mkState (systemTime m) (nextStatusTime m) ei (MatrixCanAddress m) tx.

Fixpoint send_token_times (n : nat) (token : TOKEN) (m : MATRIX_STATE) : MATRIX_STATE :=
  match n with
  | O => m
  | S n' => send_token_times n' token (send_token_once token m)
  end.

Definition Matrix_PrivateSendCanToken (token : TOKEN) (m : MATRIX_STATE)
  : Z * MATRIX_STATE :=
  if negb (Matrix_IsCanAddressValid (MatrixCanAddress m))
     && negb (key token =? KeyRequestAddress)
  then (-1, m)
  else
    let isInputEvent := KeyPrefix_InputStatus =? Key_GetPrefix (key token) in
    let m :=
      if isInputEvent then
        Matrix_DelayStatusUpdate15mS
          (mkState (systemTime m) (nextStatusTime m)
                   (Matrix_NextEventIndex (MatrixEventIndex m))
                   (MatrixCanAddress m) (MatrixTransmitter m))
      else m in
    (0, send_token_times (if isInputEvent then 3 else 1) token m).

(** ** matrix_patterns.h, matrix_lib_interface.h, matrix_token_sequencer.h *)

Definition Pattern_Stop : Z := 0.
Definition PatternEnumPrefixMask : Z := 0xE0.
Definition MATRIX_TOKEN_PATTERN_FILE_KEY : Z := 0x4865433B.
Definition MATRIX_EQUATION_PROCESSOR_NETWORK_ADDRESS : Z := 132.
Definition MATRIX_TOKEN_SEQUENCER_0_NETWORK_ADDRESS : Z := 133.
Definition MATRIX_TOKEN_SEQUENCER_5_NETWORK_ADDRESS : Z := 138.
Definition MTS_NUM_TOKEN_SEQUENCERS : Z := 6.
Definition SYNC_RANGE_NONE : Z := 0.
Definition SYNC_RANGE_EXACT : Z := 8192.

Definition KeyTokenSequencerIntensity : Z := Region_Base__Named_Misc_One_Byte + 3.
Definition KeyIndexedTokenSequencerWithPattern : Z := Region_Base__Named_Four_Byte.
Definition KeyTokenSequencerSyncRange : Z := Region_Base__Named_Four_Byte + 7.
Definition KeyIndexedSequencer : Z := Region_Base__Indexed_Sequencer_Three_Byte.

(** A [uint8_t *] into the pattern file is an offset into [patternData];
    [None] is the NULL pointer. *)
Record MATRIX_TOKEN_PATTERN : Type := mkPattern {
  patternPosition : option Z;
  firstStepPosition : option Z;
  currentPosition : option Z;
  repeatedSectionPosition : option Z;
  patternCounter : Z;            (* uint8_t *)
  repeatedSectionCounter : Z     (* uint8_t *)
}.

Record MATRIX_TOKEN_SEQUENCER : Type := mkSequencer {
  outputIntensity : Z;           (* uint16_t *)
  patternStackIndex : Z;         (* int16_t *)
  stepTime : Z;                  (* uint32_t *)
  patternStack : list MATRIX_TOKEN_PATTERN;   (* MTS_PATTERN_STACK_SIZE entries *)
  syncRangeBottom : Z;           (* uint16_t *)
  syncRangeTop : Z;              (* uint16_t *)
  commonKey : Z;                 (* uint16_t *)
  syncEnable : Z                 (* uint16_t *)
}.

Record MATRIX_TOKEN_SEQUENCER_CONTROLLER : Type := mkController {
  Sequencers : list MATRIX_TOKEN_SEQUENCER;   (* MTS_NUM_TOKEN_SEQUENCERS entries *)
  patternData : option (list Z);
  patternDataSize : Z            (* uint32_t *)
}.

(** The library's global objects taken together.  [tokenCallback] records
    the tokens handed to [Matrix.appInterface->tokenCallback], newest first;
    [appInterface] tells whether that callback is registered. *)
Record MATRIX_LIB : Type := mkLib {
  Matrix : MATRIX_STATE;
  TokenSequencerController : MATRIX_TOKEN_SEQUENCER_CONTROLLER;
  MatrixTimeLogic_TokenTable : list MTL_TOKEN;
  appInterface : bool;
  tokenCallback : list TOKEN
}.

Definition set_Matrix (m : MATRIX_STATE) (lib : MATRIX_LIB) : MATRIX_LIB :=
  mkLib m (TokenSequencerController lib) (MatrixTimeLogic_TokenTable lib)
        (appInterface lib) (tokenCallback lib).

Definition set_TokenTable (table : list MTL_TOKEN) (lib : MATRIX_LIB) : MATRIX_LIB :=
  mkLib (Matrix lib) (TokenSequencerController lib) table
        (appInterface lib) (tokenCallback lib).

Definition call_tokenCallback (token : TOKEN) (lib : MATRIX_LIB) : MATRIX_LIB :=
  mkLib (Matrix lib) (TokenSequencerController lib) (MatrixTimeLogic_TokenTable lib)
        (appInterface lib) (token :: tokenCallback lib).

(** ** matrix_token_sequencer.c *)

Definition null_pattern : MATRIX_TOKEN_PATTERN := mkPattern None None None None 0 0.
Definition null_sequencer : MATRIX_TOKEN_SEQUENCER := mkSequencer 0 0 0 [] 0 0 0 0.

(** [&TokenSequencerController.Sequencers[sequencerIndex]], read and written. *)
Definition sequencer (sequencerIndex : Z) (lib : MATRIX_LIB) : MATRIX_TOKEN_SEQUENCER :=
  nth (Z.to_nat sequencerIndex) (Sequencers (TokenSequencerController lib)) null_sequencer.

Definition set_sequencer (sequencerIndex : Z) (ts : MATRIX_TOKEN_SEQUENCER)
    (lib : MATRIX_LIB) : MATRIX_LIB :=
  let c := TokenSequencerController lib in
  mkLib (Matrix lib)
        (mkController (array_set (Sequencers c) (Z.to_nat sequencerIndex) ts)
                      (patternData c) (patternDataSize c))
        (MatrixTimeLogic_TokenTable lib) (appInterface lib) (tokenCallback lib).

Definition pattern_byte (c : MATRIX_TOKEN_SEQUENCER_CONTROLLER) (p : Z) : Z :=
  match patternData c with
  | Some d => nth (Z.to_nat p) d 0
  | None => 0
  end.

Definition IsPatternFilePointerValid (c : MATRIX_TOKEN_SEQUENCER_CONTROLLER) : bool :=
  match patternData c with
  | None => false
  | Some _ =>
      negb (0 =? patternDataSize c)
      && (MATRIX_TOKEN_PATTERN_FILE_KEY
          =? pattern_byte c 0 + Z.shiftl (pattern_byte c 1) 8
             + Z.shiftl (pattern_byte c 2) 16 + Z.shiftl (pattern_byte c 3) 24)
  end.

Definition GetRootPatternEnum (c : MATRIX_TOKEN_SEQUENCER_CONTROLLER)
    (ts : MATRIX_TOKEN_SEQUENCER) : Z :=
  if 0 >? patternStackIndex ts then Pattern_Stop
  else
    match patternPosition (nth 0 (patternStack ts) null_pattern) with
    | None => Pattern_Stop
    | Some p =>
        u16 (Z.lor
               (Z.shiftl (u16 (Z.land (pattern_byte c (p + 1))
                                      (Z.lnot PatternEnumPrefixMask))) 8)
               (pattern_byte c (p + 2)))
    end.

Definition set_outputIntensity (v : Z) (ts : MATRIX_TOKEN_SEQUENCER) : MATRIX_TOKEN_SEQUENCER :=
  mkSequencer v (patternStackIndex ts) (stepTime ts) (patternStack ts)
              (syncRangeBottom ts) (syncRangeTop ts) (commonKey ts) (syncEnable ts).

Definition set_syncRange (bottom top : Z) (ts : MATRIX_TOKEN_SEQUENCER) : MATRIX_TOKEN_SEQUENCER :=
  mkSequencer (outputIntensity ts) (patternStackIndex ts) (stepTime ts) (patternStack ts)
              bottom top (commonKey ts) (syncEnable ts).

(** The three assignments under [//	restart root pattern]. *)
Definition restart_root (time : Z) (ts : MATRIX_TOKEN_SEQUENCER) : MATRIX_TOKEN_SEQUENCER :=
  let p0 := nth 0 (patternStack ts) null_pattern in
  mkSequencer (outputIntensity ts) 0 time
    (array_set (patternStack ts) 0
       (mkPattern (patternPosition p0) (firstStepPosition p0) (firstStepPosition p0)
                  (repeatedSectionPosition p0) (patternCounter p0)
                  (repeatedSectionCounter p0)))
    (syncRangeBottom ts) (syncRangeTop ts) (commonKey ts) (syncEnable ts).

(** [for (sequencerIndex = 0; sequencerIndex < MTS_NUM_TOKEN_SEQUENCERS; ++sequencerIndex)] *)
Definition sequencer_indices : list Z := [0; 1; 2; 3; 4; 5].

Section TokenSequencer.

(** The pattern interpreter proper ([NextStep], [Start], [Stop]) walks the
    pattern file and emits the step tokens; the token handler below only
    calls it, so it is a parameter here. *)
Variable NextStep : Z -> MATRIX_LIB -> MATRIX_LIB.
Variable Start : Z -> Z -> Z -> bool -> MATRIX_LIB -> MATRIX_LIB.
Variable Stop : Z -> MATRIX_LIB -> MATRIX_LIB.

(** Stopping or starting the pattern [patternEnum] on a sequencer, shared
    by the indexed-sequencer branch and [case KeyTokenSequencerPattern]. *)
Definition stop_or_start (sequencerIndex patternEnum : Z) (lib : MATRIX_LIB) : MATRIX_LIB :=
  if Pattern_Stop =? patternEnum then Stop sequencerIndex lib
  else if IsPatternFilePointerValid (TokenSequencerController lib) then
    if negb (GetRootPatternEnum (TokenSequencerController lib)
               (sequencer sequencerIndex lib) =? patternEnum)
    then Start sequencerIndex patternEnum 0 true (Stop sequencerIndex lib)
    else lib
  else lib.

(** [case KeyTokenSequencerSyncRange] *)
Definition TokenIn_SyncRange (token : TOKEN) (lib : MATRIX_LIB) : MATRIX_LIB :=
  let sequencerIndex := u16 (address token - MATRIX_TOKEN_SEQUENCER_0_NETWORK_ADDRESS) in
  if MTS_NUM_TOKEN_SEQUENCERS <=? sequencerIndex then lib
  else set_sequencer sequencerIndex
         (set_syncRange (u16 (Z.land (value token) 0xffff))
                        (u16 (Z.shiftr (value token) 16))
                        (sequencer sequencerIndex lib)) lib.

(** The body of the loop over the sequencers in [case KeyTokenSequencerSync];
    [value] is [tk.value] with the enumeration prefix stripped. *)
Definition sync_sequencer (token : TOKEN) (value : Z) (lib : MATRIX_LIB)
    (sequencerIndex : Z) : MATRIX_LIB :=
  let ts := sequencer sequencerIndex lib in
  if (0 <=? patternStackIndex ts)
     && (MATRIX_TOKEN_SEQUENCER_0_NETWORK_ADDRESS + sequencerIndex >? address token)
  then
    if negb (SYNC_RANGE_NONE =? syncRangeTop ts) then
      if ((value >=? syncRangeBottom ts) && (value <=? syncRangeTop ts))
         || ((SYNC_RANGE_EXACT =? syncRangeBottom ts)
             && (value =? GetRootPatternEnum (TokenSequencerController lib) ts))
      then
        NextStep sequencerIndex
          (set_sequencer sequencerIndex
             (restart_root (systemTime (Matrix lib)) ts) lib)
      else lib
    else lib
  else lib.

Definition sync_sequencers (token : TOKEN) (value : Z) (indices : list Z)
    (lib : MATRIX_LIB) : MATRIX_LIB :=
  fold_left (sync_sequencer token value) indices lib.

(** [case KeyTokenSequencerSync] *)
Definition TokenIn_Sync (token : TOKEN) (lib : MATRIX_LIB) : MATRIX_LIB :=
  if address token <=? Matrix_GetCanAddress (MatrixCanAddress (Matrix lib)) then lib
  else
    sync_sequencers token
      (Z.land (value token) (Z.lnot (Z.shiftl PatternEnumPrefixMask 8)))
      sequencer_indices lib.

(** [case KeyTokenSequencerPattern] *)
Definition TokenIn_Pattern (token : TOKEN) (lib : MATRIX_LIB) : MATRIX_LIB :=
  let sequencerIndex := u16 (address token - MATRIX_TOKEN_SEQUENCER_0_NETWORK_ADDRESS) in
  if MTS_NUM_TOKEN_SEQUENCERS <=? sequencerIndex then lib
  else stop_or_start sequencerIndex (Z.land (value token) 0xffff) lib.

(** [case KeyTokenSequencerIntensity] *)
Definition TokenIn_Intensity (token : TOKEN) (lib : MATRIX_LIB) : MATRIX_LIB :=
  let sequencerIndex := u16 (address token - MATRIX_TOKEN_SEQUENCER_0_NETWORK_ADDRESS) in
  if MTS_NUM_TOKEN_SEQUENCERS <=? sequencerIndex then lib
  else set_sequencer sequencerIndex
         (set_outputIntensity (u16 (value token)) (sequencer sequencerIndex lib)) lib.

(** [case KeyIndexedTokenSequencerWithPattern]: the two recursive calls
    carry the keys [KeyTokenSequencerIntensity] and
    [KeyTokenSequencerPattern], so they land in those two cases. *)
Definition TokenIn_WithPattern (token : TOKEN) (lib : MATRIX_LIB) : MATRIX_LIB :=
  let a := u8 (Z.land (value token) 0xff + MATRIX_TOKEN_SEQUENCER_0_NETWORK_ADDRESS) in
  let lib :=
    TokenIn_Intensity
      (mkTOKEN 0 a KeyTokenSequencerIntensity (Z.land (Z.shiftr (value token) 8) 0xff))
      lib in
  TokenIn_Pattern
    (mkTOKEN 0 a KeyTokenSequencerPattern (Z.shiftr (value token) 16)) lib.

Definition MatrixTokenSequencerController_TokenIn (token : TOKEN) (lib : MATRIX_LIB)
  : MATRIX_LIB :=
  let k := Key_WithoutPrefix (key token) in
  if (KeyIndexedSequencer <=? k)
     && (KeyIndexedSequencer + Region_Size__Indexed_Sequencer_Three_Byte >? k)
  then
    let sequencerIndex := u16 (k - KeyIndexedSequencer) in
    if MTS_NUM_TOKEN_SEQUENCERS >? sequencerIndex then
      let lib :=
        set_sequencer sequencerIndex
          (set_outputIntensity (Z.land (Z.shiftr (value token) 16) 0xff)
             (sequencer sequencerIndex lib)) lib in
      stop_or_start sequencerIndex (Z.land (value token) 0xffff) lib
    else lib
  else if k =? KeyTokenSequencerSyncRange then TokenIn_SyncRange token lib
  else if k =? KeyTokenSequencerSync then TokenIn_Sync token lib
  else if k =? KeyIndexedTokenSequencerWithPattern then TokenIn_WithPattern token lib
  else if k =? KeyTokenSequencerPattern then TokenIn_Pattern token lib
  else if k =? KeyTokenSequencerIntensity then TokenIn_Intensity token lib
  else lib.

End TokenSequencer.

Definition MATRIX_CAN_BROADCAST_ADDRESS : Z := 0.

(** ** matrix_time_logic.h: lexical codes and the token table *)

Definition ConstantValue : Z := 1.
Definition EquationStart : Z := 6.
Definition PriorityEquationStart : Z := 7.
Definition SuccessiveEquationStart : Z := 8.
Definition EquationEnd : Z := 9.
Definition Equals : Z := 10.
Definition Lambda : Z := 11.
Definition TokenKey : Z := 12.
Definition TokenAddress : Z := 14.
Definition MATRIX_TIME_LOGIC_TOKEN_TABLE_SIZE : Z := 50.

Definition zero_token : MTL_TOKEN := mkMtlToken (mkTOKEN 0 0 0 0) 0 0.

Definition set_flags (f : Z) (t : MTL_TOKEN) : MTL_TOKEN :=
  mkMtlToken (mkTOKEN f (address (token t)) (token_key t) (token_value t))
             (timestamp t) (mappedTokenKey t).

Definition set_value (v : Z) (t : MTL_TOKEN) : MTL_TOKEN :=
  mkMtlToken (mkTOKEN (token_flags t) (address (token t)) (token_key t) v)
             (timestamp t) (mappedTokenKey t).

Definition set_timestamp (ts : Z) (t : MTL_TOKEN) : MTL_TOKEN :=
  mkMtlToken (token t) ts (mappedTokenKey t).

Definition set_mappedTokenKey (k : Z) (t : MTL_TOKEN) : MTL_TOKEN :=
  mkMtlToken (token t) (timestamp t) k.

(** [tableToken-> ... = ...] on the entry at index [i] of the table. *)
Definition update_table (i : nat) (f : MTL_TOKEN -> MTL_TOKEN) (table : list MTL_TOKEN)
  : list MTL_TOKEN :=
  array_set table i (f (nth i table zero_token)).

(** ** matrix_time_logic_tokens.c *)

(** The first four bytes of a token read as a little-endian [uint32_t] and
    masked with [0xffffff00]: the address and key fields, without the flags. *)
Definition address_key_word (t : MTL_TOKEN) : Z :=
  Z.land (token_flags t + Z.shiftl (address (token t)) 8 + Z.shiftl (token_key t) 16)
         0xffffff00.

Definition MTL_CompareTokens (t1 t2 : MTL_TOKEN) : Z :=
  let va := address_key_word t1 in
  let vb := address_key_word t2 in
  (if va >? vb then 1 else 0) - (if va <? vb then 1 else 0).

(** A byte of the equation file; bytes past the end of the file read as 0. *)
Definition bytecode_at (bytecode : list Z) (p : Z) : Z :=
  if p <? 0 then 0 else u8 (nth (Z.to_nat p) bytecode 0).

(** The scan [while (tableToken < lastTableToken)] for the entry with the
    address and key of the bytecode token: its index, or the table length. *)
Fixpoint find_table_token (bytecodeToken : MTL_TOKEN) (table : list MTL_TOKEN) : nat :=
  match table with
  | [] => O
  | t :: rest =>
      if token_flags bytecodeToken + Z.shiftl (address (token bytecodeToken)) 8
         + Z.shiftl (token_key bytecodeToken) 16
         =? address_key_word t
      then O
      else S (find_table_token bytecodeToken rest)
  end.

(** The block under [if (EquationEnd == bytecode[1])]. *)
Definition flag_equation_output (mapped : Z) (t : MTL_TOKEN) : MTL_TOKEN :=
  let t := set_flags (Z.lor (token_flags t) MtlFlagsIsEquationOutput) t in
  let t :=
    if negb (Key_IsLocalVariable (token_key t))
       && (Key_IsInputStatus (token_key t) || Key_IsOutputStatus (token_key t))
    then set_flags (Z.lor (token_flags t) MtlFlagsShouldBroadcast) t
    else t in
  if negb (KeyNull =? mapped) then set_mappedTokenKey mapped t else t.

(** [case TokenKey]: [p] points at the [TokenKey] code; the result is the
    pointer at the last byte of the token, the new [prevToken] and the table. *)
Definition populate_token (bytecode : list Z) (p : Z) (prevToken : MTL_TOKEN)
    (table : list MTL_TOKEN) : Z * MTL_TOKEN * list MTL_TOKEN :=
  let k := u16 (Z.lor (u16 (Z.shiftl (bytecode_at bytecode (p + 1)) 8))
                      (bytecode_at bytecode (p + 2))) in
  let p := p + 2 in
  let mapped :=
    if (bytecode_at bytecode (p - 3) =? Lambda)
       && Key_IsLocalVariable (token_key prevToken)
       && negb (Key_IsLocalVariable k)
    then token_key prevToken else 0 in
  let '(a, p) :=
    if bytecode_at bytecode (p + 1) =? TokenAddress
    then (bytecode_at bytecode (p + 2), p + 2)
    else (0, p) in
  let bytecodeToken := mkMtlToken (mkTOKEN 0 a k 0) 0 mapped in
  let i := find_table_token bytecodeToken table in
  let table :=
    if (i =? length table)%nat
    then table ++ [mkMtlToken (mkTOKEN 0 a k 0) 0 0]
    else table in
  let table :=
    if EquationEnd =? bytecode_at bytecode (p + 1)
    then update_table i (flag_equation_output mapped) table
    else table in
  (p, bytecodeToken, table).

(** The [switch] in the tabulation loop. *)
Definition populate_step (bytecode : list Z) (p : Z) (prevToken : MTL_TOKEN)
    (table : list MTL_TOKEN) : Z * MTL_TOKEN * list MTL_TOKEN :=
  let code := bytecode_at bytecode p in
  if (code =? EquationStart) || (code =? PriorityEquationStart)
     || (code =? SuccessiveEquationStart)
  then (p, zero_token, table)
  else if code =? ConstantValue then (p + 4, prevToken, table)
  else if code =? TokenKey then populate_token bytecode p prevToken table
  else (p, prevToken, table).

(** [while (++bytecode < lastPtr)]; the pointer moves forward in every pass,
    so [bytecodeSize] passes are enough. *)
Fixpoint populate_loop (fuel : nat) (bytecode : list Z) (lastPtr p : Z)
    (prevToken : MTL_TOKEN) (table : list MTL_TOKEN) : list MTL_TOKEN :=
  match fuel with
  | O => table
  | S fuel' =>
      let p := p + 1 in
      if p <? lastPtr then
        let '(p, prevToken, table) := populate_step bytecode p prevToken table in
        if Z.of_nat (length table) >=? MATRIX_TIME_LOGIC_TOKEN_TABLE_SIZE
        then table
        else populate_loop fuel' bytecode lastPtr p prevToken table
      else table
  end.

(** The backward scan [while (--compareToken >= tableToken)] of the sort,
    on the already placed entries in reverse order. *)
Fixpoint sort_insert (sortToken : MTL_TOKEN) (placed : list MTL_TOKEN) : list MTL_TOKEN :=
  match placed with
  | [] => [sortToken]
  | compareToken :: placed' =>
      if address_key_word compareToken <=? address_key_word sortToken
      then sortToken :: placed
      else compareToken :: sort_insert sortToken placed'
  end.

Definition sort_tokens (table : list MTL_TOKEN) : list MTL_TOKEN :=
  rev (fold_left (fun placed sortToken => sort_insert sortToken placed) table []).

(** [MTL_PopulateTokenTable]; the table is the list of its [numTokens]
    entries, and [None] is the NULL bytecode pointer. *)
Definition MTL_PopulateTokenTable (bytecode : option (list Z)) (bytecodeSize : Z)
  : list MTL_TOKEN :=
  match bytecode with
  | None => []
  | Some bc =>
      if 0 =? bytecodeSize then []
      else
        let p := 4 in
        let p :=
          if (bytecode_at bc p =? 0xca) && (bytecode_at bc (p + 1) =? 0xfe)
          then p + (4 + bytecode_at bc (p + 2) + Z.shiftl (bytecode_at bc (p + 3)) 8)
          else p in
        sort_tokens (populate_loop (Z.to_nat bytecodeSize) bc bytecodeSize p zero_token [])
  end.

(** ** matrix_time_logic.c, matrix_time_logic_outputs.c *)

(** The stores into a table entry made after the table is populated, by
    [MatrixTimeLogic_TokenIn] and by [MTL_ProcessOutputOptions]. *)
Inductive TABLE_WRITE : Type :=
| WriteValue (v : Z)         (* tableToken->token.value = ... *)
| WriteTimestamp (ts : Z)    (* tableToken->timestamp = Matrix.systemTime *)
| SetTokenReceived           (* flags |= MtlFlagsTokenReceived *)
| ClearTokenReceived         (* flags &= !MtlFlagsTokenReceived *)
| ClearSkipToggle            (* flags &= ~MtlFlagsSkipToggle *)
| SetSkipToggle              (* flags |= MtlFlagsSkipToggle *)
| SaveBitState (currentBitState : bool).

Definition table_write (w : TABLE_WRITE) (t : MTL_TOKEN) : MTL_TOKEN :=
  match w with
  | WriteValue v => set_value v t
  | WriteTimestamp ts => set_timestamp ts t
  | SetTokenReceived => set_flags (Z.lor (token_flags t) MtlFlagsTokenReceived) t
  | ClearTokenReceived =>
      set_flags (Z.land (token_flags t) (if MtlFlagsTokenReceived =? 0 then 1 else 0)) t
  | ClearSkipToggle =>
      set_flags (u8 (Z.land (token_flags t) (Z.lnot MtlFlagsSkipToggle))) t
  | SetSkipToggle => set_flags (Z.lor (token_flags t) MtlFlagsSkipToggle) t
  | SaveBitState currentBitState =>
      set_flags (if currentBitState
                 then Z.lor (token_flags t) MtlFlagsInputBitstate
                 else u8 (Z.land (token_flags t) (Z.lnot MtlFlagsInputBitstate))) t
  end.

Definition write_table (table : list MTL_TOKEN) (w : nat * TABLE_WRITE) : list MTL_TOKEN :=
  update_table (fst w) (table_write (snd w)) table.

(** [bsearch] of the C library over the sorted table, as a halving search
    on the index range [lo, hi). *)
Fixpoint bsearch (fuel : nat) (idToken : MTL_TOKEN) (base : list MTL_TOKEN) (lo hi : nat)
  : option nat :=
  match fuel with
  | O => None
  | S fuel' =>
      if (lo <? hi)%nat then
        let mid := ((lo + hi) / 2)%nat in
        let c := MTL_CompareTokens idToken (nth mid base zero_token) in
        if c <? 0 then bsearch fuel' idToken base lo mid
        else if c >? 0 then bsearch fuel' idToken base (S mid) hi
        else Some mid
      else None
  end.

(** One pass of the loop [for (i = 0; i < 2; i++)] of
    [MatrixTimeLogic_TokenIn], with [a] the address put into [idToken]. *)
Definition TokenIn_pass (tok : TOKEN) (a : Z) (lib : MATRIX_LIB) : MATRIX_LIB :=
  let table := MatrixTimeLogic_TokenTable lib in
  let idToken := mkMtlToken (mkTOKEN 0 a (key tok) 0) 0 0 in
  match bsearch (S (length table)) idToken table 0 (length table) with
  | None => lib
  | Some j =>
      let tableToken := nth j table zero_token in
      let lib :=
        if negb (mappedTokenKey tableToken =? KeyNull)
        then call_tokenCallback
               (mkTOKEN (flags tok) (address tok) (mappedTokenKey tableToken) (value tok))
               lib
        else lib in
      if (0 =? Z.land (token_flags tableToken) MtlFlagsIsEquationOutput)
         || Key_IsInputStatus (key tok)
      then set_TokenTable
             (write_table (write_table table (j, WriteValue (value tok)))
                          (j, SetTokenReceived)) lib
      else lib
  end.

Definition MatrixTimeLogic_TokenIn (tok : TOKEN) (lib : MATRIX_LIB) : MATRIX_LIB :=
  TokenIn_pass tok (address tok) (TokenIn_pass tok 0 lib).

Section Emission.

Variable NextStep : Z -> MATRIX_LIB -> MATRIX_LIB.
Variable Start : Z -> Z -> Z -> bool -> MATRIX_LIB -> MATRIX_LIB.
Variable Stop : Z -> MATRIX_LIB -> MATRIX_LIB.

(** [SendToken] of matrix_time_logic_outputs.c: the token of an equation
    output goes to the sequencer, to the bus when its key is public, and to
    the application. *)
Definition SendToken (tok : TOKEN) (lib : MATRIX_LIB) : MATRIX_LIB :=
  let lib := MatrixTokenSequencerController_TokenIn NextStep Start Stop tok lib in
  let '(tok, lib) :=
    if negb (Key_IsLocalVariable (key tok)) then
      let tok := mkTOKEN (flags tok) MATRIX_CAN_BROADCAST_ADDRESS (key tok) (value tok) in
      (tok, set_Matrix (snd (Matrix_PrivateSendCanToken tok (Matrix lib))) lib)
    else (tok, lib) in
  if appInterface lib then
    call_tokenCallback
      (mkTOKEN (flags tok) MATRIX_EQUATION_PROCESSOR_NETWORK_ADDRESS (key tok) (value tok))
      lib
  else lib.

(** [Matrix_TokenIn] of matrix.c: tokens coming from the application. *)
Definition Matrix_TokenIn (tok : TOKEN) (lib : MATRIX_LIB) : MATRIX_LIB :=
  if MATRIX_EQUATION_PROCESSOR_NETWORK_ADDRESS =? address tok then
    MatrixTimeLogic_TokenIn tok lib
  else if (MATRIX_TOKEN_SEQUENCER_0_NETWORK_ADDRESS <=? address tok)
          && (MATRIX_TOKEN_SEQUENCER_5_NETWORK_ADDRESS >=? address tok) then
    MatrixTokenSequencerController_TokenIn NextStep Start Stop tok lib
  else if (128 >? address tok)
          && negb (Key_IsLocalVariable (key tok))
          && Matrix_IsCanAddressValid (MatrixCanAddress (Matrix lib)) then
    set_Matrix (snd (Matrix_PrivateSendCanToken tok (Matrix lib))) lib
  else lib.

End Emission.

(** The status message at the end of [Matrix_Clock]: when the status timer
    has expired, no sender address filter is set and the CAN address is
    valid, the token table is compressed into a broadcast message, with
    [MatrixTransmitter_AddByte] as the byte sink. *)
Definition Matrix_Clock_status (senderAddressFilter : Z) (lib : MATRIX_LIB) : MATRIX_LIB :=
  let m := Matrix lib in
  if IsMatrixTimerExpired (systemTime m) (nextStatusTime m)
     && (0 =? senderAddressFilter)
     && Matrix_IsCanAddressValid (MatrixCanAddress m)
  then
    let own := Matrix_GetCanAddress (MatrixCanAddress m) in
    let '(tx, ei) :=
      MatrixTransmitter_StartMessage own (MatrixEventIndex m)
        CAN_BROADCAST_ADDRESS (MatrixTransmitter m) in
    let tx :=
      fold_left (fun t b => MatrixTransmitter_AddByte b t)
                (snd (MatrixCodec_Compress (MatrixTimeLogic_TokenTable lib))) tx in
    let tx := snd (MatrixTransmitter_FinishMessage tx) in
    set_Matrix (mkState (systemTime m) (u32 (nextStatusTime m + (own + (1000 - 60))))
                        ei (MatrixCanAddress m) tx) lib
  else lib.

(** ** matrix_token_regions.h, matrix_tokens.c: the remaining key utilities *)

Definition Region_Size__Indexed_One_Byte_Inputs : Z := 300.
Definition Region_Base__Indexed_One_Byte_Outputs : Z := 500.
Definition Region_Size__Indexed_One_Byte_Outputs : Z := 500.
Definition Region_Size__Named_One_Byte : Z := 4000.
Definition Region_Size__Named_Two_Byte : Z := 2000.
Definition Region_Size__Named_Four_Byte : Z := 1000.
Definition Region_Size__Named_Zero_Byte : Z := 150.

Definition Key_SetPrefix (prefix key : Z) : Z :=
  u16 (Z.lor (Z.land key (Z.lnot KeyPrefix_Mask)) (Z.shiftl prefix 8)).

Definition Key_IsIndexedOneByteInput (key : Z) : bool :=
  let key := Z.land key (Z.lnot (Z.shiftl KeyPrefix_Mask 8)) in
  (key >=? Region_Base__Indexed_One_Byte_Inputs) &&
  (key <? Region_Base__Indexed_One_Byte_Inputs + Region_Size__Indexed_One_Byte_Inputs).

Definition Key_IsIndexedOneByteOutput (key : Z) : bool :=
  let key := Z.land key (Z.lnot (Z.shiftl KeyPrefix_Mask 8)) in
  (key >=? Region_Base__Indexed_One_Byte_Outputs) &&
  (key <? Region_Base__Indexed_One_Byte_Outputs + Region_Size__Indexed_One_Byte_Outputs).

Definition Key_IsNamedOneByte (key : Z) : bool :=
  let key := Z.land key (Z.lnot (Z.shiftl KeyPrefix_Mask 8)) in
  (key >=? Region_Base__Named_One_Byte) &&
  (key <? Region_Base__Named_One_Byte + Region_Size__Named_One_Byte).

Definition Key_IsNamedTwoByte (key : Z) : bool :=
  let key := Z.land key (Z.lnot (Z.shiftl KeyPrefix_Mask 8)) in
  (key >=? Region_Base__Named_Two_Byte) &&
  (key <? Region_Base__Named_Two_Byte + Region_Size__Named_Two_Byte).

Definition Key_IsNamedFourByte (key : Z) : bool :=
  let key := Z.land key (Z.lnot (Z.shiftl KeyPrefix_Mask 8)) in
  (key >=? Region_Base__Named_Four_Byte) &&
  (key <? Region_Base__Named_Four_Byte + Region_Size__Named_Four_Byte).

Definition Key_IsZeroByte (key : Z) : bool :=
  let key := Z.land key (Z.lnot (Z.shiftl KeyPrefix_Mask 8)) in
  (key >=? Region_Base__Named_Zero_Byte) &&
  (key <? Region_Base__Named_Zero_Byte + Region_Size__Named_Zero_Byte).

Definition Key_IsZeroThroughFourByte (key : Z) : bool :=
  let key := Z.land key (Z.lnot (Z.shiftl KeyPrefix_Mask 8)) in
  (key >=? Region_Base__Indexed_One_Byte_Inputs) &&
  (key <? Region_Base__Named_Zero_Byte + Region_Size__Named_Zero_Byte).

(** ** matrix_transmitter.c: reset and clock *)

Definition MatrixTransmitter_Reset (tx : MATRIX_TRANSMITTER) : MATRIX_TRANSMITTER :=
  mkTransmitter (idAddress tx) (fifo tx) (numBytesSent tx) (crc tx) 0
                (streamBuffer tx) 0 0 (enqueued tx).

(** The 32-bit object that holds an [ECCONET_CAN_FRAME_ID], the fields
    allocated from the least significant bit as the shift constants
    MATRIX_CAN_ID_..._SHIFT of matrix_config.h lay them out for the CAN
    identifier: index at bit 0, destination at 5, event flag at 12, source
    at 17, frame type at 24. *)
Definition id_word (id : ECCONET_CAN_FRAME_ID) : Z :=
  id_frameIndex id + Z.shiftl (id_destinationAddress id) 5
  + Z.shiftl (id_isEvent id) 12 + Z.shiftl (id_reserved id) 13
  + Z.shiftl (id_sourceAddress id) 17 + Z.shiftl (id_frameType id) 24.

(** [frame->id] as [SendFrame] stores it: the identifier without its top
    four bits, and the data size in the top four bits. *)
Definition frame_id_word (frame : MATRIX_TX_CAN_FRAME) : Z :=
  Z.lor (Z.land (id_word (tx_id frame)) 0x0FFFFFFF) (Z.shiftl (tx_dataSize frame) 28).

Definition zero_tx_frame : MATRIX_TX_CAN_FRAME := mkTxFrame (mkFrameId 0 0 0 0 0 0) 0 [].

(** [MatrixTransmitter_Clock].  [sendCanFrame] is the driver callback of the
    application interface ([None] when it is not registered); the second
    component is the call made to it, if any: identifier, data, data size. *)
Definition MatrixTransmitter_Clock (sendCanFrame : option (Z -> list Z -> Z -> Z))
    (tx : MATRIX_TRANSMITTER) : MATRIX_TRANSMITTER * option (Z * list Z * Z) :=
  match sendCanFrame with
  | None => (tx, None)
  | Some send =>
      let writeIndex :=
        if streamBufferWriteIndex tx >=? CAN_TX_STREAM_BUFFER_SIZE
        then 0 else streamBufferWriteIndex tx in
      let readIndex :=
        if streamBufferReadIndex tx >=? CAN_TX_STREAM_BUFFER_SIZE
        then 0 else streamBufferReadIndex tx in
      let with_indices r :=
        mkTransmitter (idAddress tx) (fifo tx) (numBytesSent tx) (crc tx) (frameIndex tx)
                      (streamBuffer tx) writeIndex r (enqueued tx) in
      if negb (readIndex =? writeIndex) then
        let frame := nth (Z.to_nat readIndex) (streamBuffer tx) zero_tx_frame in
        let id := Z.lor (Z.land (frame_id_word frame) 0x0FFFFFFF) 0x10000000 in
        let dataSize := u8 (Z.shiftr (frame_id_word frame) 28) in
        if 0 =? send id (tx_data frame) dataSize
        then (with_indices (u16 (readIndex + 1)), Some (id, tx_data frame, dataSize))
        else (with_indices readIndex, Some (id, tx_data frame, dataSize))
      else (with_indices readIndex, None)
  end.

(** ** matrix_receiver.c: frame intake *)

Definition CAN_RX_STREAM_BUFFER_BACK_SIZE : Z := 20.
Definition MATRIX_VEHICLE_BUS_ADDRESS : Z := 121.

(** The back buffer of [MATRIX_RECEIVER] and the sender address filter. *)
Record MATRIX_RECEIVER : Type := mkReceiver {
  rxBuffer : list MATRIX_RX_CAN_FRAME;   (* CAN_RX_STREAM_BUFFER_BACK_SIZE entries *)
  rxBufferWriteIndex : Z;                (* uint16_t *)
  rxBufferReadIndex : Z;                 (* uint16_t *)
  senderAddressFilterTimeout : Z;        (* uint32_t *)
  senderAddressFilter : Z                (* uint8_t *)
}.

(** Reading a 32-bit identifier through [ECCONET_CAN_FRAME_ID]. *)
Definition unpack_id (id : Z) : ECCONET_CAN_FRAME_ID :=
  mkFrameId (Z.land id 0x1F) (Z.land (Z.shiftr id 5) 0x7F)
            (Z.land (Z.shiftr id 12) 1) (Z.land (Z.shiftr id 13) 0xF)
            (Z.land (Z.shiftr id 17) 0x7F) (Z.land (Z.shiftr id 24) 0x1F).

Definition zero_rx_frame : MATRIX_RX_CAN_FRAME := mkRxFrame 0 0 0 0 0 0 [].

(** [Matrix_ReceiveCanFrame]; [own] is [Matrix_GetCanAddress()].  The copy
    into the slot overwrites [dataSize] bytes and leaves the rest of the
    slot's eight data bytes as they were. *)
Definition Matrix_ReceiveCanFrame (own : Z) (id : Z) (data : list Z)
    (dataSize systemTime : Z) (r : MATRIX_RECEIVER) : MATRIX_RECEIVER :=
  let enetId := unpack_id id in
  if (id_frameType enetId <? MATRIX_MESSAGE_FRAME_TYPE_SINGLE)
     || (id_frameType enetId >? MATRIX_MESSAGE_FRAME_TYPE_LAST)
  then r
  else if negb (id_frameType enetId =? MATRIX_MESSAGE_FRAME_TYPE_SINGLE)
          && negb (0 =? senderAddressFilter r)
          && negb (senderAddressFilter r =? id_sourceAddress enetId)
  then r
  else if negb (id_destinationAddress enetId =? MATRIX_CAN_BROADCAST_ADDRESS)
          && negb (id_destinationAddress enetId =? own)
  then r
  else
    let writeIndex :=
      if rxBufferWriteIndex r >=? CAN_RX_STREAM_BUFFER_BACK_SIZE
      then 0 else rxBufferWriteIndex r in
    let old := nth (Z.to_nat writeIndex) (rxBuffer r) zero_rx_frame in
    let size :=
      if dataSize <? CAN_FRAME_MAX_NUM_BYTES then dataSize else CAN_FRAME_MAX_NUM_BYTES in
    let frame :=
      mkRxFrame (id_sourceAddress enetId) (id_frameIndex enetId)
        (id_frameType enetId - MATRIX_MESSAGE_FRAME_TYPE_SINGLE + 1)
        (if (id_frameType enetId =? MATRIX_MESSAGE_FRAME_TYPE_SINGLE)
            && (id_sourceAddress enetId =? MATRIX_VEHICLE_BUS_ADDRESS)
         then 1 else id_isEvent enetId)
        size systemTime
        (firstn (Z.to_nat size) data ++ skipn (Z.to_nat size) (data8 old)) in
    mkReceiver (array_set (rxBuffer r) (Z.to_nat writeIndex) frame)
               (if u16 (writeIndex + 1) >=? CAN_RX_STREAM_BUFFER_BACK_SIZE
                then 0 else u16 (writeIndex + 1))
               (rxBufferReadIndex r) (senderAddressFilterTimeout r)
               (senderAddressFilter r).

(** ** matrix.c: pattern sync and token reception *)

Definition Matrix_SendSync (tok : TOKEN) (m : MATRIX_STATE) : Z * MATRIX_STATE :=
  let '(tx, ei) :=
    MatrixTransmitter_StartMessage (Matrix_GetCanAddress (MatrixCanAddress m))
      (MatrixEventIndex m) 0 (MatrixTransmitter m) in
  let tx :=
    MatrixTransmitter_AddByte
      (Z.lor KeyPrefix_PatternSync
             (Z.land (Z.shiftr (value tok) 8) (Z.lnot KeyPrefix_PatternSync))) tx in
  let tx := MatrixTransmitter_AddByte (value tok) tx in
  let tx := snd (MatrixTransmitter_FinishMessage tx) in
  (0, mkState (systemTime m) (nextStatusTime m) ei (MatrixCanAddress m) tx).

(** ** matrix_receiver.c: the clock *)

Definition CAN_RX_STREAM_BUFFER_FRONT_SIZE : Z := 72.
Definition MATRIX_MAX_SENDER_ADDRESS_FILTER_TIME_MS : Z := 1000.

(** [while (numNewFrames > CAN_RX_STREAM_BUFFER_BACK_SIZE)
       numNewFrames += CAN_RX_STREAM_BUFFER_BACK_SIZE;] on a [uint16_t]; the
    sum wraps to at most 20 within 3277 passes. *)
Fixpoint wrap_new_frames (fuel : nat) (numNewFrames : Z) : Z :=
  match fuel with
  | O => numNewFrames
  | S fuel' =>
      if numNewFrames >? CAN_RX_STREAM_BUFFER_BACK_SIZE
      then wrap_new_frames fuel' (u16 (numNewFrames + CAN_RX_STREAM_BUFFER_BACK_SIZE))
      else numNewFrames
  end.

(** The loop [while (pFrontBuffer < pFrontBufferEnd)] of
    [MatrixReceiver_Clock]: the frames copied, in order, and the read index
    after the loop. *)
Fixpoint copy_new_frames (count : nat) (rxBuffer : list MATRIX_RX_CAN_FRAME)
    (readIndex : Z) : list MATRIX_RX_CAN_FRAME * Z :=
  match count with
  | O => ([], readIndex)
  | S count' =>
      let frame := nth (Z.to_nat readIndex) rxBuffer zero_rx_frame in
      let readIndex := u16 (readIndex + 1) in
      let readIndex :=
        if readIndex >=? CAN_RX_STREAM_BUFFER_BACK_SIZE then 0 else readIndex in
      let '(frames, readIndex) := copy_new_frames count' rxBuffer readIndex in
      (frame :: frames, readIndex)
  end.

(** [MatrixReceiver_Clock] up to the call of [ProcessMessagesInStream]:
    the receiver, the stream buffer (an array of
    [CAN_RX_STREAM_BUFFER_FRONT_SIZE] frames) and [numNewFrames];
    [ProcessMessagesInStream(numNewFrames)] runs next when that is positive. *)
Definition MatrixReceiver_Clock (systemTime : Z)
    (streamBuffer : list MATRIX_RX_CAN_FRAME) (r : MATRIX_RECEIVER)
  : MATRIX_RECEIVER * list MATRIX_RX_CAN_FRAME * Z :=
  let '(timeout, filter) :=
    if IsMatrixTimerExpired systemTime (senderAddressFilterTimeout r)
    then (u32 (systemTime + MATRIX_MAX_SENDER_ADDRESS_FILTER_TIME_MS), 0)
    else (senderAddressFilterTimeout r, senderAddressFilter r) in
  let readIndex :=
    if rxBufferReadIndex r >=? CAN_RX_STREAM_BUFFER_BACK_SIZE
    then 0 else rxBufferReadIndex r in
  let numNewFrames := wrap_new_frames 3277 (u16 (rxBufferWriteIndex r - readIndex)) in
  if 0 <? numNewFrames then
    let '(frames, readIndex') :=
      copy_new_frames (Z.to_nat numNewFrames) (rxBuffer r) readIndex in
    (mkReceiver (rxBuffer r) (rxBufferWriteIndex r) readIndex' timeout filter,
     skipn (Z.to_nat numNewFrames) streamBuffer ++ frames,
     numNewFrames)
  else
    (mkReceiver (rxBuffer r) (rxBufferWriteIndex r) readIndex timeout filter,
     streamBuffer, numNewFrames).

(** ** matrix_receiver.c: stale frames and the order of new frames *)

Definition MATRIX_RECEIVED_FRAME_TIMEOUT_MS : Z := 750.

(** [memmove(streamBuffer + dst, streamBuffer + src, count frames)] inside
    the stream buffer; the two ranges may overlap. *)
Definition move_frames (streamBuffer : list MATRIX_RX_CAN_FRAME) (dst src count : nat)
  : list MATRIX_RX_CAN_FRAME :=
  firstn dst streamBuffer
  ++ firstn count (skipn src streamBuffer)
  ++ skipn (dst + count) streamBuffer.

(** [frame.frameFlags = flags]. *)
Definition set_frameFlags (frame : MATRIX_RX_CAN_FRAME) (flags : Z)
  : MATRIX_RX_CAN_FRAME :=
  mkRxFrame (senderAddress frame) (rx_frameIndex frame) flags (rx_isEvent frame)
    (rx_dataSize frame) (timeStamp frame) (rx_data frame).

(** The two statements that drop the frame at index [upTo]: the frames
    before it move up by one, and the first slot is marked unused. *)
Definition drop_frame (streamBuffer : list MATRIX_RX_CAN_FRAME) (upTo : nat)
  : list MATRIX_RX_CAN_FRAME :=
  let streamBuffer :=
    if (0 <? upTo)%nat then move_frames streamBuffer 1 0 upTo else streamBuffer in
  array_set streamBuffer 0
    (set_frameFlags (nth 0 streamBuffer zero_rx_frame) MR_FRAME_FLAG_NONE).

(** The loop [while (--pFrame >= MatrixReceiver.streamBuffer)] of
    [RemoveUnprocessedFrames]; the argument [pFrame] is the index before
    the decrement. *)
Fixpoint RemoveUnprocessedFrames_from (systemTime : Z) (pFrame : nat)
    (streamBuffer : list MATRIX_RX_CAN_FRAME) : list MATRIX_RX_CAN_FRAME :=
  match pFrame with
  | O => streamBuffer
  | S pFrame =>
      let frame := nth pFrame streamBuffer zero_rx_frame in
      let streamBuffer :=
        if negb (frameFlags frame =? MR_FRAME_FLAG_NONE)
           && (Z.land (u32 (systemTime - timeStamp frame)) 0x0fff
               >? MATRIX_RECEIVED_FRAME_TIMEOUT_MS)
        then drop_frame streamBuffer pFrame
        else streamBuffer in
      RemoveUnprocessedFrames_from systemTime pFrame streamBuffer
  end.

Definition RemoveUnprocessedFrames (systemTime : Z)
    (streamBuffer : list MATRIX_RX_CAN_FRAME) : list MATRIX_RX_CAN_FRAME :=
  RemoveUnprocessedFrames_from systemTime (Z.to_nat CAN_RX_STREAM_BUFFER_FRONT_SIZE)
    streamBuffer.

(** The outer search of [SortNewFrames],
    [while ((--compareFrame >= streamBuffer) && (compareFrame->frameFlags != NONE))],
    up to the first frame from the sender of [newFrame]; the argument
    [compareFrame] is the index before the decrement. *)
Fixpoint find_same_source (compareFrame : nat)
    (streamBuffer : list MATRIX_RX_CAN_FRAME) (newFrame : MATRIX_RX_CAN_FRAME)
  : option nat :=
  match compareFrame with
  | O => None
  | S compareFrame =>
      let frame := nth compareFrame streamBuffer zero_rx_frame in
      if frameFlags frame =? MR_FRAME_FLAG_NONE then None
      else if senderAddress frame =? senderAddress newFrame then Some compareFrame
      else find_same_source compareFrame streamBuffer newFrame
  end.

(** The inner search of [SortNewFrames] with its counter [n]: the index
    [compareFrame] at which the loop stops (-1 when it runs off the start of
    the buffer) and [matchFound]. *)
Fixpoint find_position (compareFrame : nat) (n : Z)
    (streamBuffer : list MATRIX_RX_CAN_FRAME) (newFrame : MATRIX_RX_CAN_FRAME)
  : Z * bool :=
  match compareFrame with
  | O => (-1, false)
  | S compareFrame =>
      let frame := nth compareFrame streamBuffer zero_rx_frame in
      if negb (frameFlags frame =? MR_FRAME_FLAG_NONE)
         && (senderAddress frame =? senderAddress newFrame)
         && (n - 1 >=? 0)
      then
        if rx_frameIndex frame =? rx_frameIndex newFrame
        then (Z.of_nat compareFrame, true)
        else if Z.land (u32 (rx_frameIndex newFrame - rx_frameIndex frame))
                       MATRIX_CAN_ID_FRAME_INDEX_MASK
                <? (MATRIX_CAN_ID_FRAME_INDEX_MASK + 1) / 2
        then (Z.of_nat compareFrame, false)
        else find_position compareFrame (n - 1) streamBuffer newFrame
      else (Z.of_nat compareFrame, false)
  end.

(** One pass of the loop [while (++newFrame < lastFrame)] of
    [SortNewFrames], for the new frame at index [newFrame]. *)
Definition sort_new_frame (newFrame : nat) (streamBuffer : list MATRIX_RX_CAN_FRAME)
  : list MATRIX_RX_CAN_FRAME :=
  let new := nth newFrame streamBuffer zero_rx_frame in
  match find_same_source newFrame streamBuffer new with
  | None => streamBuffer
  | Some found =>
      let '(compareFrame, matchFound) :=
        find_position (S found) 15 streamBuffer new in
      let streamBuffer :=
        if matchFound
        then drop_frame (array_set streamBuffer (Z.to_nat compareFrame) new) newFrame
        else streamBuffer in
      let compareFrame := compareFrame + 1 in
      if compareFrame <? Z.of_nat newFrame then
        let tempFrame := nth newFrame streamBuffer zero_rx_frame in
        let streamBuffer :=
          move_frames streamBuffer (Z.to_nat compareFrame + 1) (Z.to_nat compareFrame)
            (newFrame - Z.to_nat compareFrame) in
        array_set streamBuffer (Z.to_nat compareFrame) tempFrame
      else streamBuffer
  end.

Fixpoint SortNewFrames_from (count newFrame : nat)
    (streamBuffer : list MATRIX_RX_CAN_FRAME) : list MATRIX_RX_CAN_FRAME :=
  match count with
  | O => streamBuffer
  | S count =>
      SortNewFrames_from count (S newFrame) (sort_new_frame newFrame streamBuffer)
  end.

(** [SortNewFrames(numNewFrames)]: the new frames are the last
    [numNewFrames] of the [CAN_RX_STREAM_BUFFER_FRONT_SIZE] frames.
    [MatrixReceiver_Clock] calls it with at most
    [CAN_RX_STREAM_BUFFER_BACK_SIZE] new frames; with more than
    [CAN_RX_STREAM_BUFFER_FRONT_SIZE] the C pointer [newFrame] would start
    before the array. *)
Definition SortNewFrames (numNewFrames : Z)
    (streamBuffer : list MATRIX_RX_CAN_FRAME) : list MATRIX_RX_CAN_FRAME :=
  SortNewFrames_from (Z.to_nat numNewFrames)
    (Z.to_nat CAN_RX_STREAM_BUFFER_FRONT_SIZE - Z.to_nat numNewFrames)
    streamBuffer.

(** [MatrixReceiver_Clock] with its call of [ProcessMessagesInStream]:
    [RemoveUnprocessedFrames], [SortNewFrames], and the walk over the
    [CAN_RX_STREAM_BUFFER_FRONT_SIZE] frames of the stream.  The result is
    the receiver, the event index and the deliveries of this clock. *)
Definition MatrixReceiver_Clock_process (downstream : DISPATCH -> Z -> Z)
    (systemTime eventIndex : Z) (streamBuffer : list MATRIX_RX_CAN_FRAME)
    (r : MATRIX_RECEIVER) : MATRIX_RECEIVER * option (Z * list DELIVERY) :=
  let '(r, streamBuffer, numNewFrames) :=
    MatrixReceiver_Clock systemTime streamBuffer r in
  if 0 <? numNewFrames then
    let streamBuffer := RemoveUnprocessedFrames systemTime streamBuffer in
    let streamBuffer := SortNewFrames numNewFrames streamBuffer in
    (r, ProcessMessagesInStream downstream
          (Z.to_nat CAN_RX_STREAM_BUFFER_FRONT_SIZE) eventIndex streamBuffer)
  else (r, Some (eventIndex, [])).

(** * Theorems *)

(** ** Event index *)

Lemma i8_range z : -128 <= i8 z < 128.
Proof. unfold i8. pose proof (Z.mod_pos_bound (z + 128) 256). lia. Qed.

(** C6 as worded fails for the reserved index 0: with local index 200 the
    call is ignored and [(int8)(0 - 200) = 56 > 0]. *)
Lemma NewEventIndex_zero_not_newer :
  ~ (i8 (0 - Matrix_NewEventIndex 0 200) <= 0).
Proof. vm_compute. intro H. apply H. reflexivity. Qed.

(** C6 (amended): for every non-zero remote event index [r] and every
    local state [l] (the whole 16-bit field, and beyond), after
    [Matrix_NewEventIndex r] the local index [l'] satisfies
    [(int8)(r - l') <= 0]; a remote index of 0 is ignored and leaves [l]
    unchanged. *)
Theorem NewEventIndex_local_at_least_as_new (r l : Z) :
  (r <> 0 -> i8 (r - Matrix_NewEventIndex r l) <= 0)
  /\ Matrix_NewEventIndex 0 l = l.
Proof.
  split; [|reflexivity].
  intros Hr. unfold Matrix_NewEventIndex.
  destruct (Z.eqb_spec 0 r) as [E0|_]; [congruence|]. cbv zeta.
  destruct (0 =? l); cbn [orb].
  - rewrite Z.sub_diag. vm_compute. discriminate.
  - destruct (i8 (r - l) >? 0) eqn:Eg.
    + rewrite Z.sub_diag. vm_compute. discriminate.
    + rewrite Z.gtb_ltb in Eg. apply Z.ltb_ge in Eg. exact Eg.
Qed.

(** C7 as worded fails for the reserved index 0: with local index 1,
    [(int8)(0 - 1) < 0] but the function answers [false]. *)
Lemma IsEventIndexExpired_zero_never :
  Matrix_IsEventIndexExpired 0 1 = false /\ i8 (0 - 1) < 0.
Proof. split; [reflexivity | vm_compute; reflexivity]. Qed.

(** C7 (amended): for every remote index [r] and every local index [l],
    [Matrix_IsEventIndexExpired r] is true exactly when [r] is not the
    reserved index 0 and [(int8)(r - l) < 0]. *)
Theorem IsEventIndexExpired_iff (r l : Z) :
  Matrix_IsEventIndexExpired r l = true <-> (r <> 0 /\ i8 (r - l) < 0).
Proof.
  unfold Matrix_IsEventIndexExpired.
  destruct (0 =? r) eqn:E0.
  - apply Z.eqb_eq in E0. split; [discriminate | intros [H _]; lia].
  - apply Z.eqb_neq in E0. rewrite Z.ltb_lt. split; [intros H; split; lia | tauto].
Qed.

(** ** CAN address self-assignment *)

Definition Proposing (ca : MATRIX_CAN_ADDRESS_OBJECT) : Prop :=
  Matrix_IsCanAddressValid ca = false /\ proposedAddress ca <> 0.

(** C8 as worded fails: while address 42 is proposed, a token sent from
    source address 42 (a stop-light command) leaves the candidate in place,
    whereas an address-in-use token carrying 42 discards it. *)
Lemma CanTokenIn_source_equals_candidate_kept :
  let ca := mkCanAddress 3 0 100 42 0 0 in
  Proposing ca /\
  fst (MatrixCanAddress_CanTokenIn (mkTOKEN 0 42 1000 1) ca) = ca /\
  proposedAddress
    (fst (MatrixCanAddress_CanTokenIn (mkTOKEN 0 7 KeyResponseAddressInUse 42) ca)) = 0.
Proof.
  cbv zeta. repeat split. vm_compute. discriminate.
Qed.

(** The generator state after [n] passes of the [do] body. *)
Fixpoint bump_n (n : nat) (st : Z * Z) : Z * Z :=
  match n with
  | O => st
  | S n' => bump_n n' (bump_xor_index (fst st) (snd st))
  end.

Definition address_ok (a : Z) : Prop := 1 <= a <= 120.

Lemma bump_n_add n m st : bump_n (n + m) st = bump_n m (bump_n n st).
Proof. revert st; induction n; intros st; simpl; auto. Qed.

Lemma GetNext_found guid n : forall fuel x o,
  (n < fuel)%nat ->
  address_ok (proposed_address guid (fst (bump_n n (x, o))) (snd (bump_n n (x, o)))) ->
  exists a st, MatrixCanAddress_GetNextProposedCanAddress fuel guid x o = Some (a, st)
               /\ address_ok a.
Proof.
  induction n; intros fuel x o Hf Hok.
  - destruct fuel; [lia|]. simpl in *.
    destruct (bump_xor_index x o) as [x' o'].
    unfold address_ok in Hok.
    replace ((proposed_address guid x o =? 0) || (proposed_address guid x o >? 120))
      with false.
    + eauto.
    + symmetry. apply orb_false_iff. split; [apply Z.eqb_neq; lia|].
      rewrite Z.gtb_ltb. apply Z.ltb_ge. lia.
  - destruct fuel; [lia|]. simpl in *.
    destruct (bump_xor_index x o) as [x' o'] eqn:Eb. simpl in Hok.
    destruct ((proposed_address guid x o =? 0) || (proposed_address guid x o >? 120)) eqn:Ebad.
    + apply IHn; [lia | exact Hok].
    + apply orb_false_iff in Ebad. destruct Ebad as [E1 E2].
      apply Z.eqb_neq in E1. rewrite Z.gtb_ltb in E2. apply Z.ltb_ge in E2.
      exists (proposed_address guid x o), (x', o'). split; [reflexivity|].
      unfold address_ok. split; [|exact E2].
      assert (0 <= proposed_address guid x o); [|lia].
      unfold proposed_address. apply Z.land_nonneg. right. vm_compute. discriminate.
Qed.

Lemma land_127 a : Z.land a 0x7F = a mod 128.
Proof. change 0x7F with (Z.ones 7). rewrite Z.land_ones by lia. reflexivity. Qed.

Definition guid_sum (guid : list Z) (x : Z) : Z :=
  let xorValue :=
    Z.lor (Z.shiftr DEVICE_ADDRESS_XOR_VALUE x)
          (Z.land (Z.shiftl DEVICE_ADDRESS_XOR_VALUE
                            (MATRIX_CAN_ID_ADDRESS_BIT_WIDTH - x))
                  MATRIX_CAN_ID_ADDRESS_MASK) in
  fold_left (fun address b => u32 (address + Z.lxor b xorValue)) (guid_bytes guid) 0.

Lemma proposed_address_offset guid x o :
  proposed_address guid x o = (guid_sum guid x + o) mod 128.
Proof.
  unfold proposed_address. fold (guid_sum guid x).
  unfold MATRIX_CAN_ID_ADDRESS_MASK. rewrite land_127. unfold u32.
  generalize (guid_sum guid x); intros s.
  Z.div_mod_to_equations. lia.
Qed.

Lemma bump_below x o : 0 <= x < 6 -> bump_xor_index x o = (x + 1, o).
Proof.
  intros H. unfold bump_xor_index, u16, MATRIX_CAN_ID_ADDRESS_BIT_WIDTH.
  rewrite Z.mod_small by lia.
  destruct (x + 1 >=? 7) eqn:E; [|reflexivity].
  rewrite Z.geb_leb in E. apply Z.leb_le in E. lia.
Qed.

Lemma bump_wrap x o : 6 <= x <= 7 -> bump_xor_index x o = (0, (o + 1) mod 128).
Proof.
  intros H. unfold bump_xor_index, u16, MATRIX_CAN_ID_ADDRESS_BIT_WIDTH,
    MATRIX_CAN_ID_ADDRESS_MASK.
  rewrite (Z.mod_small (x + 1)) by lia.
  destruct (x + 1 >=? 7) eqn:E.
  - f_equal. rewrite land_127. Z.div_mod_to_equations. lia.
  - rewrite Z.geb_leb in E. apply Z.leb_gt in E. lia.
Qed.

Ltac bump_steps :=
  repeat match goal with
         | |- context [bump_xor_index ?a ?b] =>
             rewrite (bump_below a b) by lia; cbn [fst snd Z.add Pos.add Pos.succ]
         end.

(** From any defined index the generator reaches index 0 within 7 passes. *)
Lemma bump_to_zero x o : 0 <= x <= 7 ->
  exists k, (k <= 7)%nat /\ bump_n k (x, o) = (0, (o + 1) mod 128).
Proof.
  intros H.
  assert (C : x = 0 \/ x = 1 \/ x = 2 \/ x = 3 \/ x = 4 \/ x = 5 \/ x = 6 \/ x = 7) by lia.
  destruct C as [C|[C|[C|[C|[C|[C|[C|C]]]]]]]; subst x.
  - exists 7%nat. split; [lia|]. cbn [bump_n fst snd].
    bump_steps. apply bump_wrap; lia.
  - exists 6%nat. split; [lia|]. cbn [bump_n fst snd].
    bump_steps. apply bump_wrap; lia.
  - exists 5%nat. split; [lia|]. cbn [bump_n fst snd].
    bump_steps. apply bump_wrap; lia.
  - exists 4%nat. split; [lia|]. cbn [bump_n fst snd].
    bump_steps. apply bump_wrap; lia.
  - exists 3%nat. split; [lia|]. cbn [bump_n fst snd].
    bump_steps. apply bump_wrap; lia.
  - exists 2%nat. split; [lia|]. cbn [bump_n fst snd].
    bump_steps. apply bump_wrap; lia.
  - exists 1%nat. split; [lia|]. cbn [bump_n fst snd]. apply bump_wrap; lia.
  - exists 1%nat. split; [lia|]. cbn [bump_n fst snd]. apply bump_wrap; lia.
Qed.

Lemma bump_seven o : bump_n 7 (0, o) = (0, (o + 1) mod 128).
Proof.
  cbn [bump_n fst snd]. bump_steps. apply bump_wrap; lia.
Qed.

Lemma bump_rounds i : forall o,
  bump_n (7 * i) (0, o mod 128) = (0, (o + Z.of_nat i) mod 128).
Proof.
  induction i; intros o.
  - simpl. f_equal. f_equal. lia.
  - replace (7 * S i)%nat with (7 + 7 * i)%nat by lia.
    rewrite bump_n_add, bump_seven.
    replace ((o mod 128 + 1) mod 128) with ((o + 1) mod 128)
      by (Z.div_mod_to_equations; lia).
    rewrite IHi. f_equal. f_equal. lia.
Qed.

(** Nine consecutive offsets always contain an address in 1..120. *)
Lemma good_offset_exists s :
  exists i, (i <= 8)%nat /\ address_ok ((s + Z.of_nat i) mod 128).
Proof.
  unfold address_ok.
  pose proof (Z.mod_pos_bound s 128 ltac:(lia)) as Hr.
  destruct (Z_le_gt_dec 1 (s mod 128)) as [H1|H1].
  - destruct (Z_le_gt_dec (s mod 128) 120) as [H2|H2].
    + exists 0%nat. split; [lia|]. replace (s + Z.of_nat 0) with s by lia. lia.
    + exists (Z.to_nat (129 - s mod 128)). split; [lia|].
      rewrite Z2Nat.id by lia. Z.div_mod_to_equations. lia.
  - exists 1%nat. split; [lia|]. change (Z.of_nat 1) with 1.
    Z.div_mod_to_equations. lia.
Qed.

(** C10: for every GUID and every generator state with a defined shift
    ([xorIndex] in 0..7, any [addressOffset]), the candidate loop stops
    within 64 passes and returns an address in 1..120. *)
Theorem GetNextProposedCanAddress_terminates_in_range
    (guid : list Z) (x o : Z) (fuel : nat) :
  0 <= x <= 7 -> (64 <= fuel)%nat ->
  exists a st,
    MatrixCanAddress_GetNextProposedCanAddress fuel guid x o = Some (a, st)
    /\ 1 <= a <= 120.
Proof.
  intros Hx Hf.
  destruct (bump_to_zero x o Hx) as [k [Hk Ek]].
  destruct (good_offset_exists (guid_sum guid 0 + (o + 1))) as [i [Hi Hok]].
  apply (GetNext_found guid (k + 7 * i)); [lia|].
  rewrite bump_n_add, Ek, bump_rounds. cbn [fst snd].
  rewrite proposed_address_offset.
  replace ((guid_sum guid 0 + (o + 1 + Z.of_nat i) mod 128) mod 128)
    with ((guid_sum guid 0 + (o + 1) + Z.of_nat i) mod 128)
    by (Z.div_mod_to_equations; lia).
  exact Hok.
Qed.

Lemma GetNextProposedCanAddress_terminates_in_range_witness :
  exists a st,
    MatrixCanAddress_GetNextProposedCanAddress 64
      [0xEE4CAD97; 0x331CE9EC; 0x9E957DBC; 0xA4A69FE5] 0 0 = Some (a, st)
    /\ 1 <= a <= 120.
Proof.
  apply (GetNextProposedCanAddress_terminates_in_range
           [0xEE4CAD97; 0x331CE9EC; 0x9E957DBC; 0xA4A69FE5] 0 0 64); lia.
Defined.

(** ** Transmitter *)

(** The frame [SendFrame] builds from the first [n] fifo bytes. *)
Definition frame_of (tx : MATRIX_TRANSMITTER) (n : nat) : MATRIX_TX_CAN_FRAME :=
  mkTxFrame
    (mkFrameId (Z.lor (id_frameIndex (idAddress tx)) (frameIndex tx))
               (id_destinationAddress (idAddress tx)) (id_isEvent (idAddress tx))
               (id_reserved (idAddress tx)) (id_sourceAddress (idAddress tx))
               (id_frameType (idAddress tx)))
    (Z.of_nat n) (firstn n (fifo tx)).

Definition with_type (ty : Z) (tx : MATRIX_TRANSMITTER) : MATRIX_TRANSMITTER :=
  mkTransmitter (set_frameType ty (idAddress tx)) (fifo tx) (numBytesSent tx)
                (crc tx) (frameIndex tx) (streamBuffer tx)
                (streamBufferWriteIndex tx) (streamBufferReadIndex tx) (enqueued tx).

Lemma SendFrame_nonempty tx :
  fifo tx <> [] ->
  let n := Nat.min (length (fifo tx)) 8 in
  exists tx',
    SendFrame tx = (0, tx')
    /\ idAddress tx' = idAddress tx
    /\ fifo tx' = skipn n (fifo tx)
    /\ numBytesSent tx' = u16 (numBytesSent tx + Z.of_nat n)
    /\ crc tx' = crc tx
    /\ frameIndex tx' = Z.land (frameIndex tx + 1) MATRIX_CAN_ID_FRAME_INDEX_MASK
    /\ enqueued tx' = enqueued tx ++ [frame_of tx n].
Proof.
  intros Hne n. unfold SendFrame, fifoIndex, CAN_FRAME_MAX_NUM_BYTES.
  assert (Hn : u8 (if Z.of_nat (length (fifo tx)) <=? 8
                   then Z.of_nat (length (fifo tx)) else 8) = Z.of_nat n).
  { unfold u8, n. destruct (Z.of_nat (length (fifo tx)) <=? 8) eqn:E.
    - apply Z.leb_le in E. rewrite Z.mod_small by lia. f_equal. lia.
    - apply Z.leb_gt in E. rewrite Z.mod_small by lia. lia. }
  rewrite Hn.
  assert (Hpos : (0 < n)%nat).
  { unfold n. destruct (fifo tx); [congruence | simpl; lia]. }
  destruct (0 =? Z.of_nat n) eqn:E0; [apply Z.eqb_eq in E0; lia|].
  rewrite Nat2Z.id.
  eexists. split; [reflexivity|]. simpl. repeat split; reflexivity.
Qed.

Definition crc16_of (bytes : list Z) : Z :=
  fold_left (fun c b => Matrix_AddByteToCRC16 b c) bytes MATRIX_MESSAGE_CRC_INIT_VALUE.

(** [f] carries the same identifier fields as [id] (the frame index apart). *)
Definition same_header (id : ECCONET_CAN_FRAME_ID) (f : MATRIX_TX_CAN_FRAME) : Prop :=
  id_destinationAddress (tx_id f) = id_destinationAddress id
  /\ id_sourceAddress (tx_id f) = id_sourceAddress id
  /\ id_isEvent (tx_id f) = id_isEvent id.

Definition full_frame_of_type (ty : Z) (id : ECCONET_CAN_FRAME_ID)
    (f : MATRIX_TX_CAN_FRAME) : Prop :=
  id_frameType (tx_id f) = ty /\ same_header id f
  /\ tx_dataSize f = 8 /\ length (tx_data f) = 8%nat.

(** What holds of the transmitter after the bytes [bytes] were added to a
    message started in [tx0]. *)
Definition tx_inv (tx0 : MATRIX_TRANSMITTER) (bytes : list Z)
    (tx : MATRIX_TRANSMITTER) : Prop :=
  exists frames,
    enqueued tx = enqueued tx0 ++ frames
    /\ concat (map tx_data frames) ++ fifo tx = bytes
    /\ Forall (full_frame_of_type (id_frameType (idAddress tx0)) (idAddress tx0)) frames
    /\ numBytesSent tx = u16 (8 * Z.of_nat (length frames))
    /\ crc tx = crc16_of bytes
    /\ (length (fifo tx) < 16)%nat
    /\ (frames <> [] -> (8 <= length (fifo tx))%nat)
    /\ (bytes <> [] -> fifo tx <> [])
    /\ idAddress tx = idAddress tx0.

Lemma tx_inv_init tx0 :
  fifo tx0 = [] -> numBytesSent tx0 = 0 -> crc tx0 = 0 -> tx_inv tx0 [] tx0.
Proof.
  intros Hf Hn Hc. exists []. rewrite Hf, Hn, Hc, app_nil_r. simpl.
  repeat split; auto; try lia; try congruence.
Qed.

Lemma tx_inv_AddByte tx0 bytes tx b :
  tx_inv tx0 bytes tx ->
  tx_inv tx0 (bytes ++ [u8 b]) (MatrixTransmitter_AddByte b tx).
Proof.
  intros (frames & He & Hc & Hall & Hn & Hcrc & Hlen & Hfull & Hne & Hid).
  unfold MatrixTransmitter_AddByte.
  set (tx1 := mkTransmitter (idAddress tx) (fifo tx ++ [u8 b]) (numBytesSent tx)
                (Matrix_AddByteToCRC16 (u8 b) (crc tx)) (frameIndex tx)
                (streamBuffer tx) (streamBufferWriteIndex tx)
                (streamBufferReadIndex tx) (enqueued tx)).
  assert (Hcrc1 : crc tx1 = crc16_of (bytes ++ [u8 b])).
  { unfold crc16_of. rewrite fold_left_app. simpl. f_equal. exact Hcrc. }
  assert (Hl1 : length (fifo tx1) = S (length (fifo tx))).
  { simpl. rewrite length_app. simpl. lia. }
  unfold fifoIndex, CAN_TX_STREAM_FIFO_SIZE, CAN_FRAME_MAX_NUM_BYTES.
  destruct (2 * 8 <=? Z.of_nat (length (fifo tx1))) eqn:E.
  - apply Z.leb_le in E.
    assert (Hne1 : fifo tx1 <> []) by (intro H0; rewrite H0 in Hl1; discriminate).
    destruct (SendFrame_nonempty tx1 Hne1)
      as (tx' & Hs & Hid' & Hf' & Hn' & Hc' & _ & He').
    rewrite Hs. simpl snd.
    replace (Nat.min (length (fifo tx1)) 8) with 8%nat in * by lia.
    exists (frames ++ [frame_of tx1 8]).
    split; [rewrite He', app_assoc; f_equal; exact He|].
    split.
    { rewrite map_app, concat_app, Hf'. unfold frame_of.
      cbn [map concat tx_data]. rewrite app_nil_r, <- app_assoc.
      rewrite firstn_skipn. change (fifo tx1) with (fifo tx ++ [u8 b]).
      rewrite app_assoc, Hc. reflexivity. }
    split.
    { apply Forall_app. split; [exact Hall|]. constructor; [|constructor].
      unfold full_frame_of_type, same_header, frame_of.
      cbn [tx_id tx_dataSize tx_data id_frameType id_destinationAddress
           id_sourceAddress id_isEvent].
      change (idAddress tx1) with (idAddress tx). rewrite Hid.
      split; [reflexivity|]. split; [repeat split|]. split; [reflexivity|].
      rewrite length_firstn. lia. }
    split.
    { rewrite Hn'. change (numBytesSent tx1) with (numBytesSent tx). rewrite Hn.
      rewrite length_app. cbn [length]. unfold u16.
      rewrite Nat2Z.inj_add. change (Z.of_nat 8) with 8. change (Z.of_nat 1) with 1.
      Z.div_mod_to_equations. lia. }
    split; [rewrite Hc'; exact Hcrc1|].
    split; [rewrite Hf', length_skipn; lia|].
    split; [intros _; rewrite Hf', length_skipn; lia|].
    split; [intros _ H0; apply (f_equal (@length Z)) in H0;
            rewrite Hf', length_skipn in H0; cbn [length] in H0; lia|].
    rewrite Hid'. exact Hid.
  - apply Z.leb_gt in E. exists frames.
    split; [exact He|].
    split; [change (fifo tx1) with (fifo tx ++ [u8 b]); rewrite app_assoc, Hc; reflexivity|].
    split; [exact Hall|].
    split; [exact Hn|].
    split; [exact Hcrc1|].
    split; [lia|].
    split; [intros H0; specialize (Hfull H0); lia|].
    split; [intros _ H0; rewrite H0 in Hl1; discriminate|].
    exact Hid.
Qed.

Definition add_bytes (bytes : list Z) (tx : MATRIX_TRANSMITTER) : MATRIX_TRANSMITTER :=
  fold_left (fun t b => MatrixTransmitter_AddByte b t) bytes tx.

Lemma tx_inv_add_bytes tx0 more : forall bytes tx,
  tx_inv tx0 bytes tx -> tx_inv tx0 (bytes ++ map u8 more) (add_bytes more tx).
Proof.
  induction more as [|b more IH]; intros bytes tx H; simpl.
  - rewrite app_nil_r. exact H.
  - replace (bytes ++ u8 b :: map u8 more) with ((bytes ++ [u8 b]) ++ map u8 more)
      by (rewrite <- app_assoc; reflexivity).
    apply IH. apply tx_inv_AddByte. exact H.
Qed.

Definition last_type (isSingleFrame : bool) : Z :=
  if isSingleFrame then MATRIX_MESSAGE_FRAME_TYPE_SINGLE
  else MATRIX_MESSAGE_FRAME_TYPE_LAST.

(** The drain loop on a fifo of at most eight bytes: one closing frame. *)
Lemma FinishMessage_loop_short fuel isSingle tx :
  (2 <= fuel)%nat -> (1 <= length (fifo tx) <= 8)%nat ->
  exists tx',
    FinishMessage_loop fuel isSingle tx = (0, tx')
    /\ enqueued tx' =
         enqueued tx ++ [frame_of (with_type (last_type isSingle) tx) (length (fifo tx))]
    /\ fifo tx' = []
    /\ frameIndex tx' = Z.land (frameIndex tx + 1) MATRIX_CAN_ID_FRAME_INDEX_MASK.
Proof.
  intros Hfuel Hlen.
  destruct fuel as [|[|fuel]]; try lia.
  cbn [FinishMessage_loop]. unfold fifoIndex at 1.
  destruct (0 =? Z.of_nat (length (fifo tx))) eqn:E0; [apply Z.eqb_eq in E0; lia|].
  unfold fifoIndex, CAN_FRAME_MAX_NUM_BYTES.
  replace (Z.of_nat (length (fifo tx)) <=? 8) with true by (symmetry; apply Z.leb_le; lia).
  unfold u16 at 1. rewrite Z.mod_small by lia. rewrite Z.eqb_refl.
  fold (last_type isSingle). fold (with_type (last_type isSingle) tx).
  assert (Hne : fifo (with_type (last_type isSingle) tx) <> []).
  { simpl. intro H0. rewrite H0 in Hlen. simpl in Hlen. lia. }
  destruct (SendFrame_nonempty _ Hne) as (tx' & Hs & _ & Hf & _ & _ & Hfi & He).
  rewrite Hs. cbn [negb Z.eqb].
  change (fifo (with_type (last_type isSingle) tx)) with (fifo tx) in *.
  replace (Nat.min (length (fifo tx)) 8) with (length (fifo tx)) in * by lia.
  rewrite skipn_all in Hf.
  exists tx'. rewrite Hf. cbn [length Z.of_nat Z.eqb].
  repeat split; auto.
Qed.

(** The drain loop on nine to sixteen bytes: a full frame of the current
    type, then the closing frame. *)
Lemma FinishMessage_loop_long fuel isSingle tx :
  (3 <= fuel)%nat -> (8 < length (fifo tx) <= 16)%nat ->
  exists tx',
    FinishMessage_loop fuel isSingle tx = (0, tx')
    /\ exists f1 f2,
         enqueued tx' = enqueued tx ++ [f1; f2]
         /\ tx_data f1 ++ tx_data f2 = fifo tx
         /\ full_frame_of_type (id_frameType (idAddress tx)) (idAddress tx) f1
         /\ id_frameType (tx_id f2) = Z.land (last_type isSingle) 0x1F
         /\ same_header (idAddress tx) f2
         /\ fifo tx' = [].
Proof.
  intros Hfuel Hlen.
  destruct fuel as [|fuel]; try lia.
  cbn [FinishMessage_loop]. unfold fifoIndex at 1.
  destruct (0 =? Z.of_nat (length (fifo tx))) eqn:E0; [apply Z.eqb_eq in E0; lia|].
  unfold fifoIndex, CAN_FRAME_MAX_NUM_BYTES.
  replace (Z.of_nat (length (fifo tx)) <=? 8) with false by (symmetry; apply Z.leb_gt; lia).
  change (u16 8) with 8.
  replace (Z.of_nat (length (fifo tx)) =? 8) with false by (symmetry; apply Z.eqb_neq; lia).
  assert (Hne : fifo tx <> []).
  { intro H0. rewrite H0 in Hlen. simpl in Hlen. lia. }
  destruct (SendFrame_nonempty _ Hne) as (tx1 & Hs & Hid & Hf & _ & _ & _ & He).
  rewrite Hs. cbn [negb Z.eqb].
  replace (Nat.min (length (fifo tx)) 8) with 8%nat in * by lia.
  destruct (FinishMessage_loop_short fuel isSingle tx1) as (tx' & Hl & He' & Hf' & _).
  { lia. }
  { rewrite Hf, length_skipn. lia. }
  exists tx'. split; [exact Hl|].
  exists (frame_of tx 8),
         (frame_of (with_type (last_type isSingle) tx1) (length (fifo tx1))).
  split; [rewrite He', He, <- app_assoc; reflexivity|].
  split.
  { unfold frame_of. cbn [tx_data]. change (fifo (with_type _ tx1)) with (fifo tx1).
    rewrite firstn_all, Hf. apply firstn_skipn. }
  split.
  { unfold full_frame_of_type, same_header, frame_of.
    cbn [tx_id tx_dataSize tx_data id_frameType id_destinationAddress
         id_sourceAddress id_isEvent].
    split; [reflexivity|]. split; [repeat split|]. split; [reflexivity|].
    rewrite length_firstn. lia. }
  split; [reflexivity|].
  split; [|exact Hf'].
  unfold same_header, frame_of, with_type, set_frameType.
  cbn [tx_id idAddress id_destinationAddress id_sourceAddress id_isEvent].
  rewrite Hid. repeat split.
Qed.

(** *** Bit-level helpers *)

Lemma land_shiftl_small hi lo n :
  0 <= n -> 0 <= lo < 2 ^ n -> Z.land (Z.shiftl hi n) lo = 0.
Proof.
  intros Hn Hlo. apply Z.bits_inj'. intros i Hi.
  rewrite Z.land_spec, Z.bits_0.
  destruct (Z.lt_ge_cases i n) as [Hlt|Hge].
  - rewrite Z.shiftl_spec_low by exact Hlt. reflexivity.
  - destruct (Z.eq_dec lo 0) as [->|Hnz].
    + rewrite Z.bits_0. apply andb_false_r.
    + rewrite (Z.bits_above_log2 lo i); [apply andb_false_r | lia |].
      apply Z.lt_le_trans with n; [|exact Hge].
      apply Z.log2_lt_pow2; lia.
Qed.

Lemma lor_shiftl_add hi lo n :
  0 <= n -> 0 <= lo < 2 ^ n -> Z.lor (Z.shiftl hi n) lo = hi * 2 ^ n + lo.
Proof.
  intros Hn Hlo.
  rewrite <- Z.lxor_lor by (apply land_shiftl_small; assumption).
  rewrite <- Z.add_nocarry_lxor by (apply land_shiftl_small; assumption).
  rewrite Z.shiftl_mul_pow2 by exact Hn. reflexivity.
Qed.

Lemma lxor_range a b n :
  0 <= n -> 0 <= a < 2 ^ n -> 0 <= b < 2 ^ n -> 0 <= Z.lxor a b < 2 ^ n.
Proof.
  intros Hn Ha Hb.
  assert (H0 : 0 <= Z.lxor a b) by (apply Z.lxor_nonneg; lia).
  split; [exact H0|].
  destruct (Z.eq_dec (Z.lxor a b) 0) as [->|Hnz]; [lia|].
  assert (Hpos : 0 < n).
  { destruct (Z.eq_dec n 0) as [->|]; [|lia].
    change (2 ^ 0) with 1 in *. replace a with 0 in Hnz by lia.
    replace b with 0 in Hnz by lia. simpl in Hnz. congruence. }
  apply Z.log2_lt_pow2; [lia|].
  eapply Z.le_lt_trans; [apply Z.log2_lxor; lia|].
  apply Z.max_lub_lt.
  - destruct (Z.eq_dec a 0) as [->|Ha0]; [simpl; lia|]. apply Z.log2_lt_pow2; lia.
  - destruct (Z.eq_dec b 0) as [->|Hb0]; [simpl; lia|]. apply Z.log2_lt_pow2; lia.
Qed.

Lemma AddByteToCRC16_bits_range bit : forall byte crc,
  0 <= crc < 65536 -> 0 <= AddByteToCRC16_bits bit byte crc < 65536.
Proof.
  induction bit; intros byte crc Hc; simpl; [exact Hc|].
  apply IHbit.
  assert (Hs : 0 <= Z.shiftr crc 1 < 32768).
  { rewrite Z.shiftr_div_pow2 by lia. change (2 ^ 1) with 2.
    Z.div_mod_to_equations. lia. }
  destruct (Z.land (Z.lxor byte (u8 crc)) 1 =? 0); [lia|].
  change 65536 with (2 ^ 16). apply lxor_range; [lia | change (2 ^ 16) with 65536; lia |].
  vm_compute. split; [discriminate | reflexivity].
Qed.

Lemma crc16_of_range bytes : 0 <= crc16_of bytes < 65536.
Proof.
  unfold crc16_of.
  assert (H : forall l c, 0 <= c < 65536 ->
            0 <= fold_left (fun c b => Matrix_AddByteToCRC16 b c) l c < 65536).
  { induction l; intros c Hc; simpl; [exact Hc|].
    apply IHl. apply AddByteToCRC16_bits_range. exact Hc. }
  apply H. vm_compute. split; [discriminate | reflexivity].
Qed.

Lemma ComputeCRC16_crc16_of bytes rest :
  Matrix_ComputeCRC16 (bytes ++ rest) (length bytes) = crc16_of bytes.
Proof.
  unfold Matrix_ComputeCRC16, crc16_of.
  destruct bytes as [|b bytes]; [reflexivity|].
  remember (b :: bytes) as l. replace (length l) with (length l + 0)%nat by lia.
  rewrite firstn_app_2. simpl. rewrite app_nil_r.
  subst l. reflexivity.
Qed.

(** A big-endian CRC suffix makes the message checksum valid. *)
Lemma checksum_valid_suffix bytes :
  let c := crc16_of bytes in
  Matrix_IsMessageChecksumValid (bytes ++ [u8 (Z.shiftr c 8); u8 c])
    (length (bytes ++ [u8 (Z.shiftr c 8); u8 c])) = Some true.
Proof.
  intros c. rewrite length_app. cbn [length].
  replace (length bytes + 2)%nat with (S (S (length bytes))) by lia.
  cbn [Matrix_IsMessageChecksumValid].
  rewrite ComputeCRC16_crc16_of. fold c.
  rewrite !app_nth2 by lia.
  replace (length bytes - length bytes)%nat with 0%nat by lia.
  replace (S (length bytes) - length bytes)%nat with 1%nat by lia.
  cbn [nth]. f_equal. apply Z.eqb_eq.
  pose proof (crc16_of_range bytes) as Hc. fold c in Hc.
  assert (Hlo : 0 <= u8 c < 2 ^ 8).
  { unfold u8. change (2 ^ 8) with 256. apply Z.mod_pos_bound. lia. }
  rewrite lor_shiftl_add by (try lia; exact Hlo).
  unfold u8, u16. rewrite Z.shiftr_div_pow2 by lia.
  change (2 ^ 8) with 256. Z.div_mod_to_equations. lia.
Qed.

(** Finishing a message of at most eight bytes: one SINGLE frame, no CRC. *)
Lemma finish_single tx0 msg tx :
  tx_inv tx0 msg tx -> msg <> [] -> (length msg <= 8)%nat ->
  exists tx',
    MatrixTransmitter_FinishMessage tx = (0, tx')
    /\ enqueued tx' =
         enqueued tx0 ++
         [mkTxFrame
            (mkFrameId (Z.lor (id_frameIndex (idAddress tx0)) (frameIndex tx))
               (id_destinationAddress (idAddress tx0)) (id_isEvent (idAddress tx0))
               (id_reserved (idAddress tx0)) (id_sourceAddress (idAddress tx0))
               MATRIX_MESSAGE_FRAME_TYPE_SINGLE)
            (Z.of_nat (length msg)) msg]
    /\ frameIndex tx' = Z.land (frameIndex tx + 1) MATRIX_CAN_ID_FRAME_INDEX_MASK.
Proof.
  intros (frames & He & Hc & Hall & Hn & Hcrc & Hlen & Hfull & Hne & Hid) Hmsg Hl.
  assert (frames = []) as ->.
  { destruct frames as [|f frames]; [reflexivity|].
    specialize (Hfull ltac:(discriminate)).
    inversion Hall as [|? ? (_ & _ & _ & Hf8) _].
    apply (f_equal (@length Z)) in Hc. cbn [map concat] in Hc.
    rewrite !length_app in Hc. lia. }
  simpl in Hc, Hn, He. rewrite app_nil_r in He. subst msg.
  unfold MatrixTransmitter_FinishMessage.
  rewrite Hn. change (u16 0) with 0. unfold fifoIndex.
  replace (8 >=? 0 + Z.of_nat (length (fifo tx))) with true
    by (symmetry; rewrite Z.geb_leb; apply Z.leb_le; lia).
  cbn [negb].
  destruct (FinishMessage_loop_short (S (length (fifo tx))) true tx)
    as (tx' & Hloop & He' & _ & Hfi).
  { specialize (Hne Hmsg). destruct (fifo tx); [congruence | simpl; lia]. }
  { specialize (Hne Hmsg). split; [|exact Hl].
    destruct (fifo tx); [congruence | simpl; lia]. }
  exists tx'. split; [exact Hloop|]. split; [|exact Hfi].
  rewrite He', He. f_equal. unfold frame_of, with_type, set_frameType, last_type.
  cbn [idAddress fifo frameIndex id_frameIndex id_destinationAddress id_isEvent
       id_reserved id_sourceAddress id_frameType].
  rewrite Hid, firstn_all. reflexivity.
Qed.

(** Finishing a longer message: BODY frames, a closing LAST frame, and the
    accumulated CRC as the last two bytes. *)
Lemma finish_multi tx0 msg tx :
  tx_inv tx0 msg tx -> 8 < Z.of_nat (length msg) < 65544 ->
  id_frameType (idAddress tx0) = MATRIX_MESSAGE_FRAME_TYPE_BODY ->
  exists tx' bodyFrames lastFrame,
    MatrixTransmitter_FinishMessage tx = (0, tx')
    /\ enqueued tx' = enqueued tx0 ++ bodyFrames ++ [lastFrame]
    /\ bodyFrames <> []
    /\ Forall (full_frame_of_type MATRIX_MESSAGE_FRAME_TYPE_BODY (idAddress tx0))
              bodyFrames
    /\ id_frameType (tx_id lastFrame) = MATRIX_MESSAGE_FRAME_TYPE_LAST
    /\ same_header (idAddress tx0) lastFrame
    /\ concat (map tx_data (bodyFrames ++ [lastFrame])) =
         msg ++ [u8 (Z.shiftr (crc16_of msg) 8); u8 (crc16_of msg)].
Proof.
  intros Hinv Hl Hbody.
  pose proof Hinv as (frames & He & Hc & Hall & Hn & Hcrc & Hlen & Hfull & Hne & Hid).
  unfold MatrixTransmitter_FinishMessage.
  assert (Htot : (8 * length frames + length (fifo tx) = length msg)%nat).
  { rewrite <- Hc, length_app. f_equal.
    clear - Hall. induction Hall as [|f l Hf _ IH]; [reflexivity|].
    simpl. rewrite length_app. destruct Hf as (_ & _ & _ & Hf). lia. }
  replace (8 >=? numBytesSent tx + fifoIndex tx) with false.
  2:{ symmetry. rewrite Z.geb_leb. apply Z.leb_gt. rewrite Hn. unfold fifoIndex, u16.
      destruct frames as [|f frames].
      - simpl in *. lia.
      - specialize (Hfull ltac:(discriminate)).
        rewrite Z.mod_small by lia. lia. }
  cbn [negb]. rewrite Hcrc.
  set (c := crc16_of msg).
  set (tx2 := MatrixTransmitter_AddByte c (MatrixTransmitter_AddByte (Z.shiftr c 8) tx)).
  assert (Hinv2 : tx_inv tx0 ((msg ++ [u8 (Z.shiftr c 8)]) ++ [u8 c]) tx2)
    by (apply tx_inv_AddByte, tx_inv_AddByte; exact Hinv).
  rewrite <- app_assoc in Hinv2. cbn [app] in Hinv2.
  destruct Hinv2 as (frames2 & He2 & Hc2 & Hall2 & _ & _ & Hlen2 & _ & Hne2 & Hid2).
  rewrite Hbody in Hall2.
  specialize (Hne2 ltac:(destruct msg; discriminate)).
  assert (Hpos : (1 <= length (fifo tx2))%nat)
    by (destruct (fifo tx2); [congruence | simpl; lia]).
  destruct (Nat.le_gt_cases (length (fifo tx2)) 8) as [Hshort|Hlong].
  - destruct (FinishMessage_loop_short (S (length (fifo tx2))) false tx2)
      as (tx' & Hloop & He' & _ & _); [lia | lia |].
    exists tx', frames2, (frame_of (with_type (last_type false) tx2) (length (fifo tx2))).
    split; [exact Hloop|].
    split; [rewrite He', He2, <- app_assoc; reflexivity|].
    split.
    { intros ->. simpl in Hc2. apply (f_equal (@length Z)) in Hc2.
      rewrite length_app in Hc2. simpl in Hc2. lia. }
    split; [exact Hall2|].
    split; [reflexivity|].
    split.
    { unfold same_header, frame_of, with_type, set_frameType.
      cbn [tx_id idAddress id_destinationAddress id_sourceAddress id_isEvent].
      rewrite Hid2. repeat split. }
    rewrite map_app, concat_app. unfold frame_of at 1. cbn [map concat tx_data].
    change (fifo (with_type (last_type false) tx2)) with (fifo tx2).
    rewrite firstn_all, app_nil_r. exact Hc2.
  - destruct (FinishMessage_loop_long (S (length (fifo tx2))) false tx2)
      as (tx' & Hloop & f1 & f2 & He' & Hd & Hf1 & Hty & Hh & _); [lia | lia |].
    exists tx', (frames2 ++ [f1]), f2.
    split; [exact Hloop|].
    split; [rewrite He', He2, <- !app_assoc; reflexivity|].
    split; [intros H0; apply app_eq_nil in H0; destruct H0; discriminate|].
    split.
    { apply Forall_app. split; [exact Hall2|]. constructor; [|constructor].
      rewrite Hid2, Hbody in Hf1. exact Hf1. }
    split; [exact Hty|].
    split; [rewrite Hid2 in Hh; exact Hh|].
    rewrite !map_app, !concat_app. cbn [map concat]. rewrite !app_nil_r.
    rewrite <- app_assoc, Hd. exact Hc2.
Qed.

(** The state [StartMessageWithAddressAndKey] resets to before it adds the
    event-index byte. *)
Definition is_negotiation_key (key : Z) : bool :=
  (key =? KeyRequestAddress) || (key =? KeyResponseAddressInUse).

Definition is_event_key (key : Z) : bool :=
  negb (is_negotiation_key key)
  && ((KeyPrefix_InputStatus =? Key_GetPrefix key)
      || (KeyPrefix_OutputStatus =? Key_GetPrefix key)).

Definition start_id (own dest key : Z) : ECCONET_CAN_FRAME_ID :=
  mkFrameId 0 (Z.land dest 0x7F) (if is_event_key key then 1 else 0) 0
            (Z.land own 0x7F) MATRIX_MESSAGE_FRAME_TYPE_BODY.

Definition fresh_tx (id : ECCONET_CAN_FRAME_ID) (tx : MATRIX_TRANSMITTER)
  : MATRIX_TRANSMITTER :=
  mkTransmitter id [] 0 0 (frameIndex tx) (streamBuffer tx)
                (streamBufferWriteIndex tx) (streamBufferReadIndex tx) (enqueued tx).

(** Byte 0 of a message, and the event index after the message is started. *)
Definition start_byte (key eventIndex : Z) : Z :=
  if is_negotiation_key key then 0 else fst (Matrix_GetEventIndex eventIndex).

Definition start_index (key eventIndex : Z) : Z :=
  if is_negotiation_key key then eventIndex else snd (Matrix_GetEventIndex eventIndex).

Lemma StartMessage_spec own ei dest key tx :
  MatrixTransmitter_StartMessageWithAddressAndKey own ei dest key tx =
  (MatrixTransmitter_AddByte (start_byte key ei) (fresh_tx (start_id own dest key) tx),
   start_index key ei).
Proof.
  unfold MatrixTransmitter_StartMessageWithAddressAndKey, start_byte, start_index,
    start_id, is_event_key, is_negotiation_key, fresh_tx.
  destruct ((key =? KeyRequestAddress) || (key =? KeyResponseAddressInUse));
    [reflexivity|].
  cbn [negb andb].
  destruct ((KeyPrefix_InputStatus =? Key_GetPrefix key)
            || (KeyPrefix_OutputStatus =? Key_GetPrefix key));
    destruct (Matrix_GetEventIndex ei); reflexivity.
Qed.

(** The whole life of one message: start, add [body], finish. *)
Definition transmit (own ei dest key : Z) (body : list Z) (tx : MATRIX_TRANSMITTER)
  : MATRIX_TRANSMITTER :=
  snd (MatrixTransmitter_FinishMessage
         (add_bytes body
            (fst (MatrixTransmitter_StartMessageWithAddressAndKey own ei dest key tx)))).

Definition message_bytes (key ei : Z) (body : list Z) : list Z :=
  map u8 (start_byte key ei :: body).

Lemma transmit_inv own ei dest key body tx :
  tx_inv (fresh_tx (start_id own dest key) tx) (message_bytes key ei body)
    (add_bytes body
       (fst (MatrixTransmitter_StartMessageWithAddressAndKey own ei dest key tx))).
Proof.
  rewrite StartMessage_spec. cbn [fst].
  change (message_bytes key ei body)
    with (([] ++ [u8 (start_byte key ei)]) ++ map u8 body).
  apply tx_inv_add_bytes, tx_inv_AddByte, tx_inv_init; reflexivity.
Qed.

Definition frame_type (f : MATRIX_TX_CAN_FRAME) : Z := id_frameType (tx_id f).

(** Where the bound on the message length in the lemmas below comes from:
    at 65544 bytes the 16-bit [numBytesSent] counter has wrapped to 0 when
    the message is finished, no CRC is appended and the closing frame is
    typed SINGLE.  No caller builds a message of that length. *)
Lemma FinishMessage_wraps_at_65544 :
  let tx0 := mkTransmitter (mkFrameId 0 0 0 0 0 0) [] 0 0 0 [] 0 0 [] in
  let body := repeat 0 (Z.to_nat 65543) in
  let tx' := transmit 5 1 0 KeyNull body tx0 in
  Z.of_nat (length (message_bytes KeyNull 1 body)) = 65544
  /\ Z.of_nat (length (concat (map tx_data (enqueued tx')))) = 65544
  /\ frame_type (last (enqueued tx') (mkTxFrame (mkFrameId 0 0 0 0 0 0) 0 []))
     = MATRIX_MESSAGE_FRAME_TYPE_SINGLE.
Proof. vm_compute. repeat split. Qed.

(** The frames of one message, in the order [SendFrame] is called: a
    message of at most 8 bytes gives exactly one SINGLE frame carrying the
    message bytes and no CRC; a longer message gives one or more BODY frames
    followed by a LAST frame whose concatenated payload [B] is the message
    followed by the big-endian CRC-16 of the message, so that
    [Matrix_IsMessageChecksumValid] accepts [B]. *)
Lemma transmit_frames (own ei dest key : Z) (body : list Z)
    (tx : MATRIX_TRANSMITTER) :
  let msg := message_bytes key ei body in
  let tx' := transmit own ei dest key body tx in
  (Z.of_nat (length msg) <= 8 ->
     exists f,
       enqueued tx' = enqueued tx ++ [f]
       /\ frame_type f = MATRIX_MESSAGE_FRAME_TYPE_SINGLE
       /\ tx_data f = msg)
  /\
  (8 < Z.of_nat (length msg) < 65544 ->
     exists bodyFrames lastFrame,
       enqueued tx' = enqueued tx ++ bodyFrames ++ [lastFrame]
       /\ bodyFrames <> []
       /\ Forall (fun f => frame_type f = MATRIX_MESSAGE_FRAME_TYPE_BODY) bodyFrames
       /\ frame_type lastFrame = MATRIX_MESSAGE_FRAME_TYPE_LAST
       /\ let B := concat (map tx_data (bodyFrames ++ [lastFrame])) in
          let c := Matrix_ComputeCRC16 msg (length msg) in
          B = msg ++ [u8 (Z.shiftr c 8); u8 c]
          /\ Matrix_IsMessageChecksumValid B (length B) = Some true).
Proof.
  intros msg tx'. pose proof (transmit_inv own ei dest key body tx) as Hinv.
  fold msg in Hinv. split; intros Hlen.
  - destruct (finish_single _ _ _ Hinv) as (tx1 & Hfin & He & _).
    { unfold msg, message_bytes. discriminate. }
    { lia. }
    eexists. unfold tx', transmit. rewrite Hfin. cbn [snd].
    split; [exact He|]. split; reflexivity.
  - destruct (finish_multi _ _ _ Hinv Hlen eq_refl)
      as (tx1 & bodyFrames & lastFrame & Hfin & He & Hne & Hall & Hty & _ & Hcat).
    exists bodyFrames, lastFrame. unfold tx', transmit. rewrite Hfin. cbn [snd].
    split; [exact He|]. split; [exact Hne|].
    split.
    { eapply Forall_impl; [|exact Hall]. intros f (Hf & _). exact Hf. }
    split; [exact Hty|].
    cbv zeta.
    replace (Matrix_ComputeCRC16 msg (length msg)) with (crc16_of msg)
      by (rewrite <- (ComputeCRC16_crc16_of msg []), app_nil_r; reflexivity).
    split; [exact Hcat|].
    rewrite Hcat. apply checksum_valid_suffix.
Qed.

(** ** Token send path *)

Lemma Key_ValueSize_range k : 0 <= Key_ValueSize k <= 4.
Proof.
  unfold Key_ValueSize.
  repeat match goal with
         | |- context [if ?c then _ else _] => destruct c
         end; lia.
Qed.

(** The value bytes the loop [while (valueSize--)] passes on, most
    significant first. *)
Fixpoint value_bytes (valueSize : nat) (value : Z) : list Z :=
  match valueSize with
  | O => []
  | S n => Z.shiftr value (8 * Z.of_nat n) :: value_bytes n value
  end.

Definition token_wire_size (key : Z) : Z :=
  if KeyPrefix_PatternSync =? Key_GetPrefix key then 1 else Key_ValueSize key.

Definition token_bytes (token : TOKEN) : list Z :=
  [Z.shiftr (key token) 8; key token]
  ++ value_bytes (Z.to_nat (token_wire_size (key token))) (value token).

Lemma AddValueBytes_add_bytes n v : forall tx,
  AddValueBytes n v tx = add_bytes (value_bytes n v) tx.
Proof. induction n; intros tx; simpl; auto. Qed.

Lemma AddToken_add_bytes token tx :
  MatrixTransmitter_AddToken token tx = add_bytes (token_bytes token) tx.
Proof.
  unfold MatrixTransmitter_AddToken, token_bytes, token_wire_size.
  rewrite AddValueBytes_add_bytes. reflexivity.
Qed.

Lemma token_bytes_length token : (length (token_bytes token) <= 6)%nat.
Proof.
  unfold token_bytes, token_wire_size. rewrite length_app. cbn [length].
  assert (H : forall n v, length (value_bytes n v) = n)
    by (induction n; intros; simpl; auto).
  rewrite H. pose proof (Key_ValueSize_range (key token)).
  destruct (KeyPrefix_PatternSync =? Key_GetPrefix (key token)); simpl; lia.
Qed.

Lemma AddByte_frameIndex_small b tx :
  (length (fifo tx) < 15)%nat ->
  frameIndex (MatrixTransmitter_AddByte b tx) = frameIndex tx
  /\ length (fifo (MatrixTransmitter_AddByte b tx)) = S (length (fifo tx)).
Proof.
  intros H. unfold MatrixTransmitter_AddByte, fifoIndex, CAN_TX_STREAM_FIFO_SIZE,
    CAN_FRAME_MAX_NUM_BYTES. cbn [fifo].
  replace (2 * 8 <=? Z.of_nat (length (fifo tx ++ [u8 b]))) with false.
  - cbn [frameIndex fifo]. rewrite length_app. simpl. split; [reflexivity | lia].
  - symmetry. apply Z.leb_gt. rewrite length_app. simpl. lia.
Qed.

Lemma add_bytes_frameIndex_small bytes : forall tx,
  (length (fifo tx) + length bytes < 16)%nat ->
  frameIndex (add_bytes bytes tx) = frameIndex tx.
Proof.
  induction bytes as [|b bytes IH]; intros tx H; simpl in *; [reflexivity|].
  destruct (AddByte_frameIndex_small b tx) as [Hf Hl]; [lia|].
  rewrite IH by lia. exact Hf.
Qed.

(** The frame enqueued for one token message. *)
Definition token_frame (own ei : Z) (token : TOKEN) (frameIndex : Z)
  : MATRIX_TX_CAN_FRAME :=
  let msg := message_bytes (key token) ei (token_bytes token) in
  mkTxFrame
    (mkFrameId frameIndex (Z.land (address token) 0x7F)
               (if is_event_key (key token) then 1 else 0) 0 (Z.land own 0x7F)
               MATRIX_MESSAGE_FRAME_TYPE_SINGLE)
    (Z.of_nat (length msg)) msg.

Lemma send_token_once_spec token m :
  let own := Matrix_GetCanAddress (MatrixCanAddress m) in
  let m' := send_token_once token m in
  enqueued (MatrixTransmitter m') =
    enqueued (MatrixTransmitter m)
    ++ [token_frame own (MatrixEventIndex m) token (frameIndex (MatrixTransmitter m))]
  /\ frameIndex (MatrixTransmitter m') =
       Z.land (frameIndex (MatrixTransmitter m) + 1) MATRIX_CAN_ID_FRAME_INDEX_MASK
  /\ MatrixEventIndex m' = start_index (key token) (MatrixEventIndex m)
  /\ MatrixCanAddress m' = MatrixCanAddress m
  /\ systemTime m' = systemTime m /\ nextStatusTime m' = nextStatusTime m.
Proof.
  intros own m'. unfold m', send_token_once. fold own.
  pose proof (transmit_inv own (MatrixEventIndex m) (address token) (key token)
                (token_bytes token) (MatrixTransmitter m)) as Hinv.
  pose proof (StartMessage_spec own (MatrixEventIndex m) (address token) (key token)
                (MatrixTransmitter m)) as Hs.
  destruct (MatrixTransmitter_StartMessageWithAddressAndKey own (MatrixEventIndex m)
              (address token) (key token) (MatrixTransmitter m)) as [tx1 ei1].
  injection Hs as Htx1 Hei1. cbn [fst] in Hinv.
  rewrite AddToken_add_bytes.
  pose proof (token_bytes_length token) as Hlen.
  destruct (finish_single _ _ _ Hinv) as (tx' & Hfin & He & Hfi).
  { unfold message_bytes. discriminate. }
  { unfold message_bytes. cbn [map length]. rewrite length_map. lia. }
  rewrite Hfin. cbn [snd MatrixTransmitter MatrixEventIndex MatrixCanAddress
                     systemTime nextStatusTime].
  assert (Hfi1 : frameIndex (add_bytes (token_bytes token) tx1)
                 = frameIndex (MatrixTransmitter m)).
  { rewrite Htx1. change (MatrixTransmitter_AddByte ?b ?t) with (add_bytes [b] t).
    unfold add_bytes. rewrite <- fold_left_app.
    fold (add_bytes ([start_byte (key token) (MatrixEventIndex m)] ++ token_bytes token)
            (fresh_tx (start_id own (address token) (key token)) (MatrixTransmitter m))).
    rewrite add_bytes_frameIndex_small; [reflexivity|].
    cbn [fresh_tx fifo length app]. lia. }
  split.
  { rewrite He. cbn [fresh_tx enqueued idAddress]. f_equal. f_equal.
    unfold token_frame, start_id.
    cbn [id_frameIndex id_destinationAddress id_isEvent id_reserved id_sourceAddress].
    rewrite Hfi1, Z.lor_0_l. reflexivity. }
  split; [rewrite Hfi, Hfi1; reflexivity|].
  repeat split. exact Hei1.
Qed.

Lemma NextEventIndex_nonzero e : Matrix_NextEventIndex e <> 0.
Proof.
  unfold Matrix_NextEventIndex.
  destruct (0 =? u16 (e + 1)) eqn:E.
  - apply Z.eqb_eq in E. rewrite <- E. vm_compute. discriminate.
  - apply Z.eqb_neq in E. congruence.
Qed.

Lemma GetEventIndex_nonzero e : e <> 0 -> Matrix_GetEventIndex e = (u8 e, e).
Proof.
  intros H. unfold Matrix_GetEventIndex.
  destruct (0 =? e) eqn:E; [apply Z.eqb_eq in E; congruence | reflexivity].
Qed.

Lemma u8_u8 z : u8 (u8 z) = u8 z.
Proof. unfold u8. apply Z.mod_mod. lia. Qed.

(** The bump of [Matrix_NextEventIndex] on a 16-bit state, written out. *)
Lemma NextEventIndex_value e :
  0 <= e < 65536 ->
  Matrix_NextEventIndex e = if e =? 65535 then 1 else e + 1.
Proof.
  intros He. unfold Matrix_NextEventIndex, u16.
  destruct (Z.eqb_spec e 65535) as [->|Hne]; [reflexivity|].
  rewrite Z.mod_small by lia.
  destruct (Z.eqb_spec 0 (e + 1)); [lia | reflexivity].
Qed.

Lemma input_status_not_negotiation k :
  Key_GetPrefix k = KeyPrefix_InputStatus -> is_negotiation_key k = false.
Proof.
  intros H. unfold is_negotiation_key.
  destruct (k =? KeyRequestAddress) eqn:E1.
  { apply Z.eqb_eq in E1. subst k. vm_compute in H. discriminate. }
  destruct (k =? KeyResponseAddressInUse) eqn:E2.
  { apply Z.eqb_eq in E2. subst k. vm_compute in H. discriminate. }
  reflexivity.
Qed.

Definition next_frame_index (i : Z) : Z := Z.land (i + 1) MATRIX_CAN_ID_FRAME_INDEX_MASK.

(** The frames that [Matrix_PrivateSendCanToken] hands to [SendFrame], in
    the order of the calls, and the event index it leaves. *)
Lemma PrivateSendCanToken_frames (token : TOKEN) (m : MATRIX_STATE) :
  Matrix_IsCanAddressValid (MatrixCanAddress m) = true
  \/ key token = KeyRequestAddress ->
  let own := Matrix_GetCanAddress (MatrixCanAddress m) in
  let m' := snd (Matrix_PrivateSendCanToken token m) in
  let fi := frameIndex (MatrixTransmitter m) in
  fst (Matrix_PrivateSendCanToken token m) = 0
  /\ (Key_GetPrefix (key token) = KeyPrefix_InputStatus ->
        let e := Matrix_NextEventIndex (MatrixEventIndex m) in
        MatrixEventIndex m' = e
        /\ enqueued (MatrixTransmitter m') =
             enqueued (MatrixTransmitter m)
             ++ [token_frame own e token fi;
                 token_frame own e token (next_frame_index fi);
                 token_frame own e token (next_frame_index (next_frame_index fi))]
        /\ tx_data (token_frame own e token fi) = u8 e :: map u8 (token_bytes token))
  /\ (Key_GetPrefix (key token) <> KeyPrefix_InputStatus ->
        MatrixEventIndex m' = start_index (key token) (MatrixEventIndex m)
        /\ enqueued (MatrixTransmitter m') =
             enqueued (MatrixTransmitter m)
             ++ [token_frame own (MatrixEventIndex m) token fi]).
Proof.
  intros Hpre own m' fi.
  unfold m', Matrix_PrivateSendCanToken.
  replace (negb (Matrix_IsCanAddressValid (MatrixCanAddress m))
           && negb (key token =? KeyRequestAddress)) with false.
  2:{ symmetry. destruct Hpre as [H|H].
      - rewrite H. reflexivity.
      - rewrite H, Z.eqb_refl. apply andb_false_r. }
  cbn [fst snd]. split; [reflexivity|]. split.
  - intros Hin. set (e := Matrix_NextEventIndex (MatrixEventIndex m)).
    rewrite Hin, Z.eqb_refl.
    set (m1 := Matrix_DelayStatusUpdate15mS
                 (mkState (systemTime m) (nextStatusTime m) e
                    (MatrixCanAddress m) (MatrixTransmitter m))).
    assert (H1 : MatrixEventIndex m1 = e /\ MatrixCanAddress m1 = MatrixCanAddress m
                 /\ MatrixTransmitter m1 = MatrixTransmitter m).
    { unfold m1, Matrix_DelayStatusUpdate15mS.
      cbn [systemTime nextStatusTime MatrixEventIndex MatrixCanAddress MatrixTransmitter].
      destruct (15 >? i32 (nextStatusTime m - systemTime m)); repeat split. }
    destruct H1 as (He1 & Hca1 & Htx1).
    assert (Hstart : start_index (key token) e = e).
    { unfold start_index. rewrite (input_status_not_negotiation _ Hin).
      rewrite GetEventIndex_nonzero by apply NextEventIndex_nonzero. reflexivity. }
    cbn [send_token_times].
    destruct (send_token_once_spec token m1) as (Ha1 & Hb1 & Hc1 & Hd1 & _).
    set (m2 := send_token_once token m1) in *.
    destruct (send_token_once_spec token m2) as (Ha2 & Hb2 & Hc2 & Hd2 & _).
    set (m3 := send_token_once token m2) in *.
    destruct (send_token_once_spec token m3) as (Ha3 & Hb3 & Hc3 & Hd3 & _).
    set (m4 := send_token_once token m3) in *.
    rewrite He1, Hstart in Hc1. rewrite Hc1, Hstart in Hc2. rewrite Hc2, Hstart in Hc3.
    rewrite Hd1, Hca1 in Hd2. rewrite Hd2 in Hd3.
    split; [exact Hc3|]. split.
    + rewrite Ha3, Ha2, Ha1, Hd2, Hd1, Hca1, Hc2, Hc1, He1, Hb2, Hb1, Htx1.
      rewrite <- !app_assoc. reflexivity.
    + unfold token_frame, message_bytes, start_byte. cbn [tx_data map].
      rewrite (input_status_not_negotiation _ Hin).
      rewrite GetEventIndex_nonzero by apply NextEventIndex_nonzero.
      cbn [fst]. rewrite u8_u8. reflexivity.
  - intros Hnin.
    replace (KeyPrefix_InputStatus =? Key_GetPrefix (key token)) with false
      by (symmetry; apply Z.eqb_neq; congruence).
    cbn [send_token_times].
    destruct (send_token_once_spec token m) as (Ha1 & _ & Hc1 & _).
    split; [exact Hc1 | exact Ha1].
Qed.

(** ** Codec *)

(** *** Facts about bytes by enumeration *)

Fixpoint all_below (n : nat) (P : Z -> bool) : bool :=
  match n with
  | O => true
  | S n' => P (Z.of_nat n') && all_below n' P
  end.

Lemma all_below_spec n P :
  all_below n P = true -> forall b, 0 <= b < Z.of_nat n -> P b = true.
Proof.
  induction n; intros H b Hb; [lia|].
  simpl in H. apply andb_true_iff in H. destruct H as [H1 H2].
  destruct (Z.eq_dec b (Z.of_nat n)) as [->|Hne]; [exact H1|].
  apply IHn; [exact H2 | lia].
Qed.

Lemma byte_forall (P : Z -> bool) :
  all_below 256 P = true -> forall b, 0 <= b < 256 -> P b = true.
Proof. intros H b Hb. apply (all_below_spec 256 P H). simpl. lia. Qed.

Lemma u8_range z : 0 <= u8 z < 256.
Proof. unfold u8. apply Z.mod_pos_bound. lia. Qed.

(** Big-endian reassembly of a 16-bit quantity. *)
Lemma be16_roundtrip k :
  0 <= k < 65536 ->
  u16 (Z.lor (u16 (Z.shiftl (u8 (Z.shiftr k 8)) 8)) (u8 k)) = k.
Proof.
  intros Hk.
  assert (Hhi : 0 <= u8 (Z.shiftr k 8) < 256) by apply u8_range.
  assert (Hsh : Z.shiftl (u8 (Z.shiftr k 8)) 8 = u8 (Z.shiftr k 8) * 256)
    by (rewrite Z.shiftl_mul_pow2 by lia; reflexivity).
  unfold u16 at 2. rewrite Hsh, Z.mod_small by lia. rewrite <- Hsh.
  rewrite lor_shiftl_add by (try lia; apply u8_range).
  unfold u8, u16. rewrite Z.shiftr_div_pow2 by lia.
  change (2 ^ 8) with 256. Z.div_mod_to_equations. lia.
Qed.

(** *** Value bytes *)

Definition cong32 (x y : Z) : Prop := (x - y) mod 4294967296 = 0.

(** A conversion to a 32-bit type: a representative modulo 2^32. *)
Definition wrap32 (wrap : Z -> Z) : Prop :=
  (forall x, cong32 (wrap x) x) /\ (forall x y, cong32 x y -> wrap x = wrap y).

Lemma wrap32_i32 : wrap32 i32.
Proof.
  split; unfold cong32, i32; intros; Z.div_mod_to_equations; lia.
Qed.

Lemma wrap32_u32 : wrap32 u32.
Proof.
  split; unfold cong32, u32; intros; Z.div_mod_to_equations; lia.
Qed.

Lemma lor_low_byte y b : y mod 256 = 0 -> 0 <= b < 256 -> Z.lor y b = y + b.
Proof.
  intros Hy Hb.
  assert (E : y = Z.shiftl (y / 256) 8).
  { rewrite Z.shiftl_mul_pow2 by lia. change (2 ^ 8) with 256.
    Z.div_mod_to_equations. lia. }
  rewrite E at 1. rewrite lor_shiftl_add by (change (2 ^ 8) with 256; lia).
  change (2 ^ 8) with 256. Z.div_mod_to_equations. lia.
Qed.

Lemma shift_in_byte wrap acc b :
  wrap32 wrap -> 0 <= b < 256 ->
  cong32 (wrap (Z.lor (wrap (Z.shiftl acc 8)) b)) (acc * 256 + b).
Proof.
  intros [Hrep Hcong] Hb.
  pose proof (Hrep (Z.shiftl acc 8)) as H1.
  rewrite Z.shiftl_mul_pow2 in * by lia. change (2 ^ 8) with 256 in *.
  assert (Hm : wrap (acc * 256) mod 256 = 0).
  { unfold cong32 in H1. Z.div_mod_to_equations. lia. }
  rewrite lor_low_byte by assumption.
  pose proof (Hrep (wrap (acc * 256) + b)) as H2.
  unfold cong32 in *. Z.div_mod_to_equations. lia.
Qed.

Lemma read_value_output wrap (Hw : wrap32 wrap) n : forall acc V more,
  exists r,
    read_value wrap n acc (output_value_bytes n V ++ more) = Some (r, more)
    /\ cong32 r (acc * 256 ^ Z.of_nat n + V mod 256 ^ Z.of_nat n)
    /\ (wrap acc = acc -> wrap r = r).
Proof.
  induction n; intros acc V more.
  - exists acc. simpl. split; [reflexivity|]. split; [|auto].
    unfold cong32. rewrite Z.mod_1_r. replace (acc - (acc * 1 + 0)) with 0 by lia.
    reflexivity.
  - cbn [output_value_bytes app read_value read_byte].
    set (b := u8 (Z.shiftr V (8 * Z.of_nat n))).
    destruct (IHn (wrap (Z.lor (wrap (Z.shiftl acc 8)) b)) V more)
      as (r & Hr & Hc & Hid).
    exists r. split; [exact Hr|]. split.
    + pose proof (shift_in_byte wrap acc b Hw (u8_range _)) as Hs.
      assert (Hb : b = (V / 256 ^ Z.of_nat n) mod 256).
      { unfold b, u8. rewrite Z.shiftr_div_pow2 by lia.
        rewrite Z.pow_mul_r by lia. reflexivity. }
      rewrite Nat2Z.inj_succ, Z.pow_succ_r by lia.
      rewrite (Z.mul_comm 256 (256 ^ Z.of_nat n)).
      rewrite Z.rem_mul_r by (try lia; apply Z.pow_nonzero; lia).
      rewrite <- Hb.
      assert (Hp : 0 < 256 ^ Z.of_nat n) by (apply Z.pow_pos_nonneg; lia).
      assert (Hgoal : forall p a' vm, 0 < p ->
                cong32 r (a' * p + vm) -> cong32 a' (acc * 256 + b) ->
                cong32 r (acc * (p * 256) + (vm + p * b))).
      { clear. intros p a' vm Hp Hc Hs. unfold cong32 in *.
        apply Z.mod_divide in Hc; [|lia]. apply Z.mod_divide in Hs; [|lia].
        apply Z.mod_divide; [lia|].
        destruct Hc as [c1 Hc], Hs as [c2 Hs].
        exists (c1 + c2 * p). nia. }
      apply (Hgoal _ _ _ Hp Hc Hs).
    + intros _. apply Hid. destruct Hw as [Hrep Hcong]. apply Hcong. apply Hrep.
Qed.

Lemma read_value_i32 n V more :
  read_value i32 n 0 (output_value_bytes n V ++ more)
  = Some (i32 (V mod 256 ^ Z.of_nat n), more).
Proof.
  destruct (read_value_output i32 wrap32_i32 n 0 V more) as (r & Hr & Hc & Hid).
  rewrite Hr. f_equal. f_equal. rewrite <- Hid by reflexivity.
  apply wrap32_i32. exact Hc.
Qed.

Lemma read_value_u32 n V more :
  read_value u32 n 0 (output_value_bytes n V ++ more)
  = Some (u32 (V mod 256 ^ Z.of_nat n), more).
Proof.
  destruct (read_value_output u32 wrap32_u32 n 0 V more) as (r & Hr & Hc & Hid).
  rewrite Hr. f_equal. f_equal. rewrite <- Hid by reflexivity.
  apply wrap32_u32. exact Hc.
Qed.

(** For the widths that occur (0..4 bytes) the [uint32_t] casts on the way
    do not change the decoded value. *)
Lemma wire_value_casts n V :
  0 <= n <= 4 ->
  i32 (u32 (u32 V mod 256 ^ n)) = i32 (V mod 256 ^ n)
  /\ i32 (u32 V mod 256 ^ n) = i32 (V mod 256 ^ n).
Proof.
  intros Hn.
  assert (C : n = 0 \/ n = 1 \/ n = 2 \/ n = 3 \/ n = 4) by lia.
  unfold i32, u32.
  destruct C as [->|[->|[->|[->| ->]]]];
    match goal with |- context [256 ^ ?k] =>
      let v := eval vm_compute in (256 ^ k) in change (256 ^ k) with v end;
    split; Z.div_mod_to_equations; lia.
Qed.

(** *** The binary-repeat bitmap *)

(** The bitmap loop of the compressor on the flags "value is non-zero". *)
Fixpoint pack_bits (bit byte : Z) (bs : list bool) : list Z :=
  match bs with
  | [] => if bit =? 0 then [] else [byte]
  | b :: bs' =>
      let byte := if b then u8 (Z.lor byte (Z.shiftl 1 bit)) else byte in
      if bit + 1 >=? 8 then byte :: pack_bits 0 0 bs'
      else pack_bits (bit + 1) byte bs'
  end.

(** The tokens of a binary series as the decompressor emits them. *)
Fixpoint bit_tokens (key V address : Z) (bs : list bool) : list TOKEN :=
  match bs with
  | [] => []
  | b :: bs' =>
      mkTOKEN 0 address key (if b then i32 V else 0)
      :: bit_tokens (u16 (key + 1)) V address bs'
  end.

Lemma set_bit acc j :
  0 <= j <= 7 -> 0 <= acc < 2 ^ j -> u8 (Z.lor acc (Z.shiftl 1 j)) = acc + 2 ^ j.
Proof.
  intros Hj Ha. rewrite Z.lor_comm, lor_shiftl_add by lia.
  assert (2 ^ j <= 2 ^ 7) by (apply Z.pow_le_mono_r; lia).
  change (2 ^ 7) with 128 in *. unfold u8. rewrite Z.mod_small; lia.
Qed.

Lemma bit_of_byte B j acc (b : bool) :
  0 <= j <= 7 -> 0 <= acc < 2 ^ j ->
  B mod 2 ^ (j + 1) = acc + (if b then 2 ^ j else 0) ->
  negb (Z.land (Z.shiftr B j) 1 =? 0) = b /\ B mod 2 ^ j = acc.
Proof.
  intros Hj Ha HB.
  change 1 with (Z.ones 1) at 1. rewrite Z.land_ones by lia. change (2 ^ 1) with 2.
  rewrite Z.shiftr_div_pow2 by lia.
  assert (C : j = 0 \/ j = 1 \/ j = 2 \/ j = 3 \/ j = 4 \/ j = 5 \/ j = 6 \/ j = 7) by lia.
  destruct C as [->|[->|[->|[->|[->|[->|[->| ->]]]]]]];
    cbn [Z.add Pos.add Pos.succ] in HB;
    repeat match goal with
           | H : context [2 ^ ?k] |- _ =>
               let v := eval vm_compute in (2 ^ k) in change (2 ^ k) with v in H
           | |- context [2 ^ ?k] =>
               let v := eval vm_compute in (2 ^ k) in change (2 ^ k) with v
           end;
    destruct b;
    (split; [ match goal with
              | |- negb (?x =? 0) = true =>
                  assert (x = 1) as -> by (Z.div_mod_to_equations; lia); reflexivity
              | |- negb (?x =? 0) = false =>
                  assert (x = 0) as -> by (Z.div_mod_to_equations; lia); reflexivity
              end
            | Z.div_mod_to_equations; lia ]).
Qed.

Lemma decompress_binary_step n bi F key V address bytes :
  decompress_binary (S n) bi F key V address bytes =
  (let bitFlags := Z.shiftr F 1 in
   let bitIndex := u16 (bi + 1) in
   let emit bitIndex bitFlags bytes :=
     let '(ok, tokens, rest) :=
       decompress_binary n bitIndex bitFlags (u16 (key + 1)) V address bytes in
     (ok,
      mkTOKEN 0 address key (if negb (Z.land bitFlags 1 =? 0) then i32 V else 0)
      :: tokens, rest) in
   if bitIndex >=? 8 then
     match read_byte bytes with
     | None => (false, [], bytes)
     | Some (b, bytes') => emit 0 b bytes'
     end
   else emit bitIndex bitFlags bytes).
Proof. reflexivity. Qed.

Lemma bitmap_roundtrip V address bs :
  (forall j acc, 1 <= j <= 7 -> 0 <= acc < 2 ^ j ->
     exists B rest,
       pack_bits j acc bs = B :: rest /\ B mod 2 ^ j = acc
       /\ forall key more,
            decompress_binary (length bs) (j - 1) (Z.shiftr B (j - 1)) key V address
                              (rest ++ more)
            = (true, bit_tokens key V address bs, more))
  /\
  (forall bi F key more, 7 <= bi <= 8 ->
     decompress_binary (length bs) bi F key V address (pack_bits 0 0 bs ++ more)
     = (true, bit_tokens key V address bs, more)).
Proof.
  induction bs as [|b bs [IHmid IHstart]].
  - split.
    + intros j acc Hj Ha. exists acc, []. cbn [pack_bits].
      replace (j =? 0) with false by (symmetry; apply Z.eqb_neq; lia).
      split; [reflexivity|]. split; [apply Z.mod_small; lia|].
      intros key more. reflexivity.
    + intros bi F key more Hbi. reflexivity.
  - split.
    + intros j acc Hj Ha. cbn [pack_bits].
      set (acc' := if b then u8 (Z.lor acc (Z.shiftl 1 j)) else acc).
      assert (Hacc' : acc' = acc + (if b then 2 ^ j else 0)).
      { unfold acc'. destruct b; [apply set_bit; lia | lia]. }
      assert (Hpow : 2 ^ (j + 1) = 2 * 2 ^ j)
        by (rewrite Z.pow_add_r by lia; change (2 ^ 1) with 2; lia).
      destruct (j + 1 >=? 8) eqn:E.
      * rewrite Z.geb_leb in E. apply Z.leb_le in E.
        assert (j = 7) as -> by lia. change (7 - 1) with 6.
        exists acc', (pack_bits 0 0 bs). split; [reflexivity|].
        change (2 ^ 7) with 128 in *.
        assert (Hmod : acc' mod 2 ^ (7 + 1) = acc + (if b then 2 ^ 7 else 0)).
        { change (2 ^ (7 + 1)) with 256. change (2 ^ 7) with 128.
          rewrite Z.mod_small; [exact Hacc' | destruct b; lia]. }
        destruct (bit_of_byte acc' 7 acc b ltac:(lia) ltac:(change (2 ^ 7) with 128; lia) Hmod)
          as [Hbit Hlow].
        split; [exact Hlow|].
        intros key more. cbn [length]. rewrite decompress_binary_step. cbv zeta.
        rewrite Z.shiftr_shiftr by lia. change (6 + 1) with 7.
        change (u16 7 >=? 8) with false. cbv iota. change (u16 7) with 7.
        rewrite (IHstart 7 (Z.shiftr acc' 7) (u16 (key + 1)) more) by lia.
        rewrite Hbit. reflexivity.
      * rewrite Z.geb_leb in E. apply Z.leb_gt in E.
        destruct (IHmid (j + 1) acc') as (B & rest & Hp & Hm & Hdec).
        { lia. }
        { rewrite Hacc', Hpow. destruct b; lia. }
        exists B, rest. split; [exact Hp|].
        rewrite Hacc' in Hm.
        destruct (bit_of_byte B j acc b ltac:(lia) Ha Hm) as [Hbit Hlow].
        split; [exact Hlow|].
        intros key more. cbn [length]. rewrite decompress_binary_step. cbv zeta.
        rewrite Z.shiftr_shiftr by lia.
        replace (j - 1 + 1) with j by lia.
        unfold u16 at 1. rewrite (Z.mod_small j) by lia.
        replace (j >=? 8) with false
          by (symmetry; rewrite Z.geb_leb; apply Z.leb_gt; lia).
        specialize (Hdec (u16 (key + 1)) more).
        replace (j + 1 - 1) with j in Hdec by lia.
        unfold u16 at 1. rewrite (Z.mod_small j) by lia.
        rewrite Hdec, Hbit. reflexivity.
    + intros bi F key more Hbi. cbn [pack_bits].
      set (acc' := if b then u8 (Z.lor 0 (Z.shiftl 1 0)) else 0).
      assert (Hacc' : acc' = if b then 1 else 0) by (unfold acc'; destruct b; reflexivity).
      change (0 + 1 >=? 8) with false. cbv iota. change (0 + 1) with 1.
      destruct (IHmid 1 acc') as (B & rest & Hp & Hm & Hdec).
      { lia. }
      { rewrite Hacc'. change (2 ^ 1) with 2. destruct b; lia. }
      rewrite Hp. cbn [length]. rewrite decompress_binary_step. cbv zeta.
      replace (u16 (bi + 1) >=? 8) with true.
      2:{ symmetry. rewrite Z.geb_leb. apply Z.leb_le. unfold u16.
          rewrite Z.mod_small; lia. }
      cbn [app read_byte].
      specialize (Hdec (u16 (key + 1)) more).
      change (1 - 1) with 0 in Hdec. rewrite Z.shiftr_0_r in Hdec.
      rewrite Hdec.
      destruct (bit_of_byte B 0 0 b ltac:(lia) ltac:(change (2 ^ 0) with 1; lia))
        as [Hbit _].
      { change (2 ^ (0 + 1)) with (2 ^ 1). rewrite Hm, Hacc'.
        change (2 ^ 0) with 1. destruct b; reflexivity. }
      rewrite Z.shiftr_0_r in Hbit. rewrite Hbit. reflexivity.
Qed.

(** *** Walking the token array *)

(** [collect n p]: the [n] tokens met when the pointer [p] is read and then
    advanced to the next status token, [n] times, and the final pointer. *)
Fixpoint collect (n : nat) (p : list MTL_TOKEN)
  : option (list MTL_TOKEN * list MTL_TOKEN) :=
  match n with
  | O => Some ([], p)
  | S n' =>
      match p with
      | [] => None
      | c :: _ =>
          match collect n' (next_status_token p) with
          | Some (cs, fin) => Some (c :: cs, fin)
          | None => None
          end
      end
  end.

Lemma skip_unflagged_filter p :
  filter should_broadcast (skip_unflagged p) = filter should_broadcast p.
Proof.
  induction p as [|t p IH]; [reflexivity|]. simpl.
  destruct (should_broadcast t) eqn:E; [simpl; rewrite E; reflexivity | exact IH].
Qed.

Lemma skip_unflagged_head p :
  match skip_unflagged p with
  | [] => True
  | c :: _ => should_broadcast c = true
  end.
Proof.
  induction p as [|t p IH]; [exact I|]. simpl.
  destruct (should_broadcast t) eqn:E; [exact E | exact IH].
Qed.

Lemma skip_unflagged_length p : (length (skip_unflagged p) <= length p)%nat.
Proof.
  induction p as [|t p IH]; [simpl; lia|]. simpl.
  destruct (should_broadcast t); simpl; lia.
Qed.

Definition head_flagged (p : list MTL_TOKEN) : Prop :=
  match p with
  | [] => True
  | c :: _ => should_broadcast c = true
  end.

Lemma collect_filter n : forall p cs fin,
  head_flagged p -> collect n p = Some (cs, fin) ->
  filter should_broadcast p = cs ++ filter should_broadcast fin
  /\ (length fin <= length p)%nat
  /\ length cs = n.
Proof.
  induction n; intros p cs fin Hh Hc.
  - simpl in Hc. injection Hc as <- <-. simpl. auto.
  - simpl in Hc. destruct p as [|c p]; [discriminate|].
    destruct (collect n (next_status_token (c :: p))) as [[cs' fin']|] eqn:E;
      [|discriminate].
    injection Hc as <- <-.
    unfold next_status_token in E. cbn [tl] in E.
    destruct (IHn _ _ _ (skip_unflagged_head p) E) as (Hf & Hl & Hn).
    simpl in Hh. cbn [filter]. rewrite Hh.
    rewrite <- (skip_unflagged_filter p), Hf.
    pose proof (skip_unflagged_length p).
    repeat split; simpl; lia || auto.
Qed.

Lemma collect_snoc_ok n : forall p cs fin c r,
  collect n p = Some (cs, fin) -> fin = c :: r ->
  collect (S n) p = Some (cs ++ [c], next_status_token fin).
Proof.
  induction n; intros p cs fin c r Hc Hfin.
  - simpl in Hc. injection Hc as <- <-. subst p. reflexivity.
  - cbn [collect] in Hc. destruct p as [|c0 p]; [discriminate|].
    destruct (collect n (next_status_token (c0 :: p))) as [[cs' fin']|] eqn:E;
      [|discriminate].
    injection Hc as <- <-.
    change (collect (S (S n)) (c0 :: p))
      with (match collect (S n) (next_status_token (c0 :: p)) with
            | Some (cs, fin) => Some (c0 :: cs, fin)
            | None => None
            end).
    rewrite (IHn _ _ _ _ _ E Hfin). reflexivity.
Qed.

(** The tokens of a key series: consecutive keys of one value size. *)
Fixpoint in_series (valueSize key : Z) (cs : list MTL_TOKEN) : Prop :=
  match cs with
  | [] => True
  | c :: cs' =>
      token_key c = key /\ Key_ValueSize (token_key c) = valueSize
      /\ in_series valueSize (key + 1) cs'
  end.

Definition zero_or (V : Z) (c : MTL_TOKEN) : Prop :=
  token_value c = 0 \/ token_value c = V.

(** What the series search returns: the [numAnalogRepeats] tokens that
    follow form a key series, and a count [numBinaryRepeats] below 32 means
    that all of them carry 0 or the common value. *)
Lemma find_series_spec fuel : forall vs nA0 nB0 V0 key0 c0 r0 nA nB V,
  find_series fuel vs nA0 nB0 V0 key0 (c0 :: r0) = (nA, nB, V) ->
  0 <= nA0 <= 31 -> 0 <= nB0 ->
  exists cs fin,
    collect (length cs) (next_status_token (c0 :: r0)) = Some (cs, fin)
    /\ nA = nA0 + Z.of_nat (length cs)
    /\ nA <= 31
    /\ in_series vs key0 cs
    /\ (nB < 32 ->
          nB0 < 32 /\ nB = nB0 + Z.of_nat (length cs)
          /\ (V0 = 0 \/ V0 = V) /\ Forall (zero_or V) cs).
Proof.
  induction fuel; intros vs nA0 nB0 V0 key0 c0 r0 nA nB V Hf HnA HnB.
  - simpl in Hf. injection Hf as <- <- <-.
    exists [], (next_status_token (c0 :: r0)). simpl.
    repeat split; auto; lia.
  - cbn [find_series] in Hf.
    assert (Hstop : (nA0, nB0, V0) = (nA, nB, V) ->
      exists cs fin,
        collect (length cs) (next_status_token (c0 :: r0)) = Some (cs, fin)
        /\ nA = nA0 + Z.of_nat (length cs) /\ nA <= 31 /\ in_series vs key0 cs
        /\ (nB < 32 -> nB0 < 32 /\ nB = nB0 + Z.of_nat (length cs)
                       /\ (V0 = 0 \/ V0 = V) /\ Forall (zero_or V) cs)).
    { intros E. injection E as <- <- <-.
      exists [], (next_status_token (c0 :: r0)). simpl.
      repeat split; auto; lia. }
    unfold MATRIX_MESSAGE_MAX_TOKEN_REPEATS in Hf.
    destruct (nA0 <? 32 - 1) eqn:Elt; [|auto].
    apply Z.ltb_lt in Elt.
    destruct (next_status_token (c0 :: r0)) as [|c r] eqn:Enext; [auto|].
    destruct (negb (token_key c =? key0) || negb (Key_ValueSize (token_key c) =? vs))
      eqn:Echk; [auto|].
    apply orb_false_iff in Echk. destruct Echk as [Ek Ev].
    apply negb_false_iff in Ek, Ev. apply Z.eqb_eq in Ek, Ev.
    set (V1 := if (0 =? V0) && negb (0 =? token_value c) then token_value c else V0) in *.
    set (nB1 := if (0 =? token_value c) || (token_value c =? V1) then nB0 + 1 else 32) in *.
    destruct (IHfuel _ _ _ _ _ _ _ _ _ _ Hf) as (cs & fin & Hc & HA & HA31 & Hser & Hbin).
    { lia. }
    { unfold nB1. destruct ((0 =? token_value c) || (token_value c =? V1)); lia. }
    exists (c :: cs), fin.
    split.
    { cbn [length collect]. rewrite Hc. reflexivity. }
    split; [cbn [length]; lia|].
    split; [exact HA31|].
    split; [cbn [in_series]; auto|].
    intros HnB32. destruct (Hbin HnB32) as (H1 & H2 & H3 & H4).
    unfold nB1 in H1, H2.
    destruct ((0 =? token_value c) || (token_value c =? V1)) eqn:Ematch; [|lia].
    split; [lia|]. split; [cbn [length]; lia|].
    assert (HV0 : V0 = 0 \/ V0 = V).
    { unfold V1 in H3. destruct (0 =? V0) eqn:E0.
      - apply Z.eqb_eq in E0. left. congruence.
      - cbn [andb] in H3. exact H3. }
    split; [exact HV0|].
    constructor; [|exact H4].
    unfold zero_or. apply orb_true_iff in Ematch.
    destruct Ematch as [E|E]; apply Z.eqb_eq in E.
    + left. congruence.
    + destruct H3 as [H3|H3]; [left | right]; congruence.
Qed.

Definition is_nonzero (c : MTL_TOKEN) : bool := negb (0 =? token_value c).

Lemma binary_bitmap_collect n : forall p cs fin bit byte,
  collect n p = Some (cs, fin) ->
  binary_bitmap n bit byte p = (pack_bits bit byte (map is_nonzero cs), fin).
Proof.
  induction n; intros p cs fin bit byte Hc.
  - simpl in Hc. injection Hc as <- <-. reflexivity.
  - cbn [collect] in Hc. destruct p as [|c p]; [discriminate|].
    destruct (collect n (next_status_token (c :: p))) as [[cs' fin']|] eqn:E;
      [|discriminate].
    injection Hc as <- <-.
    cbn [binary_bitmap map pack_bits deref hd]. fold (is_nonzero c).
    destruct (bit + 1 >=? 8).
    + rewrite (IHn _ _ _ 0 0 E). reflexivity.
    + rewrite (IHn _ _ _ _ _ E). reflexivity.
Qed.

Lemma analog_values_collect n : forall p cs fin vs,
  collect n p = Some (cs, fin) ->
  analog_values n vs p =
  (concat (map (fun c => OutputTokenValue (token_value c) vs) cs), fin).
Proof.
  induction n; intros p cs fin vs Hc.
  - simpl in Hc. injection Hc as <- <-. reflexivity.
  - cbn [collect] in Hc. destruct p as [|c p]; [discriminate|].
    destruct (collect n (next_status_token (c :: p))) as [[cs' fin']|] eqn:E;
      [|discriminate].
    injection Hc as <- <-.
    cbn [analog_values map concat deref hd].
    rewrite (IHn _ _ _ vs E). reflexivity.
Qed.

(** The tokens of a series as the decompressor numbers them. *)
Fixpoint series_tokens (key address : Z) (vals : list Z) : list TOKEN :=
  match vals with
  | [] => []
  | v :: vals' => mkTOKEN 0 address key v :: series_tokens (u16 (key + 1)) address vals'
  end.

Lemma bit_tokens_series key V address bs :
  bit_tokens key V address bs =
  series_tokens key address (map (fun b : bool => if b then i32 V else 0) bs).
Proof.
  revert key. induction bs as [|b bs IH]; intros key; [reflexivity|].
  simpl. rewrite IH. reflexivity.
Qed.

(** A token as it comes out of the decompressor: the key is kept and the
    value is cut to the value size of the key. *)
Definition wire_value (t : MTL_TOKEN) : Z :=
  i32 (token_value t mod 256 ^ Key_ValueSize (token_key t)).

Definition wire_token (address : Z) (t : MTL_TOKEN) : TOKEN :=
  mkTOKEN 0 address (token_key t) (wire_value t).

(** The key carries a Command, OutputStatus or InputStatus prefix. *)
Definition token_prefix_key (t : MTL_TOKEN) : Prop := 0 <= token_key t < 0x6000.

Lemma decompress_analog_values address vs (Hvs : 0 <= vs <= 4) : forall cs key more,
  decompress_analog (length cs) (Z.to_nat vs) key address
    (concat (map (fun c => OutputTokenValue (token_value c) vs) cs) ++ more)
  = (true,
     series_tokens key address (map (fun c => i32 (token_value c mod 256 ^ vs)) cs),
     more).
Proof.
  induction cs as [|c cs IH]; intros key more; [reflexivity|].
  cbn [length map concat decompress_analog series_tokens].
  unfold OutputTokenValue at 1. rewrite <- app_assoc, read_value_i32.
  rewrite IH, Z2Nat.id by lia.
  destruct (wire_value_casts vs (token_value c) Hvs) as [_ ->]. reflexivity.
Qed.

Lemma series_wire address vs : forall cs key k,
  in_series vs key cs -> Forall token_prefix_key cs -> (cs <> [] -> k = key) ->
  series_tokens k address (map (fun c => i32 (token_value c mod 256 ^ vs)) cs)
  = map (wire_token address) cs.
Proof.
  induction cs as [|c cs IH]; intros key k Hs Hall Hk; [reflexivity|].
  cbn [in_series] in Hs. destruct Hs as (Hkey & Hvs & Hs).
  pose proof (Forall_inv Hall) as Hc. pose proof (Forall_inv_tail Hall) as Hall'.
  rewrite (Hk ltac:(discriminate)).
  cbn [map series_tokens]. unfold wire_token at 1, wire_value.
  rewrite Hvs, Hkey. f_equal.
  apply (IH (key + 1)); [exact Hs | exact Hall' |].
  intros Hne. destruct cs as [|c' cs]; [congruence|].
  cbn [in_series] in Hs. destruct Hs as (Hkey' & _).
  pose proof (Forall_inv Hall') as Hc'. unfold token_prefix_key in Hc'.
  unfold u16. apply Z.mod_small. lia.
Qed.

(** *** Decoding one chunk of the stream *)

Lemma key_high_byte k :
  0 <= k < 0x6000 ->
  let tokenType := Z.land (u8 (Z.shiftr k 8)) KeyPrefix_Mask in
  tokenType = 0x00 \/ tokenType = 0x20 \/ tokenType = 0x40.
Proof.
  intros Hk tokenType.
  assert (Hb : 0 <= u8 (Z.shiftr k 8) < 0x60).
  { unfold u8. rewrite Z.shiftr_div_pow2 by lia. change (2 ^ 8) with 256.
    Z.div_mod_to_equations. lia. }
  pose proof (byte_forall
    (fun b => if b <? 0x60
              then (Z.land b KeyPrefix_Mask =? 0x00) || (Z.land b KeyPrefix_Mask =? 0x20)
                   || (Z.land b KeyPrefix_Mask =? 0x40)
              else true) eq_refl (u8 (Z.shiftr k 8)) ltac:(lia)) as H.
  cbv beta in H. replace (u8 (Z.shiftr k 8) <? 96) with true in H
    by (symmetry; apply Z.ltb_lt; lia).
  apply orb_true_iff in H. destruct H as [H|H].
  - apply orb_true_iff in H. destruct H as [H|H]; apply Z.eqb_eq in H; auto.
  - apply Z.eqb_eq in H. auto.
Qed.

Lemma repeat_header n pfx :
  1 <= n <= 31 -> pfx = KeyPrefix_BinaryRepeat \/ pfx = KeyPrefix_AnalogRepeat ->
  Z.land (u8 (Z.lor n pfx)) KeyPrefix_Mask = pfx
  /\ Z.land (u8 (Z.lor n pfx)) (MATRIX_MESSAGE_MAX_TOKEN_REPEATS - 1) + 1 = n + 1.
Proof.
  intros Hn Hp.
  pose proof (all_below_spec 32
    (fun n => (Z.land (u8 (Z.lor n 0x60)) 0xE0 =? 0x60)
              && (Z.land (u8 (Z.lor n 0x60)) 31 =? n)
              && (Z.land (u8 (Z.lor n 0x80)) 0xE0 =? 0x80)
              && (Z.land (u8 (Z.lor n 0x80)) 31 =? n)) eq_refl n
    ltac:(simpl; lia)) as H.
  cbv beta in H. repeat (apply andb_true_iff in H; destruct H as [H ?]).
  repeat match goal with H : (_ =? _) = true |- _ => apply Z.eqb_eq in H end.
  unfold KeyPrefix_Mask, MATRIX_MESSAGE_MAX_TOKEN_REPEATS.
  change (32 - 1) with 31.
  destruct Hp as [-> | ->]; unfold KeyPrefix_BinaryRepeat, KeyPrefix_AnalogRepeat;
    split; congruence.
Qed.

Lemma decode_single address t more :
  token_prefix_key t ->
  Decompress_step address (u8 (Z.shiftr (token_key t) 8))
    (u8 (token_key t)
     :: output_value_bytes (Z.to_nat (Key_ValueSize (token_key t))) (token_value t)
        ++ more)
  = (None, [wire_token address t], more).
Proof.
  intros Hk. unfold token_prefix_key in Hk.
  unfold Decompress_step.
  pose proof (key_high_byte (token_key t) Hk) as Hty. cbv zeta in Hty.
  set (tokenType := Z.land (u8 (Z.shiftr (token_key t) 8)) KeyPrefix_Mask) in *.
  assert (Hb : (KeyPrefix_AnalogRepeat <? tokenType) = false
               /\ (KeyPrefix_BinaryRepeat =? tokenType) = false
               /\ (KeyPrefix_AnalogRepeat =? tokenType) = false
               /\ (tokenType =? KeyPrefix_AnalogRepeat) = false
               /\ (tokenType =? KeyPrefix_BinaryRepeat) = false).
  { destruct Hty as [-> | [-> | ->]]; repeat split. }
  destruct Hb as (-> & -> & -> & -> & ->).
  cbn [orb read_byte]. rewrite be16_roundtrip by lia.
  rewrite read_value_i32. unfold wire_token, wire_value.
  pose proof (Key_ValueSize_range (token_key t)).
  rewrite Z2Nat.id by lia. reflexivity.
Qed.

Lemma zero_or_value V vs c :
  0 <= vs <= 4 -> zero_or V c ->
  (if is_nonzero c then i32 (u32 (u32 V mod 256 ^ vs)) else 0)
  = i32 (token_value c mod 256 ^ vs).
Proof.
  intros Hvs Hz. unfold is_nonzero.
  destruct (0 =? token_value c) eqn:E.
  - apply Z.eqb_eq in E. rewrite <- E. cbn [negb]. rewrite Z.mod_0_l; [reflexivity|].
    apply Z.pow_nonzero; lia.
  - apply Z.eqb_neq in E. destruct Hz as [Hz|Hz]; [congruence|].
    cbn [negb]. rewrite Hz. apply wire_value_casts. exact Hvs.
Qed.

Lemma decode_binary_chunk address t cs V n more :
  let vs := Key_ValueSize (token_key t) in
  token_prefix_key t -> Forall token_prefix_key cs ->
  1 <= n <= 31 -> Z.of_nat (length cs) = n ->
  in_series vs (token_key t + 1) cs -> Forall (zero_or V) (t :: cs) ->
  Decompress_step address (u8 (Z.lor n KeyPrefix_BinaryRepeat))
    ((OutputTokenKey (token_key t) ++ OutputTokenValue V vs)
     ++ pack_bits 0 0 (map is_nonzero (t :: cs)) ++ more)
  = (None, map (wire_token address) (t :: cs), more).
Proof.
  intros vs Hk Hks Hn Hlen Hser Hz. unfold token_prefix_key in Hk.
  pose proof (Key_ValueSize_range (token_key t)) as Hvs. fold vs in Hvs.
  unfold Decompress_step.
  destruct (repeat_header n KeyPrefix_BinaryRepeat Hn (or_introl eq_refl)) as [-> ->].
  change (KeyPrefix_AnalogRepeat <? KeyPrefix_BinaryRepeat) with false.
  change (KeyPrefix_BinaryRepeat =? KeyPrefix_BinaryRepeat) with true.
  change (KeyPrefix_BinaryRepeat =? KeyPrefix_AnalogRepeat) with false.
  cbn [orb]. unfold OutputTokenKey, OutputTokenValue.
  cbn [app read_byte]. rewrite be16_roundtrip by lia. fold vs.
  rewrite read_value_u32, Z2Nat.id by lia.
  replace (Z.to_nat (n + 1)) with (length (map is_nonzero (t :: cs)))
    by (rewrite length_map; cbn [length]; lia).
  rewrite (proj2 (bitmap_roundtrip _ address _)) by lia.
  f_equal. f_equal.
  rewrite bit_tokens_series, map_map.
  rewrite (map_ext_Forall _ (fun c => i32 (token_value c mod 256 ^ vs))).
  - apply (series_wire address vs (t :: cs) (token_key t)).
    + cbn [in_series]. auto.
    + constructor; assumption.
    + reflexivity.
  - eapply Forall_impl; [|exact Hz]. intros c Hc. cbv beta.
    apply zero_or_value; assumption.
Qed.

Lemma decode_analog_chunk address t cs n more :
  let vs := Key_ValueSize (token_key t) in
  token_prefix_key t -> Forall token_prefix_key cs ->
  1 <= n <= 31 -> Z.of_nat (length cs) = n ->
  in_series vs (token_key t + 1) cs ->
  Decompress_step address (u8 (Z.lor n KeyPrefix_AnalogRepeat))
    (OutputToken t
     ++ concat (map (fun c => OutputTokenValue (token_value c) vs) cs) ++ more)
  = (None, map (wire_token address) (t :: cs), more).
Proof.
  intros vs Hk Hks Hn Hlen Hser. unfold token_prefix_key in Hk.
  pose proof (Key_ValueSize_range (token_key t)) as Hvs. fold vs in Hvs.
  unfold Decompress_step.
  destruct (repeat_header n KeyPrefix_AnalogRepeat Hn (or_intror eq_refl)) as [-> ->].
  change (KeyPrefix_AnalogRepeat <? KeyPrefix_AnalogRepeat) with false.
  change (KeyPrefix_BinaryRepeat =? KeyPrefix_AnalogRepeat) with false.
  change (KeyPrefix_AnalogRepeat =? KeyPrefix_AnalogRepeat) with true.
  cbn [orb]. unfold OutputToken. fold (token_key t) (token_value t).
  cbn [app read_byte]. rewrite be16_roundtrip by lia. fold vs.
  replace (Z.to_nat (n + 1)) with (S (length cs)) by lia.
  cbn [decompress_analog]. rewrite read_value_i32.
  rewrite decompress_analog_values by exact Hvs.
  rewrite Z2Nat.id by lia. f_equal. f_equal.
  change (mkTOKEN 0 address (token_key t) (i32 (token_value t mod 256 ^ vs))
          :: series_tokens (u16 (token_key t + 1)) address
               (map (fun c => i32 (token_value c mod 256 ^ vs)) cs))
    with (series_tokens (token_key t) address
            (map (fun c => i32 (token_value c mod 256 ^ vs)) (t :: cs))).
  apply (series_wire address vs (t :: cs) (token_key t)).
  - cbn [in_series]. auto.
  - constructor; assumption.
  - reflexivity.
Qed.

(** *** One pass of the compressor against one pass of the decompressor *)

Lemma Compress_step_chunk address t rest :
  should_broadcast t = true ->
  Forall token_prefix_key (filter should_broadcast (t :: rest)) ->
  exists b bs cs,
    fst (Compress_step t rest) = b :: bs
    /\ (forall more,
          Decompress_step address b (bs ++ more)
          = (None, map (wire_token address) (t :: cs), more))
    /\ filter should_broadcast (t :: rest)
       = t :: cs ++ filter should_broadcast (snd (Compress_step t rest))
    /\ (length (snd (Compress_step t rest)) <= length rest)%nat.
Proof.
  intros Hsb Hall.
  assert (Hfilt : filter should_broadcast (t :: rest) = t :: filter should_broadcast rest)
    by (cbn [filter]; rewrite Hsb; reflexivity).
  rewrite Hfilt in Hall.
  pose proof (Forall_inv Hall) as Hkt. pose proof (Forall_inv_tail Hall) as Hkrest.
  assert (Hsingle :
    exists b bs cs,
      OutputToken t = b :: bs
      /\ (forall more, Decompress_step address b (bs ++ more)
                       = (None, map (wire_token address) (t :: cs), more))
      /\ filter should_broadcast (t :: rest) = t :: cs ++ filter should_broadcast rest
      /\ (length rest <= length rest)%nat).
  { exists (u8 (Z.shiftr (token_key t) 8)),
           (u8 (token_key t)
            :: output_value_bytes (Z.to_nat (Key_ValueSize (token_key t))) (token_value t)),
           [].
    split; [reflexivity|]. split; [|split; [exact Hfilt | lia]].
    intros more. cbn [app map]. apply decode_single. exact Hkt. }
  unfold Compress_step. rewrite Hsb. cbn [negb].
  set (vs := Key_ValueSize (token_key t)).
  destruct (0 =? vs) eqn:Evs; [exact Hsingle|].
  destruct (find_series 31 vs 0 0 (token_value t) (token_key t + 1) (t :: rest))
    as [[nA nB] V] eqn:Efs.
  destruct (find_series_spec _ _ _ _ _ _ _ _ _ _ _ Efs ltac:(lia) ltac:(lia))
    as (cs & fin & Hcol & HnA & HnA31 & Hser & Hbin).
  assert (Hnext : next_status_token (t :: rest) = skip_unflagged rest) by reflexivity.
  rewrite Hnext in Hcol.
  destruct (collect_filter _ _ _ _ (skip_unflagged_head rest) Hcol) as (Hf & Hlen & _).
  rewrite skip_unflagged_filter in Hf.
  pose proof (skip_unflagged_length rest) as Hskip.
  assert (Hkcs : Forall token_prefix_key cs).
  { rewrite Hf in Hkrest. apply Forall_app in Hkrest. tauto. }
  unfold MATRIX_MESSAGE_MAX_TOKEN_REPEATS.
  destruct (negb (nB =? 0) && (nB <? 32)) eqn:Ebin.
  - apply andb_true_iff in Ebin. destruct Ebin as [Enz Elt].
    apply negb_true_iff, Z.eqb_neq in Enz. apply Z.ltb_lt in Elt.
    destruct (Hbin Elt) as (_ & HnB & HV0 & Hz).
    assert (Hcol1 : collect (Z.to_nat (nB + 1)) (t :: rest) = Some (t :: cs, fin)).
    { replace (Z.to_nat (nB + 1)) with (S (length cs)) by lia.
      cbn [collect]. rewrite Hnext, Hcol. reflexivity. }
    rewrite (binary_bitmap_collect _ _ _ _ 0 0 Hcol1).
    cbn [fst snd app].
    eexists _, _, cs. split; [reflexivity|].
    split; [|split; [rewrite Hfilt, Hf; reflexivity | lia]].
    intros more. rewrite <- app_assoc.
    apply decode_binary_chunk;
      [exact Hkt | exact Hkcs | lia | lia | exact Hser
       | constructor; [exact HV0 | exact Hz]].
  - destruct (negb (nA =? 0)) eqn:Ean.
    + apply negb_true_iff, Z.eqb_neq in Ean.
      replace (Z.to_nat nA) with (length cs) by lia.
      rewrite Hnext, (analog_values_collect _ _ _ _ vs Hcol).
      cbn [fst snd app].
      unfold OutputToken at 1. cbn [app].
      eexists _, _, cs. split; [reflexivity|].
      split; [|split; [rewrite Hfilt, Hf; reflexivity | lia]].
      intros more.
      pose proof (decode_analog_chunk address t cs nA more Hkt Hkcs
                    ltac:(lia) ltac:(lia) Hser) as Hd.
      unfold OutputToken in Hd. cbn [app] in Hd. fold vs in Hd.
      cbn [app]. rewrite <- app_assoc. exact Hd.
    + exact Hsingle.
Qed.

Lemma Decompress_loop_Compress_loop address fuelC : forall tokens fuelD,
  (length tokens <= fuelC)%nat ->
  (length (Compress_loop fuelC tokens) <= fuelD)%nat ->
  Forall token_prefix_key (filter should_broadcast tokens) ->
  Decompress_loop fuelD address (Compress_loop fuelC tokens)
  = (0, map (wire_token address) (filter should_broadcast tokens), []).
Proof.
  induction fuelC; intros tokens fuelD HfC HfD Hall.
  - destruct tokens; [|simpl in HfC; lia]. destruct fuelD; reflexivity.
  - destruct tokens as [|t rest]; [destruct fuelD; reflexivity|].
    cbn [Compress_loop] in *. cbn [length] in HfC.
    destruct (should_broadcast t) eqn:Hsb.
    + destruct (Compress_step_chunk address t rest Hsb Hall)
        as (b & bs & cs & Hb & Hdec & Hfilt & Hlen).
      destruct (Compress_step t rest) as [bytes token'].
      cbn [fst snd] in *. subst bytes.
      destruct fuelD as [|fuelD]; [simpl in HfD; lia|].
      cbn [app Decompress_loop]. rewrite Hdec.
      rewrite IHfuelC.
      * rewrite Hfilt. cbn [map]. rewrite map_app. reflexivity.
      * lia.
      * cbn [app length] in HfD. rewrite length_app in HfD. lia.
      * rewrite Hfilt in Hall. apply Forall_inv_tail in Hall.
        apply Forall_app in Hall. tauto.
    + unfold Compress_step in *. rewrite Hsb in *. cbn [negb app] in *.
      cbn [filter] in *. rewrite Hsb in *.
      apply IHfuelC; [lia | exact HfD | exact Hall].
Qed.

Lemma Compress_loop_nil_filter fuel : forall tokens,
  (length tokens <= fuel)%nat ->
  Forall token_prefix_key (filter should_broadcast tokens) ->
  Compress_loop fuel tokens = [] -> filter should_broadcast tokens = [].
Proof.
  induction fuel; intros tokens Hf Hall Hnil.
  - destruct tokens; [reflexivity | simpl in Hf; lia].
  - destruct tokens as [|t rest]; [reflexivity|].
    cbn [Compress_loop] in Hnil. cbn [length] in Hf.
    destruct (should_broadcast t) eqn:Hsb.
    + exfalso.
      destruct (Compress_step_chunk 0 t rest Hsb Hall) as (b & bs & cs & Hb & _).
      destruct (Compress_step t rest) as [bytes token']. cbn [fst] in Hb.
      subst bytes. discriminate.
    + unfold Compress_step in Hnil. rewrite Hsb in Hnil. cbn [negb app] in Hnil.
      cbn [filter] in *. rewrite Hsb in *. apply IHfuel; [lia | exact Hall | exact Hnil].
Qed.

(** The value survives the trip unchanged: it fits the value size of its key. *)
Definition value_fits (t : MTL_TOKEN) : Prop := wire_value t = token_value t.

Definition key_value (tk : TOKEN) : Z * Z := (key tk, value tk).
Definition token_key_value (t : MTL_TOKEN) : Z * Z := (token_key t, token_value t).

(** C1 as worded fails in two ways.  A value wider than the value size of
    its key is cut: the input-status token (key 1000, value 300) comes back
    with value 44.  A key with the BinaryRepeat prefix is read back as a
    repeat header: the token with key 0x63E8 comes back as nothing. *)
Lemma roundtrip_not_identity :
  let t1 := mkMtlToken (mkTOKEN MtlFlagsShouldBroadcast 0 0x43E8 300) 0 0 in
  let t2 := mkMtlToken (mkTOKEN MtlFlagsShouldBroadcast 0 0x63E8 1) 0 0 in
  let decoded ts :=
    map key_value
        (snd (fst (MatrixCodec_Decompress (snd (MatrixCodec_Compress ts)) 9))) in
  decoded [t1] = [(0x43E8, 44)] /\ decoded [t1] <> map token_key_value [t1]
  /\ decoded [t2] = [] /\ decoded [t2] <> map token_key_value [t2].
Proof. vm_compute. repeat split; discriminate. Qed.

(** C1 (amended): for every token array (sorted or not) whose
    should-broadcast tokens carry a Command, OutputStatus or InputStatus key
    prefix, [MatrixCodec_Decompress] applied to the bytes of
    [MatrixCodec_Compress] emits exactly the should-broadcast tokens, in
    order, each with its key and with its value cut to the value size of the
    key; it returns 0 and consumes the whole stream when there is such a
    token; and keys and values are exactly those of the input when every
    value fits the value size of its key. *)
Theorem Compress_Decompress_roundtrip (tokens : list MTL_TOKEN) (address : Z) :
  Forall token_prefix_key (filter should_broadcast tokens) ->
  let sent := filter should_broadcast tokens in
  let bytes := snd (MatrixCodec_Compress tokens) in
  let decoded := snd (fst (MatrixCodec_Decompress bytes address)) in
  decoded = map (wire_token address) sent
  /\ (sent <> [] -> MatrixCodec_Decompress bytes address = (0, decoded, []))
  /\ (Forall value_fits sent -> map key_value decoded = map token_key_value sent).
Proof.
  intros Hall sent bytes decoded.
  assert (Hmain : decoded = map (wire_token address) sent
                  /\ (sent <> [] -> MatrixCodec_Decompress bytes address = (0, decoded, []))).
  { unfold decoded, bytes, sent, MatrixCodec_Compress.
    destruct tokens as [|t rest];
      [split; [reflexivity | intros H; exfalso; apply H; reflexivity]|].
    cbn [snd]. set (tokens := t :: rest) in *.
    destruct (Compress_loop (length tokens) tokens) as [|b bs] eqn:Ebytes.
    - rewrite (Compress_loop_nil_filter _ _ (le_n _) Hall Ebytes).
      split; [reflexivity | intros H; exfalso; apply H; reflexivity].
    - unfold MatrixCodec_Decompress. rewrite <- Ebytes.
      rewrite Decompress_loop_Compress_loop by (try lia; exact Hall).
      split; [reflexivity | intros _; reflexivity]. }
  destruct Hmain as [Hdec Hret]. split; [exact Hdec|]. split; [exact Hret|].
  intros Hfit. rewrite Hdec, map_map.
  apply map_ext_Forall. eapply Forall_impl; [|exact Hfit].
  intros t Ht. unfold key_value, token_key_value, wire_token. cbn [key value].
  rewrite Ht. reflexivity.
Qed.

Lemma Compress_Decompress_roundtrip_witness :
  let tk k v := mkMtlToken (mkTOKEN MtlFlagsShouldBroadcast 0 k v) 0 0 in
  let tokens := [tk 0x43E8 100; mkMtlToken (mkTOKEN 0 0 0x43E9 7) 0 0;
                 tk 0x43E9 100; tk 0x43EA 0; tk 0x5388 513] in
  map key_value
      (snd (fst (MatrixCodec_Decompress (snd (MatrixCodec_Compress tokens)) 9)))
  = [(0x43E8, 100); (0x43E9, 100); (0x43EA, 0); (0x5388, 513)].
Proof.
  cbv zeta.
  refine (proj2 (proj2 (Compress_Decompress_roundtrip _ 9 _)) _).
  - match goal with |- Forall ?P ?l =>
      let l' := eval vm_compute in l in change (Forall P l') end.
    repeat constructor; discriminate.
  - match goal with |- Forall ?P ?l =>
      let l' := eval vm_compute in l in change (Forall P l') end.
    repeat constructor.
Defined.

(** ** Receiver *)

Lemma process_message_checked eventIndex m frames numFrames numBytes e d :
  process_message eventIndex m frames numFrames numBytes = Some (e, Some d) ->
  numMessageFrames d = numFrames
  /\ numMessageBytes d = numBytes
  /\ messageData d = concat (map data8 frames)
  /\ (numFrames <> 1 ->
      Matrix_IsMessageChecksumValid (messageData d) (Z.to_nat numBytes) = Some true).
Proof.
  unfold process_message. intros H.
  destruct (numFrames =? 1) eqn:E1.
  - apply Z.eqb_eq in E1.
    repeat match type of H with
           | context [if ?c then _ else _] => destruct c
           end; try discriminate; injection H as _ <-; cbn; repeat split; congruence.
  - destruct (Matrix_IsMessageChecksumValid (concat (map data8 frames)) (Z.to_nat numBytes))
      as [[|]|] eqn:Ev; try discriminate.
    repeat match type of H with
           | context [if ?c then _ else _] => destruct c
           end; try discriminate; injection H as _ <-; cbn; repeat split; auto.
Qed.

Lemma checksum_valid_inv bytes N :
  Matrix_IsMessageChecksumValid bytes N = Some true ->
  exists n, N = S (S n)
    /\ Matrix_ComputeCRC16 bytes n
       = u16 (Z.lor (Z.shiftl (nth n bytes 0) 8) (nth (S n) bytes 0)).
Proof.
  destruct N as [|[|n]]; try discriminate.
  cbn [Matrix_IsMessageChecksumValid]. intros H. injection H as H.
  apply Z.eqb_eq in H. exists n. split; [reflexivity | symmetry; exact H].
Qed.

(** What the checksum test does cover: in every pass of
    [ProcessMessagesInStream], whatever the downstream consumers do, each
    hand-over whose frame count [numMessageFrames] is not 1 passed
    [Matrix_IsMessageChecksumValid]: the message has [n + 2] bytes and the
    CRC-16 over its first [n] bytes equals its last two bytes read
    big-endian.  The count is 1 also where a SINGLE frame follows BODY
    frames; see [body_then_single_skips_checksum]. *)
Lemma checked_when_counted_multi
    (downstream : DISPATCH -> Z -> Z) (fuel : nat) :
  forall (eventIndex : Z) (stream : list MATRIX_RX_CAN_FRAME) e ds d,
  ProcessMessagesInStream downstream fuel eventIndex stream = Some (e, ds) ->
  In d ds -> numMessageFrames d <> 1 ->
  Matrix_IsMessageChecksumValid (messageData d) (Z.to_nat (numMessageBytes d))
  = Some true
  /\ exists n,
       Z.to_nat (numMessageBytes d) = S (S n)
       /\ Matrix_ComputeCRC16 (messageData d) n
          = u16 (Z.lor (Z.shiftl (nth n (messageData d) 0) 8)
                       (nth (S n) (messageData d) 0)).
Proof.
  assert (Hmain : forall (eventIndex : Z) (stream : list MATRIX_RX_CAN_FRAME) e ds d,
    ProcessMessagesInStream downstream fuel eventIndex stream = Some (e, ds) ->
    In d ds -> numMessageFrames d <> 1 ->
    Matrix_IsMessageChecksumValid (messageData d) (Z.to_nat (numMessageBytes d))
    = Some true).
  { induction fuel; intros eventIndex stream e ds d Hp Hin Hn.
    - simpl in Hp. injection Hp as <- <-. contradiction.
    - destruct stream as [|m rest].
      { simpl in Hp. injection Hp as <- <-. contradiction. }
      cbn [ProcessMessagesInStream] in Hp.
      destruct (MR_FRAME_FLAG_NONE =? frameFlags m); [eauto|].
      destruct (next_message (senderAddress m) (rx_frameIndex m) 0 0 [] (m :: rest))
        as [[[[numFrames numBytes] frames] nextMessageFrame] isCompleteMessage].
      destruct isCompleteMessage; [|eauto].
      destruct (process_message eventIndex m frames numFrames numBytes)
        as [[e1 [d1|]]|] eqn:Epm; [| eauto | discriminate].
      destruct (ProcessMessagesInStream downstream fuel
                  (downstream (delivered d1) e1) nextMessageFrame)
        as [[e2 ds2]|] eqn:Erec; [|discriminate].
      injection Hp as <- <-.
      destruct Hin as [<-|Hin]; [|eauto].
      destruct (process_message_checked _ _ _ _ _ _ _ Epm) as (HF & HB & _ & Hv).
      rewrite HB. apply Hv. congruence. }
  intros eventIndex stream e ds d Hp Hin Hn.
  pose proof (Hmain _ _ _ _ _ Hp Hin Hn) as Hv.
  split; [exact Hv | apply checksum_valid_inv; exact Hv].
Qed.

(** ** Token sequencer: pattern sync *)

Lemma TokenIn_is_Sync NextStep Start Stop token lib :
  Key_WithoutPrefix (key token) = KeyTokenSequencerSync ->
  MatrixTokenSequencerController_TokenIn NextStep Start Stop token lib
  = TokenIn_Sync NextStep token lib.
Proof.
  intros Hk. unfold MatrixTokenSequencerController_TokenIn. rewrite Hk.
  reflexivity.
Qed.

Lemma sync_sequencer_restart NextStep token v lib i :
  let ts := sequencer i lib in
  0 <= patternStackIndex ts ->
  address token < MATRIX_TOKEN_SEQUENCER_0_NETWORK_ADDRESS + i ->
  syncRangeTop ts <> SYNC_RANGE_NONE ->
  (syncRangeBottom ts <= v <= syncRangeTop ts
   \/ (syncRangeBottom ts = SYNC_RANGE_EXACT
       /\ v = GetRootPatternEnum (TokenSequencerController lib) ts)) ->
  sync_sequencer NextStep token v lib i
  = NextStep i (set_sequencer i (restart_root (systemTime (Matrix lib)) ts) lib).
Proof.
  intros ts Hrun Haddr Htop Hmatch. unfold sync_sequencer. fold ts.
  replace (0 <=? patternStackIndex ts) with true by (symmetry; apply Z.leb_le; lia).
  replace (MATRIX_TOKEN_SEQUENCER_0_NETWORK_ADDRESS + i >? address token) with true
    by (symmetry; rewrite Z.gtb_ltb; apply Z.ltb_lt; lia).
  replace (SYNC_RANGE_NONE =? syncRangeTop ts) with false
    by (symmetry; apply Z.eqb_neq; congruence).
  cbn [andb negb].
  destruct Hmatch as [[Hb Ht] | [Hb Hv]].
  - replace (v >=? syncRangeBottom ts) with true
      by (symmetry; rewrite Z.geb_leb; apply Z.leb_le; lia).
    replace (v <=? syncRangeTop ts) with true by (symmetry; apply Z.leb_le; lia).
    reflexivity.
  - replace (SYNC_RANGE_EXACT =? syncRangeBottom ts) with true
      by (symmetry; apply Z.eqb_eq; congruence).
    replace (v =? GetRootPatternEnum (TokenSequencerController lib) ts) with true
      by (symmetry; apply Z.eqb_eq; exact Hv).
    rewrite orb_true_r. reflexivity.
Qed.

Lemma sequencer_indices_split (i : nat) :
  (i < 6)%nat ->
  sequencer_indices
  = firstn i sequencer_indices ++ Z.of_nat i :: skipn (S i) sequencer_indices.
Proof.
  intros Hi.
  do 6 (destruct i as [|i]; [reflexivity|]). lia.
Qed.

Lemma restart_root_stack time ts p0 rest :
  patternStack ts = p0 :: rest ->
  exists p0', patternStack (restart_root time ts) = p0' :: rest
    /\ currentPosition p0' = firstStepPosition p0
    /\ firstStepPosition p0' = firstStepPosition p0
    /\ patternPosition p0' = patternPosition p0.
Proof.
  intros H. unfold restart_root. rewrite H. cbn.
  eexists. split; [reflexivity|]. cbn. auto.
Qed.

(** A pattern interpreter that emits nothing, for running the handler on
    concrete states. *)
Definition silent_step (_ : Z) (lib : MATRIX_LIB) : MATRIX_LIB := lib.
Definition silent_start (_ _ _ : Z) (_ : bool) (lib : MATRIX_LIB) : MATRIX_LIB := lib.

(** A node at CAN address [own] at time 5000 whose sequencer 0 is in the
    middle of root pattern 1030 (the pattern header bytes at offset 8 are
    [.., 0x04, 0x06]), last stepped at time 4000, with sync range Exact. *)
Definition node_running_1030 (own : Z) : MATRIX_LIB :=
  mkLib
    (mkState 5000 6000 7 (mkCanAddress 0 0 0 0 own 0)
       (mkTransmitter (mkFrameId 0 0 0 0 0 0) [] 0 0 0 [] 0 0 []))
    (mkController
       [mkSequencer 100 0 4000
          [mkPattern (Some 8) (Some 12) (Some 20) None 0 0; null_pattern; null_pattern]
          SYNC_RANGE_EXACT SYNC_RANGE_EXACT 0 1;
        mkSequencer 100 (-1) 0 [null_pattern; null_pattern; null_pattern] 0 0 0 0;
        mkSequencer 100 (-1) 0 [null_pattern; null_pattern; null_pattern] 0 0 0 0;
        mkSequencer 100 (-1) 0 [null_pattern; null_pattern; null_pattern] 0 0 0 0;
        mkSequencer 100 (-1) 0 [null_pattern; null_pattern; null_pattern] 0 0 0 0;
        mkSequencer 100 (-1) 0 [null_pattern; null_pattern; null_pattern] 0 0 0 0]
       (Some [0x3B; 0x43; 0x65; 0x48; 0; 1; 0; 0; 0; 0x04; 0x06; 2; 0; 0; 0; 0;
              0; 0; 0; 0; 0; 0; 0; 0])
       24)
    [] true [].

(** C3, as claimed, fails.  Nodes 5 and 17 both run root pattern 1030 with
    sync range Exact.  Node 17 (the higher address), on receiving node 5's
    PatternSync for 1030, is left exactly as it was: its sequencer stays in
    the middle of the pattern with its old step time.  Node 5 (the lower
    address), on receiving node 17's PatternSync, is the one that restarts:
    its root pattern is back at the first step and its step time is the
    current time. *)
Lemma TokenIn_Sync_higher_address_does_not_yield :
  let sync from := mkTOKEN 0 from KeyTokenSequencerSync 1030 in
  let TokenIn := MatrixTokenSequencerController_TokenIn silent_step silent_start silent_step in
  TokenIn (sync 5) (node_running_1030 17) = node_running_1030 17
  /\ stepTime (sequencer 0 (TokenIn (sync 5) (node_running_1030 17))) = 4000
  /\ currentPosition (nth 0 (patternStack (sequencer 0 (TokenIn (sync 5) (node_running_1030 17)))) null_pattern)
     = Some 20
  /\ stepTime (sequencer 0 (TokenIn (sync 17) (node_running_1030 5))) = 5000
  /\ currentPosition (nth 0 (patternStack (sequencer 0 (TokenIn (sync 17) (node_running_1030 5)))) null_pattern)
     = Some 12.
Proof.
  cbv zeta. repeat split; vm_compute; reflexivity.
Qed.

(** C3 (amended).  For a PatternSync token (key [KeyTokenSequencerSync] under
    any prefix) the handler compares the sender's address with this node's
    own CAN address:
    - a token whose address is lower than or equal to the node's own is
      skipped: the library state is unchanged and the pattern interpreter is
      not called, so the higher-address node ignores the lower one's sync;
    - a token from a higher address is offered to the six sequencers in
      turn; when the loop reaches sequencer [i] and finds it running, with a
      network address above the token's, syncing (range top not None) and
      the stripped enumeration in its range or, for range Exact, equal to
      its running root pattern, that sequencer is restarted (stack index 0,
      root pattern back at its first step, step time the current time) and
      [NextStep i] runs on that state before the loop goes on.
    So it is the lower-address node that yields to the higher one. *)
Theorem TokenIn_Sync_tie_break
    (NextStep : Z -> MATRIX_LIB -> MATRIX_LIB)
    (Start : Z -> Z -> Z -> bool -> MATRIX_LIB -> MATRIX_LIB)
    (Stop : Z -> MATRIX_LIB -> MATRIX_LIB)
    (token : TOKEN) (lib : MATRIX_LIB) :
  Key_WithoutPrefix (key token) = KeyTokenSequencerSync ->
  let own := Matrix_GetCanAddress (MatrixCanAddress (Matrix lib)) in
  let v := Z.land (value token) (Z.lnot (Z.shiftl PatternEnumPrefixMask 8)) in
  (address token <= own ->
   MatrixTokenSequencerController_TokenIn NextStep Start Stop token lib = lib)
  /\ (own < address token ->
      forall i : nat, (i < 6)%nat ->
      let reached := sync_sequencers NextStep token v (firstn i sequencer_indices) lib in
      let ts := sequencer (Z.of_nat i) reached in
      0 <= patternStackIndex ts ->
      address token < MATRIX_TOKEN_SEQUENCER_0_NETWORK_ADDRESS + Z.of_nat i ->
      syncRangeTop ts <> SYNC_RANGE_NONE ->
      (syncRangeBottom ts <= v <= syncRangeTop ts
       \/ (syncRangeBottom ts = SYNC_RANGE_EXACT
           /\ v = GetRootPatternEnum (TokenSequencerController reached) ts)) ->
      let ts' := restart_root (systemTime (Matrix reached)) ts in
      patternStackIndex ts' = 0
      /\ stepTime ts' = systemTime (Matrix reached)
      /\ (forall p0 rest, patternStack ts = p0 :: rest ->
          exists p0', patternStack ts' = p0' :: rest
            /\ currentPosition p0' = firstStepPosition p0
            /\ firstStepPosition p0' = firstStepPosition p0
            /\ patternPosition p0' = patternPosition p0)
      /\ MatrixTokenSequencerController_TokenIn NextStep Start Stop token lib
         = sync_sequencers NextStep token v (skipn (S i) sequencer_indices)
             (NextStep (Z.of_nat i) (set_sequencer (Z.of_nat i) ts' reached))).
Proof.
  intros Hk own v. rewrite (TokenIn_is_Sync _ _ _ _ _ Hk). split.
  - intros Hle. unfold TokenIn_Sync. fold own.
    replace (address token <=? own) with true by (symmetry; apply Z.leb_le; exact Hle).
    reflexivity.
  - intros Hgt i Hi reached ts Hrun Haddr Htop Hmatch ts'.
    split; [reflexivity|]. split; [reflexivity|].
    split; [intros p0 rest Hs; apply restart_root_stack; exact Hs|].
    unfold TokenIn_Sync. fold own v.
    replace (address token <=? own) with false by (symmetry; apply Z.leb_gt; exact Hgt).
    rewrite (sequencer_indices_split i Hi) at 1.
    unfold sync_sequencers at 1. rewrite fold_left_app. cbn [fold_left].
    fold (sync_sequencers NextStep token v (firstn i sequencer_indices) lib).
    fold reached.
    rewrite (sync_sequencer_restart NextStep token v reached (Z.of_nat i)
               Hrun Haddr Htop Hmatch).
    reflexivity.
Qed.

Lemma TokenIn_Sync_tie_break_witness :
  let sync from := mkTOKEN 0 from KeyTokenSequencerSync 1030 in
  let TokenIn := MatrixTokenSequencerController_TokenIn silent_step silent_start silent_step in
  TokenIn (sync 5) (node_running_1030 17) = node_running_1030 17
  /\ TokenIn (sync 17) (node_running_1030 5)
     = set_sequencer 0 (restart_root 5000 (sequencer 0 (node_running_1030 5)))
         (node_running_1030 5).
Proof.
  cbv zeta. split.
  - apply (TokenIn_Sync_tie_break silent_step silent_start silent_step
             (mkTOKEN 0 5 KeyTokenSequencerSync 1030) (node_running_1030 17)
             eq_refl).
    vm_compute. discriminate.
  - pose proof (proj2 (TokenIn_Sync_tie_break silent_step silent_start silent_step
             (mkTOKEN 0 17 KeyTokenSequencerSync 1030) (node_running_1030 5)
             eq_refl)) as H.
    cbv zeta in H.
    assert (H5 : 5 < 17) by lia.
    assert (H0 : (0 < 6)%nat) by lia.
    specialize (H H5 0%nat H0).
    cbn [firstn sync_sequencers fold_left Z.of_nat] in H.
    assert (Hrun : 0 <= patternStackIndex (sequencer 0 (node_running_1030 5)))
      by (vm_compute; discriminate).
    assert (Haddr : address (mkTOKEN 0 17 KeyTokenSequencerSync 1030)
                    < MATRIX_TOKEN_SEQUENCER_0_NETWORK_ADDRESS + 0)
      by (vm_compute; reflexivity).
    assert (Htop : syncRangeTop (sequencer 0 (node_running_1030 5)) <> SYNC_RANGE_NONE)
      by (vm_compute; discriminate).
    specialize (H Hrun Haddr Htop).
    destruct H as (_ & _ & _ & H).
    + right. split; vm_compute; reflexivity.
    + rewrite H. vm_compute. reflexivity.
Defined.

(** ** Local keys and the bus *)

(** *** Key prefixes and regions *)

Lemma land_shiftl_8 k m : Z.land k (Z.shiftl m 8) = Z.shiftl (Z.land (Z.shiftr k 8) m) 8.
Proof.
  apply Z.bits_inj'. intros n Hn. rewrite Z.land_spec.
  destruct (Z.ltb_spec n 8).
  - rewrite !Z.shiftl_spec_low by lia. apply andb_false_r.
  - rewrite !Z.shiftl_spec by lia. rewrite Z.land_spec, Z.shiftr_spec by lia.
    f_equal. f_equal. lia.
Qed.

Lemma status_prefix_key k :
  0 <= k < 65536 ->
  (Key_IsInputStatus k || Key_IsOutputStatus k) = true ->
  0 <= k < 0x6000.
Proof.
  intros Hk Hs. split; [lia|].
  set (b := Z.shiftr k 8).
  assert (Hb : 0 <= b < 256).
  { unfold b. rewrite Z.shiftr_div_pow2 by lia. change (2 ^ 8) with 256.
    Z.div_mod_to_equations. lia. }
  assert (Hp : Z.land b KeyPrefix_Mask = KeyPrefix_InputStatus
               \/ Z.land b KeyPrefix_Mask = KeyPrefix_OutputStatus).
  { unfold Key_IsInputStatus, Key_IsOutputStatus in Hs.
    rewrite land_shiftl_8 in Hs. fold b in Hs.
    rewrite !Z.shiftl_mul_pow2 in Hs by lia.
    apply orb_true_iff in Hs. destruct Hs as [Hs | Hs]; apply Z.eqb_eq in Hs;
      [left | right]; lia. }
  pose proof (byte_forall
    (fun b => if (Z.land b KeyPrefix_Mask =? KeyPrefix_InputStatus)
                 || (Z.land b KeyPrefix_Mask =? KeyPrefix_OutputStatus)
              then b <? 0x60 else true) eq_refl b Hb) as H.
  cbv beta in H.
  replace ((Z.land b KeyPrefix_Mask =? KeyPrefix_InputStatus)
           || (Z.land b KeyPrefix_Mask =? KeyPrefix_OutputStatus)) with true in H.
  - apply Z.ltb_lt in H. unfold b in H. rewrite Z.shiftr_div_pow2 in H by lia.
    change (2 ^ 8) with 256 in H. Z.div_mod_to_equations. lia.
  - symmetry. apply orb_true_iff.
    destruct Hp as [Hp | Hp]; [left | right]; apply Z.eqb_eq; exact Hp.
Qed.

Lemma local_key_region k :
  Key_IsLocalVariable k = true -> 1 <= Key_WithoutPrefix k < 200.
Proof.
  unfold Key_IsLocalVariable, Key_WithoutPrefix. cbv zeta. intros H.
  apply andb_true_iff in H. destruct H as [H1 H2].
  rewrite Z.geb_leb in H1. apply Z.leb_le in H1. apply Z.ltb_lt in H2.
  change Region_Base__Local_Variables with 1 in *.
  change (1 + Region_Size__Local_Variables) with 200 in *. lia.
Qed.

(** *** The should-broadcast flag *)

Lemma land_8 f : Z.land f 8 = if Z.testbit f 3 then 8 else 0.
Proof.
  apply Z.bits_inj'. intros n Hn. rewrite Z.land_spec.
  change 8 with (2 ^ 3). rewrite Z.pow2_bits_eqb by lia.
  destruct (Z.testbit f 3) eqn:E.
  - rewrite Z.pow2_bits_eqb by lia.
    destruct (Z.eqb_spec 3 n) as [<- | _]; [rewrite E; reflexivity | apply andb_false_r].
  - rewrite Z.bits_0.
    destruct (Z.eqb_spec 3 n) as [<- | _]; [rewrite E; reflexivity | apply andb_false_r].
Qed.

Lemma should_broadcast_bit t : should_broadcast t = Z.testbit (token_flags t) 3.
Proof.
  unfold should_broadcast. change MtlFlagsShouldBroadcast with 8. rewrite land_8.
  destruct (Z.testbit (token_flags t) 3); reflexivity.
Qed.

Lemma should_broadcast_set_flags f t :
  should_broadcast (set_flags f t) = Z.testbit f 3.
Proof. rewrite should_broadcast_bit. reflexivity. Qed.

(** An entry of the token table is sound when its key is a 16-bit value and,
    if it is flagged for broadcast, the key is a public input or output
    status. *)
Definition entry_ok (t : MTL_TOKEN) : Prop :=
  0 <= token_key t < 65536
  /\ (should_broadcast t = true ->
      Key_IsLocalVariable (token_key t) = false
      /\ (Key_IsInputStatus (token_key t) || Key_IsOutputStatus (token_key t)) = true).

Lemma entry_ok_zero : entry_ok zero_token.
Proof. split; [cbn; lia | intros H; discriminate H]. Qed.

(** A store that keeps the key and does not raise the broadcast flag keeps
    the entry sound. *)
Lemma entry_ok_keep t t' :
  token_key t' = token_key t ->
  (should_broadcast t' = true -> should_broadcast t = true) ->
  entry_ok t -> entry_ok t'.
Proof.
  intros Hk Hb [Hr Hok]. unfold entry_ok. rewrite Hk. split; [exact Hr|].
  intros H. apply Hok, Hb, H.
Qed.

Lemma table_write_ok w t : entry_ok t -> entry_ok (table_write w t).
Proof.
  apply entry_ok_keep; [destruct w as [| | | | | |[|]]; reflexivity|].
  destruct w as [v|ts| | | | |b]; cbn [table_write].
  - rewrite !should_broadcast_bit. auto.
  - rewrite !should_broadcast_bit. auto.
  - rewrite should_broadcast_set_flags, should_broadcast_bit, Z.lor_spec.
    change (Z.testbit MtlFlagsTokenReceived 3) with false. rewrite orb_false_r. auto.
  - rewrite should_broadcast_set_flags.
    change (if MtlFlagsTokenReceived =? 0 then 1 else 0) with 0.
    rewrite Z.land_0_r. intros H. discriminate H.
  - rewrite should_broadcast_set_flags, should_broadcast_bit. unfold u8.
    change 256 with (2 ^ 8). rewrite Z.mod_pow2_bits_low by lia.
    rewrite Z.land_spec. intros H. apply andb_true_iff in H. tauto.
  - rewrite should_broadcast_set_flags, should_broadcast_bit, Z.lor_spec.
    change (Z.testbit MtlFlagsSkipToggle 3) with false. rewrite orb_false_r. auto.
  - rewrite should_broadcast_set_flags, should_broadcast_bit. destruct b.
    + rewrite Z.lor_spec.
      change (Z.testbit MtlFlagsInputBitstate 3) with false. rewrite orb_false_r. auto.
    + unfold u8. change 256 with (2 ^ 8). rewrite Z.mod_pow2_bits_low by lia.
      rewrite Z.land_spec. intros H. apply andb_true_iff in H. tauto.
Qed.

Lemma array_set_Forall {A : Type} (P : A -> Prop) x : forall a i,
  Forall P a -> P x -> Forall P (array_set a i x).
Proof.
  induction a as [|y a IH]; intros i Ha Hx; [constructor|].
  destruct i; cbn [array_set]; constructor;
    try exact Hx; try exact (Forall_inv Ha); try exact (Forall_inv_tail Ha).
  apply IH; [exact (Forall_inv_tail Ha) | exact Hx].
Qed.

Lemma nth_entry_ok table i : Forall entry_ok table -> entry_ok (nth i table zero_token).
Proof.
  intros H. destruct (Nat.ltb_spec i (length table)).
  - rewrite Forall_forall in H. apply H, nth_In. assumption.
  - rewrite nth_overflow by assumption. exact entry_ok_zero.
Qed.

Lemma update_table_ok i f table :
  (forall t, entry_ok t -> entry_ok (f t)) ->
  Forall entry_ok table -> Forall entry_ok (update_table i f table).
Proof.
  intros Hf Ht. unfold update_table.
  apply array_set_Forall; [exact Ht | apply Hf, nth_entry_ok, Ht].
Qed.

Lemma write_table_ok table w :
  Forall entry_ok table -> Forall entry_ok (write_table table w).
Proof. intros H. apply update_table_ok; [apply table_write_ok | exact H]. Qed.

Lemma writes_ok writes : forall table,
  Forall entry_ok table -> Forall entry_ok (fold_left write_table writes table).
Proof.
  induction writes as [|w writes IH]; intros table H; [exact H|].
  cbn [fold_left]. apply IH, write_table_ok, H.
Qed.

(** *** The populated table *)

Lemma flag_equation_output_ok mapped t :
  entry_ok t -> entry_ok (flag_equation_output mapped t).
Proof.
  intros Ht. unfold flag_equation_output. cbv zeta.
  set (t1 := set_flags (Z.lor (token_flags t) MtlFlagsIsEquationOutput) t).
  assert (H1 : entry_ok t1).
  { apply (entry_ok_keep t); [reflexivity | | exact Ht].
    unfold t1. rewrite should_broadcast_set_flags, should_broadcast_bit, Z.lor_spec.
    change (Z.testbit MtlFlagsIsEquationOutput 3) with false.
    rewrite orb_false_r. auto. }
  set (t2 := if negb (Key_IsLocalVariable (token_key t1))
                && (Key_IsInputStatus (token_key t1) || Key_IsOutputStatus (token_key t1))
             then set_flags (Z.lor (token_flags t1) MtlFlagsShouldBroadcast) t1
             else t1).
  assert (H2 : entry_ok t2).
  { unfold t2.
    destruct (negb (Key_IsLocalVariable (token_key t1))
              && (Key_IsInputStatus (token_key t1) || Key_IsOutputStatus (token_key t1)))
      eqn:E; [|exact H1].
    apply andb_true_iff in E. destruct E as [El Es].
    apply negb_true_iff in El.
    split; [exact (proj1 H1)|]. intros _. split; [exact El | exact Es]. }
  destruct (negb (KeyNull =? mapped)); [|exact H2].
  apply (entry_ok_keep t2); [reflexivity | | exact H2].
  rewrite !should_broadcast_bit. auto.
Qed.

Lemma populate_token_ok bytecode p prevToken table :
  Forall entry_ok table ->
  Forall entry_ok (snd (populate_token bytecode p prevToken table)).
Proof.
  intros Ht. unfold populate_token. cbv zeta.
  set (k := u16 (Z.lor (u16 (Z.shiftl (bytecode_at bytecode (p + 1)) 8))
                       (bytecode_at bytecode (p + 2)))).
  assert (Hk : 0 <= k < 65536) by (unfold k, u16; apply Z.mod_pos_bound; lia).
  assert (Hnew : forall a table0, Forall entry_ok table0 ->
            Forall entry_ok (table0 ++ [mkMtlToken (mkTOKEN 0 a k 0) 0 0])).
  { intros a table0 H0. apply Forall_app. split; [exact H0|].
    constructor; [|constructor].
    split; [exact Hk | intros H; discriminate H]. }
  destruct (bytecode_at bytecode (p + 2 + 1) =? TokenAddress); cbn [snd].
  - match goal with |- context [(?i =? length table)%nat] =>
      destruct (i =? length table)%nat end;
    match goal with |- context [EquationEnd =? ?b] => destruct (EquationEnd =? b) end;
    try apply update_table_ok; try apply flag_equation_output_ok;
    try apply Hnew; exact Ht.
  - match goal with |- context [(?i =? length table)%nat] =>
      destruct (i =? length table)%nat end;
    match goal with |- context [EquationEnd =? ?b] => destruct (EquationEnd =? b) end;
    try apply update_table_ok; try apply flag_equation_output_ok;
    try apply Hnew; exact Ht.
Qed.

Lemma populate_step_ok bytecode p prevToken table :
  Forall entry_ok table ->
  Forall entry_ok (snd (populate_step bytecode p prevToken table)).
Proof.
  intros Ht. unfold populate_step. cbv zeta.
  destruct ((bytecode_at bytecode p =? EquationStart)
            || (bytecode_at bytecode p =? PriorityEquationStart)
            || (bytecode_at bytecode p =? SuccessiveEquationStart)); [exact Ht|].
  destruct (bytecode_at bytecode p =? ConstantValue); [exact Ht|].
  destruct (bytecode_at bytecode p =? TokenKey); [|exact Ht].
  apply populate_token_ok, Ht.
Qed.

Lemma populate_loop_ok bytecode lastPtr fuel : forall p prevToken table,
  Forall entry_ok table ->
  Forall entry_ok (populate_loop fuel bytecode lastPtr p prevToken table).
Proof.
  induction fuel as [|fuel IH]; intros p prevToken table Ht; [exact Ht|].
  cbn [populate_loop].
  destruct (p + 1 <? lastPtr); [|exact Ht].
  pose proof (populate_step_ok bytecode (p + 1) prevToken table Ht) as Hs.
  destruct (populate_step bytecode (p + 1) prevToken table) as [[p' prev'] table'].
  cbn [snd] in Hs.
  destruct (Z.of_nat (length table') >=? MATRIX_TIME_LOGIC_TOKEN_TABLE_SIZE);
    [exact Hs | apply IH, Hs].
Qed.

Lemma sort_insert_Forall (P : MTL_TOKEN -> Prop) x : forall placed,
  P x -> Forall P placed -> Forall P (sort_insert x placed).
Proof.
  induction placed as [|c placed IH]; intros Hx Hp; cbn [sort_insert].
  - constructor; [exact Hx | constructor].
  - destruct (address_key_word c <=? address_key_word x).
    + constructor; [exact Hx | exact Hp].
    + constructor; [exact (Forall_inv Hp) | apply IH; [exact Hx | exact (Forall_inv_tail Hp)]].
Qed.

Lemma sort_tokens_Forall (P : MTL_TOKEN -> Prop) table :
  Forall P table -> Forall P (sort_tokens table).
Proof.
  intros Ht. unfold sort_tokens. apply Forall_rev.
  assert (H : forall placed, Forall P placed ->
            Forall P (fold_left (fun placed sortToken => sort_insert sortToken placed)
                                table placed)).
  { induction Ht as [|x table Hx Ht IH]; intros placed Hp; [exact Hp|].
    cbn [fold_left]. apply IH, sort_insert_Forall; assumption. }
  apply H. constructor.
Qed.

Lemma MTL_PopulateTokenTable_ok bytecode bytecodeSize :
  Forall entry_ok (MTL_PopulateTokenTable bytecode bytecodeSize).
Proof.
  unfold MTL_PopulateTokenTable. destruct bytecode as [bc|]; [|constructor].
  destruct (0 =? bytecodeSize); [constructor|].
  cbv zeta. apply sort_tokens_Forall, populate_loop_ok. constructor.
Qed.

(** The tabulation loop moves its pointer forward in every pass, so the
    fuel given by [MTL_PopulateTokenTable] is enough: more fuel gives the
    same table. *)
Lemma populate_step_forward bytecode p prevToken table :
  p <= fst (fst (populate_step bytecode p prevToken table)).
Proof.
  unfold populate_step. cbv zeta.
  destruct ((bytecode_at bytecode p =? EquationStart)
            || (bytecode_at bytecode p =? PriorityEquationStart)
            || (bytecode_at bytecode p =? SuccessiveEquationStart)); [cbn; lia|].
  destruct (bytecode_at bytecode p =? ConstantValue); [cbn; lia|].
  destruct (bytecode_at bytecode p =? TokenKey); [|cbn; lia].
  unfold populate_token. cbv zeta.
  destruct (bytecode_at bytecode (p + 2 + 1) =? TokenAddress); cbn [fst]; lia.
Qed.

Lemma populate_loop_fuel bytecode lastPtr extra : forall fuel p prevToken table,
  lastPtr - p <= Z.of_nat fuel ->
  populate_loop (fuel + extra) bytecode lastPtr p prevToken table
  = populate_loop fuel bytecode lastPtr p prevToken table.
Proof.
  induction fuel as [|fuel IH]; intros p prevToken table Hf.
  - cbn [Nat.add populate_loop]. destruct extra; [reflexivity|].
    cbn [populate_loop].
    replace (p + 1 <? lastPtr) with false by (symmetry; apply Z.ltb_ge; lia).
    reflexivity.
  - cbn [Nat.add populate_loop].
    destruct (p + 1 <? lastPtr) eqn:E; [|reflexivity].
    pose proof (populate_step_forward bytecode (p + 1) prevToken table) as Hs.
    destruct (populate_step bytecode (p + 1) prevToken table) as [[p' prev'] table'].
    cbn [fst] in Hs.
    destruct (Z.of_nat (length table') >=? MATRIX_TIME_LOGIC_TOKEN_TABLE_SIZE);
      [reflexivity|].
    apply IH. lia.
Qed.

(** *** Handlers that leave the transmitter alone *)

Lemma sequencer_TokenIn_local NextStep Start Stop tok lib :
  Key_IsLocalVariable (key tok) = true ->
  MatrixTokenSequencerController_TokenIn NextStep Start Stop tok lib = lib.
Proof.
  intros Hl. apply local_key_region in Hl.
  unfold MatrixTokenSequencerController_TokenIn. cbv zeta.
  set (k := Key_WithoutPrefix (key tok)) in *.
  replace (KeyIndexedSequencer <=? k) with false
    by (symmetry; apply Z.leb_gt; change KeyIndexedSequencer with 8150; lia).
  cbn [andb].
  replace (k =? KeyTokenSequencerSyncRange) with false
    by (symmetry; apply Z.eqb_neq; change KeyTokenSequencerSyncRange with 7007; lia).
  replace (k =? KeyTokenSequencerSync) with false
    by (symmetry; apply Z.eqb_neq; change KeyTokenSequencerSync with 5001; lia).
  replace (k =? KeyIndexedTokenSequencerWithPattern) with false
    by (symmetry; apply Z.eqb_neq;
        change KeyIndexedTokenSequencerWithPattern with 7000; lia).
  replace (k =? KeyTokenSequencerPattern) with false
    by (symmetry; apply Z.eqb_neq; change KeyTokenSequencerPattern with 5000; lia).
  replace (k =? KeyTokenSequencerIntensity) with false
    by (symmetry; apply Z.eqb_neq; change KeyTokenSequencerIntensity with 3003; lia).
  reflexivity.
Qed.

Lemma TokenIn_pass_Matrix tok a lib : Matrix (TokenIn_pass tok a lib) = Matrix lib.
Proof.
  unfold TokenIn_pass. cbv zeta.
  destruct (bsearch _ _ _ _ _) as [j|]; [|reflexivity].
  destruct (negb (mappedTokenKey (nth j (MatrixTimeLogic_TokenTable lib) zero_token)
                  =? KeyNull));
    destruct ((0 =? Z.land (token_flags (nth j (MatrixTimeLogic_TokenTable lib) zero_token))
                           MtlFlagsIsEquationOutput)
              || Key_IsInputStatus (key tok)); reflexivity.
Qed.

Lemma MatrixTimeLogic_TokenIn_Matrix tok lib :
  Matrix (MatrixTimeLogic_TokenIn tok lib) = Matrix lib.
Proof. unfold MatrixTimeLogic_TokenIn. rewrite !TokenIn_pass_Matrix. reflexivity. Qed.

(** What [MatrixTimeLogic_TokenIn] does to the table is a sequence of the
    stores of [TABLE_WRITE]. *)
Lemma TokenIn_pass_writes tok a lib :
  exists writes,
    MatrixTimeLogic_TokenTable (TokenIn_pass tok a lib)
    = fold_left write_table writes (MatrixTimeLogic_TokenTable lib).
Proof.
  unfold TokenIn_pass. cbv zeta.
  destruct (bsearch _ _ _ _ _) as [j|]; [|exists []; reflexivity].
  destruct (negb (mappedTokenKey (nth j (MatrixTimeLogic_TokenTable lib) zero_token)
                  =? KeyNull));
    destruct ((0 =? Z.land (token_flags (nth j (MatrixTimeLogic_TokenTable lib) zero_token))
                           MtlFlagsIsEquationOutput)
              || Key_IsInputStatus (key tok));
    try (exists [(j, WriteValue (value tok)); (j, SetTokenReceived)]; reflexivity);
    exists []; reflexivity.
Qed.

Lemma MatrixTimeLogic_TokenIn_writes tok lib :
  exists writes,
    MatrixTimeLogic_TokenTable (MatrixTimeLogic_TokenIn tok lib)
    = fold_left write_table writes (MatrixTimeLogic_TokenTable lib).
Proof.
  unfold MatrixTimeLogic_TokenIn.
  destruct (TokenIn_pass_writes tok 0 lib) as [w1 H1].
  destruct (TokenIn_pass_writes tok (address tok) (TokenIn_pass tok 0 lib)) as [w2 H2].
  exists (w1 ++ w2). rewrite fold_left_app, <- H1. exact H2.
Qed.

Lemma Matrix_TokenIn_local NextStep Start Stop tok lib :
  Key_IsLocalVariable (key tok) = true ->
  Matrix (Matrix_TokenIn NextStep Start Stop tok lib) = Matrix lib.
Proof.
  intros Hl. unfold Matrix_TokenIn.
  destruct (MATRIX_EQUATION_PROCESSOR_NETWORK_ADDRESS =? address tok).
  - apply MatrixTimeLogic_TokenIn_Matrix.
  - destruct ((MATRIX_TOKEN_SEQUENCER_0_NETWORK_ADDRESS <=? address tok)
              && (MATRIX_TOKEN_SEQUENCER_5_NETWORK_ADDRESS >=? address tok)).
    + rewrite sequencer_TokenIn_local by exact Hl. reflexivity.
    + rewrite Hl. cbn [negb]. rewrite andb_false_r. reflexivity.
Qed.

Lemma SendToken_local NextStep Start Stop tok lib :
  Key_IsLocalVariable (key tok) = true ->
  Matrix (SendToken NextStep Start Stop tok lib) = Matrix lib.
Proof.
  intros Hl. unfold SendToken. cbv zeta.
  rewrite sequencer_TokenIn_local by exact Hl. rewrite Hl. cbn [negb].
  destruct (appInterface lib); reflexivity.
Qed.

(** *** The status message *)

Lemma flagged_prefix_keys table :
  Forall entry_ok table -> Forall token_prefix_key (filter should_broadcast table).
Proof.
  intros H. apply Forall_forall. intros t Ht. apply filter_In in Ht.
  destruct Ht as [Hin Hb]. rewrite Forall_forall in H.
  destruct (H t Hin) as [Hr Hok]. destruct (Hok Hb) as [_ Hs].
  apply status_prefix_key; assumption.
Qed.

Lemma Decompress_Compress_tokens tokens address :
  Forall token_prefix_key (filter should_broadcast tokens) ->
  snd (fst (MatrixCodec_Decompress (snd (MatrixCodec_Compress tokens)) address))
  = map (wire_token address) (filter should_broadcast tokens).
Proof.
  intros Hall. unfold MatrixCodec_Compress.
  destruct tokens as [|t rest]; [reflexivity|].
  cbn [snd]. set (tokens := t :: rest) in *.
  destruct (Compress_loop (length tokens) tokens) as [|b bs] eqn:Ebytes.
  - rewrite (Compress_loop_nil_filter _ _ (le_n _) Hall Ebytes). reflexivity.
  - unfold MatrixCodec_Decompress. rewrite <- Ebytes.
    rewrite Decompress_loop_Compress_loop by (try lia; exact Hall).
    reflexivity.
Qed.

Lemma status_message_keys_public table address t :
  Forall entry_ok table ->
  In t (snd (fst (MatrixCodec_Decompress (snd (MatrixCodec_Compress table)) address))) ->
  Key_IsLocalVariable (key t) = false.
Proof.
  intros Hok Hin.
  rewrite Decompress_Compress_tokens in Hin by (apply flagged_prefix_keys, Hok).
  apply in_map_iff in Hin. destruct Hin as (e & <- & He).
  apply filter_In in He. destruct He as [He Hb].
  rewrite Forall_forall in Hok. destruct (Hok e He) as [_ H].
  exact (proj1 (H Hb)).
Qed.

Lemma Matrix_Clock_status_transmits senderAddressFilter lib :
  let m := Matrix lib in
  MatrixTransmitter (Matrix (Matrix_Clock_status senderAddressFilter lib))
  = MatrixTransmitter m
  \/ MatrixTransmitter (Matrix (Matrix_Clock_status senderAddressFilter lib))
     = transmit (Matrix_GetCanAddress (MatrixCanAddress m)) (MatrixEventIndex m)
         CAN_BROADCAST_ADDRESS KeyNull
         (snd (MatrixCodec_Compress (MatrixTimeLogic_TokenTable lib)))
         (MatrixTransmitter m).
Proof.
  intros m. unfold Matrix_Clock_status. fold m.
  destruct (IsMatrixTimerExpired (systemTime m) (nextStatusTime m)
            && (0 =? senderAddressFilter)
            && Matrix_IsCanAddressValid (MatrixCanAddress m)); [right | left; reflexivity].
  unfold transmit, MatrixTransmitter_StartMessage, add_bytes.
  destruct (MatrixTransmitter_StartMessageWithAddressAndKey
              (Matrix_GetCanAddress (MatrixCanAddress m)) (MatrixEventIndex m)
              CAN_BROADCAST_ADDRESS KeyNull (MatrixTransmitter m)) as [tx ei].
  reflexivity.
Qed.

(** C4: a token whose key is a local variable never reaches the bus through
    the token-emission paths of the core.
    - Host token-in: [Matrix_TokenIn] on a token with a local key leaves the
      core state, and with it the transmitter and its frame queue, unchanged,
      whatever the token's address (to the equation processor, to a
      sequencer, or to the bus).
    - Equation output: [SendToken] of the time logic on a token with a local
      key leaves the transmitter unchanged as well; the token only goes to
      the sequencer (which ignores it) and to the application.
    - Status message: for a token table built by [MTL_PopulateTokenTable]
      from any equation file and then modified by any sequence of the stores
      the time logic makes into it, the status message of [Matrix_Clock]
      either sends nothing or hands the transmitter exactly the bytes of
      [MatrixCodec_Compress] on that table, and no token decoded from these
      bytes carries the local key. *)
Theorem local_keys_never_sent
    (NextStep : Z -> MATRIX_LIB -> MATRIX_LIB)
    (Start : Z -> Z -> Z -> bool -> MATRIX_LIB -> MATRIX_LIB)
    (Stop : Z -> MATRIX_LIB -> MATRIX_LIB)
    (k : Z) :
  Key_IsLocalVariable k = true ->
  (forall tok lib, key tok = k ->
     Matrix (Matrix_TokenIn NextStep Start Stop tok lib) = Matrix lib)
  /\ (forall tok lib, key tok = k ->
        Matrix (SendToken NextStep Start Stop tok lib) = Matrix lib)
  /\ (forall bytecode bytecodeSize writes senderAddressFilter lib,
        MatrixTimeLogic_TokenTable lib
        = fold_left write_table writes (MTL_PopulateTokenTable bytecode bytecodeSize) ->
        let m := Matrix lib in
        let bytes := snd (MatrixCodec_Compress (MatrixTimeLogic_TokenTable lib)) in
        let sent := MatrixTransmitter (Matrix (Matrix_Clock_status senderAddressFilter lib)) in
        (sent = MatrixTransmitter m
         \/ sent = transmit (Matrix_GetCanAddress (MatrixCanAddress m)) (MatrixEventIndex m)
                     CAN_BROADCAST_ADDRESS KeyNull bytes (MatrixTransmitter m))
        /\ forall address t,
             In t (snd (fst (MatrixCodec_Decompress bytes address))) -> key t <> k).
Proof.
  intros Hl. split; [|split].
  - intros tok lib Hk. apply Matrix_TokenIn_local. rewrite Hk. exact Hl.
  - intros tok lib Hk. apply SendToken_local. rewrite Hk. exact Hl.
  - intros bytecode bytecodeSize writes senderAddressFilter lib Htable m bytes sent.
    split; [apply Matrix_Clock_status_transmits|].
    intros address t Hin Hk.
    assert (Hok : Forall entry_ok (MatrixTimeLogic_TokenTable lib)).
    { rewrite Htable. apply writes_ok, MTL_PopulateTokenTable_ok. }
    pose proof (status_message_keys_public _ address t Hok Hin) as Hpub.
    rewrite Hk, Hl in Hpub. discriminate Hpub.
Qed.

(** An equation file with the equations [0x43E8 = 0x23E9] and
    [0x0005 = 0x2005]: the second output is the local variable 5 under the
    output-status prefix. *)
Definition two_equations : list Z :=
  [1; 2; 3; 4; 0;
   6; 12; 0x43; 0xE8; 10; 12; 0x23; 0xE9; 9;
   6; 12; 0x00; 0x05; 10; 12; 0x20; 0x05; 9].

Lemma local_keys_never_sent_witness :
  Key_IsLocalVariable 0x2005 = true
  /\ Matrix (Matrix_TokenIn silent_step silent_start silent_step
               (mkTOKEN 0 0 0x2005 1) (node_running_1030 5))
     = Matrix (node_running_1030 5)
  /\ forall t,
       In t (snd (fst (MatrixCodec_Decompress
                         (snd (MatrixCodec_Compress
                                 (MTL_PopulateTokenTable (Some two_equations) 23))) 9))) ->
       key t <> 0x2005.
Proof.
  assert (Hl : Key_IsLocalVariable 0x2005 = true) by (vm_compute; reflexivity).
  pose proof (local_keys_never_sent silent_step silent_start silent_step 0x2005 Hl)
    as (H1 & _ & H3).
  split; [exact Hl|]. split.
  - apply H1. reflexivity.
  - intros t.
    exact (proj2 (H3 (Some two_equations) 23 [] 0
                     (mkLib (Matrix (node_running_1030 5))
                            (TokenSequencerController (node_running_1030 5))
                            (MTL_PopulateTokenTable (Some two_equations) 23) true [])
                     eq_refl) 9 t).
Defined.

(** * Further properties of the code *)

(** ** Token keys *)

Lemma land_split k m : Z.land k m + Z.land k (Z.lnot m) = k.
Proof.
  rewrite Z.add_nocarry_lxor.
  - rewrite Z.lxor_lor.
    + rewrite <- Z.land_lor_distr_r, Z.lor_lnot_diag. apply Z.land_m1_r.
    + rewrite Z.land_assoc, (Z.land_comm (Z.land k m) k), Z.land_assoc, Z.land_diag.
      rewrite <- Z.land_assoc, Z.land_lnot_diag. apply Z.land_0_r.
  - rewrite Z.land_assoc, (Z.land_comm (Z.land k m) k), Z.land_assoc, Z.land_diag.
    rewrite <- Z.land_assoc, Z.land_lnot_diag. apply Z.land_0_r.
Qed.

Lemma land_16bit k m :
  0 <= k < 65536 -> Z.land k m = Z.land k (Z.land 0xFFFF m).
Proof.
  intros Hk. rewrite Z.land_assoc. f_equal.
  change 0xFFFF with (Z.ones 16). rewrite Z.land_ones by lia.
  symmetry. apply Z.mod_small. change (2 ^ 16) with 65536. lia.
Qed.

Lemma key_body k : 0 <= k < 65536 -> Key_WithoutPrefix k = k mod 8192.
Proof.
  intros Hk. unfold Key_WithoutPrefix. rewrite land_16bit by exact Hk.
  change (Z.land 0xFFFF (Z.lnot (Z.shiftl KeyPrefix_Mask 8))) with (Z.ones 13).
  rewrite Z.land_ones by lia. reflexivity.
Qed.

Lemma key_prefix_bits k :
  0 <= k < 65536 -> Z.shiftl (Key_GetPrefix k) 8 = Z.land k (Z.shiftl KeyPrefix_Mask 8).
Proof.
  intros Hk. unfold Key_GetPrefix. rewrite land_shiftl_8. f_equal.
  set (b := Z.shiftr k 8).
  assert (Hb : 0 <= b < 256).
  { unfold b. rewrite Z.shiftr_div_pow2 by lia. change (2 ^ 8) with 256.
    Z.div_mod_to_equations. lia. }
  pose proof (byte_forall
    (fun b => u8 (u16 (Z.land b KeyPrefix_Mask)) =? Z.land b KeyPrefix_Mask)
    eq_refl b Hb) as H.
  apply Z.eqb_eq in H. exact H.
Qed.

(** X1.  A 16-bit key is the sum of its prefix, moved to the high byte, and
    its body: [Key_GetPrefix] and [Key_WithoutPrefix] lose nothing.  The
    prefix has only the three prefix bits and the body is below 8192. *)
Theorem Key_prefix_body_split (k : Z) :
  0 <= k < 65536 ->
  Z.shiftl (Key_GetPrefix k) 8 + Key_WithoutPrefix k = k
  /\ Z.land (Key_GetPrefix k) (Z.lnot KeyPrefix_Mask) = 0
  /\ 0 <= Key_GetPrefix k < 256
  /\ 0 <= Key_WithoutPrefix k < 8192.
Proof.
  intros Hk. split; [|split; [|split]].
  - rewrite key_prefix_bits by exact Hk. unfold Key_WithoutPrefix. apply land_split.
  - unfold Key_GetPrefix.
    set (b := Z.shiftr k 8).
    assert (Hb : 0 <= b < 256).
    { unfold b. rewrite Z.shiftr_div_pow2 by lia. change (2 ^ 8) with 256.
      Z.div_mod_to_equations. lia. }
    pose proof (byte_forall
      (fun b => Z.land (u8 (u16 (Z.land b KeyPrefix_Mask))) (Z.lnot KeyPrefix_Mask) =? 0)
      eq_refl b Hb) as H.
    apply Z.eqb_eq in H. exact H.
  - unfold Key_GetPrefix. apply u8_range.
  - rewrite key_body by exact Hk. apply Z.mod_pos_bound. lia.
Qed.

Lemma Key_prefix_body_split_witness :
  Z.shiftl (Key_GetPrefix 0x43E8) 8 + Key_WithoutPrefix 0x43E8 = 0x43E8.
Proof.
  assert (H : 0 <= 0x43E8 < 65536) by lia.
  exact (proj1 (Key_prefix_body_split 0x43E8 H)).
Defined.

Lemma key_split_sum k :
  0 <= k < 65536 -> Z.shiftl (Key_GetPrefix k) 8 + Key_WithoutPrefix k = k.
Proof.
  intros Hk. rewrite key_prefix_bits by exact Hk. unfold Key_WithoutPrefix.
  apply land_split.
Qed.

Lemma testbit_E0 n : 0 <= n -> Z.testbit KeyPrefix_Mask n = (5 <=? n) && (n <=? 7).
Proof.
  intros Hn. destruct (Z.ltb_spec n 8) as [Hlt | Hge].
  - assert (H : n = 0 \/ n = 1 \/ n = 2 \/ n = 3 \/ n = 4 \/ n = 5 \/ n = 6 \/ n = 7) by lia.
    destruct H as [-> | [-> | [-> | [-> | [-> | [-> | [-> | ->]]]]]]]; reflexivity.
  - rewrite Z.bits_above_log2 by (change (Z.log2 KeyPrefix_Mask) with 7; unfold KeyPrefix_Mask; lia).
    symmetry. apply andb_false_iff. right. apply Z.leb_gt. lia.
Qed.

(** X2.  [Key_SetPrefix] clears bits 5 to 7 of the key's low byte (it masks
    the key with [~KeyPrefix_Mask], not with the mask moved to the high
    byte) and or-s the prefix into the high byte.  So the result always has
    those three low-byte bits clear, and it is the key under the new prefix
    exactly when the key had no prefix and had those bits clear already. *)
Theorem Key_SetPrefix_behaviour (p k : Z) :
  0 <= k < 65536 -> 0 <= p < 256 ->
  Z.land (Key_SetPrefix p k) KeyPrefix_Mask = 0
  /\ (Z.land p (Z.lnot KeyPrefix_Mask) = 0 -> k < 8192 -> Z.land k KeyPrefix_Mask = 0 ->
      Key_GetPrefix (Key_SetPrefix p k) = p
      /\ Key_WithoutPrefix (Key_SetPrefix p k) = k).
Proof.
  intros Hk Hp. split.
  - apply Z.bits_inj'. intros n Hn. rewrite Z.bits_0, Z.land_spec, testbit_E0 by exact Hn.
    destruct ((5 <=? n) && (n <=? 7)) eqn:E; [|apply andb_false_r].
    apply andb_true_iff in E. destruct E as [E1 E2].
    apply Z.leb_le in E1. apply Z.leb_le in E2.
    rewrite andb_true_r. unfold Key_SetPrefix, u16. change 65536 with (2 ^ 16).
    rewrite Z.mod_pow2_bits_low by lia.
    rewrite Z.lor_spec, Z.land_spec, Z.lnot_spec, testbit_E0 by exact Hn.
    rewrite Z.shiftl_spec_low by lia.
    replace ((5 <=? n) && (n <=? 7)) with true
      by (symmetry; apply andb_true_iff; split; apply Z.leb_le; lia).
    cbn [negb]. rewrite andb_false_r. reflexivity.
  - intros Hpre Hbody Hlow.
    assert (Hq : p = 32 * (p / 32)).
    { pose proof (byte_forall
        (fun p => if Z.land p (Z.lnot KeyPrefix_Mask) =? 0 then p mod 32 =? 0 else true)
        eq_refl p Hp) as H.
      cbv beta in H. rewrite Hpre in H. cbn [Z.eqb] in H. apply Z.eqb_eq in H.
      Z.div_mod_to_equations. lia. }
    set (q := p / 32) in *.
    assert (Hkeep : Z.land k (Z.lnot KeyPrefix_Mask) = k).
    { pose proof (land_split k KeyPrefix_Mask) as H. rewrite Hlow in H. exact H. }
    assert (Hset : Key_SetPrefix p k = 8192 * q + k).
    { unfold Key_SetPrefix. rewrite Hkeep.
      replace (Z.shiftl p 8) with (Z.shiftl q 13)
        by (rewrite !Z.shiftl_mul_pow2 by lia; change (2 ^ 13) with 8192;
            change (2 ^ 8) with 256; lia).
      rewrite Z.lor_comm, lor_shiftl_add by (change (2 ^ 13) with 8192; lia).
      change (2 ^ 13) with 8192. unfold u16. rewrite Z.mod_small; lia. }
    assert (Hrange : 0 <= Key_SetPrefix p k < 65536) by (rewrite Hset; lia).
    assert (Hb : Key_WithoutPrefix (Key_SetPrefix p k) = k).
    { rewrite key_body by exact Hrange. rewrite Hset.
      Z.div_mod_to_equations. lia. }
    split; [|exact Hb].
    pose proof (key_split_sum (Key_SetPrefix p k) Hrange) as Hsum.
    rewrite Hb in Hsum. rewrite Z.shiftl_mul_pow2 in Hsum by lia.
    change (2 ^ 8) with 256 in Hsum. lia.
Qed.

Lemma Key_SetPrefix_behaviour_witness :
  Key_GetPrefix (Key_SetPrefix KeyPrefix_InputStatus 0x0308) = KeyPrefix_InputStatus
  /\ Key_WithoutPrefix (Key_SetPrefix KeyPrefix_InputStatus 0x0308) = 0x0308.
Proof.
  apply (Key_SetPrefix_behaviour KeyPrefix_InputStatus 0x0308);
    try (unfold KeyPrefix_InputStatus; lia); reflexivity.
Defined.

Ltac bool_cases :=
  rewrite ?Z.gtb_ltb, ?Z.geb_leb in *;
  repeat match goal with
         | |- context [?a <? ?b] => destruct (Z.ltb_spec a b)
         | |- context [?a <=? ?b] => destruct (Z.leb_spec a b)
         | |- context [?a =? ?b] => destruct (Z.eqb_spec a b)
         end;
  cbn [andb orb negb]; try reflexivity; try discriminate; try lia.

Lemma key_low13 k : 0 <= k < 65536 -> Z.land k 0x1fff = Key_WithoutPrefix k.
Proof.
  intros Hk. rewrite key_body by exact Hk.
  change 0x1fff with (Z.ones 13). apply Z.land_ones. lia.
Qed.

(** X3.  [Key_ValueSize] looks only at the 13-bit body of a key, and it
    agrees with the region tests of the same file: one byte for indexed
    inputs and outputs and named one-byte keys, two and four bytes for the
    named two- and four-byte regions, none for the zero-byte and FTP regions,
    and 1, 2, 4 or 0 bytes in the four sub-ranges of the local variables.
    [Key_IsZeroThroughFourByte] is the union of the six public value
    regions. *)
Theorem Key_ValueSize_by_region (k : Z) :
  0 <= k < 65536 ->
  Key_ValueSize k = Key_ValueSize (Key_WithoutPrefix k)
  /\ (Key_IsIndexedOneByteInput k = true -> Key_ValueSize k = 1)
  /\ (Key_IsIndexedOneByteOutput k = true -> Key_ValueSize k = 1)
  /\ (Key_IsNamedOneByte k = true -> Key_ValueSize k = 1)
  /\ (Key_IsNamedTwoByte k = true -> Key_ValueSize k = 2)
  /\ (Key_IsNamedFourByte k = true -> Key_ValueSize k = 4)
  /\ (Key_IsZeroByte k = true -> Key_ValueSize k = 0)
  /\ (Key_IsFtpRequest k = true -> Key_ValueSize k = 0)
  /\ (Key_IsFtpResponse k = true -> Key_ValueSize k = 0)
  /\ (Key_IsLocalVariable k = true ->
      Key_ValueSize k =
        if Key_WithoutPrefix k <? Subreg_Base__Local_Two_Byte then 1
        else if Key_WithoutPrefix k <? Subreg_Base__Local_Four_Byte then 2
        else if Key_WithoutPrefix k <? Subreg_Base__Local_Zero_Byte then 4
        else 0)
  /\ Key_IsZeroThroughFourByte k =
       Key_IsIndexedOneByteInput k || Key_IsIndexedOneByteOutput k
       || Key_IsNamedOneByte k || Key_IsNamedTwoByte k
       || Key_IsNamedFourByte k || Key_IsZeroByte k.
Proof.
  intros Hk.
  assert (Hb : 0 <= Key_WithoutPrefix k < 8192)
    by (rewrite key_body by exact Hk; apply Z.mod_pos_bound; lia).
  assert (Hvs : forall j, Z.land j 0x1fff = Key_WithoutPrefix k ->
            Key_ValueSize j =
              let key := Key_WithoutPrefix k in
              if key =? 0 then 0
              else if key <? 200 then
                if key <? 120 then 1 else if key <? 170 then 2
                else if key <? 190 then 4 else 0
              else if key <? 5000 then 1
              else if key <? 7000 then 2
              else if key <? 8000 then 4
              else if key <? 8150 then 0
              else if key <? 8160 then 3
              else 0).
  { intros j Hj. unfold Key_ValueSize. rewrite Hj. cbv zeta.
    rewrite !Z.gtb_ltb. reflexivity. }
  assert (Hself : Z.land (Key_WithoutPrefix k) 0x1fff = Key_WithoutPrefix k).
  { change 0x1fff with (Z.ones 13). rewrite Z.land_ones by lia.
    apply Z.mod_small. change (2 ^ 13) with 8192. lia. }
  rewrite (Hvs (Key_WithoutPrefix k) Hself).
  rewrite (Hvs k (key_low13 k Hk)).
  unfold Key_IsIndexedOneByteInput, Key_IsIndexedOneByteOutput, Key_IsNamedOneByte,
    Key_IsNamedTwoByte, Key_IsNamedFourByte, Key_IsZeroByte, Key_IsFtpRequest,
    Key_IsFtpResponse, Key_IsLocalVariable, Key_IsZeroThroughFourByte.
  fold (Key_WithoutPrefix k).
  set (b := Key_WithoutPrefix k) in *. clearbody b. clear Hvs Hself.
  cbv zeta.
  unfold Region_Base__Indexed_One_Byte_Inputs, Region_Size__Indexed_One_Byte_Inputs,
    Region_Base__Indexed_One_Byte_Outputs, Region_Size__Indexed_One_Byte_Outputs,
    Region_Base__Named_One_Byte, Region_Size__Named_One_Byte,
    Region_Base__Named_Two_Byte, Region_Size__Named_Two_Byte,
    Region_Base__Named_Four_Byte, Region_Size__Named_Four_Byte,
    Region_Base__Named_Zero_Byte, Region_Size__Named_Zero_Byte,
    Region_Base__FTP_Requests, Region_Size__FTP_Requests,
    Region_Base__FTP_Responses, Region_Size__FTP_Response,
    Region_Base__Local_Variables, Region_Size__Local_Variables,
    Subreg_Base__Local_Two_Byte, Subreg_Base__Local_Four_Byte,
    Subreg_Base__Local_Zero_Byte.
  repeat split; try intros H; bool_cases.
Qed.

Lemma Key_ValueSize_by_region_witness :
  Key_ValueSize 0x43E8 = Key_ValueSize (Key_WithoutPrefix 0x43E8).
Proof.
  assert (H : 0 <= 0x43E8 < 65536) by lia.
  exact (proj1 (Key_ValueSize_by_region 0x43E8 H)).
Defined.

(** ** Event index *)

(** X4.  After the receiver has observed an index with
    [Matrix_NewEventIndex], that same index is classed as expired by
    [Matrix_IsEventIndexExpired] exactly when it is non-zero, the local index
    was already set, and the observed index is strictly older than the local
    one: a first or newer index is adopted and is never expired. *)
Theorem observed_index_expired_iff (r l : Z) :
  Matrix_IsEventIndexExpired r (Matrix_NewEventIndex r l) = true
  <-> (r <> 0 /\ l <> 0 /\ i8 (r - l) < 0).
Proof.
  unfold Matrix_IsEventIndexExpired, Matrix_NewEventIndex.
  destruct (Z.eqb_spec 0 r) as [E0 | E0].
  { split; [discriminate | intros [H _]; congruence]. }
  cbv zeta.
  destruct (Z.eqb_spec 0 l) as [El | El]; cbn [orb].
  { rewrite Z.sub_diag. change (i8 0) with 0.
    split; [discriminate | intros (_ & H & _); congruence]. }
  rewrite Z.gtb_ltb.
  destruct (Z.ltb_spec 0 (i8 (r - l))) as [Hn | Hn].
  - rewrite Z.sub_diag. change (i8 0) with 0.
    split; [discriminate | intros (_ & _ & H); lia].
  - rewrite Z.ltb_lt. split; [intros H; repeat split; congruence || exact H | tauto].
Qed.

(** X5.  [Matrix_NextEventIndex] counts on the 16-bit state: it adds one
    and goes from 65535 to 1, so the state is never 0.
    [Matrix_GetEventIndex] then reports the low byte of the state without
    changing it.  That byte is the reserved index 0 exactly when the low
    byte before the bump was 255 and the state was not 65535 (state 255 goes
    to 256).  A non-zero index byte held before the bump is expired with
    respect to the new state. *)
Theorem NextEventIndex_low_byte (e : Z) :
  0 <= e < 65536 ->
  let e' := Matrix_NextEventIndex e in
  e' = (if e =? 65535 then 1 else e + 1)
  /\ Matrix_GetEventIndex e' = (e' mod 256, e')
  /\ (e' mod 256 = 0 <-> e mod 256 = 255 /\ e <> 65535)
  /\ (e mod 256 <> 0 -> Matrix_IsEventIndexExpired (e mod 256) e' = true).
Proof.
  intros He e'. pose proof (NextEventIndex_value e He) as Hv. fold e' in Hv.
  split; [exact Hv|]. split.
  { rewrite GetEventIndex_nonzero by apply NextEventIndex_nonzero. reflexivity. }
  destruct (Z.eqb_spec e 65535) as [E|E].
  - subst e. rewrite Hv. split.
    + split; [intros H; discriminate H | intros [_ H]; congruence].
    + intros _. reflexivity.
  - rewrite Hv. split.
    + split.
      * intros H. split; [Z.div_mod_to_equations; lia | exact E].
      * intros [H _]. Z.div_mod_to_equations. lia.
    + intros Hb. unfold Matrix_IsEventIndexExpired.
      destruct (Z.eqb_spec 0 (e mod 256)) as [E0|_]; [congruence|].
      cbv zeta. apply Z.ltb_lt. unfold i8. Z.div_mod_to_equations. lia.
Qed.

Lemma NextEventIndex_low_byte_witness :
  Matrix_NextEventIndex 255 = 256
  /\ Matrix_GetEventIndex (Matrix_NextEventIndex 255) = (0, 256).
Proof.
  assert (H : 0 <= 255 < 65536) by lia.
  pose proof (NextEventIndex_low_byte 255 H) as (H1 & H2 & _).
  split; [exact H1 | exact H2].
Defined.

(** ** Message CRC *)

(** One pass of the bit loop of [Matrix_AddByteToCRC16]. *)
Definition crc_step (byte crc : Z) : Z :=
  if Z.land (Z.lxor byte (u8 crc)) 1 =? 0
  then Z.shiftr crc 1
  else Z.lxor (Z.shiftr crc 1) (u16 MATRIX_MESSAGE_CRC_POLY_VALUE).

Lemma crc_bits_step n byte crc :
  AddByteToCRC16_bits (S n) byte crc
  = AddByteToCRC16_bits n (Z.shiftr byte 1) (crc_step byte crc).
Proof. reflexivity. Qed.

Lemma crc_step_range byte crc : 0 <= crc < 65536 -> 0 <= crc_step byte crc < 65536.
Proof. intros H. exact (AddByteToCRC16_bits_range 1 byte crc H). Qed.

Lemma crc_step_parity b c :
  (Z.land (Z.lxor b (u8 c)) 1 =? 0) = negb (xorb (Z.odd b) (Z.odd c)).
Proof.
  change 1 with (Z.ones 1) at 1. rewrite Z.land_ones by lia.
  change (2 ^ 1) with 2. rewrite <- Z.bit0_mod, Z.lxor_spec.
  unfold u8. change 256 with (2 ^ 8). rewrite Z.mod_pow2_bits_low by lia.
  rewrite !Z.bit0_odd. destruct (Z.odd b), (Z.odd c); reflexivity.
Qed.

Lemma odd_lxor a b : Z.odd (Z.lxor a b) = xorb (Z.odd a) (Z.odd b).
Proof. rewrite <- !Z.bit0_odd. apply Z.lxor_spec. Qed.

Lemma crc_step_xor b c :
  Z.lxor (crc_step b c) (Z.shiftr b 1) = crc_step 0 (Z.lxor c b).
Proof.
  unfold crc_step. rewrite !crc_step_parity, odd_lxor. change (Z.odd 0) with false.
  rewrite Z.shiftr_lxor.
  destruct (Z.odd b), (Z.odd c); cbn [xorb negb]; try reflexivity;
    rewrite !Z.lxor_assoc; f_equal; apply Z.lxor_comm.
Qed.

Lemma crc_bits_xor n : forall b c,
  0 <= b < 2 ^ Z.of_nat n ->
  AddByteToCRC16_bits n b c = AddByteToCRC16_bits n 0 (Z.lxor c b).
Proof.
  induction n as [|n IH]; intros b c Hb.
  - change (2 ^ Z.of_nat 0) with 1 in Hb. replace b with 0 by lia.
    rewrite Z.lxor_0_r. reflexivity.
  - rewrite !crc_bits_step. rewrite Z.shiftr_0_l.
    rewrite IH.
    + rewrite crc_step_xor. reflexivity.
    + rewrite Z.shiftr_div_pow2 by lia. change (2 ^ 1) with 2.
      rewrite Nat2Z.inj_succ, Z.pow_succ_r in Hb by lia.
      Z.div_mod_to_equations. lia.
Qed.

Lemma crc_step0_odd c :
  0 <= c < 65536 -> Z.testbit (crc_step 0 c) 15 = Z.odd c.
Proof.
  intros Hc.
  assert (Hs : Z.testbit (Z.shiftr c 1) 15 = false).
  { apply Z.testbit_false; [lia|]. rewrite Z.shiftr_div_pow2 by lia.
    change (2 ^ 1) with 2. change (2 ^ 15) with 32768.
    Z.div_mod_to_equations. lia. }
  unfold crc_step. rewrite crc_step_parity. change (Z.odd 0) with false.
  destruct (Z.odd c); cbn [xorb negb].
  - rewrite Z.lxor_spec, Hs. reflexivity.
  - exact Hs.
Qed.

Lemma crc_step0_inj c1 c2 :
  0 <= c1 < 65536 -> 0 <= c2 < 65536 -> crc_step 0 c1 = crc_step 0 c2 -> c1 = c2.
Proof.
  intros H1 H2 E.
  assert (Ho : Z.odd c1 = Z.odd c2).
  { rewrite <- (crc_step0_odd c1 H1), <- (crc_step0_odd c2 H2), E. reflexivity. }
  assert (Hs : Z.shiftr c1 1 = Z.shiftr c2 1).
  { unfold crc_step in E. rewrite !crc_step_parity, <- Ho in E.
    destruct (negb (xorb (Z.odd 0) (Z.odd c1))); [exact E|].
    apply (f_equal (fun x => Z.lxor x (u16 MATRIX_MESSAGE_CRC_POLY_VALUE))) in E.
    rewrite !Z.lxor_assoc, !Z.lxor_nilpotent, !Z.lxor_0_r in E. exact E. }
  rewrite (Z.div2_odd c1), (Z.div2_odd c2), !Z.div2_spec, Hs, Ho. reflexivity.
Qed.

Lemma crc_bits0_inj n : forall c1 c2,
  0 <= c1 < 65536 -> 0 <= c2 < 65536 ->
  AddByteToCRC16_bits n 0 c1 = AddByteToCRC16_bits n 0 c2 -> c1 = c2.
Proof.
  induction n as [|n IH]; intros c1 c2 H1 H2 E; [exact E|].
  rewrite !crc_bits_step, Z.shiftr_0_l in E.
  apply IH in E; try apply crc_step_range; try assumption.
  apply crc_step0_inj; assumption.
Qed.

Lemma lxor_cancel_r a b c : Z.lxor a c = Z.lxor b c -> a = b.
Proof.
  intros E. apply (f_equal (fun x => Z.lxor x c)) in E.
  rewrite !Z.lxor_assoc, !Z.lxor_nilpotent, !Z.lxor_0_r in E. exact E.
Qed.

(** For a 16-bit accumulator, [Matrix_AddByteToCRC16] is one-to-one in the
    accumulator for a fixed byte, and one-to-one in the byte for a fixed
    accumulator. *)
Lemma AddByteToCRC16_inj b1 b2 c1 c2 :
  0 <= b1 < 256 -> 0 <= b2 < 256 -> 0 <= c1 < 65536 -> 0 <= c2 < 65536 ->
  Matrix_AddByteToCRC16 b1 c1 = Matrix_AddByteToCRC16 b2 c2 ->
  Z.lxor c1 b1 = Z.lxor c2 b2.
Proof.
  intros Hb1 Hb2 Hc1 Hc2 E. unfold Matrix_AddByteToCRC16 in E.
  rewrite (crc_bits_xor 8 b1 c1), (crc_bits_xor 8 b2 c2) in E
    by (change (2 ^ Z.of_nat 8) with 256; lia).
  apply crc_bits0_inj in E; [exact E | |];
    apply (lxor_range _ _ 16); change (2 ^ 16) with 65536; lia.
Qed.

Lemma crc_fold_range bytes : forall c,
  0 <= c < 65536 ->
  0 <= fold_left (fun c b => Matrix_AddByteToCRC16 b c) bytes c < 65536.
Proof.
  induction bytes as [|b bytes IH]; intros c Hc; [exact Hc|].
  cbn [fold_left]. apply IH. apply AddByteToCRC16_bits_range. exact Hc.
Qed.

Lemma crc_fold_inj bytes : forall c1 c2,
  Forall (fun b => 0 <= b < 256) bytes ->
  0 <= c1 < 65536 -> 0 <= c2 < 65536 -> c1 <> c2 ->
  fold_left (fun c b => Matrix_AddByteToCRC16 b c) bytes c1
  <> fold_left (fun c b => Matrix_AddByteToCRC16 b c) bytes c2.
Proof.
  induction bytes as [|b bytes IH]; intros c1 c2 Hb H1 H2 Hne; [exact Hne|].
  cbn [fold_left]. apply IH.
  - exact (Forall_inv_tail Hb).
  - apply AddByteToCRC16_bits_range. exact H1.
  - apply AddByteToCRC16_bits_range. exact H2.
  - intros E. apply Hne.
    apply (AddByteToCRC16_inj b b c1 c2 (Forall_inv Hb) (Forall_inv Hb) H1 H2) in E.
    exact (lxor_cancel_r _ _ _ E).
Qed.

Lemma crc16_of_changed_byte pre b b' post :
  0 <= b < 256 -> 0 <= b' < 256 -> b <> b' ->
  Forall (fun x => 0 <= x < 256) post ->
  crc16_of (pre ++ b :: post) <> crc16_of (pre ++ b' :: post).
Proof.
  intros Hb Hb' Hne Hpost. unfold crc16_of.
  rewrite !fold_left_app. cbn [fold_left].
  set (s := fold_left (fun c x => Matrix_AddByteToCRC16 x c) pre
                      MATRIX_MESSAGE_CRC_INIT_VALUE).
  assert (Hs : 0 <= s < 65536)
    by (apply crc_fold_range; unfold MATRIX_MESSAGE_CRC_INIT_VALUE; lia).
  apply crc_fold_inj; try exact Hpost;
    try (apply AddByteToCRC16_bits_range; exact Hs).
  intros E. apply Hne.
  apply (AddByteToCRC16_inj b b' s s Hb Hb' Hs Hs) in E.
  rewrite (Z.lxor_comm s b), (Z.lxor_comm s b') in E.
  exact (lxor_cancel_r _ _ _ E).
Qed.

(** X6.  The message CRC detects every change of a single byte: take a
    message and the big-endian CRC that [Matrix_ComputeCRC16] gives for it;
    if one byte of the message is replaced by a different byte value, the
    stream made of the changed message and the original CRC is rejected by
    [Matrix_IsMessageChecksumValid]. *)
Theorem checksum_rejects_changed_byte (pre post : list Z) (b b' : Z) :
  0 <= b < 256 -> 0 <= b' < 256 -> b <> b' ->
  Forall (fun x => 0 <= x < 256) post ->
  let msg := pre ++ b :: post in
  let c := Matrix_ComputeCRC16 msg (length msg) in
  let received := (pre ++ b' :: post) ++ [u8 (Z.shiftr c 8); u8 c] in
  Matrix_IsMessageChecksumValid received (length received) = Some false.
Proof.
  intros Hb Hb' Hne Hpost msg c received.
  assert (Hc : c = crc16_of msg).
  { unfold c. rewrite <- (app_nil_r msg) at 1. apply ComputeCRC16_crc16_of. }
  assert (Hlen : length received = S (S (length (pre ++ b' :: post)))).
  { unfold received. rewrite length_app. cbn [length]. lia. }
  rewrite Hlen. cbn [Matrix_IsMessageChecksumValid].
  unfold received.
  rewrite !app_nth2 by lia.
  replace (length (pre ++ b' :: post) - length (pre ++ b' :: post))%nat with 0%nat by lia.
  replace (S (length (pre ++ b' :: post)) - length (pre ++ b' :: post))%nat
    with 1%nat by lia.
  cbn [nth].
  rewrite ComputeCRC16_crc16_of.
  assert (Hbe : u16 (Z.lor (Z.shiftl (u8 (Z.shiftr c 8)) 8) (u8 c)) = c).
  { pose proof (crc16_of_range msg) as Hr. rewrite <- Hc in Hr.
    assert (Hlo : 0 <= u8 c < 2 ^ 8).
    { unfold u8. change (2 ^ 8) with 256. apply Z.mod_pos_bound. lia. }
    rewrite lor_shiftl_add by (try lia; exact Hlo).
    unfold u8, u16. rewrite Z.shiftr_div_pow2 by lia.
    change (2 ^ 8) with 256. Z.div_mod_to_equations. lia. }
  rewrite Hbe. f_equal. apply Z.eqb_neq. rewrite Hc.
  apply crc16_of_changed_byte; assumption.
Qed.

Lemma checksum_rejects_changed_byte_witness :
  Matrix_IsMessageChecksumValid
    (([7; 1; 2] ++ 9 :: [4; 5; 6; 7; 8; 9; 10; 11; 12; 13]) ++ [60; 17])
    16 = Some false.
Proof.
  assert (H3 : 0 <= 3 < 256) by lia.
  assert (H9 : 0 <= 9 < 256) by lia.
  assert (Hne : 3 <> 9) by lia.
  assert (Hpost : Forall (fun x => 0 <= x < 256) [4; 5; 6; 7; 8; 9; 10; 11; 12; 13])
    by (repeat constructor; lia).
  exact (checksum_rejects_changed_byte [7; 1; 2] [4; 5; 6; 7; 8; 9; 10; 11; 12; 13]
           3 9 H3 H9 Hne Hpost).
Defined.

(** ** CAN address negotiation *)

Lemma GetNext_total guid x o fuel :
  0 <= x <= 7 -> (64 <= fuel)%nat ->
  exists a st,
    MatrixCanAddress_GetNextProposedCanAddress fuel guid x o = Some (a, st)
    /\ address_ok a.
Proof.
  intros Hx Hf.
  destruct (bump_to_zero x o Hx) as [k [Hk Ek]].
  destruct (good_offset_exists (guid_sum guid 0 + (o + 1))) as [i [Hi Hok]].
  apply (GetNext_found guid (k + 7 * i)); [lia|].
  rewrite bump_n_add, Ek, bump_rounds. cbn [fst snd].
  rewrite proposed_address_offset.
  replace ((guid_sum guid 0 + (o + 1 + Z.of_nat i) mod 128) mod 128)
    with ((guid_sum guid 0 + (o + 1) + Z.of_nat i) mod 128)
    by (Z.div_mod_to_equations; lia).
  exact Hok.
Qed.

(** C8 (amended): while a candidate in 1..120 is proposed and not yet
    adopted, an address-in-use token carrying the candidate value discards
    the candidate without sending anything, and the next
    [MatrixCanAddress_Clock] proposes a new candidate in 1..120 with a
    [KeyRequestAddress] token; any other token whose source address equals
    the candidate leaves the address object unchanged. *)
Theorem CanTokenIn_while_proposing (token : TOKEN) (ca : MATRIX_CAN_ADDRESS_OBJECT)
    (guid : list Z) (fuel : nat) (t : Z) :
  Proposing ca -> 1 <= proposedAddress ca <= 120 ->
  0 <= xorIndex ca <= 7 -> (64 <= fuel)%nat ->
  (key token = KeyResponseAddressInUse -> value token = proposedAddress ca ->
     let ca' := fst (MatrixCanAddress_CanTokenIn token ca) in
     proposedAddress ca' = 0
     /\ file_address ca' = 0
     /\ snd (MatrixCanAddress_CanTokenIn token ca) = []
     /\ exists a ca'',
          1 <= a <= 120
          /\ MatrixCanAddress_Clock fuel guid t ca'
             = Some (ca'', [mkTOKEN 0 0 KeyRequestAddress a], None)
          /\ proposedAddress ca'' = a
          /\ Matrix_IsCanAddressValid ca'' = false)
  /\
  (address token = proposedAddress ca ->
     ~ (key token = KeyResponseAddressInUse /\ value token = proposedAddress ca) ->
     fst (MatrixCanAddress_CanTokenIn token ca) = ca).
Proof.
  intros [Hv Hp] Hr Hx Hf. unfold Matrix_IsCanAddressValid in Hv.
  apply orb_false_iff in Hv. destruct Hv as [Hv Hs].
  apply negb_false_iff in Hs. apply Z.eqb_eq in Hs.
  split.
  - intros Hk Hval ca'.
    assert (E : MatrixCanAddress_CanTokenIn token ca
                = (mkCanAddress (xorIndex ca) (addressOffset ca) (requestTime ca) 0 0
                                (file_isStatic ca), [])).
    { unfold MatrixCanAddress_CanTokenIn. rewrite Hk, Hval, !Z.eqb_refl. reflexivity. }
    unfold ca'. rewrite E. cbn [fst snd proposedAddress file_address].
    split; [reflexivity|]. split; [reflexivity|]. split; [reflexivity|].
    destruct (GetNext_total guid (xorIndex ca) (addressOffset ca) fuel Hx Hf)
      as (a & [xi ao] & Eg & Hok).
    unfold address_ok in Hok.
    assert (Hu : u8 a = a) by (unfold u8; apply Z.mod_small; lia).
    exists a. eexists. split; [exact Hok|].
    unfold MatrixCanAddress_Clock, Matrix_IsCanAddressValid.
    cbn [file_address file_isStatic proposedAddress xorIndex addressOffset].
    rewrite <- Hs. cbn. rewrite Eg, Hu. repeat split.
  - intros Ha Hn. unfold MatrixCanAddress_CanTokenIn.
    replace ((key token =? KeyResponseAddressInUse) && (value token =? proposedAddress ca))
      with false.
    2:{ symmetry. apply andb_false_iff.
        destruct (key token =? KeyResponseAddressInUse) eqn:E1; [|now left].
        destruct (value token =? proposedAddress ca) eqn:E2; [|now right].
        apply Z.eqb_eq in E1, E2. tauto. }
    replace (file_address ca =? address token) with false.
    2:{ symmetry. apply Z.eqb_neq. intro E. rewrite Ha in E. rewrite E in Hv.
        apply andb_false_iff in Hv. destruct Hv as [Hv|Hv].
        - rewrite Z.geb_leb in Hv. apply Z.leb_gt in Hv. lia.
        - apply Z.leb_gt in Hv. lia. }
    rewrite andb_false_r. simpl.
    destruct ((key token =? KeyRequestAddress) && (value token =? file_address ca));
      reflexivity.
Qed.

Lemma CanTokenIn_while_proposing_witness :
  let ca := mkCanAddress 3 0 100 42 0 0 in
  fst (MatrixCanAddress_CanTokenIn (mkTOKEN 0 42 1000 1) ca) = ca.
Proof.
  cbv zeta.
  refine (proj2 (CanTokenIn_while_proposing (mkTOKEN 0 42 1000 1)
                   (mkCanAddress 3 0 100 42 0 0) [] 64 0 _ _ _ _) _ _).
  - split; [reflexivity | simpl; discriminate].
  - simpl; lia.
  - simpl; lia.
  - apply le_n.
  - reflexivity.
  - simpl. intros [H _]. discriminate H.
Defined.

(** The state of the proposal generator is in range: the shift counts of
    [MatrixCanAddress_GetNextProposedCanAddress] are defined. *)
Definition generator_ok (x o : Z) : Prop := 0 <= x <= 6 /\ 0 <= o <= 127.

Lemma bump_ok x o : generator_ok x o ->
  generator_ok (fst (bump_xor_index x o)) (snd (bump_xor_index x o)).
Proof.
  intros [Hx Ho]. unfold generator_ok.
  destruct (Z.ltb_spec x 6).
  - rewrite bump_below by lia. cbn [fst snd]. lia.
  - rewrite bump_wrap by lia. cbn [fst snd].
    pose proof (Z.mod_pos_bound (o + 1) 128). lia.
Qed.

Lemma GetNext_result guid fuel : forall x o a x' o',
  generator_ok x o ->
  MatrixCanAddress_GetNextProposedCanAddress fuel guid x o = Some (a, (x', o')) ->
  address_ok a /\ generator_ok x' o'.
Proof.
  induction fuel as [|fuel IH]; intros x o a x' o' Hok E; [discriminate E|].
  cbn [MatrixCanAddress_GetNextProposedCanAddress] in E.
  pose proof (bump_ok x o Hok) as Hb.
  destruct (bump_xor_index x o) as [x1 o1]. cbn [fst snd] in Hb.
  destruct ((proposed_address guid x o =? 0) || (proposed_address guid x o >? 120))
    eqn:Ebad.
  - exact (IH _ _ _ _ _ Hb E).
  - injection E as <- <- <-. split; [|exact Hb].
    apply orb_false_iff in Ebad. destruct Ebad as [E1 E2].
    apply Z.eqb_neq in E1. rewrite Z.gtb_ltb in E2. apply Z.ltb_ge in E2.
    unfold address_ok. split; [|exact E2].
    assert (0 <= proposed_address guid x o); [|lia].
    unfold proposed_address. apply Z.land_nonneg. right. vm_compute. discriminate.
Qed.

(** X7.  Address defence: a node that receives a [KeyRequestAddress] token
    asking for the address it holds answers with one broadcast
    [KeyResponseAddressInUse] token carrying that address and keeps its
    address object as it is, provided the request does not itself come from
    that address while the node's address is self-assigned. *)
Theorem CanTokenIn_defends_address (tok : TOKEN) (ca : MATRIX_CAN_ADDRESS_OBJECT) :
  key tok = KeyRequestAddress ->
  value tok = file_address ca ->
  address tok <> file_address ca \/ file_address ca = 0 \/ file_isStatic ca <> 0 ->
  MatrixCanAddress_CanTokenIn tok ca
  = (ca, [mkTOKEN (flags tok) 0 KeyResponseAddressInUse (file_address ca)]).
Proof.
  intros Hk Hv Hsrc. unfold MatrixCanAddress_CanTokenIn. rewrite Hk, Hv.
  change (KeyRequestAddress =? KeyResponseAddressInUse) with false.
  rewrite !Z.eqb_refl. cbn [andb orb].
  replace (negb (0 =? file_address ca) && (file_address ca =? address tok)
           && (file_isStatic ca =? 0)) with false; [reflexivity|].
  symmetry. destruct Hsrc as [H | [H | H]].
  - replace (file_address ca =? address tok) with false
      by (symmetry; apply Z.eqb_neq; congruence).
    rewrite andb_false_r. reflexivity.
  - rewrite H. reflexivity.
  - replace (file_isStatic ca =? 0) with false by (symmetry; apply Z.eqb_neq; exact H).
    apply andb_false_r.
Qed.

Lemma CanTokenIn_defends_address_witness :
  MatrixCanAddress_CanTokenIn (mkTOKEN 0 0 KeyRequestAddress 42)
    (mkCanAddress 3 0 100 0 42 0)
  = (mkCanAddress 3 0 100 0 42 0, [mkTOKEN 0 0 KeyResponseAddressInUse 42]).
Proof.
  apply (CanTokenIn_defends_address (mkTOKEN 0 0 KeyRequestAddress 42)
           (mkCanAddress 3 0 100 0 42 0)); [reflexivity | reflexivity |].
  left. cbn. lia.
Defined.

(** X8.  Self-assignment runs to completion when nobody objects: a node
    without a valid address and without a pending proposal proposes, on the
    next clock, an address between 1 and 120 in a broadcast
    [KeyRequestAddress] token; clocks before the 100 ms timer expires change
    nothing; the first clock after it adopts the proposed address, announces
    it with [KeyResponseAddressInUse], schedules the first status message
    1200 ms later, and leaves the node with that valid address and no
    pending proposal. *)
Theorem Clock_proposes_then_adopts (guid : list Z) (fuel : nat)
    (t t1 t2 : Z) (ca : MATRIX_CAN_ADDRESS_OBJECT) :
  Matrix_IsCanAddressValid ca = false ->
  proposedAddress ca = 0 ->
  0 <= xorIndex ca <= 7 -> (64 <= fuel)%nat ->
  IsMatrixTimerExpired t1 (u32 (t + 100)) = false ->
  IsMatrixTimerExpired t2 (u32 (t + 100)) = true ->
  exists a ca1 ca2,
    1 <= a <= 120
    /\ MatrixCanAddress_Clock fuel guid t ca
       = Some (ca1, [mkTOKEN 0 0 KeyRequestAddress a], None)
    /\ MatrixCanAddress_Clock fuel guid t1 ca1 = Some (ca1, [], None)
    /\ MatrixCanAddress_Clock fuel guid t2 ca1
       = Some (ca2, [mkTOKEN 0 0 KeyResponseAddressInUse a], Some (u32 (t2 + 1200)))
    /\ Matrix_GetCanAddress ca2 = a
    /\ Matrix_IsCanAddressValid ca2 = true
    /\ proposedAddress ca2 = 0.
Proof.
  intros Hinv Hprop Hx Hf Ht1 Ht2.
  destruct (GetNext_total guid (xorIndex ca) (addressOffset ca) fuel Hx Hf)
    as (a & [xi ao] & Eg & Ha).
  unfold address_ok in Ha.
  assert (Hu : u8 a = a) by (unfold u8; apply Z.mod_small; lia).
  set (ca1 := mkCanAddress xi ao (u32 (t + 100)) a (file_address ca) (file_isStatic ca)).
  assert (Hinv1 : Matrix_IsCanAddressValid ca1 = false) by exact Hinv.
  exists a, ca1,
    (mkCanAddress xi ao (u32 (t + 100)) 0 a (file_isStatic ca)).
  split; [exact Ha|]. split; [|split; [|split; [|split; [|split]]]].
  - unfold MatrixCanAddress_Clock. rewrite Hinv, Hprop, Eg, Hu. reflexivity.
  - unfold MatrixCanAddress_Clock. rewrite Hinv1. cbn [negb].
    change (proposedAddress ca1) with a. change (requestTime ca1) with (u32 (t + 100)).
    replace (0 =? a) with false by (symmetry; apply Z.eqb_neq; lia).
    rewrite Ht1. reflexivity.
  - unfold MatrixCanAddress_Clock. rewrite Hinv1. cbn [negb].
    change (proposedAddress ca1) with a. change (requestTime ca1) with (u32 (t + 100)).
    replace (0 =? a) with false by (symmetry; apply Z.eqb_neq; lia).
    rewrite Ht2. reflexivity.
  - reflexivity.
  - unfold Matrix_IsCanAddressValid. cbn [file_address].
    replace (a >=? 1) with true by (symmetry; rewrite Z.geb_leb; apply Z.leb_le; lia).
    replace (a <=? 120) with true by (symmetry; apply Z.leb_le; lia).
    reflexivity.
  - reflexivity.
Qed.

Lemma Clock_proposes_then_adopts_witness :
  exists a ca1 ca2,
    1 <= a <= 120
    /\ MatrixCanAddress_Clock 64 [0xEE4CAD97; 0x331CE9EC; 0x9E957DBC; 0xA4A69FE5]
         1000 (mkCanAddress 0 0 0 0 0 0)
       = Some (ca1, [mkTOKEN 0 0 KeyRequestAddress a], None)
    /\ MatrixCanAddress_Clock 64 [0xEE4CAD97; 0x331CE9EC; 0x9E957DBC; 0xA4A69FE5]
         1050 ca1 = Some (ca1, [], None)
    /\ MatrixCanAddress_Clock 64 [0xEE4CAD97; 0x331CE9EC; 0x9E957DBC; 0xA4A69FE5]
         1100 ca1
       = Some (ca2, [mkTOKEN 0 0 KeyResponseAddressInUse a], Some (u32 (1100 + 1200)))
    /\ Matrix_GetCanAddress ca2 = a
    /\ Matrix_IsCanAddressValid ca2 = true
    /\ proposedAddress ca2 = 0.
Proof.
  apply (Clock_proposes_then_adopts
           [0xEE4CAD97; 0x331CE9EC; 0x9E957DBC; 0xA4A69FE5] 64 1000 1050 1100
           (mkCanAddress 0 0 0 0 0 0)); try reflexivity; try (cbn; lia); lia.
Defined.

(** X9.  Address conflict: when a node with a self-assigned address in
    1..120 receives any token whose sender address equals its own, it gives
    the address up (no token is sent, the address is no longer valid and no
    proposal is pending), and its next clock proposes an address between 1
    and 120 again. *)
Theorem address_conflict_restarts (tok : TOKEN) (ca : MATRIX_CAN_ADDRESS_OBJECT)
    (guid : list Z) (fuel : nat) (t : Z) :
  file_isStatic ca = 0 -> 1 <= file_address ca <= 120 ->
  address tok = file_address ca ->
  0 <= xorIndex ca <= 7 -> (64 <= fuel)%nat ->
  let ca' := fst (MatrixCanAddress_CanTokenIn tok ca) in
  snd (MatrixCanAddress_CanTokenIn tok ca) = []
  /\ Matrix_IsCanAddressValid ca' = false
  /\ proposedAddress ca' = 0
  /\ exists a ca'',
       1 <= a <= 120
       /\ MatrixCanAddress_Clock fuel guid t ca'
          = Some (ca'', [mkTOKEN 0 0 KeyRequestAddress a], None)
       /\ proposedAddress ca'' = a.
Proof.
  intros Hs Ha Hsrc Hx Hf ca'.
  assert (E : MatrixCanAddress_CanTokenIn tok ca
              = (mkCanAddress (xorIndex ca) (addressOffset ca) (requestTime ca) 0 0
                              (file_isStatic ca), [])).
  { unfold MatrixCanAddress_CanTokenIn. rewrite Hsrc, Hs, !Z.eqb_refl.
    replace (0 =? file_address ca) with false by (symmetry; apply Z.eqb_neq; lia).
    cbn [negb andb]. rewrite orb_true_r. reflexivity. }
  unfold ca'. rewrite E. cbn [fst snd].
  split; [reflexivity|]. split; [rewrite Hs; reflexivity|]. split; [reflexivity|].
  destruct (GetNext_total guid (xorIndex ca) (addressOffset ca) fuel Hx Hf)
    as (a & [xi ao] & Eg & Hok).
  unfold address_ok in Hok.
  assert (Hu : u8 a = a) by (unfold u8; apply Z.mod_small; lia).
  exists a. eexists. split; [exact Hok|].
  unfold MatrixCanAddress_Clock, Matrix_IsCanAddressValid.
  cbn [file_address file_isStatic proposedAddress xorIndex addressOffset].
  rewrite Hs. cbn. rewrite Eg, Hu. split; reflexivity.
Qed.

Lemma address_conflict_restarts_witness :
  Matrix_IsCanAddressValid
    (fst (MatrixCanAddress_CanTokenIn (mkTOKEN 0 42 1000 1)
            (mkCanAddress 3 0 100 0 42 0))) = false.
Proof.
  assert (H1 : 1 <= 42 <= 120) by lia.
  assert (H2 : 0 <= 3 <= 7) by lia.
  exact (proj1 (proj2 (address_conflict_restarts (mkTOKEN 0 42 1000 1)
                         (mkCanAddress 3 0 100 0 42 0) [] 64 0
                         eq_refl H1 eq_refl H2 (le_n 64)))).
Defined.

(** X10.  A node with a static address is never renegotiated by traffic
    from its own address or by the clock: [MatrixCanAddress_Clock] leaves it
    alone, and [MatrixCanAddress_CanTokenIn] changes its address object only
    for a [KeyResponseAddressInUse] token whose value equals the (idle)
    proposed address; that token clears the stored address, and the node
    still counts as having a valid address because of the static flag. *)
Theorem static_address_kept (tok : TOKEN) (ca : MATRIX_CAN_ADDRESS_OBJECT)
    (guid : list Z) (fuel : nat) (t : Z) :
  file_isStatic ca <> 0 ->
  MatrixCanAddress_Clock fuel guid t ca = Some (ca, [], None)
  /\ (fst (MatrixCanAddress_CanTokenIn tok ca) = ca
      \/ (key tok = KeyResponseAddressInUse /\ value tok = proposedAddress ca
          /\ file_address (fst (MatrixCanAddress_CanTokenIn tok ca)) = 0
          /\ Matrix_IsCanAddressValid (fst (MatrixCanAddress_CanTokenIn tok ca)) = true)).
Proof.
  intros Hs.
  assert (Hz : (0 =? file_isStatic ca) = false) by (apply Z.eqb_neq; congruence).
  assert (Hz' : (file_isStatic ca =? 0) = false) by (apply Z.eqb_neq; exact Hs).
  split.
  - unfold MatrixCanAddress_Clock, Matrix_IsCanAddressValid. rewrite Hz.
    cbn [negb]. rewrite orb_true_r. reflexivity.
  - unfold MatrixCanAddress_CanTokenIn. rewrite Hz', andb_false_r, orb_false_r.
    destruct (Z.eqb_spec (key tok) KeyResponseAddressInUse) as [Ek | Ek];
      destruct (Z.eqb_spec (value tok) (proposedAddress ca)) as [Ev | Ev]; cbn [andb].
    + right. split; [exact Ek|]. split; [exact Ev|]. cbn [fst file_address].
      split; [reflexivity|].
      unfold Matrix_IsCanAddressValid. cbn [file_isStatic]. rewrite Hz.
      apply orb_true_r.
    + left. destruct ((key tok =? KeyRequestAddress) && (value tok =? file_address ca));
        reflexivity.
    + left. destruct ((key tok =? KeyRequestAddress) && (value tok =? file_address ca));
        reflexivity.
    + left. destruct ((key tok =? KeyRequestAddress) && (value tok =? file_address ca));
        reflexivity.
Qed.

Lemma static_address_kept_witness :
  MatrixCanAddress_Clock 64 [] 5000 (mkCanAddress 0 0 0 0 49 1)
  = Some (mkCanAddress 0 0 0 0 49 1, [], None).
Proof.
  assert (H : 1 <> 0) by lia.
  exact (proj1 (static_address_kept (mkTOKEN 0 49 1000 1) (mkCanAddress 0 0 0 0 49 1)
                  [] 64 5000 H)).
Defined.

(** X11.  The proposal generator stays in range: if the xor index is at most
    6 and the address offset at most 127 (as after a reset, where both are
    0), they are so after every token and every clock, whatever the fuel;
    and an address that a clock proposes is between 1 and 120. *)
Theorem generator_state_stays_in_range (ca : MATRIX_CAN_ADDRESS_OBJECT) :
  generator_ok (xorIndex ca) (addressOffset ca) ->
  (forall tok,
     let ca' := fst (MatrixCanAddress_CanTokenIn tok ca) in
     generator_ok (xorIndex ca') (addressOffset ca'))
  /\ (forall fuel guid t ca' toks nst,
        MatrixCanAddress_Clock fuel guid t ca = Some (ca', toks, nst) ->
        generator_ok (xorIndex ca') (addressOffset ca')
        /\ (proposedAddress ca = 0 ->
            proposedAddress ca' = 0 \/ 1 <= proposedAddress ca' <= 120)).
Proof.
  intros Hok. split.
  - intros tok ca'. unfold ca', MatrixCanAddress_CanTokenIn.
    destruct ((key tok =? KeyResponseAddressInUse) && (value tok =? proposedAddress ca)
              || negb (0 =? file_address ca) && (file_address ca =? address tok)
                 && (file_isStatic ca =? 0)); [exact Hok|].
    destruct ((key tok =? KeyRequestAddress) && (value tok =? file_address ca));
      exact Hok.
  - intros fuel guid t ca' toks nst E. unfold MatrixCanAddress_Clock in E.
    destruct (negb (Matrix_IsCanAddressValid ca)).
    + destruct (0 =? proposedAddress ca).
      * destruct (MatrixCanAddress_GetNextProposedCanAddress fuel guid (xorIndex ca)
                    (addressOffset ca)) as [[a [xi ao]]|] eqn:Eg; [|discriminate E].
        destruct (GetNext_result guid fuel _ _ _ _ _ Hok Eg) as [Ha Hg].
        injection E as <- <- <-. cbn [xorIndex addressOffset proposedAddress].
        split; [exact Hg|]. intros _. right. unfold address_ok in Ha.
        unfold u8. rewrite Z.mod_small; lia.
      * destruct (IsMatrixTimerExpired t (requestTime ca)).
        -- injection E as <- <- <-. cbn [xorIndex addressOffset proposedAddress].
           split; [exact Hok|]. intros _. left. reflexivity.
        -- injection E as <- <- <-. split; [exact Hok|]. intros H. left. exact H.
    + injection E as <- <- <-. split; [exact Hok|]. intros H. left. exact H.
Qed.

Lemma generator_state_stays_in_range_witness :
  generator_ok
    (xorIndex (fst (MatrixCanAddress_CanTokenIn (mkTOKEN 0 42 1000 1)
                      (mkCanAddress 3 0 100 0 42 0))))
    (addressOffset (fst (MatrixCanAddress_CanTokenIn (mkTOKEN 0 42 1000 1)
                           (mkCanAddress 3 0 100 0 42 0)))).
Proof.
  assert (H : generator_ok 3 0) by (unfold generator_ok; lia).
  exact (proj1 (generator_state_stays_in_range (mkCanAddress 3 0 100 0 42 0) H)
           (mkTOKEN 0 42 1000 1)).
Defined.

(** ** Transmit ring buffer *)

Definition ring_norm (i : Z) : Z := if i >=? CAN_TX_STREAM_BUFFER_SIZE then 0 else i.
Definition ring_next (i : Z) : Z := ring_norm (i + 1).

(** The frames from slot [r] up to, not including, slot [w], going round. *)
Fixpoint ring_range (fuel : nat) (buf : list MATRIX_TX_CAN_FRAME) (r w : Z)
  : list MATRIX_TX_CAN_FRAME :=
  match fuel with
  | O => []
  | S k =>
      if r =? w then []
      else nth (Z.to_nat r) buf zero_tx_frame :: ring_range k buf (ring_next r) w
  end.

(** The frames written to the ring and not yet taken by the driver. *)
Definition pending (tx : MATRIX_TRANSMITTER) : list MATRIX_TX_CAN_FRAME :=
  ring_range 40 (streamBuffer tx) (ring_norm (streamBufferReadIndex tx))
             (ring_norm (streamBufferWriteIndex tx)).

Definition ring_dist (r w : Z) : Z := (w - r) mod 40.

Lemma ring_norm_range i : 0 <= i -> 0 <= ring_norm i < 40.
Proof.
  intros H. unfold ring_norm, CAN_TX_STREAM_BUFFER_SIZE. rewrite Z.geb_leb.
  destruct (Z.leb_spec 40 i); lia.
Qed.

Lemma ring_next_range i : 0 <= i < 40 -> 0 <= ring_next i < 40.
Proof. intros H. apply ring_norm_range. lia. Qed.

Lemma ring_next_dist r w :
  0 <= r < 40 -> 0 <= w < 40 -> r <> w ->
  ring_dist (ring_next r) w = ring_dist r w - 1.
Proof.
  intros Hr Hw Hne. unfold ring_dist, ring_next, ring_norm, CAN_TX_STREAM_BUFFER_SIZE.
  rewrite Z.geb_leb. destruct (Z.leb_spec 40 (r + 1)); Z.div_mod_to_equations; lia.
Qed.

Lemma ring_dist_next_w r w :
  0 <= r < 40 -> 0 <= w < 40 -> ring_dist r w <= 38 ->
  ring_dist r (ring_next w) = ring_dist r w + 1.
Proof.
  intros Hr Hw Hd. unfold ring_dist, ring_next, ring_norm, CAN_TX_STREAM_BUFFER_SIZE in *.
  rewrite Z.geb_leb. destruct (Z.leb_spec 40 (w + 1)); Z.div_mod_to_equations; lia.
Qed.

Lemma ring_dist_zero r w : 0 <= r < 40 -> 0 <= w < 40 -> ring_dist r w = 0 -> r = w.
Proof. unfold ring_dist. intros Hr Hw H. Z.div_mod_to_equations. lia. Qed.

Lemma ring_range_length buf w fuel : forall r,
  0 <= r < 40 -> 0 <= w < 40 -> ring_dist r w <= Z.of_nat fuel ->
  Z.of_nat (length (ring_range fuel buf r w)) = ring_dist r w.
Proof.
  induction fuel as [|k IH]; intros r Hr Hw Hd.
  - cbn [ring_range length]. unfold ring_dist in *. Z.div_mod_to_equations. lia.
  - cbn [ring_range]. destruct (Z.eqb_spec r w) as [-> | Hne].
    + cbn [length]. unfold ring_dist. rewrite Z.sub_diag. reflexivity.
    + cbn [length]. rewrite Nat2Z.inj_succ.
      rewrite IH; try apply ring_next_range; try assumption;
        rewrite ring_next_dist by assumption; lia.
Qed.

Lemma ring_range_fuel buf w f1 : forall f2 r,
  0 <= r < 40 -> 0 <= w < 40 ->
  ring_dist r w <= Z.of_nat f1 -> ring_dist r w <= Z.of_nat f2 ->
  ring_range f1 buf r w = ring_range f2 buf r w.
Proof.
  induction f1 as [|k IH]; intros f2 r Hr Hw H1 H2.
  - assert (r = w) by (apply ring_dist_zero; try assumption; unfold ring_dist in *;
                       Z.div_mod_to_equations; lia).
    subst r. destruct f2; cbn [ring_range]; [reflexivity|].
    rewrite Z.eqb_refl. reflexivity.
  - cbn [ring_range]. destruct (Z.eqb_spec r w) as [-> | Hne].
    + destruct f2; cbn [ring_range]; [reflexivity|]. rewrite Z.eqb_refl. reflexivity.
    + destruct f2 as [|k2].
      * exfalso. apply Hne. apply ring_dist_zero; try assumption.
        unfold ring_dist in *. Z.div_mod_to_equations. lia.
      * cbn [ring_range]. destruct (Z.eqb_spec r w); [contradiction|].
        f_equal. apply IH; try apply ring_next_range; try assumption;
          rewrite ring_next_dist by assumption; lia.
Qed.

Lemma nth_array_set_same {A : Type} (d x : A) : forall a i,
  (i < length a)%nat -> nth i (array_set a i x) d = x.
Proof.
  induction a as [|y a IH]; intros i Hi; [cbn in Hi; lia|].
  destruct i; cbn [array_set nth]; [reflexivity|]. apply IH. cbn in Hi. lia.
Qed.

Lemma nth_array_set_other {A : Type} (d x : A) : forall a i j,
  i <> j -> nth j (array_set a i x) d = nth j a d.
Proof.
  induction a as [|y a IH]; intros i j Hne; [destruct i; reflexivity|].
  destruct i, j; cbn [array_set nth]; try reflexivity; try contradiction.
  apply IH. lia.
Qed.

Lemma length_array_set {A : Type} (x : A) : forall a i,
  length (array_set a i x) = length a.
Proof.
  induction a as [|y a IH]; intros i; [destruct i; reflexivity|].
  destruct i; cbn [array_set length]; [reflexivity|]. rewrite IH. reflexivity.
Qed.

Lemma ring_range_snoc buf w x fuel : forall r,
  length buf = 40%nat -> 0 <= r < 40 -> 0 <= w < 40 ->
  ring_dist r w <= 38 -> ring_dist r w < Z.of_nat fuel ->
  ring_range fuel (array_set buf (Z.to_nat w) x) r (ring_next w)
  = ring_range fuel buf r w ++ [x].
Proof.
  induction fuel as [|k IH]; intros r Hlen Hr Hw Hd Hf.
  - unfold ring_dist in Hf. Z.div_mod_to_equations. lia.
  - cbn [ring_range].
    assert (Hnw : 0 <= ring_next w < 40) by (apply ring_next_range; exact Hw).
    assert (Hrn : r <> ring_next w).
    { intros E. pose proof (ring_dist_next_w r w Hr Hw Hd) as H. rewrite <- E in H.
      unfold ring_dist in H at 1. rewrite Z.sub_diag in H. cbn in H.
      unfold ring_dist in *. Z.div_mod_to_equations. lia. }
    destruct (Z.eqb_spec r (ring_next w)) as [E | _]; [contradiction|].
    destruct (Z.eqb_spec r w) as [-> | Hne].
    + rewrite nth_array_set_same by lia. cbn [app]. f_equal.
      destruct k; cbn [ring_range]; [reflexivity|]. rewrite Z.eqb_refl. reflexivity.
    + rewrite nth_array_set_other by lia. cbn [app]. f_equal.
      apply IH; try apply ring_next_range; try assumption;
        rewrite ring_next_dist by assumption; lia.
Qed.

Lemma ring_range_S k buf r w :
  ring_range (S k) buf r w
  = if r =? w then []
    else nth (Z.to_nat r) buf zero_tx_frame :: ring_range k buf (ring_next r) w.
Proof. reflexivity. Qed.

Lemma pending_length tx :
  0 <= streamBufferReadIndex tx -> 0 <= streamBufferWriteIndex tx ->
  Z.of_nat (length (pending tx))
  = ring_dist (ring_norm (streamBufferReadIndex tx)) (ring_norm (streamBufferWriteIndex tx)).
Proof.
  intros Hr Hw. unfold pending. apply ring_range_length; try apply ring_norm_range;
    try assumption.
  unfold ring_dist. change (Z.of_nat 40) with 40. Z.div_mod_to_equations. lia.
Qed.

(** X12.  The transmit ring is a queue.  With fewer than 39 frames pending,
    [SendFrame] on a non-empty fifo puts its frame behind the pending ones.
    [MatrixTransmitter_Clock] offers the oldest pending frame to the driver,
    with bit 28 set in the identifier and the data size taken from the top
    four bits; the frame leaves the queue when the driver returns 0 and stays
    when it does not; with nothing pending the driver is not called. *)
Theorem transmit_ring_is_queue (tx : MATRIX_TRANSMITTER) (send : Z -> list Z -> Z -> Z) :
  length (streamBuffer tx) = 40%nat ->
  0 <= streamBufferReadIndex tx -> 0 <= streamBufferWriteIndex tx ->
  (fifo tx <> [] -> (length (pending tx) < 39)%nat ->
   pending (snd (SendFrame tx))
   = pending tx ++ [frame_of tx (Nat.min (length (fifo tx)) 8)])
  /\ (pending tx = [] ->
      snd (MatrixTransmitter_Clock (Some send) tx) = None
      /\ pending (fst (MatrixTransmitter_Clock (Some send) tx)) = [])
  /\ (forall f rest, pending tx = f :: rest ->
      let id := Z.lor (Z.land (frame_id_word f) 0x0FFFFFFF) 0x10000000 in
      let dataSize := u8 (Z.shiftr (frame_id_word f) 28) in
      snd (MatrixTransmitter_Clock (Some send) tx) = Some (id, tx_data f, dataSize)
      /\ pending (fst (MatrixTransmitter_Clock (Some send) tx))
         = if 0 =? send id (tx_data f) dataSize then rest else f :: rest).
Proof.
  intros Hlen Hr Hw.
  pose proof (ring_norm_range _ Hr) as Hrn.
  pose proof (ring_norm_range _ Hw) as Hwn.
  pose proof (pending_length tx Hr Hw) as Hpl.
  set (r := ring_norm (streamBufferReadIndex tx)) in *.
  set (w := ring_norm (streamBufferWriteIndex tx)) in *.
  split; [|split].
  - intros Hfifo Hp.
    assert (Hsize : u8 (if fifoIndex tx <=? CAN_FRAME_MAX_NUM_BYTES
                        then fifoIndex tx else CAN_FRAME_MAX_NUM_BYTES)
                    = Z.of_nat (Nat.min (length (fifo tx)) 8)).
    { unfold fifoIndex, CAN_FRAME_MAX_NUM_BYTES, u8.
      destruct (Z.leb_spec (Z.of_nat (length (fifo tx))) 8);
        rewrite Z.mod_small by lia; lia. }
    assert (Hpos : (0 =? Z.of_nat (Nat.min (length (fifo tx)) 8)) = false).
    { apply Z.eqb_neq. destruct (fifo tx); [congruence|]. cbn [length]. lia. }
    unfold SendFrame. rewrite Hsize, Hpos. cbn [snd]. unfold pending.
    cbn [streamBuffer streamBufferReadIndex streamBufferWriteIndex].
    fold (ring_norm (streamBufferWriteIndex tx)). fold w. fold r.
    replace (ring_norm (u16 (w + 1))) with (ring_next w)
      by (unfold ring_next, u16; rewrite Z.mod_small by lia; reflexivity).
    rewrite Nat2Z.id.
    apply ring_range_snoc; try assumption; try lia.
  - intros Hp. unfold pending in Hp. fold r w in Hp.
    assert (E : r = w).
    { apply ring_dist_zero; try assumption. rewrite <- Hpl. unfold pending.
      fold r w. rewrite Hp. reflexivity. }
    unfold MatrixTransmitter_Clock.
    fold (ring_norm (streamBufferWriteIndex tx)). fold (ring_norm (streamBufferReadIndex tx)).
    fold r w. rewrite E, Z.eqb_refl. cbn [negb fst snd]. split; [reflexivity|].
    unfold pending. cbn [streamBuffer streamBufferReadIndex streamBufferWriteIndex].
    assert (Hww : ring_norm w = w)
      by (unfold ring_norm, CAN_TX_STREAM_BUFFER_SIZE; rewrite Z.geb_leb;
          destruct (Z.leb_spec 40 w); lia).
    rewrite Hww, ring_range_S, Z.eqb_refl. reflexivity.
  - intros f rest Hp id dataSize. unfold pending in Hp. fold r w in Hp.
    assert (Hne : r <> w).
    { intros E. rewrite E, ring_range_S, Z.eqb_refl in Hp. discriminate Hp. }
    rewrite ring_range_S in Hp. destruct (Z.eqb_spec r w) as [E | _]; [contradiction|].
    assert (Hf : nth (Z.to_nat r) (streamBuffer tx) zero_tx_frame = f)
      by exact (f_equal (hd zero_tx_frame) Hp).
    assert (Hrest : ring_range 39 (streamBuffer tx) (ring_next r) w = rest)
      by exact (f_equal (@tl _) Hp).
    assert (Hww : ring_norm w = w)
      by (unfold ring_norm, CAN_TX_STREAM_BUFFER_SIZE; rewrite Z.geb_leb;
          destruct (Z.leb_spec 40 w); lia).
    assert (Hrr : ring_norm r = r)
      by (unfold ring_norm, CAN_TX_STREAM_BUFFER_SIZE; rewrite Z.geb_leb;
          destruct (Z.leb_spec 40 r); lia).
    unfold MatrixTransmitter_Clock.
    fold (ring_norm (streamBufferWriteIndex tx)). fold (ring_norm (streamBufferReadIndex tx)).
    fold r w.
    replace (r =? w) with false by (symmetry; apply Z.eqb_neq; exact Hne).
    cbn [negb]. rewrite Hf. fold id dataSize.
    destruct (0 =? send id (tx_data f) dataSize); cbn [fst snd];
      (split; [reflexivity|]); unfold pending;
      cbn [streamBuffer streamBufferReadIndex streamBufferWriteIndex]; rewrite Hww.
    + replace (ring_norm (u16 (r + 1))) with (ring_next r)
        by (unfold ring_next, u16; rewrite Z.mod_small by lia; reflexivity).
      rewrite <- Hrest.
      apply ring_range_fuel; try apply ring_next_range; try assumption;
        rewrite ring_next_dist by assumption;
        unfold ring_dist; change (Z.of_nat 40) with 40; change (Z.of_nat 39) with 39;
        Z.div_mod_to_equations; lia.
    + rewrite Hrr, ring_range_S.
      destruct (Z.eqb_spec r w) as [E | _]; [contradiction|].
      rewrite Hf, Hrest. reflexivity.
Qed.

Definition empty_ring : MATRIX_TRANSMITTER :=
  mkTransmitter (mkFrameId 0 0 0 0 5 MATRIX_MESSAGE_FRAME_TYPE_SINGLE) [1; 2; 3] 0 0 0
                (repeat zero_tx_frame 40) 0 0 [].

Lemma transmit_ring_is_queue_witness :
  pending (snd (SendFrame empty_ring))
  = [mkTxFrame (mkFrameId 0 0 0 0 5 MATRIX_MESSAGE_FRAME_TYPE_SINGLE) 3 [1; 2; 3]].
Proof.
  assert (Hlen : length (streamBuffer empty_ring) = 40%nat) by reflexivity.
  assert (Hr : 0 <= streamBufferReadIndex empty_ring) by (cbn; lia).
  assert (Hw : 0 <= streamBufferWriteIndex empty_ring) by (cbn; lia).
  assert (Hf : fifo empty_ring <> []) by discriminate.
  assert (Hp : (length (pending empty_ring) < 39)%nat) by (vm_compute; lia).
  exact (proj1 (transmit_ring_is_queue empty_ring (fun _ _ _ => 0) Hlen Hr Hw) Hf Hp).
Defined.

(** X13.  Ring overflow: the ring holds at most 39 pending frames.  When 39
    are pending, one more [SendFrame] makes the write index meet the read
    index, and all forty frames, old and new, are no longer pending: the
    clock will not send them. *)
Theorem transmit_ring_overflow (tx : MATRIX_TRANSMITTER) :
  length (streamBuffer tx) = 40%nat ->
  0 <= streamBufferReadIndex tx -> 0 <= streamBufferWriteIndex tx ->
  fifo tx <> [] -> length (pending tx) = 39%nat ->
  pending (snd (SendFrame tx)) = []
  /\ forall send, snd (MatrixTransmitter_Clock (Some send) (snd (SendFrame tx))) = None.
Proof.
  intros Hlen Hr Hw Hfifo Hp.
  pose proof (ring_norm_range _ Hr) as Hrn.
  pose proof (ring_norm_range _ Hw) as Hwn.
  pose proof (pending_length tx Hr Hw) as Hpl. rewrite Hp in Hpl.
  set (r := ring_norm (streamBufferReadIndex tx)) in *.
  set (w := ring_norm (streamBufferWriteIndex tx)) in *.
  assert (Hsize : u8 (if fifoIndex tx <=? CAN_FRAME_MAX_NUM_BYTES
                      then fifoIndex tx else CAN_FRAME_MAX_NUM_BYTES)
                  = Z.of_nat (Nat.min (length (fifo tx)) 8)).
  { unfold fifoIndex, CAN_FRAME_MAX_NUM_BYTES, u8.
    destruct (Z.leb_spec (Z.of_nat (length (fifo tx))) 8);
      rewrite Z.mod_small by lia; lia. }
  assert (Hpos : (0 =? Z.of_nat (Nat.min (length (fifo tx)) 8)) = false).
  { apply Z.eqb_neq. destruct (fifo tx); [congruence|]. cbn [length]. lia. }
  assert (Hmeet : ring_norm (u16 (w + 1)) = r).
  { unfold u16. rewrite Z.mod_small by lia.
    unfold ring_norm, CAN_TX_STREAM_BUFFER_SIZE. rewrite Z.geb_leb.
    unfold ring_dist in Hpl. change (Z.of_nat 39) with 39 in Hpl.
    destruct (Z.leb_spec 40 (w + 1)); Z.div_mod_to_equations; lia. }
  assert (Hrr : ring_norm r = r)
    by (unfold ring_norm, CAN_TX_STREAM_BUFFER_SIZE; rewrite Z.geb_leb;
        destruct (Z.leb_spec 40 r); lia).
  split.
  - unfold SendFrame. rewrite Hsize, Hpos. cbn [snd]. unfold pending.
    cbn [streamBuffer streamBufferReadIndex streamBufferWriteIndex].
    fold (ring_norm (streamBufferWriteIndex tx)). fold w. fold r.
    rewrite Hmeet, ring_range_S, Z.eqb_refl. reflexivity.
  - intros send. unfold SendFrame. rewrite Hsize, Hpos. cbn [snd].
    unfold MatrixTransmitter_Clock.
    cbn [streamBuffer streamBufferReadIndex streamBufferWriteIndex].
    fold (ring_norm (streamBufferWriteIndex tx)). fold w.
    fold (ring_norm (u16 (w + 1))). fold (ring_norm (streamBufferReadIndex tx)). fold r.
    rewrite Hmeet, Z.eqb_refl. reflexivity.
Qed.

Definition full_ring : MATRIX_TRANSMITTER :=
  mkTransmitter (mkFrameId 0 0 0 0 5 MATRIX_MESSAGE_FRAME_TYPE_SINGLE) [1; 2; 3] 0 0 0
                (repeat zero_tx_frame 40) 39 0 [].

Lemma transmit_ring_overflow_witness :
  pending (snd (SendFrame full_ring)) = [].
Proof.
  assert (Hlen : length (streamBuffer full_ring) = 40%nat) by reflexivity.
  assert (Hr : 0 <= streamBufferReadIndex full_ring) by (cbn; lia).
  assert (Hw : 0 <= streamBufferWriteIndex full_ring) by (cbn; lia).
  assert (Hf : fifo full_ring <> []) by discriminate.
  assert (Hp : length (pending full_ring) = 39%nat) by (vm_compute; reflexivity).
  exact (proj1 (transmit_ring_overflow full_ring Hlen Hr Hw Hf Hp)).
Defined.

(** ** Messages in the transmit ring *)

(** The ring as the code expects it: an array of
    [CAN_TX_STREAM_BUFFER_SIZE] frames and two unsigned indices. *)
Definition ring_ok (tx : MATRIX_TRANSMITTER) : Prop :=
  length (streamBuffer tx) = 40%nat
  /\ 0 <= streamBufferReadIndex tx /\ 0 <= streamBufferWriteIndex tx.

(** [tx'] has the ring of [tx]: buffer, indices and history. *)
Definition same_ring (tx tx' : MATRIX_TRANSMITTER) : Prop :=
  streamBuffer tx' = streamBuffer tx
  /\ streamBufferWriteIndex tx' = streamBufferWriteIndex tx
  /\ streamBufferReadIndex tx' = streamBufferReadIndex tx
  /\ enqueued tx' = enqueued tx.

(** From [tx0] to [tx] the frames handed to [SendFrame] are [frames]; as
    long as the ring has room for them (39 pending frames at most), they
    are the frames added to the pending ones, in order. *)
Definition ring_tracks (tx0 tx : MATRIX_TRANSMITTER) : Prop :=
  ring_ok tx
  /\ exists frames,
       enqueued tx = enqueued tx0 ++ frames
       /\ ((length (pending tx0) + length frames <= 39)%nat ->
           pending tx = pending tx0 ++ frames).

Lemma ring_tracks_refl tx : ring_ok tx -> ring_tracks tx tx.
Proof.
  intros H. split; [exact H|]. exists []. rewrite !app_nil_r. split; reflexivity.
Qed.

Lemma ring_tracks_trans a b c :
  ring_tracks a b -> ring_tracks b c -> ring_tracks a c.
Proof.
  intros (_ & f1 & He1 & Hp1) (Hok & f2 & He2 & Hp2).
  split; [exact Hok|]. exists (f1 ++ f2). split.
  - rewrite He2, He1, app_assoc. reflexivity.
  - rewrite length_app. intros Hroom.
    rewrite Hp2, Hp1, app_assoc by (try rewrite Hp1, length_app; lia).
    reflexivity.
Qed.

Lemma same_ring_pending tx tx' : same_ring tx tx' -> pending tx' = pending tx.
Proof. intros (Hb & Hw & Hr & _). unfold pending. rewrite Hb, Hw, Hr. reflexivity. Qed.

Lemma ring_tracks_same tx0 tx tx' :
  ring_tracks tx0 tx -> same_ring tx tx' -> ring_tracks tx0 tx'.
Proof.
  intros ((Hl & Hr & Hw) & frames & He & Hp) Hsame.
  pose proof (same_ring_pending _ _ Hsame) as Hpend.
  destruct Hsame as (Hb' & Hw' & Hr' & He').
  split; [unfold ring_ok; rewrite Hb', Hw', Hr'; auto|].
  exists frames. rewrite He', Hpend. split; assumption.
Qed.

Lemma SendFrame_empty tx : fifo tx = [] -> SendFrame tx = (-1, tx).
Proof. intros H. unfold SendFrame, fifoIndex. rewrite H. reflexivity. Qed.

(** One [SendFrame] on a ring with room puts its frame behind the pending
    ones; in any case the ring stays an array of forty frames. *)
Lemma SendFrame_ring tx :
  ring_ok tx -> fifo tx <> [] ->
  ring_ok (snd (SendFrame tx))
  /\ enqueued (snd (SendFrame tx))
     = enqueued tx ++ [frame_of tx (Nat.min (length (fifo tx)) 8)]
  /\ ((length (pending tx) < 39)%nat ->
      pending (snd (SendFrame tx))
      = pending tx ++ [frame_of tx (Nat.min (length (fifo tx)) 8)]).
Proof.
  intros (Hlen & Hr & Hw) Hfifo.
  pose proof (ring_norm_range _ Hr) as Hrn.
  pose proof (ring_norm_range _ Hw) as Hwn.
  pose proof (pending_length tx Hr Hw) as Hpl.
  set (r := ring_norm (streamBufferReadIndex tx)) in *.
  set (w := ring_norm (streamBufferWriteIndex tx)) in *.
  assert (Hsize : u8 (if fifoIndex tx <=? CAN_FRAME_MAX_NUM_BYTES
                      then fifoIndex tx else CAN_FRAME_MAX_NUM_BYTES)
                  = Z.of_nat (Nat.min (length (fifo tx)) 8)).
  { unfold fifoIndex, CAN_FRAME_MAX_NUM_BYTES, u8.
    destruct (Z.leb_spec (Z.of_nat (length (fifo tx))) 8);
      rewrite Z.mod_small by lia; lia. }
  assert (Hpos : (0 =? Z.of_nat (Nat.min (length (fifo tx)) 8)) = false).
  { apply Z.eqb_neq. destruct (fifo tx); [congruence|]. cbn [length]. lia. }
  unfold SendFrame. rewrite Hsize, Hpos. cbn [snd]. rewrite Nat2Z.id.
  fold (ring_norm (streamBufferWriteIndex tx)). fold w.
  split; [|split].
  - unfold ring_ok. cbn [streamBuffer streamBufferReadIndex streamBufferWriteIndex].
    rewrite length_array_set. repeat split; try assumption.
    unfold u16. apply Z.mod_pos_bound. lia.
  - reflexivity.
  - intros Hp. unfold pending.
    cbn [streamBuffer streamBufferReadIndex streamBufferWriteIndex]. fold r.
    replace (ring_norm (u16 (w + 1))) with (ring_next w)
      by (unfold ring_next, u16; rewrite Z.mod_small by lia; reflexivity).
    apply ring_range_snoc; try assumption; fold w; lia.
Qed.

Lemma ring_tracks_SendFrame tx0 tx :
  ring_tracks tx0 tx -> ring_tracks tx0 (snd (SendFrame tx)).
Proof.
  intros H. destruct (fifo tx) as [|b0 bs] eqn:Ef.
  - rewrite SendFrame_empty by exact Ef. exact H.
  - destruct H as (Hok & frames & He & Hp).
    destruct (SendFrame_ring tx Hok) as (Hok' & He' & Hp'); [rewrite Ef; discriminate|].
    split; [exact Hok'|].
    exists (frames ++ [frame_of tx (Nat.min (length (fifo tx)) 8)]). split.
    + rewrite He', He, app_assoc. reflexivity.
    + rewrite length_app. cbn [length]. intros Hroom.
      rewrite Hp', Hp, app_assoc by (try rewrite Hp, length_app; lia). reflexivity.
Qed.

Lemma ring_tracks_AddByte tx0 tx b :
  ring_tracks tx0 tx -> ring_tracks tx0 (MatrixTransmitter_AddByte b tx).
Proof.
  intros H. unfold MatrixTransmitter_AddByte. cbv zeta.
  match goal with
  | |- ring_tracks _ (if _ then snd (SendFrame ?t) else _) =>
      assert (H1 : ring_tracks tx0 t)
        by (apply (ring_tracks_same tx0 tx); [exact H | repeat split])
  end.
  destruct (CAN_TX_STREAM_FIFO_SIZE <=? _); [apply ring_tracks_SendFrame|]; exact H1.
Qed.

Lemma ring_tracks_add_bytes tx0 bytes : forall tx,
  ring_tracks tx0 tx -> ring_tracks tx0 (add_bytes bytes tx).
Proof.
  induction bytes as [|b bytes IH]; intros tx H; [exact H|].
  cbn [add_bytes fold_left]. apply IH, ring_tracks_AddByte, H.
Qed.

Lemma ring_tracks_FinishMessage_loop tx0 isSingle fuel : forall tx,
  ring_tracks tx0 tx ->
  ring_tracks tx0 (snd (FinishMessage_loop fuel isSingle tx)).
Proof.
  induction fuel as [|fuel IH]; intros tx H; [exact H|].
  cbn [FinishMessage_loop].
  destruct (0 =? fifoIndex tx); [exact H|]. cbv zeta.
  match goal with
  | |- context [SendFrame ?t] =>
      assert (H1 : ring_tracks tx0 t)
        by (destruct (fifoIndex tx =? _);
            [apply (ring_tracks_same tx0 tx); [exact H | repeat split] | exact H]);
      pose proof (ring_tracks_SendFrame tx0 t H1) as H2;
      destruct (SendFrame t) as [status tx1]
  end.
  cbn [snd] in H2. destruct (negb (0 =? status)); [exact H2 | apply IH, H2].
Qed.

Lemma ring_tracks_FinishMessage tx0 tx :
  ring_tracks tx0 tx -> ring_tracks tx0 (snd (MatrixTransmitter_FinishMessage tx)).
Proof.
  intros H. unfold MatrixTransmitter_FinishMessage. cbv zeta.
  apply ring_tracks_FinishMessage_loop.
  destruct (negb (8 >=? numBytesSent tx + fifoIndex tx)); [|exact H].
  apply ring_tracks_AddByte, ring_tracks_AddByte, H.
Qed.

Lemma ring_tracks_transmit own ei dest key body tx :
  ring_ok tx -> ring_tracks tx (transmit own ei dest key body tx).
Proof.
  intros Hok. unfold transmit.
  apply ring_tracks_FinishMessage, ring_tracks_add_bytes.
  rewrite StartMessage_spec. cbn [fst].
  apply ring_tracks_AddByte.
  apply (ring_tracks_same tx tx); [apply ring_tracks_refl, Hok | repeat split].
Qed.

Lemma ring_tracks_pending tx0 tx frames :
  ring_tracks tx0 tx -> enqueued tx = enqueued tx0 ++ frames ->
  (length (pending tx0) + length frames <= 39)%nat ->
  pending tx = pending tx0 ++ frames.
Proof.
  intros (_ & fr & He & Hp) He' Hroom.
  rewrite He in He'. apply app_inv_head in He'. subst fr. apply Hp, Hroom.
Qed.

Lemma send_token_once_transmit token m :
  MatrixTransmitter (send_token_once token m)
  = transmit (Matrix_GetCanAddress (MatrixCanAddress m)) (MatrixEventIndex m)
      (address token) (key token) (token_bytes token) (MatrixTransmitter m).
Proof.
  unfold send_token_once, transmit.
  destruct (MatrixTransmitter_StartMessageWithAddressAndKey _ _ _ _ _) as [tx ei].
  cbn [fst MatrixTransmitter]. rewrite AddToken_add_bytes. reflexivity.
Qed.

Lemma ring_tracks_send_token_times n token : forall m,
  ring_ok (MatrixTransmitter m) ->
  ring_tracks (MatrixTransmitter m) (MatrixTransmitter (send_token_times n token m)).
Proof.
  induction n as [|n IH]; intros m Hok; cbn [send_token_times].
  - apply ring_tracks_refl, Hok.
  - assert (H1 : ring_tracks (MatrixTransmitter m)
                   (MatrixTransmitter (send_token_once token m)))
      by (rewrite send_token_once_transmit; apply ring_tracks_transmit, Hok).
    eapply ring_tracks_trans; [exact H1|]. apply IH. exact (proj1 H1).
Qed.

Lemma ring_tracks_PrivateSendCanToken token m :
  ring_ok (MatrixTransmitter m) ->
  ring_tracks (MatrixTransmitter m)
    (MatrixTransmitter (snd (Matrix_PrivateSendCanToken token m))).
Proof.
  intros Hok. unfold Matrix_PrivateSendCanToken.
  destruct (negb (Matrix_IsCanAddressValid (MatrixCanAddress m))
            && negb (key token =? KeyRequestAddress));
    [apply ring_tracks_refl, Hok|].
  cbv zeta. cbn [snd].
  destruct (KeyPrefix_InputStatus =? Key_GetPrefix (key token)).
  - match goal with
    | |- ring_tracks _ (MatrixTransmitter (send_token_times ?k _ ?m1)) =>
        assert (E : MatrixTransmitter m1 = MatrixTransmitter m)
          by (unfold Matrix_DelayStatusUpdate15mS;
              cbn [systemTime nextStatusTime];
              destruct (15 >? _); reflexivity);
        pose proof (ring_tracks_send_token_times k token m1) as H;
        rewrite E in H; exact (H Hok)
    end.
  - apply ring_tracks_send_token_times, Hok.
Qed.

(** C5: for every message the transmitter finishes (of fewer than 65544
    bytes, which covers every message a caller builds): a message of at most
    8 bytes is handed to [SendFrame] as exactly one SINGLE frame carrying the
    message bytes and no CRC; a longer message as one or more BODY frames
    followed by a LAST frame whose concatenated payload [B] is the message
    followed by the big-endian CRC-16 of the message, so that
    [Matrix_IsMessageChecksumValid] accepts [B].  These frames are written
    to the transmit ring: where the ring has room for them (at most 39
    frames pending), they are the frames added behind the pending ones, in
    this order. *)
Theorem FinishMessage_framing (own ei dest key : Z) (body : list Z)
    (tx : MATRIX_TRANSMITTER) :
  ring_ok tx ->
  let msg := message_bytes key ei body in
  let tx' := transmit own ei dest key body tx in
  (Z.of_nat (length msg) <= 8 ->
     exists f,
       enqueued tx' = enqueued tx ++ [f]
       /\ frame_type f = MATRIX_MESSAGE_FRAME_TYPE_SINGLE
       /\ tx_data f = msg
       /\ ((length (pending tx) < 39)%nat -> pending tx' = pending tx ++ [f]))
  /\
  (8 < Z.of_nat (length msg) < 65544 ->
     exists bodyFrames lastFrame,
       enqueued tx' = enqueued tx ++ bodyFrames ++ [lastFrame]
       /\ bodyFrames <> []
       /\ Forall (fun f => frame_type f = MATRIX_MESSAGE_FRAME_TYPE_BODY) bodyFrames
       /\ frame_type lastFrame = MATRIX_MESSAGE_FRAME_TYPE_LAST
       /\ (let B := concat (map tx_data (bodyFrames ++ [lastFrame])) in
           let c := Matrix_ComputeCRC16 msg (length msg) in
           B = msg ++ [u8 (Z.shiftr c 8); u8 c]
           /\ Matrix_IsMessageChecksumValid B (length B) = Some true)
       /\ ((length (pending tx) + length (bodyFrames ++ [lastFrame]) <= 39)%nat ->
           pending tx' = pending tx ++ bodyFrames ++ [lastFrame])).
Proof.
  intros Hok msg tx'.
  pose proof (ring_tracks_transmit own ei dest key body tx Hok) as Hring.
  fold tx' in Hring.
  destruct (transmit_frames own ei dest key body tx) as [Hshort Hlong].
  fold msg tx' in Hshort, Hlong.
  split; intros Hlen.
  - destruct (Hshort Hlen) as (f & He & Hty & Hdata).
    exists f. repeat split; try assumption.
    intros Hroom. apply (ring_tracks_pending tx tx' [f] Hring He). cbn [length]. lia.
  - destruct (Hlong Hlen) as (bodyFrames & lastFrame & He & Hne & Hall & Hty & HB).
    exists bodyFrames, lastFrame. repeat split; try assumption; try apply HB.
    intros Hroom. exact (ring_tracks_pending tx tx' _ Hring He Hroom).
Qed.

Definition sample_ring_tx : MATRIX_TRANSMITTER :=
  mkTransmitter (mkFrameId 0 0 0 0 0 0) [] 0 0 30 (repeat zero_tx_frame 40) 38 36 [].

Lemma FinishMessage_framing_witness :
  exists bodyFrames lastFrame,
    pending (transmit 5 7 0 KeyNull [1; 2; 3; 4; 5; 6; 7; 8; 9; 10; 11; 12; 13]
               sample_ring_tx)
    = pending sample_ring_tx ++ bodyFrames ++ [lastFrame]
    /\ frame_type lastFrame = MATRIX_MESSAGE_FRAME_TYPE_LAST
    /\ concat (map tx_data (bodyFrames ++ [lastFrame])) =
         [7; 1; 2; 3; 4; 5; 6; 7; 8; 9; 10; 11; 12; 13; 60; 17].
Proof.
  assert (Hok : ring_ok sample_ring_tx) by (repeat split; cbn; lia).
  destruct (proj2 (FinishMessage_framing 5 7 0 KeyNull
                     [1; 2; 3; 4; 5; 6; 7; 8; 9; 10; 11; 12; 13] sample_ring_tx Hok))
    as (bodyFrames & lastFrame & He & _ & _ & Hty & [Hcat _] & Hp).
  - vm_compute. split; reflexivity.
  - exists bodyFrames, lastFrame.
    assert (Hn : length (bodyFrames ++ [lastFrame]) = 2%nat).
    { assert (Hl : length (enqueued (transmit 5 7 0 KeyNull
                              [1; 2; 3; 4; 5; 6; 7; 8; 9; 10; 11; 12; 13]
                              sample_ring_tx)) = 2%nat) by (vm_compute; reflexivity).
      rewrite He in Hl. exact Hl. }
    assert (Hpend : length (pending sample_ring_tx) = 2%nat) by reflexivity.
    split; [apply Hp; rewrite Hn, Hpend; lia|].
    split; [exact Hty|]. rewrite Hcat. reflexivity.
Defined.

(** C9: a token that passes the address check of
    [Matrix_PrivateSendCanToken] and has the input-status prefix first bumps
    the 16-bit event index (by one, from 65535 to 1) and is then handed to
    [SendFrame] as three single-frame messages that are identical (same
    identifier fields and the same payload, which starts with the low byte
    of the bumped event index) and consecutive in frame index; any other
    token is sent as exactly one message and the event index is not bumped
    (it only leaves 0, for 1, when the message carries an index).  The
    frames are written to the transmit ring: where it has room, they are the
    frames added behind the pending ones. *)
Theorem PrivateSendCanToken_enqueues (token : TOKEN) (m : MATRIX_STATE) :
  Matrix_IsCanAddressValid (MatrixCanAddress m) = true
  \/ key token = KeyRequestAddress ->
  0 <= MatrixEventIndex m < 65536 ->
  ring_ok (MatrixTransmitter m) ->
  let own := Matrix_GetCanAddress (MatrixCanAddress m) in
  let m' := snd (Matrix_PrivateSendCanToken token m) in
  let fi := frameIndex (MatrixTransmitter m) in
  fst (Matrix_PrivateSendCanToken token m) = 0
  /\ (Key_GetPrefix (key token) = KeyPrefix_InputStatus ->
        let e := if MatrixEventIndex m =? 65535 then 1 else MatrixEventIndex m + 1 in
        let three := [token_frame own e token fi;
                      token_frame own e token (next_frame_index fi);
                      token_frame own e token (next_frame_index (next_frame_index fi))] in
        MatrixEventIndex m' = e
        /\ enqueued (MatrixTransmitter m') = enqueued (MatrixTransmitter m) ++ three
        /\ ((length (pending (MatrixTransmitter m)) <= 36)%nat ->
            pending (MatrixTransmitter m') = pending (MatrixTransmitter m) ++ three)
        /\ Forall (fun f => frame_type f = MATRIX_MESSAGE_FRAME_TYPE_SINGLE
                            /\ tx_data f = e mod 256 :: map u8 (token_bytes token))
                  three)
  /\ (Key_GetPrefix (key token) <> KeyPrefix_InputStatus ->
        let one := [token_frame own (MatrixEventIndex m) token fi] in
        (MatrixEventIndex m' = MatrixEventIndex m
         \/ (MatrixEventIndex m = 0 /\ MatrixEventIndex m' = 1))
        /\ enqueued (MatrixTransmitter m') = enqueued (MatrixTransmitter m) ++ one
        /\ ((length (pending (MatrixTransmitter m)) < 39)%nat ->
            pending (MatrixTransmitter m') = pending (MatrixTransmitter m) ++ one)).
Proof.
  intros Hpre He Hok own m' fi.
  pose proof (ring_tracks_PrivateSendCanToken token m Hok) as Hring. fold m' in Hring.
  destruct (PrivateSendCanToken_frames token m Hpre) as (Hst & Hin & Hnin).
  fold own m' fi in Hin, Hnin.
  split; [exact Hst|]. split.
  - intros Hprefix. cbv zeta.
    destruct (Hin Hprefix) as (Hidx & Henq & Hdata). cbv zeta in Hidx, Henq, Hdata.
    rewrite (NextEventIndex_value _ He) in Hidx, Henq, Hdata.
    split; [exact Hidx|]. split; [exact Henq|]. split.
    + intros Hroom. apply (ring_tracks_pending _ _ _ Hring Henq). cbn [length]. lia.
    + assert (Hd : forall i, tx_data (token_frame own
                       (if MatrixEventIndex m =? 65535 then 1 else MatrixEventIndex m + 1)
                       token i)
                     = (if MatrixEventIndex m =? 65535 then 1 else MatrixEventIndex m + 1)
                         mod 256 :: map u8 (token_bytes token))
        by (intros i; exact Hdata).
      repeat constructor; apply Hd.
  - intros Hprefix. cbv zeta. destruct (Hnin Hprefix) as (Hidx & Henq).
    split; [|split; [exact Henq|]].
    + rewrite Hidx. unfold start_index, Matrix_GetEventIndex.
      destruct (is_negotiation_key (key token)); [left; reflexivity|].
      destruct (Z.eqb_spec 0 (MatrixEventIndex m)) as [E0|_]; cbn [snd].
      * right. rewrite <- E0. split; reflexivity.
      * left. reflexivity.
    + intros Hroom. apply (ring_tracks_pending _ _ _ Hring Henq). cbn [length]. lia.
Qed.

Definition sample_send_state : MATRIX_STATE :=
  mkState 1000 2000 255 (mkCanAddress 0 0 0 0 5 0) sample_ring_tx.
Definition sample_input_token : TOKEN := mkTOKEN 0 0 0x43E8 5.

Lemma PrivateSendCanToken_enqueues_witness :
  MatrixEventIndex (snd (Matrix_PrivateSendCanToken sample_input_token sample_send_state))
  = 256
  /\ pending (MatrixTransmitter
               (snd (Matrix_PrivateSendCanToken sample_input_token sample_send_state)))
     = pending (MatrixTransmitter sample_send_state)
       ++ [token_frame 5 256 sample_input_token 30;
           token_frame 5 256 sample_input_token 31;
           token_frame 5 256 sample_input_token 0].
Proof.
  assert (Hpre : Matrix_IsCanAddressValid (MatrixCanAddress sample_send_state) = true
                 \/ key sample_input_token = KeyRequestAddress) by (left; reflexivity).
  assert (He : 0 <= MatrixEventIndex sample_send_state < 65536) by (cbn; lia).
  assert (Hok : ring_ok (MatrixTransmitter sample_send_state))
    by (repeat split; cbn; lia).
  assert (Hprefix : Key_GetPrefix (key sample_input_token) = KeyPrefix_InputStatus)
    by reflexivity.
  assert (Hpend : length (pending (MatrixTransmitter sample_send_state)) = 2%nat)
    by reflexivity.
  assert (Hroom : (length (pending (MatrixTransmitter sample_send_state)) <= 36)%nat)
    by (rewrite Hpend; lia).
  destruct (proj1 (proj2 (PrivateSendCanToken_enqueues sample_input_token
                            sample_send_state Hpre He Hok)) Hprefix)
    as (Hidx & _ & Hp & _).
  split; [exact Hidx | exact (Hp Hroom)].
Defined.

(** ** From the transmitter's frame to the receiver's frame *)

(** What [MatrixTransmitter_Clock] hands to the driver for a frame. *)
Definition driver_id (f : MATRIX_TX_CAN_FRAME) : Z :=
  Z.lor (Z.land (frame_id_word f) 0x0FFFFFFF) 0x10000000.
Definition driver_size (f : MATRIX_TX_CAN_FRAME) : Z :=
  u8 (Z.shiftr (frame_id_word f) 28).

(** The fields of a frame fit their bit widths, and the frame type is one of
    the ECCONet types (which all have bit 4 set). *)
Definition frame_fields_ok (f : MATRIX_TX_CAN_FRAME) : Prop :=
  0 <= id_frameIndex (tx_id f) < 32
  /\ 0 <= id_destinationAddress (tx_id f) < 128
  /\ 0 <= id_isEvent (tx_id f) < 2
  /\ id_reserved (tx_id f) = 0
  /\ 0 <= id_sourceAddress (tx_id f) < 128
  /\ 16 <= id_frameType (tx_id f) < 32
  /\ 0 <= tx_dataSize f < 16.

Lemma driver_id_value f :
  frame_fields_ok f ->
  driver_id f
  = id_frameIndex (tx_id f) + 32 * id_destinationAddress (tx_id f)
    + 4096 * id_isEvent (tx_id f) + 131072 * id_sourceAddress (tx_id f)
    + 16777216 * id_frameType (tx_id f)
  /\ driver_size f = tx_dataSize f.
Proof.
  intros (Hi & Hd & He & Hr & Hs & Ht & Hz).
  unfold driver_id, driver_size, frame_id_word, id_word. rewrite Hr.
  rewrite !Z.shiftl_mul_pow2 by lia.
  change (2 ^ 5) with 32. change (2 ^ 12) with 4096. change (2 ^ 13) with 8192.
  change (2 ^ 17) with 131072. change (2 ^ 24) with 16777216.
  set (x := id_frameIndex (tx_id f) + id_destinationAddress (tx_id f) * 32
            + id_isEvent (tx_id f) * 4096 + 0 * 8192
            + id_sourceAddress (tx_id f) * 131072
            + id_frameType (tx_id f) * 16777216).
  assert (Hx : x mod 268435456 = x - 268435456) by (unfold x; Z.div_mod_to_equations; lia).
  change 0x0FFFFFFF with (Z.ones 28). rewrite (Z.land_ones x) by lia.
  change (2 ^ 28) with 268435456.
  assert (Hlo : 0 <= x mod 268435456 < 2 ^ 28)
    by (change (2 ^ 28) with 268435456; apply Z.mod_pos_bound; lia).
  assert (Hw : Z.lor (x mod 268435456) (tx_dataSize f * 268435456)
               = tx_dataSize f * 268435456 + x mod 268435456).
  { replace (tx_dataSize f * 268435456) with (Z.shiftl (tx_dataSize f) 28) at 1
      by (rewrite Z.shiftl_mul_pow2 by lia; reflexivity).
    rewrite Z.lor_comm.
    rewrite lor_shiftl_add by (try lia; exact Hlo). reflexivity. }
  rewrite Hw. split.
  - rewrite Z.land_ones by lia. change (2 ^ 28) with 268435456.
    replace ((tx_dataSize f * 268435456 + x mod 268435456) mod 268435456)
      with (x mod 268435456) by (Z.div_mod_to_equations; lia).
    assert (Hb : Z.lor (x mod 268435456) 0x10000000 = 268435456 + x mod 268435456).
    { transitivity (Z.lor (Z.shiftl 1 28) (x mod 268435456)); [apply Z.lor_comm|].
      rewrite lor_shiftl_add by (try lia; exact Hlo). reflexivity. }
    rewrite Hb, Hx. unfold x. lia.
  - rewrite Z.shiftr_div_pow2 by lia. change (2 ^ 28) with 268435456.
    unfold u8. Z.div_mod_to_equations. lia.
Qed.

Lemma unpack_driver_id f :
  frame_fields_ok f -> unpack_id (driver_id f) = tx_id f.
Proof.
  intros Hok. destruct (driver_id_value f Hok) as [Hv _].
  destruct Hok as (Hi & Hd & He & Hr & Hs & Ht & Hz).
  unfold unpack_id. rewrite Hv.
  destruct (tx_id f) as [fi dest ev res src ty]. cbn [id_frameIndex id_destinationAddress
    id_isEvent id_reserved id_sourceAddress id_frameType] in *.
  rewrite !Z.shiftr_div_pow2 by lia.
  change 0x1F with (Z.ones 5). change 0x7F with (Z.ones 7).
  change 1 with (Z.ones 1) at 1. change 0xF with (Z.ones 4).
  rewrite !Z.land_ones by lia.
  change (2 ^ 5) with 32. change (2 ^ 12) with 4096. change (2 ^ 13) with 8192.
  change (2 ^ 17) with 131072. change (2 ^ 24) with 16777216.
  change (2 ^ 7) with 128. change (2 ^ 1) with 2. change (2 ^ 4) with 16.
  subst res.
  f_equal; Z.div_mod_to_equations; lia.
Qed.

(** The receiver takes a frame in when it is addressed to everybody or to
    this node, and, for the frames of a multi-frame message, when no sender
    filter is set or the sender is the filtered one. *)
Definition accepts (own filter : Z) (f : MATRIX_TX_CAN_FRAME) : bool :=
  ((id_destinationAddress (tx_id f) =? MATRIX_CAN_BROADCAST_ADDRESS)
   || (id_destinationAddress (tx_id f) =? own))
  && ((id_frameType (tx_id f) =? MATRIX_MESSAGE_FRAME_TYPE_SINGLE)
      || (0 =? filter) || (filter =? id_sourceAddress (tx_id f))).

Definition rx_write_slot (r : MATRIX_RECEIVER) : Z :=
  if rxBufferWriteIndex r >=? CAN_RX_STREAM_BUFFER_BACK_SIZE
  then 0 else rxBufferWriteIndex r.

(** The frame the receiver builds from a transmitter frame. *)
Definition rx_frame_of (f : MATRIX_TX_CAN_FRAME) (t : Z) (old : MATRIX_RX_CAN_FRAME)
  : MATRIX_RX_CAN_FRAME :=
  mkRxFrame (id_sourceAddress (tx_id f)) (id_frameIndex (tx_id f))
    (id_frameType (tx_id f) - MATRIX_MESSAGE_FRAME_TYPE_SINGLE + 1)
    (if (id_frameType (tx_id f) =? MATRIX_MESSAGE_FRAME_TYPE_SINGLE)
        && (id_sourceAddress (tx_id f) =? MATRIX_VEHICLE_BUS_ADDRESS)
     then 1 else id_isEvent (tx_id f))
    (tx_dataSize f) t
    (firstn (Z.to_nat (tx_dataSize f)) (tx_data f)
     ++ skipn (Z.to_nat (tx_dataSize f)) (data8 old)).

Lemma intake_frame own t f r :
  frame_fields_ok f ->
  MATRIX_MESSAGE_FRAME_TYPE_SINGLE <= id_frameType (tx_id f)
    <= MATRIX_MESSAGE_FRAME_TYPE_LAST ->
  tx_dataSize f <= 8 ->
  Matrix_ReceiveCanFrame own (driver_id f) (tx_data f) (driver_size f) t r
  = if accepts own (senderAddressFilter r) f then
      mkReceiver
        (array_set (rxBuffer r) (Z.to_nat (rx_write_slot r))
           (rx_frame_of f t (nth (Z.to_nat (rx_write_slot r)) (rxBuffer r) zero_rx_frame)))
        (if u16 (rx_write_slot r + 1) >=? CAN_RX_STREAM_BUFFER_BACK_SIZE
         then 0 else u16 (rx_write_slot r + 1))
        (rxBufferReadIndex r) (senderAddressFilterTimeout r) (senderAddressFilter r)
    else r.
Proof.
  intros Hok Hty Hsz.
  destruct (driver_id_value f Hok) as [_ Hds].
  unfold Matrix_ReceiveCanFrame. rewrite (unpack_driver_id f Hok), Hds.
  fold (rx_write_slot r). unfold accepts.
  replace (id_frameType (tx_id f) <? MATRIX_MESSAGE_FRAME_TYPE_SINGLE) with false
    by (symmetry; apply Z.ltb_ge; lia).
  replace (id_frameType (tx_id f) >? MATRIX_MESSAGE_FRAME_TYPE_LAST) with false
    by (symmetry; rewrite Z.gtb_ltb; apply Z.ltb_ge; lia).
  cbn [orb].
  destruct (id_frameType (tx_id f) =? MATRIX_MESSAGE_FRAME_TYPE_SINGLE) eqn:Es;
    destruct (0 =? senderAddressFilter r) eqn:Ef;
    destruct (senderAddressFilter r =? id_sourceAddress (tx_id f)) eqn:Efs;
    destruct (id_destinationAddress (tx_id f) =? MATRIX_CAN_BROADCAST_ADDRESS) eqn:Ed0;
    destruct (id_destinationAddress (tx_id f) =? own) eqn:Edo;
    cbn [negb andb orb]; try reflexivity;
    unfold rx_frame_of; rewrite ?Es;
    replace (if tx_dataSize f <? CAN_FRAME_MAX_NUM_BYTES
             then tx_dataSize f else CAN_FRAME_MAX_NUM_BYTES)
      with (tx_dataSize f)
      by (unfold CAN_FRAME_MAX_NUM_BYTES;
          destruct (Z.ltb_spec (tx_dataSize f) 8); lia);
    reflexivity.
Qed.

(** X14.  The CAN identifier survives the trip from [SendFrame] through
    [MatrixTransmitter_Clock] to [Matrix_ReceiveCanFrame]: for a frame whose
    fields fit their widths, the receiver either ignores the call (frame for
    another node, or a multi-frame part from a sender other than the filtered
    one) or stores in its write slot a frame with the sender's source
    address, the frame index, the frame type as flag 1, 2 or 3, the event
    flag (forced to 1 for single frames of the vehicle bus gateway), the
    data size and the data bytes, and moves the write index on, wrapping at
    20. *)
Theorem can_frame_intake (own t : Z) (f : MATRIX_TX_CAN_FRAME) (r : MATRIX_RECEIVER) :
  frame_fields_ok f ->
  MATRIX_MESSAGE_FRAME_TYPE_SINGLE <= id_frameType (tx_id f)
    <= MATRIX_MESSAGE_FRAME_TYPE_LAST ->
  tx_dataSize f <= 8 ->
  unpack_id (driver_id f) = tx_id f
  /\ driver_size f = tx_dataSize f
  /\ Matrix_ReceiveCanFrame own (driver_id f) (tx_data f) (driver_size f) t r
     = if accepts own (senderAddressFilter r) f then
         mkReceiver
           (array_set (rxBuffer r) (Z.to_nat (rx_write_slot r))
              (rx_frame_of f t
                 (nth (Z.to_nat (rx_write_slot r)) (rxBuffer r) zero_rx_frame)))
           (if u16 (rx_write_slot r + 1) >=? CAN_RX_STREAM_BUFFER_BACK_SIZE
            then 0 else u16 (rx_write_slot r + 1))
           (rxBufferReadIndex r) (senderAddressFilterTimeout r) (senderAddressFilter r)
       else r.
Proof.
  intros Hok Hty Hsz. split; [exact (unpack_driver_id f Hok)|].
  split; [exact (proj2 (driver_id_value f Hok))|].
  exact (intake_frame own t f r Hok Hty Hsz).
Qed.

Lemma can_frame_intake_witness :
  let f := mkTxFrame (mkFrameId 30 0 1 0 5 MATRIX_MESSAGE_FRAME_TYPE_SINGLE) 4
                     [8; 0x43; 0xE8; 5] in
  unpack_id (driver_id f) = tx_id f.
Proof.
  cbv zeta.
  assert (Hok : frame_fields_ok
                  (mkTxFrame (mkFrameId 30 0 1 0 5 MATRIX_MESSAGE_FRAME_TYPE_SINGLE) 4
                             [8; 0x43; 0xE8; 5]))
    by (unfold frame_fields_ok, MATRIX_MESSAGE_FRAME_TYPE_SINGLE; cbn; lia).
  assert (Hty : MATRIX_MESSAGE_FRAME_TYPE_SINGLE <= MATRIX_MESSAGE_FRAME_TYPE_SINGLE
                <= MATRIX_MESSAGE_FRAME_TYPE_LAST)
    by (unfold MATRIX_MESSAGE_FRAME_TYPE_SINGLE, MATRIX_MESSAGE_FRAME_TYPE_LAST; lia).
  assert (Hsz : 4 <= 8) by lia.
  exact (proj1 (can_frame_intake 9 1000 _ (mkReceiver [] 0 0 0 0) Hok Hty Hsz)).
Defined.

(** ** Single-frame messages at the receiver *)

Lemma data8_length f : length (data8 f) = 8%nat.
Proof.
  unfold data8. rewrite length_firstn, length_app, repeat_length. lia.
Qed.

Lemma data8_rx_frame_of f t old :
  length (tx_data f) = Z.to_nat (tx_dataSize f) -> (length (tx_data f) <= 8)%nat ->
  data8 (rx_frame_of f t old)
  = tx_data f ++ skipn (length (tx_data f)) (data8 old).
Proof.
  intros Hl H8. unfold data8 at 1, rx_frame_of. cbn [rx_data]. rewrite <- Hl.
  rewrite firstn_all.
  pose proof (data8_length old) as Ho.
  rewrite firstn_app.
  rewrite firstn_all2 by (rewrite length_app, length_skipn; lia).
  replace (8 - length (tx_data f ++ skipn (length (tx_data f)) (data8 old)))%nat
    with 0%nat by (rewrite length_app, length_skipn; lia).
  cbn [firstn]. apply app_nil_r.
Qed.

Lemma single_frame_message g rest :
  frameFlags g = MR_FRAME_FLAG_SINGLE ->
  next_message (senderAddress g) (rx_frameIndex g) 0 0 [] (g :: rest)
  = (1, u16 (rx_dataSize g), [g], rest, true).
Proof.
  intros Hf. cbn [next_message]. rewrite !Z.eqb_refl, Hf. reflexivity.
Qed.

Lemma firstn_skipn_app (k : nat) (msg stale : list Z) :
  (k <= length msg)%nat ->
  firstn (length msg - k) (skipn k (msg ++ stale)) = skipn k msg.
Proof.
  intros Hk. rewrite skipn_app. replace (k - length msg)%nat with 0%nat by lia.
  change (skipn 0 stale) with stale. rewrite firstn_app, length_skipn.
  replace (length msg - k - (length msg - k))%nat with 0%nat by lia.
  change (firstn 0 stale) with (@nil Z). rewrite app_nil_r.
  apply firstn_all2. rewrite length_skipn. lia.
Qed.

(** [process_message] on a single-frame message whose bytes are [msg]. *)
Lemma process_single e g msg stale :
  data8 g = msg ++ stale -> (3 <= length msg <= 8)%nat ->
  rx_dataSize g = Z.of_nat (length msg) ->
  process_message e g [g] 1 (rx_dataSize g)
  = let deliver d := Some (mkDelivery d 1 (rx_dataSize g) (data8 g)) in
    let byte1 := nth 1 msg 0 in
    let byte2 := nth 2 msg 0 in
    let k := u16 (Z.lor (Z.shiftl (u16 (Z.land byte1 (Z.lnot KeyPrefix_Mask))) 8) byte2) in
    if KeyPrefix_PatternSync =? Z.land byte1 KeyPrefix_Mask then
      Some (e, deliver (ReceiveCanToken
                          (mkTOKEN 0 (u8 (senderAddress g)) KeyTokenSequencerSync k)))
    else if Key_IsFtpResponse k then
      Some (e, deliver (FTPClient_ServerResponseIn (u8 (senderAddress g)) k (skipn 3 msg)))
    else if Key_IsFtpRequest k then
      Some (e, deliver (FTPServer_ClientRequestIn (u8 (senderAddress g)) k (skipn 3 msg)))
    else
      let e' := Matrix_NewEventIndex (nth 0 msg 0) e in
      let isCommand :=
        (0 =? Z.land byte1 KeyPrefix_Mask)
        && (Z.of_nat (length msg) =? 3 + Key_ValueSize k) in
      if negb (rx_isEvent g =? 0) || isCommand
         || negb (Matrix_IsEventIndexExpired (nth 0 msg 0) e')
      then Some (e', deliver (Codec_Decompress (u8 (senderAddress g)) (skipn 1 msg)))
      else Some (e', None).
Proof.
  intros Hd Hl Hs. unfold process_message. cbn [map concat]. rewrite app_nil_r.
  rewrite Hs, Hd. cbv zeta.
  change (1 =? 1) with true. cbv iota.
  replace (CAN_FRAME_MAX_NUM_BYTES <? Z.of_nat (length msg)) with false
    by (symmetry; apply Z.ltb_ge; unfold CAN_FRAME_MAX_NUM_BYTES; lia).
  replace (3 <=? Z.of_nat (length msg)) with true by (symmetry; apply Z.leb_le; lia).
  rewrite !(app_nth1 msg stale) by lia.
  assert (Hbody : firstn (Z.to_nat (Z.of_nat (length msg) - 3)) (skipn 3 (msg ++ stale))
                  = skipn 3 msg).
  { replace (Z.to_nat (Z.of_nat (length msg) - 3)) with (length msg - 3)%nat by lia.
    apply firstn_skipn_app. lia. }
  assert (Htail : firstn (Z.to_nat (u16 (Z.of_nat (length msg) - 1)))
                         (skipn 1 (msg ++ stale)) = skipn 1 msg).
  { unfold u16. rewrite Z.mod_small by lia.
    replace (Z.to_nat (Z.of_nat (length msg) - 1)) with (length msg - 1)%nat by lia.
    apply firstn_skipn_app. lia. }
  rewrite Hbody, Htail. reflexivity.
Qed.

Lemma stream_single downstream fuel e g e' d :
  frameFlags g = MR_FRAME_FLAG_SINGLE -> 0 <= rx_dataSize g < 65536 ->
  process_message e g [g] 1 (rx_dataSize g) = Some (e', Some d) ->
  ProcessMessagesInStream downstream (S fuel) e [g]
  = Some (downstream (delivered d) e', [d]).
Proof.
  intros Hf Hs Hp. cbn [ProcessMessagesInStream].
  rewrite single_frame_message by exact Hf. rewrite Hf.
  change (MR_FRAME_FLAG_NONE =? MR_FRAME_FLAG_SINGLE) with false. cbv iota.
  unfold u16. rewrite Z.mod_small by lia. rewrite Hp.
  destruct fuel; reflexivity.
Qed.

(** A single frame, addressed to everybody or to the receiving node, as the
    receiver stores it. *)
Lemma single_frame_received rcvOwn t f r :
  frame_fields_ok f ->
  id_frameType (tx_id f) = MATRIX_MESSAGE_FRAME_TYPE_SINGLE ->
  id_destinationAddress (tx_id f) = MATRIX_CAN_BROADCAST_ADDRESS
  \/ id_destinationAddress (tx_id f) = rcvOwn ->
  length (tx_data f) = Z.to_nat (tx_dataSize f) -> tx_dataSize f <= 8 ->
  length (rxBuffer r) = 20%nat -> 0 <= rxBufferWriteIndex r ->
  let g := nth (Z.to_nat (rx_write_slot r))
             (rxBuffer (Matrix_ReceiveCanFrame rcvOwn (driver_id f) (tx_data f)
                          (driver_size f) t r))
             zero_rx_frame in
  senderAddress g = id_sourceAddress (tx_id f)
  /\ rx_frameIndex g = id_frameIndex (tx_id f)
  /\ frameFlags g = MR_FRAME_FLAG_SINGLE
  /\ rx_isEvent g = (if id_sourceAddress (tx_id f) =? MATRIX_VEHICLE_BUS_ADDRESS
                     then 1 else id_isEvent (tx_id f))
  /\ rx_dataSize g = tx_dataSize f
  /\ exists stale, data8 g = tx_data f ++ stale.
Proof.
  intros Hok Hty Hdest Hlen H8 Hbuf Hwi g.
  assert (Hg : g = rx_frame_of f t
                     (nth (Z.to_nat (rx_write_slot r)) (rxBuffer r) zero_rx_frame)).
  { unfold g. rewrite intake_frame.
    - replace (accepts rcvOwn (senderAddressFilter r) f) with true.
      + cbn [rxBuffer]. apply nth_array_set_same. rewrite Hbuf.
        unfold rx_write_slot, CAN_RX_STREAM_BUFFER_BACK_SIZE.
        destruct (Z.geb_spec (rxBufferWriteIndex r) 20); lia.
      + symmetry. unfold accepts. rewrite Hty, Z.eqb_refl.
        destruct Hdest as [-> | ->]; rewrite Z.eqb_refl, ?orb_true_r; reflexivity.
    - exact Hok.
    - rewrite Hty. unfold MATRIX_MESSAGE_FRAME_TYPE_SINGLE,
        MATRIX_MESSAGE_FRAME_TYPE_LAST. lia.
    - exact H8. }
  assert (Hd : exists stale, data8 g = tx_data f ++ stale).
  { eexists. rewrite Hg. apply data8_rx_frame_of; [exact Hlen | lia]. }
  rewrite Hg in *. unfold rx_frame_of at 1 2 3 4 5.
  cbn [senderAddress rx_frameIndex frameFlags rx_isEvent rx_dataSize].
  rewrite Hty, Z.eqb_refl. cbn [andb].
  repeat split; try reflexivity. exact Hd.
Qed.

(** ** A token from the sender's [Matrix_PrivateSendCanToken] to the
    receiver's token sink *)

Lemma small_key_prefix k :
  0 <= k < 0x6000 -> Key_GetPrefix k = Z.land (u8 (Z.shiftr k 8)) KeyPrefix_Mask.
Proof.
  intros Hk. unfold Key_GetPrefix.
  assert (Hb : 0 <= Z.shiftr k 8 < 256).
  { rewrite Z.shiftr_div_pow2 by lia. change (2 ^ 8) with 256.
    Z.div_mod_to_equations; lia. }
  generalize dependent (Z.shiftr k 8). intros b Hb.
  apply Z.eqb_eq.
  apply (byte_forall
           (fun b => u8 (u16 (Z.land b KeyPrefix_Mask)) =? Z.land (u8 b) KeyPrefix_Mask));
    [vm_compute; reflexivity | exact Hb].
Qed.

Lemma rx_key k :
  0 <= k < 65536 ->
  u16 (Z.lor (Z.shiftl (u16 (Z.land (u8 (Z.shiftr k 8)) (Z.lnot KeyPrefix_Mask))) 8)
             (u8 k))
  = Key_WithoutPrefix k.
Proof.
  intros Hk. rewrite key_body by exact Hk.
  assert (Hb : u16 (Z.land (u8 (Z.shiftr k 8)) (Z.lnot KeyPrefix_Mask))
               = u8 (Z.shiftr k 8) mod 32).
  { apply Z.eqb_eq.
    apply (byte_forall
             (fun b => u16 (Z.land b (Z.lnot KeyPrefix_Mask)) =? b mod 32));
      [vm_compute; reflexivity | apply u8_range]. }
  rewrite Hb. rewrite lor_shiftl_add by (pose proof (u8_range k); lia).
  rewrite Z.shiftr_div_pow2 by lia. unfold u16, u8.
  change (2 ^ 8) with 256. change (2 ^ 16) with 65536.
  Z.div_mod_to_equations; lia.
Qed.

Lemma Key_ValueSize_WithoutPrefix k :
  0 <= k < 65536 -> Key_ValueSize (Key_WithoutPrefix k) = Key_ValueSize k.
Proof.
  intros Hk. rewrite key_body by exact Hk. unfold Key_ValueSize.
  change 0x1fff with (Z.ones 13). rewrite !Z.land_ones by lia.
  change (2 ^ 13) with 8192. rewrite Z.mod_mod by lia. reflexivity.
Qed.

Lemma Key_IsFtpRequest_WithoutPrefix k :
  Key_IsFtpRequest (Key_WithoutPrefix k) = Key_IsFtpRequest k.
Proof.
  unfold Key_IsFtpRequest, Key_WithoutPrefix.
  rewrite <- Z.land_assoc, Z.land_diag. reflexivity.
Qed.

Lemma Key_IsFtpResponse_WithoutPrefix k :
  Key_IsFtpResponse (Key_WithoutPrefix k) = Key_IsFtpResponse k.
Proof.
  unfold Key_IsFtpResponse, Key_WithoutPrefix.
  rewrite <- Z.land_assoc, Z.land_diag. reflexivity.
Qed.

Lemma map_u8_value_bytes n v : map u8 (value_bytes n v) = output_value_bytes n v.
Proof. induction n; cbn [value_bytes output_value_bytes map]; congruence. Qed.

Lemma output_value_bytes_length n v : length (output_value_bytes n v) = n.
Proof. induction n; cbn [output_value_bytes length]; congruence. Qed.

Lemma token_message tok ei :
  0 <= key tok < 0x6000 ->
  message_bytes (key tok) ei (token_bytes tok)
  = u8 (start_byte (key tok) ei) :: u8 (Z.shiftr (key tok) 8) :: u8 (key tok)
    :: output_value_bytes (Z.to_nat (Key_ValueSize (key tok))) (value tok).
Proof.
  intros Hk. unfold message_bytes, token_bytes, token_wire_size.
  rewrite small_key_prefix by exact Hk.
  destruct (key_high_byte (key tok) Hk) as [H | [H | H]]; cbv zeta in H; rewrite H;
    change (KeyPrefix_PatternSync =? _) with false; cbv iota;
    cbn [map app]; rewrite map_u8_value_bytes; reflexivity.
Qed.

Lemma land_7F a : 0 <= a < 128 -> Z.land a 0x7F = a.
Proof.
  intros Ha. change 0x7F with (Z.ones 7). rewrite Z.land_ones by lia.
  apply Z.mod_small. change (2 ^ 7) with 128. lia.
Qed.

(** X15.  A token with a Command, OutputStatus or InputStatus key outside
    the FTP regions, sent by [Matrix_PrivateSendCanToken]'s loop body to
    everybody or to the receiving node, travels as one CAN frame; when the
    receiver has taken that frame in with [Matrix_ReceiveCanFrame] and it is
    the frame in the stream, [ProcessMessagesInStream] hands the message
    bytes after the event index to the decompressor, and
    [MatrixCodec_Decompress] turns them into
    exactly one token: the sender's address, the key as sent and the value
    cut to the value size of the key.  The receiver's event index becomes
    [Matrix_NewEventIndex] of the sender's index byte. *)
Theorem sent_token_is_received (tok : TOKEN) (m : MATRIX_STATE) (rcvOwn t e : Z)
    (r : MATRIX_RECEIVER) (downstream : DISPATCH -> Z -> Z) (fuel : nat) :
  let own := Matrix_GetCanAddress (MatrixCanAddress m) in
  0 <= own < 128 ->
  0 <= frameIndex (MatrixTransmitter m) < 32 ->
  0 <= key tok < 0x6000 ->
  Key_IsFtpRequest (key tok) = false ->
  Key_IsFtpResponse (key tok) = false ->
  0 <= address tok < 128 ->
  address tok = MATRIX_CAN_BROADCAST_ADDRESS \/ address tok = rcvOwn ->
  length (rxBuffer r) = 20%nat ->
  0 <= rxBufferWriteIndex r ->
  let f := token_frame own (MatrixEventIndex m) tok (frameIndex (MatrixTransmitter m)) in
  let g := nth (Z.to_nat (rx_write_slot r))
             (rxBuffer (Matrix_ReceiveCanFrame rcvOwn (driver_id f) (tx_data f)
                          (driver_size f) t r))
             zero_rx_frame in
  let bytes := u8 (Z.shiftr (key tok) 8) :: u8 (key tok)
               :: output_value_bytes (Z.to_nat (Key_ValueSize (key tok))) (value tok) in
  let e' := Matrix_NewEventIndex (u8 (start_byte (key tok) (MatrixEventIndex m))) e in
  enqueued (MatrixTransmitter (send_token_once tok m))
  = enqueued (MatrixTransmitter m) ++ [f]
  /\ ProcessMessagesInStream downstream (S fuel) e [g]
     = Some (downstream (Codec_Decompress own bytes) e',
             [mkDelivery (Codec_Decompress own bytes) 1 (3 + Key_ValueSize (key tok))
                         (data8 g)])
  /\ MatrixCodec_Decompress bytes own
     = (0, [mkTOKEN 0 own (key tok)
                    (i32 (value tok mod 256 ^ Key_ValueSize (key tok)))], []).
Proof.
  intros own Hown Hfi Hk Hreq Hresp Haddr Hdest Hbuf Hwi f g bytes e'.
  split; [exact (proj1 (send_token_once_spec tok m))|].
  pose proof (Key_ValueSize_range (key tok)) as Hvs.
  assert (Hmsg : tx_data f = u8 (start_byte (key tok) (MatrixEventIndex m)) :: bytes)
    by (apply token_message; exact Hk).
  assert (Hlen : length (tx_data f) = Z.to_nat (3 + Key_ValueSize (key tok))).
  { rewrite Hmsg. unfold bytes. cbn [length]. rewrite output_value_bytes_length. lia. }
  assert (Hsz : tx_dataSize f = 3 + Key_ValueSize (key tok)).
  { unfold f, token_frame. cbv zeta. cbn [tx_dataSize].
    change (message_bytes (key tok) (MatrixEventIndex m) (token_bytes tok))
      with (tx_data f). rewrite Hlen. lia. }
  assert (Hok : frame_fields_ok f).
  { unfold frame_fields_ok. rewrite Hsz. unfold f, token_frame. cbv zeta.
    cbn [tx_id id_frameIndex id_destinationAddress id_isEvent id_reserved
         id_sourceAddress id_frameType].
    rewrite !land_7F by assumption.
    unfold MATRIX_MESSAGE_FRAME_TYPE_SINGLE.
    destruct (is_event_key (key tok)); lia. }
  destruct (single_frame_received rcvOwn t f r Hok) as (Hs & Hi & Hfl & Hev & Hds & stale & Hd).
  { reflexivity. }
  { unfold f, token_frame. cbv zeta. cbn [tx_id id_destinationAddress].
    rewrite land_7F by assumption. exact Hdest. }
  { rewrite Hsz. exact Hlen. }
  { lia. }
  { exact Hbuf. }
  { exact Hwi. }
  fold g in Hs, Hi, Hfl, Hev, Hds, Hd.
  assert (Hsrc : senderAddress g = own).
  { rewrite Hs. unfold f, token_frame. cbv zeta. cbn [tx_id id_sourceAddress].
    apply land_7F. exact Hown. }
  assert (Hkk : 0 <= key tok < 65536) by lia.
  assert (Hdec : MatrixCodec_Decompress bytes own
                 = (0, [mkTOKEN 0 own (key tok)
                               (i32 (value tok mod 256 ^ Key_ValueSize (key tok)))], [])).
  { pose proof (decode_single own (mkMtlToken tok 0 0) [] Hk) as Hstep.
    unfold token_key, token_value in Hstep. cbn [token] in Hstep.
    rewrite app_nil_r in Hstep.
    unfold MatrixCodec_Decompress, bytes. cbn [length Decompress_loop].
    rewrite Hstep. reflexivity. }
  split; [|exact Hdec].
  assert (Hproc : process_message e g [g] 1 (rx_dataSize g)
                  = Some (e', Some (mkDelivery (Codec_Decompress own bytes) 1
                                      (3 + Key_ValueSize (key tok)) (data8 g)))).
  { rewrite (process_single e g (tx_data f) stale Hd) by (rewrite ?Hds, ?Hsz; lia).
    rewrite Hds, Hsz, Hsrc.
    pose proof Hmsg as Hmsg'. unfold bytes in Hmsg'. rewrite Hmsg' in Hlen |- *.
    cbn [nth skipn]. cbv zeta.
    rewrite (rx_key (key tok) Hkk).
    rewrite Key_IsFtpRequest_WithoutPrefix, Key_IsFtpResponse_WithoutPrefix,
      Key_ValueSize_WithoutPrefix, Hreq, Hresp by exact Hkk.
    replace (u8 own) with own by (unfold u8; rewrite Z.mod_small; lia).
    rewrite <- small_key_prefix by exact Hk.
    assert (Hdel : negb (rx_isEvent g =? 0)
                   || (0 =? Key_GetPrefix (key tok))
                      && (Z.of_nat
                            (length
                               (u8 (start_byte (key tok) (MatrixEventIndex m))
                                :: u8 (Z.shiftr (key tok) 8) :: u8 (key tok)
                                :: output_value_bytes
                                     (Z.to_nat (Key_ValueSize (key tok))) (value tok)))
                          =? 3 + Key_ValueSize (key tok))
                   = true).
    { rewrite Hlen, Z2Nat.id, Z.eqb_refl, andb_true_r by lia.
      rewrite Hev. unfold f, token_frame. cbv zeta.
      cbn [tx_id id_sourceAddress id_isEvent].
      destruct (Z.land own 0x7F =? MATRIX_VEHICLE_BUS_ADDRESS); [reflexivity|].
      unfold is_event_key.
      rewrite small_key_prefix by exact Hk.
      destruct (key_high_byte (key tok) Hk) as [H | [H | H]]; cbv zeta in H;
        pose proof H as H'; rewrite <- small_key_prefix in H' by exact Hk;
        rewrite H; [apply orb_true_r | |];
        (replace (is_negotiation_key (key tok)) with false; [reflexivity|]);
        symmetry; unfold is_negotiation_key, KeyRequestAddress,
          KeyResponseAddressInUse, Region_Base__Named_Misc_One_Byte;
        pose proof (key_split_sum (key tok) Hkk) as Hsum;
        rewrite H', Z.shiftl_mul_pow2 in Hsum by lia;
        (assert (Hb : 0 <= Key_WithoutPrefix (key tok))
          by (rewrite key_body by exact Hkk; apply Z.mod_pos_bound; lia));
        apply orb_false_iff; split; apply Z.eqb_neq; lia. }
    destruct (key_high_byte (key tok) Hk) as [H | [H | H]]; cbv zeta in H;
      rewrite <- small_key_prefix in H by exact Hk;
      replace (KeyPrefix_PatternSync =? Key_GetPrefix (key tok)) with false
        by (rewrite H; reflexivity);
      rewrite Hdel; reflexivity. }
  assert (Hrange : 0 <= rx_dataSize g < 65536) by (rewrite Hds, Hsz; lia).
  rewrite (stream_single downstream fuel e g _ _ Hfl Hrange Hproc). reflexivity.
Qed.

Lemma sent_token_is_received_witness :
  let tx0 := mkTransmitter (mkFrameId 0 0 0 0 0 0) [] 0 0 30 [] 39 0 [] in
  let m0 := mkState 1000 2000 7 (mkCanAddress 0 0 0 0 5 0) tx0 in
  let tok := mkTOKEN 0 0 0x43E8 5 in
  enqueued (MatrixTransmitter (send_token_once tok m0)) = [token_frame 5 7 tok 30]
  /\ MatrixCodec_Decompress [0x43; 0xE8; 5] 5 = (0, [mkTOKEN 0 5 0x43E8 5], []).
Proof.
  cbv zeta.
  assert (Hown : 0 <= 5 < 128) by lia.
  assert (Hfi : 0 <= 30 < 32) by lia.
  assert (Hk : 0 <= 0x43E8 < 0x6000) by lia.
  assert (Hreq : Key_IsFtpRequest 0x43E8 = false) by reflexivity.
  assert (Hresp : Key_IsFtpResponse 0x43E8 = false) by reflexivity.
  assert (Haddr : 0 <= 0 < 128) by lia.
  assert (Hdest : 0 = MATRIX_CAN_BROADCAST_ADDRESS \/ 0 = 9) by (left; reflexivity).
  assert (Hbuf : length (repeat zero_rx_frame 20) = 20%nat) by reflexivity.
  assert (Hwi : 0 <= 0) by lia.
  pose proof (sent_token_is_received (mkTOKEN 0 0 0x43E8 5)
                (mkState 1000 2000 7 (mkCanAddress 0 0 0 0 5 0)
                   (mkTransmitter (mkFrameId 0 0 0 0 0 0) [] 0 0 30 [] 39 0 []))
                9 1000 3 (mkReceiver (repeat zero_rx_frame 20) 0 0 0 0)
                (fun _ e => e) 0
                Hown Hfi Hk Hreq Hresp Haddr Hdest Hbuf Hwi) as H.
  split; [exact (proj1 H) | exact (proj2 (proj2 H))].
Defined.

(** ** A pattern sync from [Matrix_SendSync] to the receiver *)

Lemma stream_single_none downstream fuel e g e' :
  frameFlags g = MR_FRAME_FLAG_SINGLE -> 0 <= rx_dataSize g < 65536 ->
  process_message e g [g] 1 (rx_dataSize g) = Some (e', None) ->
  ProcessMessagesInStream downstream (S fuel) e [g] = Some (e', []).
Proof.
  intros Hf Hs Hp. cbn [ProcessMessagesInStream].
  rewrite single_frame_message by exact Hf. rewrite Hf.
  change (MR_FRAME_FLAG_NONE =? MR_FRAME_FLAG_SINGLE) with false. cbv iota.
  unfold u16. rewrite Z.mod_small by lia. rewrite Hp.
  destruct fuel; reflexivity.
Qed.

(** The second byte of a sync message. *)
Definition sync_byte (v : Z) : Z :=
  u8 (Z.lor KeyPrefix_PatternSync
            (Z.land (Z.shiftr v 8) (Z.lnot KeyPrefix_PatternSync))).

(** The frame enqueued for one sync message. *)
Definition sync_frame (own ei v frameIndex : Z) : MATRIX_TX_CAN_FRAME :=
  mkTxFrame
    (mkFrameId frameIndex 0 0 0 (Z.land own 0x7F) MATRIX_MESSAGE_FRAME_TYPE_SINGLE)
    3 [u8 (start_byte KeyNull ei); sync_byte v; u8 v].

Lemma SendSync_spec tok m :
  let own := Matrix_GetCanAddress (MatrixCanAddress m) in
  fst (Matrix_SendSync tok m) = 0
  /\ enqueued (MatrixTransmitter (snd (Matrix_SendSync tok m)))
     = enqueued (MatrixTransmitter m)
       ++ [sync_frame own (MatrixEventIndex m) (value tok)
             (frameIndex (MatrixTransmitter m))].
Proof.
  intros own. unfold Matrix_SendSync, MatrixTransmitter_StartMessage. fold own.
  set (b1 := Z.lor KeyPrefix_PatternSync
               (Z.land (Z.shiftr (value tok) 8) (Z.lnot KeyPrefix_PatternSync))).
  pose proof (transmit_inv own (MatrixEventIndex m) 0 KeyNull [b1; value tok]
                (MatrixTransmitter m)) as Hinv.
  pose proof (StartMessage_spec own (MatrixEventIndex m) 0 KeyNull
                (MatrixTransmitter m)) as Hs.
  destruct (MatrixTransmitter_StartMessageWithAddressAndKey own (MatrixEventIndex m)
              0 KeyNull (MatrixTransmitter m)) as [tx1 ei1].
  injection Hs as Htx1 Hei1. cbn [fst add_bytes fold_left] in Hinv.
  destruct (finish_single _ _ _ Hinv) as (tx' & Hfin & He & Hfi).
  { unfold message_bytes. discriminate. }
  { unfold message_bytes. cbn [map length]. lia. }
  rewrite Hfin. cbn [fst snd MatrixTransmitter]. split; [reflexivity|].
  assert (Hfi1 : frameIndex (MatrixTransmitter_AddByte (value tok)
                               (MatrixTransmitter_AddByte b1 tx1))
                 = frameIndex (MatrixTransmitter m)).
  { rewrite Htx1.
    change (MatrixTransmitter_AddByte (value tok)
              (MatrixTransmitter_AddByte b1
                 (MatrixTransmitter_AddByte (start_byte KeyNull (MatrixEventIndex m))
                    (fresh_tx (start_id own 0 KeyNull) (MatrixTransmitter m)))))
      with (add_bytes [start_byte KeyNull (MatrixEventIndex m); b1; value tok]
              (fresh_tx (start_id own 0 KeyNull) (MatrixTransmitter m))).
    rewrite add_bytes_frameIndex_small; [reflexivity|].
    cbn [fresh_tx fifo length]. lia. }
  rewrite He. cbn [fresh_tx enqueued idAddress]. f_equal. f_equal.
  unfold sync_frame, start_id, message_bytes, sync_byte. fold b1.
  cbn [id_frameIndex id_destinationAddress id_isEvent id_reserved id_sourceAddress
       map length].
  rewrite Hfi1, Z.lor_0_l. reflexivity.
Qed.

Lemma sync_byte_low v :
  sync_byte v
  = u8 (Z.lor KeyPrefix_PatternSync
              (Z.land (u8 (Z.shiftr v 8)) (Z.lnot KeyPrefix_PatternSync))).
Proof.
  unfold sync_byte, u8. generalize (Z.shiftr v 8). intros x.
  change 256 with (2 ^ 8). rewrite <- !Z.land_ones by lia.
  rewrite !Z.land_lor_distr_l. f_equal.
  rewrite <- !Z.land_assoc. reflexivity.
Qed.

Lemma sync_byte_prefix v :
  Z.land (sync_byte v) KeyPrefix_Mask
  = if Z.testbit v 14 then 0xE0 else KeyPrefix_PatternSync.
Proof.
  rewrite sync_byte_low.
  replace (Z.testbit v 14) with (Z.testbit (u8 (Z.shiftr v 8)) 6).
  - apply Z.eqb_eq.
    apply (byte_forall
             (fun b =>
                Z.land (u8 (Z.lor KeyPrefix_PatternSync
                                  (Z.land b (Z.lnot KeyPrefix_PatternSync))))
                       KeyPrefix_Mask
                =? if Z.testbit b 6 then 0xE0 else KeyPrefix_PatternSync));
      [vm_compute; reflexivity | apply u8_range].
  - unfold u8. change 256 with (2 ^ 8). rewrite Z.mod_pow2_bits_low by lia.
    rewrite Z.shiftr_spec by lia. reflexivity.
Qed.

Lemma sync_key v :
  u16 (Z.lor (Z.shiftl (u16 (Z.land (sync_byte v) (Z.lnot KeyPrefix_Mask))) 8) (u8 v))
  = v mod 8192.
Proof.
  rewrite sync_byte_low.
  assert (Hb : u16 (Z.land (u8 (Z.lor KeyPrefix_PatternSync
                                  (Z.land (u8 (Z.shiftr v 8))
                                          (Z.lnot KeyPrefix_PatternSync))))
                           (Z.lnot KeyPrefix_Mask))
               = u8 (Z.shiftr v 8) mod 32).
  { apply Z.eqb_eq.
    apply (byte_forall
             (fun b =>
                u16 (Z.land (u8 (Z.lor KeyPrefix_PatternSync
                                       (Z.land b (Z.lnot KeyPrefix_PatternSync))))
                            (Z.lnot KeyPrefix_Mask))
                =? b mod 32));
      [vm_compute; reflexivity | apply u8_range]. }
  rewrite Hb. rewrite lor_shiftl_add by (pose proof (u8_range v); lia).
  rewrite Z.shiftr_div_pow2 by lia. unfold u16, u8.
  change (2 ^ 8) with 256. change (2 ^ 16) with 65536.
  Z.div_mod_to_equations; lia.
Qed.

(** What [process_message] makes of a received sync frame. *)
Lemma sync_process (v own ei fi rcvOwn t e : Z) (r : MATRIX_RECEIVER) :
  0 <= own < 128 -> 0 <= fi < 32 ->
  length (rxBuffer r) = 20%nat -> 0 <= rxBufferWriteIndex r ->
  let f := sync_frame own ei v fi in
  let g := nth (Z.to_nat (rx_write_slot r))
             (rxBuffer (Matrix_ReceiveCanFrame rcvOwn (driver_id f) (tx_data f)
                          (driver_size f) t r))
             zero_rx_frame in
  let deliver d := Some (mkDelivery d 1 3 (data8 g)) in
  frameFlags g = MR_FRAME_FLAG_SINGLE
  /\ rx_dataSize g = 3
  /\ process_message e g [g] 1 (rx_dataSize g)
     = if KeyPrefix_PatternSync =? (if Z.testbit v 14 then 0xE0 else KeyPrefix_PatternSync)
       then Some (e, deliver (ReceiveCanToken
                                (mkTOKEN 0 own KeyTokenSequencerSync (v mod 8192))))
       else if Key_IsFtpResponse (v mod 8192) then
         Some (e, deliver (FTPClient_ServerResponseIn own (v mod 8192)
                             (skipn 3 (tx_data f))))
       else if Key_IsFtpRequest (v mod 8192) then
         Some (e, deliver (FTPServer_ClientRequestIn own (v mod 8192)
                             (skipn 3 (tx_data f))))
       else
         let e' := Matrix_NewEventIndex (nth 0 (tx_data f) 0) e in
         let isCommand :=
           (0 =? (if Z.testbit v 14 then 0xE0 else KeyPrefix_PatternSync))
           && (Z.of_nat (length (tx_data f)) =? 3 + Key_ValueSize (v mod 8192)) in
         if negb (rx_isEvent g =? 0) || isCommand
            || negb (Matrix_IsEventIndexExpired (nth 0 (tx_data f) 0) e')
         then Some (e', deliver (Codec_Decompress own (skipn 1 (tx_data f))))
         else Some (e', None).
Proof.
  intros Hown Hfi Hbuf Hwi f g deliver.
  assert (Hok : frame_fields_ok f).
  { unfold frame_fields_ok, f, sync_frame.
    cbn [tx_id tx_dataSize id_frameIndex id_destinationAddress id_isEvent id_reserved
         id_sourceAddress id_frameType].
    rewrite land_7F by assumption. unfold MATRIX_MESSAGE_FRAME_TYPE_SINGLE. lia. }
  destruct (single_frame_received rcvOwn t f r Hok)
    as (Hs & Hi & Hfl & Hev & Hds & stale & Hd).
  { reflexivity. }
  { left. reflexivity. }
  { reflexivity. }
  { cbn. lia. }
  { exact Hbuf. }
  { exact Hwi. }
  fold g in Hs, Hi, Hfl, Hev, Hds, Hd.
  assert (Hsrc : u8 (senderAddress g) = own).
  { rewrite Hs. unfold f, sync_frame. cbn [tx_id id_sourceAddress].
    rewrite land_7F by exact Hown. unfold u8. apply Z.mod_small. lia. }
  change (tx_dataSize f) with 3 in Hds.
  split; [exact Hfl|]. split; [exact Hds|].
  pose proof (process_single e g (tx_data f) stale Hd) as Hp.
  rewrite Hds in Hp. specialize (Hp ltac:(cbn; lia) eq_refl).
  cbv zeta in Hp. rewrite Hsrc in Hp.
  change (nth 1 (tx_data f) 0) with (sync_byte v) in Hp.
  change (nth 2 (tx_data f) 0) with (u8 v) in Hp.
  rewrite sync_key, sync_byte_prefix in Hp.
  rewrite Hds. exact Hp.
Qed.

(** X16.  [Matrix_SendSync] returns 0 and enqueues one three-byte broadcast
    frame.  When the receiver has taken that frame in, it is the frame in
    the stream and bit 14 of the pattern enumeration is clear,
    [ProcessMessagesInStream] hands
    [Matrix_PrivateReceiveCanToken] a [KeyTokenSequencerSync] token with the
    sender's address and the enumeration modulo 8192, and leaves the
    receiver's event index alone.  When bit 14 is set, the prefix bits of
    the second byte read 0xE0, and the message is not handed on as a sync
    token. *)
Theorem sync_is_received (tok : TOKEN) (m : MATRIX_STATE) (rcvOwn t e : Z)
    (r : MATRIX_RECEIVER) (downstream : DISPATCH -> Z -> Z) (fuel : nat) :
  let own := Matrix_GetCanAddress (MatrixCanAddress m) in
  0 <= own < 128 ->
  0 <= frameIndex (MatrixTransmitter m) < 32 ->
  length (rxBuffer r) = 20%nat ->
  0 <= rxBufferWriteIndex r ->
  let f := sync_frame own (MatrixEventIndex m) (value tok)
             (frameIndex (MatrixTransmitter m)) in
  let g := nth (Z.to_nat (rx_write_slot r))
             (rxBuffer (Matrix_ReceiveCanFrame rcvOwn (driver_id f) (tx_data f)
                          (driver_size f) t r))
             zero_rx_frame in
  let sync := ReceiveCanToken
                (mkTOKEN 0 own KeyTokenSequencerSync (value tok mod 8192)) in
  fst (Matrix_SendSync tok m) = 0
  /\ enqueued (MatrixTransmitter (snd (Matrix_SendSync tok m)))
     = enqueued (MatrixTransmitter m) ++ [f]
  /\ (Z.testbit (value tok) 14 = false ->
      ProcessMessagesInStream downstream (S fuel) e [g]
      = Some (downstream sync e, [mkDelivery sync 1 3 (data8 g)]))
  /\ (Z.testbit (value tok) 14 = true ->
      exists e2 ds,
        ProcessMessagesInStream downstream (S fuel) e [g] = Some (e2, ds)
        /\ forall d tk, In d ds -> delivered d <> ReceiveCanToken tk).
Proof.
  intros own Hown Hfi Hbuf Hwi f g sync.
  split; [exact (proj1 (SendSync_spec tok m))|].
  split; [exact (proj2 (SendSync_spec tok m))|].
  destruct (sync_process (value tok) own (MatrixEventIndex m)
              (frameIndex (MatrixTransmitter m)) rcvOwn t e r Hown Hfi Hbuf Hwi)
    as (Hfl & Hds & Hp).
  fold f g in Hfl, Hds, Hp. cbv zeta in Hp.
  assert (Hrange : 0 <= rx_dataSize g < 65536) by (rewrite Hds; lia).
  split.
  - intros Hbit. rewrite Hbit, Z.eqb_refl in Hp.
    rewrite (stream_single downstream fuel e g _ _ Hfl Hrange Hp). reflexivity.
  - intros Hbit. rewrite Hbit in Hp.
    change (KeyPrefix_PatternSync =? 0xE0) with false in Hp. cbv iota in Hp.
    repeat match type of Hp with
           | context [if ?c then _ else _] => destruct c
           end;
      first
        [ rewrite (stream_single downstream fuel e g _ _ Hfl Hrange Hp);
          do 2 eexists; split; [reflexivity|];
          intros d tk [<- | []]; discriminate
        | rewrite (stream_single_none downstream fuel e g _ Hfl Hrange Hp);
          do 2 eexists; split; [reflexivity|];
          intros d tk [] ].
Qed.

Lemma sync_is_received_witness :
  let tx0 := mkTransmitter (mkFrameId 0 0 0 0 0 0) [] 0 0 30 [] 39 0 [] in
  let m0 := mkState 1000 2000 7 (mkCanAddress 0 0 0 0 5 0) tx0 in
  let tok := mkTOKEN 0 0 KeyTokenSequencerSync 0x1234 in
  enqueued (MatrixTransmitter (snd (Matrix_SendSync tok m0)))
  = [sync_frame 5 7 0x1234 30].
Proof.
  cbv zeta.
  assert (Hown : 0 <= 5 < 128) by lia.
  assert (Hfi : 0 <= 30 < 32) by lia.
  assert (Hbuf : length (repeat zero_rx_frame 20) = 20%nat) by reflexivity.
  assert (Hwi : 0 <= 0) by lia.
  exact (proj1 (proj2
           (sync_is_received (mkTOKEN 0 0 KeyTokenSequencerSync 0x1234)
              (mkState 1000 2000 7 (mkCanAddress 0 0 0 0 5 0)
                 (mkTransmitter (mkFrameId 0 0 0 0 0 0) [] 0 0 30 [] 39 0 []))
              9 1000 3 (mkReceiver (repeat zero_rx_frame 20) 0 0 0 0)
              (fun _ e => e) 0 Hown Hfi Hbuf Hwi))).
Defined.

(** ** The time-logic token table: population, order and search *)

(** The address and key of an entry fit their C types [uint8_t] and
    [uint16_t], and so do its flags. *)
Definition table_entry (t : MTL_TOKEN) : Prop :=
  0 <= token_flags t < 256 /\ 0 <= address (token t) < 256
  /\ 0 <= token_key t < 65536.

(** The entries are in strictly increasing order of address and key, as the
    [bsearch] calls need them. *)
Definition strictly_sorted (table : list MTL_TOKEN) : Prop :=
  forall i j, (i < j < length table)%nat ->
    address_key_word (nth i table zero_token) < address_key_word (nth j table zero_token).

Fixpoint descending (l : list MTL_TOKEN) : Prop :=
  match l with
  | [] => True
  | x :: l' =>
      Forall (fun y => address_key_word y < address_key_word x) l' /\ descending l'
  end.

Lemma word_value f a k :
  0 <= f < 256 -> 0 <= a < 256 -> 0 <= k < 65536 ->
  Z.land (f + Z.shiftl a 8 + Z.shiftl k 16) 0xffffff00 = 256 * a + 65536 * k.
Proof.
  intros Hf Ha Hk.
  change 0xffffff00 with (Z.shiftl (Z.ones 24) 8). rewrite land_shiftl_8.
  rewrite Z.land_ones by lia.
  rewrite !Z.shiftl_mul_pow2, Z.shiftr_div_pow2 by lia.
  change (2 ^ 8) with 256. change (2 ^ 16) with 65536. change (2 ^ 24) with 16777216.
  Z.div_mod_to_equations; lia.
Qed.

Lemma address_key_word_entry t :
  table_entry t -> address_key_word t = 256 * address (token t) + 65536 * token_key t.
Proof. intros (Hf & Ha & Hk). unfold address_key_word. apply word_value; assumption. Qed.

Lemma sort_insert_length x : forall placed,
  length (sort_insert x placed) = S (length placed).
Proof.
  induction placed as [|c placed IH]; cbn [sort_insert]; [reflexivity|].
  destruct (address_key_word c <=? address_key_word x); cbn [length]; congruence.
Qed.

Lemma sort_insert_descending x : forall placed,
  descending placed ->
  Forall (fun y => address_key_word y <> address_key_word x) placed ->
  descending (sort_insert x placed).
Proof.
  induction placed as [|c placed IH]; intros Hd Hne; cbn [sort_insert].
  - split; constructor.
  - destruct Hd as [Hc Hd]. pose proof (Forall_inv Hne) as Hcx. cbv beta in Hcx.
    destruct (Z.leb_spec (address_key_word c) (address_key_word x)) as [Hle|Hgt].
    + split; [|split; assumption].
      constructor; [lia|]. eapply Forall_impl; [|exact Hc]. cbv beta. intros y Hy. lia.
    + split; [|apply IH; [exact Hd | exact (Forall_inv_tail Hne)]].
      apply sort_insert_Forall; [lia | exact Hc].
Qed.

Lemma fold_sort_descending table : forall placed,
  descending placed ->
  NoDup (map address_key_word table) ->
  (forall x, In x table ->
     Forall (fun y => address_key_word y <> address_key_word x) placed) ->
  descending (fold_left (fun placed sortToken => sort_insert sortToken placed)
                        table placed).
Proof.
  induction table as [|x table IH]; intros placed Hd Hnd Hne; [exact Hd|].
  cbn [fold_left]. cbn [map] in Hnd. apply NoDup_cons_iff in Hnd.
  destruct Hnd as [Hx Hnd].
  apply IH.
  - apply sort_insert_descending; [exact Hd | apply Hne; left; reflexivity].
  - exact Hnd.
  - intros x' Hx'. apply sort_insert_Forall.
    + intros Heq. apply Hx. rewrite Heq. apply in_map. exact Hx'.
    + apply Hne. right. exact Hx'.
Qed.

Lemma fold_sort_length table : forall placed,
  length (fold_left (fun placed sortToken => sort_insert sortToken placed) table placed)
  = (length placed + length table)%nat.
Proof.
  induction table as [|x table IH]; intros placed; cbn [fold_left length]; [lia|].
  rewrite IH, sort_insert_length. lia.
Qed.

Lemma descending_nth l : descending l -> forall i j, (i < j < length l)%nat ->
  address_key_word (nth j l zero_token) < address_key_word (nth i l zero_token).
Proof.
  induction l as [|x l IH]; intros Hd i j Hij; [cbn in Hij; lia|].
  destruct Hd as [Hx Hd]. cbn [length] in Hij.
  destruct j as [|j]; [lia|]. destruct i as [|i]; cbn [nth].
  - rewrite Forall_forall in Hx. apply Hx. apply nth_In. lia.
  - apply IH; [exact Hd | lia].
Qed.

Lemma sort_tokens_length table : length (sort_tokens table) = length table.
Proof. unfold sort_tokens. rewrite length_rev, fold_sort_length. reflexivity. Qed.

Lemma sort_tokens_sorted table :
  NoDup (map address_key_word table) -> strictly_sorted (sort_tokens table).
Proof.
  intros Hnd i j Hij. rewrite sort_tokens_length in Hij. unfold sort_tokens.
  set (placed := fold_left (fun placed sortToken => sort_insert sortToken placed)
                           table []).
  assert (Hlen : length placed = length table)
    by (unfold placed; rewrite fold_sort_length; reflexivity).
  assert (Hd : descending placed).
  { unfold placed. apply fold_sort_descending; [exact I | exact Hnd |].
    intros x _. constructor. }
  rewrite !rev_nth by lia.
  apply descending_nth; [exact Hd | lia].
Qed.

Definition table_inv (table : list MTL_TOKEN) : Prop :=
  Forall table_entry table /\ NoDup (map address_key_word table).

Lemma find_table_token_spec bytecodeToken : forall table,
  (find_table_token bytecodeToken table <= length table)%nat
  /\ (find_table_token bytecodeToken table = length table ->
      ~ In (token_flags bytecodeToken + Z.shiftl (address (token bytecodeToken)) 8
            + Z.shiftl (token_key bytecodeToken) 16)
           (map address_key_word table)).
Proof.
  induction table as [|t table [IHle IHne]]; cbn [find_table_token length map].
  - split; [lia | intros _ []].
  - destruct (Z.eqb_spec
                (token_flags bytecodeToken + Z.shiftl (address (token bytecodeToken)) 8
                 + Z.shiftl (token_key bytecodeToken) 16)
                (address_key_word t)) as [Heq|Hne].
    + split; [lia | discriminate].
    + split; [lia|]. intros Hl [Hin|Hin]; [congruence|].
      apply IHne; [lia | exact Hin].
Qed.

Lemma flags_lor_range f c : 0 <= f < 256 -> 0 <= c < 256 -> 0 <= Z.lor f c < 256.
Proof.
  intros Hf Hc. split; [apply Z.lor_nonneg; lia|].
  destruct (Z.eq_dec (Z.lor f c) 0) as [->|Hnz]; [lia|].
  apply Z.log2_lt_cancel. rewrite Z.log2_lor by lia.
  change (Z.log2 256) with 8.
  assert (Hl : forall x, 0 <= x < 256 -> Z.log2 x < 8).
  { intros x Hx. destruct (Z.eq_dec x 0) as [->|Hx0]; [cbn; lia|].
    apply Z.log2_lt_pow2; lia. }
  pose proof (Hl f Hf). pose proof (Hl c Hc). lia.
Qed.

Lemma flag_equation_output_entry mapped t :
  table_entry t ->
  table_entry (flag_equation_output mapped t)
  /\ address_key_word (flag_equation_output mapped t) = address_key_word t.
Proof.
  intros (Hf & Ha & Hk).
  assert (H : table_entry (flag_equation_output mapped t)
              /\ address (token (flag_equation_output mapped t)) = address (token t)
              /\ token_key (flag_equation_output mapped t) = token_key t).
  { unfold flag_equation_output. cbv zeta.
    pose proof (flags_lor_range (token_flags t) MtlFlagsIsEquationOutput Hf
                  ltac:(unfold MtlFlagsIsEquationOutput; lia)) as H1.
    pose proof (flags_lor_range _ MtlFlagsShouldBroadcast H1
                  ltac:(unfold MtlFlagsShouldBroadcast; lia)) as H2.
    repeat match goal with
           | |- context [if ?c then _ else _] => destruct c
           end;
      unfold table_entry, set_flags, set_mappedTokenKey, token_flags, token_key in *;
      cbn [token flags address key] in *; repeat split; lia. }
  destruct H as (He & Hadr & Hkey). split; [exact He|].
  rewrite (address_key_word_entry _ He).
  rewrite (address_key_word_entry t (conj Hf (conj Ha Hk))).
  rewrite Hadr, Hkey. reflexivity.
Qed.

Lemma update_table_words f : forall table i,
  (forall t, table_entry t ->
     table_entry (f t) /\ address_key_word (f t) = address_key_word t) ->
  Forall table_entry table ->
  Forall table_entry (update_table i f table)
  /\ map address_key_word (update_table i f table) = map address_key_word table
  /\ length (update_table i f table) = length table.
Proof.
  unfold update_table.
  induction table as [|y table IH]; intros i Hf Ht; cbn [array_set].
  - repeat split. constructor.
  - pose proof (Forall_inv Ht) as Hy. pose proof (Forall_inv_tail Ht) as Ht'.
    destruct i as [|i]; cbn [array_set nth map length].
    + destruct (Hf y Hy) as [He Hw]. repeat split.
      * constructor; assumption.
      * rewrite Hw. reflexivity.
    + destruct (IH i Hf Ht') as (H1 & H2 & H3). repeat split.
      * constructor; assumption.
      * rewrite H2. reflexivity.
      * rewrite H3. reflexivity.
Qed.

Lemma update_table_inv f i table :
  (forall t, table_entry t ->
     table_entry (f t) /\ address_key_word (f t) = address_key_word t) ->
  table_inv table ->
  table_inv (update_table i f table)
  /\ length (update_table i f table) = length table.
Proof.
  intros Hf [Ht Hnd]. destruct (update_table_words f table i Hf Ht) as (H1 & H2 & H3).
  split; [split; [exact H1 | rewrite H2; exact Hnd] | exact H3].
Qed.

Lemma bytecode_at_range bytecode p : 0 <= bytecode_at bytecode p < 256.
Proof.
  unfold bytecode_at. destruct (p <? 0); [lia | apply u8_range].
Qed.

Lemma populate_token_inv bytecode p prevToken table :
  table_inv table ->
  table_inv (snd (populate_token bytecode p prevToken table))
  /\ (length (snd (populate_token bytecode p prevToken table)) <= S (length table))%nat.
Proof.
  intros Hinv. unfold populate_token. cbv zeta.
  set (k := u16 (Z.lor (u16 (Z.shiftl (bytecode_at bytecode (p + 1)) 8))
                       (bytecode_at bytecode (p + 2)))).
  assert (Hk : 0 <= k < 65536) by (unfold k, u16; apply Z.mod_pos_bound; lia).
  set (mapped := if (bytecode_at bytecode (p + 2 - 3) =? Lambda)
                    && Key_IsLocalVariable (token_key prevToken)
                    && negb (Key_IsLocalVariable k)
                 then token_key prevToken else 0).
  assert (Hstep : forall a, 0 <= a < 256 ->
            let bytecodeToken := mkMtlToken (mkTOKEN 0 a k 0) 0 mapped in
            let i := find_table_token bytecodeToken table in
            let table1 := if (i =? length table)%nat
                          then table ++ [mkMtlToken (mkTOKEN 0 a k 0) 0 0]
                          else table in
            table_inv table1 /\ (length table1 <= S (length table))%nat).
  { intros a Ha bytecodeToken i table1.
    destruct (find_table_token_spec bytecodeToken table) as [Hle Hnew]. fold i in Hle, Hnew.
    unfold table1. destruct (Nat.eqb_spec i (length table)) as [Heq|Hne].
    - split; [|rewrite length_app; cbn [length]; lia].
      destruct Hinv as [Ht Hnd].
      assert (He : table_entry (mkMtlToken (mkTOKEN 0 a k 0) 0 0))
        by (unfold table_entry, token_flags, token_key; cbn [token flags address key]; lia).
      split.
      + apply Forall_app. split; [exact Ht | constructor; [exact He | constructor]].
      + rewrite map_app. cbn [map].
        assert (Hw : address_key_word (mkMtlToken (mkTOKEN 0 a k 0) 0 0)
                     = token_flags bytecodeToken
                       + Z.shiftl (address (token bytecodeToken)) 8
                       + Z.shiftl (token_key bytecodeToken) 16).
        { rewrite address_key_word_entry by exact He.
          unfold bytecodeToken, token_flags, token_key. cbn [token flags address key].
          rewrite !Z.shiftl_mul_pow2 by lia. lia. }
        rewrite Hw.
        assert (Hsnoc : forall (l : list Z) x, NoDup l -> ~ In x l -> NoDup (l ++ [x])).
        { induction l as [|y l IHl]; intros x Hl Hx; cbn [app].
          - constructor; [intros [] | constructor].
          - apply NoDup_cons_iff in Hl. destruct Hl as [Hy Hl].
            constructor.
            + rewrite in_app_iff. intros [Hin | [Hin | []]]; [exact (Hy Hin)|].
              apply Hx. left. symmetry. exact Hin.
            + apply IHl; [exact Hl | intros Hin; apply Hx; right; exact Hin]. }
        apply Hsnoc; [exact Hnd | apply Hnew; exact Heq].
    - split; [exact Hinv | lia]. }
  assert (Hfin : forall a p', 0 <= a < 256 ->
            let bytecodeToken := mkMtlToken (mkTOKEN 0 a k 0) 0 mapped in
            let i := find_table_token bytecodeToken table in
            let table1 := if (i =? length table)%nat
                          then table ++ [mkMtlToken (mkTOKEN 0 a k 0) 0 0]
                          else table in
            let table2 := if EquationEnd =? bytecode_at bytecode (p' + 1)
                          then update_table i (flag_equation_output mapped) table1
                          else table1 in
            table_inv table2 /\ (length table2 <= S (length table))%nat).
  { intros a p' Ha bytecodeToken i table1 table2.
    destruct (Hstep a Ha) as [H1 H2]. fold bytecodeToken i table1 in H1, H2.
    unfold table2. destruct (EquationEnd =? bytecode_at bytecode (p' + 1));
      [|split; assumption].
    destruct (update_table_inv (flag_equation_output mapped) i table1
                (flag_equation_output_entry mapped) H1) as [H3 H4].
    split; [exact H3 | rewrite H4; exact H2]. }
  destruct (bytecode_at bytecode (p + 2 + 1) =? TokenAddress); cbn [snd].
  - apply (Hfin (bytecode_at bytecode (p + 2 + 2)) (p + 2 + 2)), bytecode_at_range.
  - apply (Hfin 0 (p + 2)). lia.
Qed.

Lemma populate_step_inv bytecode p prevToken table :
  table_inv table ->
  table_inv (snd (populate_step bytecode p prevToken table))
  /\ (length (snd (populate_step bytecode p prevToken table)) <= S (length table))%nat.
Proof.
  intros Ht. unfold populate_step. cbv zeta.
  destruct ((bytecode_at bytecode p =? EquationStart)
            || (bytecode_at bytecode p =? PriorityEquationStart)
            || (bytecode_at bytecode p =? SuccessiveEquationStart));
    [split; [exact Ht | cbn [snd]; lia]|].
  destruct (bytecode_at bytecode p =? ConstantValue);
    [split; [exact Ht | cbn [snd]; lia]|].
  destruct (bytecode_at bytecode p =? TokenKey);
    [|split; [exact Ht | cbn [snd]; lia]].
  apply populate_token_inv, Ht.
Qed.

Lemma populate_loop_inv bytecode lastPtr fuel : forall p prevToken table,
  table_inv table -> (length table < 50)%nat ->
  table_inv (populate_loop fuel bytecode lastPtr p prevToken table)
  /\ (length (populate_loop fuel bytecode lastPtr p prevToken table) <= 50)%nat.
Proof.
  induction fuel as [|fuel IH]; intros p prevToken table Ht Hl;
    [split; [exact Ht | cbn [populate_loop]; lia]|].
  cbn [populate_loop].
  destruct (p + 1 <? lastPtr); [|split; [exact Ht | lia]].
  destruct (populate_step_inv bytecode (p + 1) prevToken table Ht) as [Hs Hsl].
  destruct (populate_step bytecode (p + 1) prevToken table) as [[p' prev'] table'].
  cbn [snd] in Hs, Hsl.
  unfold MATRIX_TIME_LOGIC_TOKEN_TABLE_SIZE.
  destruct (Z.geb_spec (Z.of_nat (length table')) 50) as [Hge|Hlt].
  - split; [exact Hs | lia].
  - apply IH; [exact Hs | lia].
Qed.

(** X17.  Whatever the equation file holds, [MTL_PopulateTokenTable] leaves
    a table of at most 50 entries whose address, key and flags fit their
    fields, in strictly increasing order of (key, address): no two entries
    share an address and key. *)
Theorem PopulateTokenTable_sorted (bytecode : option (list Z)) (bytecodeSize : Z) :
  let table := MTL_PopulateTokenTable bytecode bytecodeSize in
  (length table <= 50)%nat
  /\ Forall table_entry table
  /\ strictly_sorted table
  /\ forall i j, (i < j < length table)%nat ->
       (token_key (nth i table zero_token), address (token (nth i table zero_token)))
       <> (token_key (nth j table zero_token), address (token (nth j table zero_token))).
Proof.
  cbv zeta.
  assert (H : (length (MTL_PopulateTokenTable bytecode bytecodeSize) <= 50)%nat
              /\ Forall table_entry (MTL_PopulateTokenTable bytecode bytecodeSize)
              /\ strictly_sorted (MTL_PopulateTokenTable bytecode bytecodeSize)).
  { unfold MTL_PopulateTokenTable.
    assert (Hnil : (length (@nil MTL_TOKEN) <= 50)%nat /\ Forall table_entry []
                   /\ strictly_sorted [])
      by (repeat split; [cbn; lia | constructor | intros i j Hij; cbn in Hij; lia]).
    destruct bytecode as [bc|]; [|exact Hnil].
    destruct (0 =? bytecodeSize); [exact Hnil|].
    cbv zeta.
    match goal with
    | |- context [populate_loop ?fuel bc bytecodeSize ?p zero_token []] =>
        destruct (populate_loop_inv bc bytecodeSize fuel p zero_token [])
          as [[Ht Hnd] Hl]
    end.
    - split; constructor.
    - cbn [length]. lia.
    - rewrite sort_tokens_length.
      split; [exact Hl|]. split; [apply sort_tokens_Forall; exact Ht|].
      apply sort_tokens_sorted. exact Hnd. }
  destruct H as (Hl & Ht & Hs). repeat split; try assumption.
  intros i j Hij Heq. specialize (Hs i j Hij).
  rewrite Forall_forall in Ht.
  rewrite !address_key_word_entry in Hs by (apply Ht, nth_In; lia).
  injection Heq as Hk Ha. lia.
Qed.

Lemma CompareTokens_sign t1 t2 :
  (MTL_CompareTokens t1 t2 <? 0) = (address_key_word t1 <? address_key_word t2)
  /\ (MTL_CompareTokens t1 t2 >? 0) = (address_key_word t2 <? address_key_word t1).
Proof.
  unfold MTL_CompareTokens. cbv zeta. rewrite !Z.gtb_ltb.
  destruct (Z.ltb_spec (address_key_word t2) (address_key_word t1));
    destruct (Z.ltb_spec (address_key_word t1) (address_key_word t2));
    try lia; split; reflexivity.
Qed.

Lemma half_between lo hi : (lo < hi)%nat -> (lo <= (lo + hi) / 2 < hi)%nat.
Proof.
  intros H. pose proof (Nat.div_mod_eq (lo + hi) 2) as Hd.
  pose proof (Nat.mod_upper_bound (lo + hi) 2 ltac:(lia)) as Hm. lia.
Qed.

Lemma bsearch_spec idToken table :
  strictly_sorted table ->
  forall fuel lo hi, (hi <= length table)%nat -> (hi - lo < fuel)%nat ->
    match bsearch fuel idToken table lo hi with
    | Some j =>
        (lo <= j < hi)%nat
        /\ address_key_word (nth j table zero_token) = address_key_word idToken
    | None =>
        forall j, (lo <= j < hi)%nat ->
          address_key_word (nth j table zero_token) <> address_key_word idToken
    end.
Proof.
  intros Hs. induction fuel as [|fuel IH]; intros lo hi Hhi Hf; [lia|].
  cbn [bsearch]. destruct (Nat.ltb_spec lo hi) as [Hlt|Hge]; [|intros j Hj; lia].
  cbv zeta. pose proof (half_between lo hi Hlt) as Hmid.
  set (mid := ((lo + hi) / 2)%nat) in *.
  destruct (CompareTokens_sign idToken (nth mid table zero_token)) as [-> ->].
  destruct (Z.ltb_spec (address_key_word idToken)
                       (address_key_word (nth mid table zero_token))) as [Hl|Hl].
  - specialize (IH lo mid ltac:(lia) ltac:(lia)).
    destruct (bsearch fuel idToken table lo mid) as [j|].
    + destruct IH as [Hj Hw]. split; [lia | exact Hw].
    + intros j Hj. destruct (Nat.lt_ge_cases j mid) as [Hjm|Hjm]; [apply IH; lia|].
      destruct (Nat.eq_dec j mid) as [->|Hne]; [lia|].
      specialize (Hs mid j ltac:(lia)). lia.
  - destruct (Z.ltb_spec (address_key_word (nth mid table zero_token))
                         (address_key_word idToken)) as [Hg|Hg].
    + specialize (IH (S mid) hi ltac:(lia) ltac:(lia)).
      destruct (bsearch fuel idToken table (S mid) hi) as [j|].
      * destruct IH as [Hj Hw]. split; [lia | exact Hw].
      * intros j Hj. destruct (Nat.lt_ge_cases mid j) as [Hjm|Hjm]; [apply IH; lia|].
        destruct (Nat.eq_dec j mid) as [->|Hne]; [lia|].
        specialize (Hs j mid ltac:(lia)). lia.
    + split; [lia | lia].
Qed.

Lemma sorted_word_unique table i j :
  strictly_sorted table -> (i < length table)%nat -> (j < length table)%nat ->
  address_key_word (nth i table zero_token) = address_key_word (nth j table zero_token) ->
  i = j.
Proof.
  intros Hs Hi Hj Hw.
  destruct (Nat.lt_trichotomy i j) as [H | [H | H]]; [|exact H|].
  - specialize (Hs i j ltac:(lia)). lia.
  - specialize (Hs j i ltac:(lia)). lia.
Qed.

(** The search of [MatrixTimeLogic_TokenIn] for the entry with address [a]
    and key [k]. *)
Definition table_search (table : list MTL_TOKEN) (a k : Z) : option nat :=
  bsearch (S (length table)) (mkMtlToken (mkTOKEN 0 a k 0) 0 0) table 0 (length table).

Lemma table_search_spec table a k j :
  strictly_sorted table -> Forall table_entry table ->
  0 <= a < 256 -> 0 <= k < 65536 ->
  table_search table a k = Some j
  <-> (j < length table)%nat
      /\ address (token (nth j table zero_token)) = a
      /\ token_key (nth j table zero_token) = k.
Proof.
  intros Hs Ht Ha Hk. unfold table_search.
  set (idToken := mkMtlToken (mkTOKEN 0 a k 0) 0 0).
  assert (Hid : address_key_word idToken = 256 * a + 65536 * k).
  { apply (address_key_word_entry idToken).
    unfold table_entry, idToken, token_flags, token_key.
    cbn [token flags address key]. lia. }
  assert (Hw : forall i, (i < length table)%nat ->
            (address_key_word (nth i table zero_token) = address_key_word idToken
             <-> address (token (nth i table zero_token)) = a
                 /\ token_key (nth i table zero_token) = k)).
  { intros i Hi. rewrite Forall_forall in Ht.
    pose proof (Ht _ (nth_In table zero_token Hi)) as He.
    rewrite (address_key_word_entry _ He), Hid.
    destruct He as (_ & He1 & He2). split; [intros H; split; lia | intros [-> ->]; lia]. }
  pose proof (bsearch_spec idToken table Hs (S (length table)) 0 (length table)
                ltac:(lia) ltac:(lia)) as Hb.
  destruct (bsearch (S (length table)) idToken table 0 (length table)) as [j'|].
  - destruct Hb as [Hj' Hw']. split.
    + intros H. injection H as <-. split; [lia | apply Hw; [lia | exact Hw']].
    + intros [Hj Hm]. f_equal.
      apply (sorted_word_unique table j' j Hs); [lia | exact Hj|].
      rewrite Hw'. symmetry. apply Hw; assumption.
  - split; [discriminate|]. intros [Hj Hm]. exfalso.
    apply (Hb j ltac:(lia)). apply Hw; assumption.
Qed.

Lemma TokenIn_search_sound (table : list MTL_TOKEN) (a k : Z) :
  strictly_sorted table -> Forall table_entry table ->
  0 <= a < 256 -> 0 <= k < 65536 ->
  (forall j,
     bsearch (S (length table)) (mkMtlToken (mkTOKEN 0 a k 0) 0 0) table 0 (length table)
     = Some j
     <-> (j < length table)%nat
         /\ address (token (nth j table zero_token)) = a
         /\ token_key (nth j table zero_token) = k)
  /\ ((forall t, In t table -> ~ (address (token t) = a /\ token_key t = k)) ->
      bsearch (S (length table)) (mkMtlToken (mkTOKEN 0 a k 0) 0 0) table 0 (length table)
      = None).
Proof.
  intros Hs Ht Ha Hk.
  pose proof (fun j => table_search_spec table a k j Hs Ht Ha Hk) as Hspec.
  unfold table_search in Hspec. split; [exact Hspec|].
  destruct (bsearch (S (length table)) (mkMtlToken (mkTOKEN 0 a k 0) 0 0) table 0
                    (length table)) as [j|] eqn:E; [|reflexivity].
  intros Hno. exfalso.
  destruct (proj1 (Hspec j) eq_refl) as (Hj & H1 & H2).
  apply (Hno (nth j table zero_token)); [apply nth_In; exact Hj | split; assumption].
Qed.

(** X18.  On a table in the order [MTL_PopulateTokenTable] leaves it in,
    the search that [MatrixTimeLogic_TokenIn] runs for a key and address
    returns entry [j] exactly when entry [j] carries that key and address,
    and finds nothing exactly when no entry does. *)
Theorem TokenIn_search_finds (table : list MTL_TOKEN) (a k : Z) :
  strictly_sorted table -> Forall table_entry table ->
  0 <= a < 256 -> 0 <= k < 65536 ->
  (forall j,
     bsearch (S (length table)) (mkMtlToken (mkTOKEN 0 a k 0) 0 0) table 0 (length table)
     = Some j
     <-> (j < length table)%nat
         /\ address (token (nth j table zero_token)) = a
         /\ token_key (nth j table zero_token) = k)
  /\ (bsearch (S (length table)) (mkMtlToken (mkTOKEN 0 a k 0) 0 0) table 0 (length table)
      = None
      <-> forall t, In t table -> ~ (address (token t) = a /\ token_key t = k)).
Proof.
  intros Hs Ht Ha Hk.
  pose proof (fun j => table_search_spec table a k j Hs Ht Ha Hk) as Hspec.
  unfold table_search in Hspec. split; [exact Hspec|].
  destruct (bsearch (S (length table)) (mkMtlToken (mkTOKEN 0 a k 0) 0 0) table 0
                    (length table)) as [j|] eqn:E.
  - split; [discriminate|]. intros Hno. exfalso.
    destruct (proj1 (Hspec j) eq_refl) as (Hj & H1 & H2).
    apply (Hno (nth j table zero_token)); [apply nth_In; exact Hj | split; assumption].
  - split; [|reflexivity]. intros _ t Hin [H1 H2].
    destruct (In_nth table t zero_token Hin) as (j & Hj & Hn).
    assert (Hsome : None = Some j) by (apply Hspec; rewrite Hn; auto).
    discriminate Hsome.
Qed.

Lemma TokenIn_search_finds_witness :
  let table := [mkMtlToken (mkTOKEN 0 0 1000 0) 0 0; mkMtlToken (mkTOKEN 4 3 1000 0) 0 0] in
  bsearch 3 (mkMtlToken (mkTOKEN 0 3 1000 0) 0 0) table 0 2 = Some 1%nat.
Proof.
  cbv zeta.
  assert (Hs : strictly_sorted
                 [mkMtlToken (mkTOKEN 0 0 1000 0) 0 0; mkMtlToken (mkTOKEN 4 3 1000 0) 0 0]).
  { intros i j Hij. cbn [length] in Hij.
    assert (Hi : i = 0%nat) by lia. assert (Hj : j = 1%nat) by lia.
    rewrite Hi, Hj. vm_compute. reflexivity. }
  assert (Ht : Forall table_entry
                 [mkMtlToken (mkTOKEN 0 0 1000 0) 0 0; mkMtlToken (mkTOKEN 4 3 1000 0) 0 0]).
  { repeat constructor; vm_compute; congruence. }
  assert (Ha : 0 <= 3 < 256) by lia.
  assert (Hk : 0 <= 1000 < 65536) by lia.
  apply (proj1 (TokenIn_search_finds _ 3 1000 Hs Ht Ha Hk) 1%nat).
  repeat split. cbn [length]. lia.
Defined.

Lemma array_set_twice {A : Type} (x y : A) : forall a i,
  array_set (array_set a i x) i y = array_set a i y.
Proof.
  induction a as [|z a IH]; intros i; [reflexivity|].
  destruct i; cbn [array_set]; [reflexivity | rewrite IH; reflexivity].
Qed.

Lemma array_set_map {A B : Type} (f : A -> B) (d x : A) : forall a i,
  f x = f (nth i a d) -> map f (array_set a i x) = map f a.
Proof.
  induction a as [|z a IH]; intros i Hx; [reflexivity|].
  destruct i; cbn [array_set map nth] in *; [rewrite Hx | rewrite IH by exact Hx];
    reflexivity.
Qed.

(** The identity of an entry: everything but its value and flags. *)
Definition entry_identity (t : MTL_TOKEN) : Z * Z * Z * Z :=
  (address (token t), token_key t, timestamp t, mappedTokenKey t).

Lemma TokenIn_pass_table tok a lib :
  MatrixTimeLogic_TokenTable (TokenIn_pass tok a lib) = MatrixTimeLogic_TokenTable lib
  \/ exists j,
       bsearch (S (length (MatrixTimeLogic_TokenTable lib)))
               (mkMtlToken (mkTOKEN 0 a (key tok) 0) 0 0)
               (MatrixTimeLogic_TokenTable lib) 0 (length (MatrixTimeLogic_TokenTable lib))
       = Some j
       /\ ((0 =? Z.land (token_flags (nth j (MatrixTimeLogic_TokenTable lib) zero_token))
                        MtlFlagsIsEquationOutput)
           || Key_IsInputStatus (key tok)) = true
       /\ MatrixTimeLogic_TokenTable (TokenIn_pass tok a lib)
          = array_set (MatrixTimeLogic_TokenTable lib) j
              (set_flags
                 (Z.lor (token_flags (nth j (MatrixTimeLogic_TokenTable lib) zero_token))
                        MtlFlagsTokenReceived)
                 (set_value (value tok)
                    (nth j (MatrixTimeLogic_TokenTable lib) zero_token))).
Proof.
  unfold TokenIn_pass. cbv zeta.
  set (T := MatrixTimeLogic_TokenTable lib).
  destruct (bsearch (S (length T)) (mkMtlToken (mkTOKEN 0 a (key tok) 0) 0 0) T 0
                    (length T)) as [j|] eqn:E; [|left; reflexivity].
  destruct ((0 =? Z.land (token_flags (nth j T zero_token)) MtlFlagsIsEquationOutput)
            || Key_IsInputStatus (key tok)) eqn:Eq.
  - right. exists j. split; [reflexivity|]. split; [exact Eq|].
    assert (Htab : forall l, MatrixTimeLogic_TokenTable
                     (set_TokenTable
                        (write_table (write_table T (j, WriteValue (value tok)))
                                     (j, SetTokenReceived)) l)
                   = write_table (write_table T (j, WriteValue (value tok)))
                                 (j, SetTokenReceived)) by reflexivity.
    destruct (negb (mappedTokenKey (nth j T zero_token) =? KeyNull)); rewrite Htab;
      unfold write_table, update_table; cbn [fst snd table_write];
      rewrite array_set_twice;
      (destruct (Nat.lt_ge_cases j (length T)) as [Hj|Hj];
       [rewrite nth_array_set_same by exact Hj; reflexivity|]);
      assert (Hout : forall (x : MTL_TOKEN) l i, (length l <= i)%nat -> array_set l i x = l)
        by (intros x; induction l as [|z l IHl]; intros i Hi;
            [reflexivity | destruct i; cbn [length] in Hi; [lia|];
             cbn [array_set]; rewrite IHl by lia; reflexivity]);
      rewrite !Hout by exact Hj; reflexivity.
  - left. destruct (negb (mappedTokenKey (nth j T zero_token) =? KeyNull)); reflexivity.
Qed.

Lemma nth_entry_table table i :
  Forall table_entry table -> table_entry (nth i table zero_token).
Proof.
  intros H. destruct (Nat.ltb_spec i (length table)).
  - rewrite Forall_forall in H. apply H, nth_In. assumption.
  - rewrite nth_overflow by assumption.
    unfold table_entry, zero_token, token_flags, token_key.
    cbn [token flags address key]. lia.
Qed.

Lemma received_entry v t :
  table_entry t ->
  table_entry (set_flags (Z.lor (token_flags t) MtlFlagsTokenReceived) (set_value v t)).
Proof.
  intros (Hf & Ha & Hk).
  pose proof (flags_lor_range (token_flags t) MtlFlagsTokenReceived Hf
                ltac:(unfold MtlFlagsTokenReceived; lia)) as H1.
  unfold table_entry, set_flags, set_value, token_flags, token_key in *.
  cbn [token flags address key]. repeat split; lia.
Qed.

Lemma TokenIn_pass_keeps tok a lib :
  let T := MatrixTimeLogic_TokenTable lib in
  let T' := MatrixTimeLogic_TokenTable (TokenIn_pass tok a lib) in
  length T' = length T
  /\ map entry_identity T' = map entry_identity T
  /\ (Forall table_entry T -> Forall table_entry T').
Proof.
  cbv zeta. destruct (TokenIn_pass_table tok a lib) as [-> | (j & _ & _ & ->)];
    [repeat split; auto|].
  split; [apply length_array_set|].
  split; [apply (array_set_map entry_identity zero_token); reflexivity|].
  intros Ht. apply array_set_Forall; [exact Ht|].
  apply received_entry. apply nth_entry_table. exact Ht.
Qed.

Lemma identity_nth T T' i :
  map entry_identity T' = map entry_identity T ->
  entry_identity (nth i T' zero_token) = entry_identity (nth i T zero_token).
Proof.
  intros H. rewrite <- !(map_nth entry_identity). rewrite H. reflexivity.
Qed.

Lemma identity_sorted T T' :
  length T' = length T -> map entry_identity T' = map entry_identity T ->
  Forall table_entry T -> Forall table_entry T' ->
  strictly_sorted T -> strictly_sorted T'.
Proof.
  intros Hl Hm Ht Ht' Hs i j Hij. rewrite Hl in Hij. specialize (Hs i j Hij).
  rewrite !address_key_word_entry in Hs by (apply nth_entry_table; exact Ht).
  rewrite !address_key_word_entry by (apply nth_entry_table; exact Ht').
  pose proof (identity_nth T T' i Hm) as Hi. pose proof (identity_nth T T' j Hm) as Hj.
  unfold entry_identity in Hi, Hj. injection Hi as Hi1 Hi2 _ _. injection Hj as Hj1 Hj2 _ _.
  rewrite Hi1, Hi2, Hj1, Hj2. exact Hs.
Qed.

(** X19.  [MatrixTimeLogic_TokenIn] changes values and flags only: the
    table keeps its length, and every entry keeps its address, key,
    timestamp and mapped key.  A table whose fields fit and which is in
    search order stays so, so later searches stay valid. *)
Theorem TokenIn_keeps_table_order (tok : TOKEN) (lib : MATRIX_LIB) :
  let T := MatrixTimeLogic_TokenTable lib in
  let T' := MatrixTimeLogic_TokenTable (MatrixTimeLogic_TokenIn tok lib) in
  length T' = length T
  /\ map entry_identity T' = map entry_identity T
  /\ (Forall table_entry T -> Forall table_entry T')
  /\ (Forall table_entry T -> strictly_sorted T -> strictly_sorted T').
Proof.
  cbv zeta. unfold MatrixTimeLogic_TokenIn.
  destruct (TokenIn_pass_keeps tok 0 lib) as (L1 & M1 & E1).
  destruct (TokenIn_pass_keeps tok (address tok) (TokenIn_pass tok 0 lib))
    as (L2 & M2 & E2).
  cbv zeta in L1, M1, E1, L2, M2, E2.
  assert (HL : length (MatrixTimeLogic_TokenTable
                         (TokenIn_pass tok (address tok) (TokenIn_pass tok 0 lib)))
               = length (MatrixTimeLogic_TokenTable lib)) by congruence.
  assert (HM : map entry_identity
                 (MatrixTimeLogic_TokenTable
                    (TokenIn_pass tok (address tok) (TokenIn_pass tok 0 lib)))
               = map entry_identity (MatrixTimeLogic_TokenTable lib)) by congruence.
  split; [exact HL|]. split; [exact HM|]. split; [auto|].
  intros Ht Hs. apply (identity_sorted (MatrixTimeLogic_TokenTable lib)); auto.
Qed.

Lemma TokenIn_pass_miss tok a lib :
  bsearch (S (length (MatrixTimeLogic_TokenTable lib)))
          (mkMtlToken (mkTOKEN 0 a (key tok) 0) 0 0)
          (MatrixTimeLogic_TokenTable lib) 0 (length (MatrixTimeLogic_TokenTable lib))
  = None ->
  TokenIn_pass tok a lib = lib.
Proof. intros H. unfold TokenIn_pass. cbv zeta. rewrite H. reflexivity. Qed.

(** X20.  The update rule of [MatrixTimeLogic_TokenIn] on a table in search
    order.  A token whose key is in no entry with address 0 or with the
    token's address changes nothing.  A token with a non-zero address that
    matches entry [j] alone, where the entry has no mapped key, stores its
    value in the entry and sets the entry's TokenReceived flag when the
    entry is not an equation output or the key is an input status, and
    changes nothing otherwise; the application callback is not called. *)
Theorem TokenIn_update_rule (tok : TOKEN) (lib : MATRIX_LIB) :
  let T := MatrixTimeLogic_TokenTable lib in
  strictly_sorted T -> Forall table_entry T ->
  0 <= key tok < 65536 -> 0 <= address tok < 256 ->
  ((forall t, In t T ->
      token_key t = key tok -> address (token t) <> 0 /\ address (token t) <> address tok) ->
   MatrixTimeLogic_TokenIn tok lib = lib)
  /\ forall j,
       (j < length T)%nat ->
       address tok <> 0 ->
       address (token (nth j T zero_token)) = address tok ->
       token_key (nth j T zero_token) = key tok ->
       (forall t, In t T -> ~ (address (token t) = 0 /\ token_key t = key tok)) ->
       mappedTokenKey (nth j T zero_token) = KeyNull ->
       MatrixTimeLogic_TokenIn tok lib
       = if (0 =? Z.land (token_flags (nth j T zero_token)) MtlFlagsIsEquationOutput)
            || Key_IsInputStatus (key tok)
         then set_TokenTable
                (array_set T j
                   (set_flags (Z.lor (token_flags (nth j T zero_token))
                                     MtlFlagsTokenReceived)
                      (set_value (value tok) (nth j T zero_token)))) lib
         else lib.
Proof.
  intros T Hs Ht Hk Ha.
  assert (H0 : 0 <= 0 < 256) by lia.
  destruct (TokenIn_search_sound T 0 (key tok) Hs Ht H0 Hk) as [Hf0 Hn0].
  destruct (TokenIn_search_sound T (address tok) (key tok) Hs Ht Ha Hk) as [Hfa Hna].
  split.
  - intros Hno. unfold MatrixTimeLogic_TokenIn.
    rewrite (TokenIn_pass_miss tok 0 lib).
    + apply TokenIn_pass_miss. apply Hna. intros t Hin [H1 H2].
      destruct (Hno t Hin H2) as [_ Hne]. contradiction.
    + apply Hn0. intros t Hin [H1 H2]. destruct (Hno t Hin H2) as [Hne _]. contradiction.
  - intros j Hj Hnz Haj Hkj Hno0 Hmap. unfold MatrixTimeLogic_TokenIn.
    rewrite (TokenIn_pass_miss tok 0 lib) by (apply Hn0; exact Hno0).
    unfold TokenIn_pass. cbv zeta. fold T.
    rewrite (proj2 (Hfa j) (conj Hj (conj Haj Hkj))).
    rewrite Hmap. change (negb (KeyNull =? KeyNull)) with false. cbv iota.
    destruct ((0 =? Z.land (token_flags (nth j T zero_token)) MtlFlagsIsEquationOutput)
              || Key_IsInputStatus (key tok)); [|reflexivity].
    f_equal. unfold write_table, update_table. cbn [fst snd table_write].
    rewrite array_set_twice, nth_array_set_same by exact Hj. reflexivity.
Qed.

Lemma TokenIn_update_rule_witness :
  let table := [mkMtlToken (mkTOKEN 0 3 1000 0) 0 0; mkMtlToken (mkTOKEN 4 3 2000 0) 0 0] in
  let lib := set_TokenTable table (node_running_1030 5) in
  MatrixTimeLogic_TokenIn (mkTOKEN 0 3 500 77) lib = lib.
Proof.
  cbv zeta.
  assert (Hs : strictly_sorted
                 [mkMtlToken (mkTOKEN 0 3 1000 0) 0 0; mkMtlToken (mkTOKEN 4 3 2000 0) 0 0]).
  { intros i j Hij. cbn [length] in Hij.
    assert (Hi : i = 0%nat) by lia. assert (Hj : j = 1%nat) by lia.
    rewrite Hi, Hj. vm_compute. reflexivity. }
  assert (Ht : Forall table_entry
                 [mkMtlToken (mkTOKEN 0 3 1000 0) 0 0; mkMtlToken (mkTOKEN 4 3 2000 0) 0 0]).
  { repeat constructor; vm_compute; congruence. }
  assert (Hk : 0 <= 500 < 65536) by lia.
  assert (Ha : 0 <= 3 < 256) by lia.
  apply (proj1 (TokenIn_update_rule (mkTOKEN 0 3 500 77)
                  (set_TokenTable
                     [mkMtlToken (mkTOKEN 0 3 1000 0) 0 0;
                      mkMtlToken (mkTOKEN 4 3 2000 0) 0 0]
                     (node_running_1030 5)) Hs Ht Hk Ha)).
  intros t [<- | [<- | []]] Hkey; vm_compute in Hkey; discriminate Hkey.
Defined.

(** ** The sync a sequencer sends for its root pattern *)

Lemma pattern_byte_range c p :
  (forall d, patternData c = Some d -> Forall (fun b => 0 <= b < 256) d) ->
  0 <= pattern_byte c p < 256.
Proof.
  intros Hd. unfold pattern_byte. destruct (patternData c) as [d|]; [|lia].
  specialize (Hd d eq_refl). rewrite Forall_forall in Hd.
  destruct (Nat.lt_ge_cases (Z.to_nat p) (length d)) as [Hlt|Hge].
  - apply Hd, nth_In, Hlt.
  - rewrite nth_overflow by exact Hge. lia.
Qed.

Lemma GetRootPatternEnum_range c ts :
  (forall d, patternData c = Some d -> Forall (fun b => 0 <= b < 256) d) ->
  0 <= GetRootPatternEnum c ts < 8192.
Proof.
  intros Hd. unfold GetRootPatternEnum, Pattern_Stop.
  destruct (0 >? patternStackIndex ts); [lia|].
  destruct (patternPosition (nth 0 (patternStack ts) null_pattern)) as [p|]; [|lia].
  pose proof (pattern_byte_range c (p + 1) Hd) as H1.
  pose proof (pattern_byte_range c (p + 2) Hd) as H2.
  assert (Hb : u16 (Z.land (pattern_byte c (p + 1)) (Z.lnot PatternEnumPrefixMask))
               = pattern_byte c (p + 1) mod 32).
  { apply Z.eqb_eq.
    apply (byte_forall
             (fun b => u16 (Z.land b (Z.lnot PatternEnumPrefixMask)) =? b mod 32));
      [vm_compute; reflexivity | exact H1]. }
  rewrite Hb, lor_shiftl_add by lia.
  unfold u16. change (2 ^ 8) with 256. Z.div_mod_to_equations; lia.
Qed.

(** X21.  With a pattern file made of bytes, [GetRootPatternEnum] is below
    8192, so bit 14 is clear.  A sync token whose value is that enumeration,
    sent with [Matrix_SendSync], taken in by a receiver and processed as
    the frame in the stream, is delivered as a [KeyTokenSequencerSync] token
    carrying exactly that enumeration, which the mask in the receiving
    sequencer's sync case leaves unchanged. *)
Theorem root_pattern_sync_arrives (c : MATRIX_TOKEN_SEQUENCER_CONTROLLER)
    (ts : MATRIX_TOKEN_SEQUENCER) (tok : TOKEN) (m : MATRIX_STATE) (rcvOwn t e : Z)
    (r : MATRIX_RECEIVER) (downstream : DISPATCH -> Z -> Z) (fuel : nat) :
  let own := Matrix_GetCanAddress (MatrixCanAddress m) in
  (forall d, patternData c = Some d -> Forall (fun b => 0 <= b < 256) d) ->
  value tok = GetRootPatternEnum c ts ->
  0 <= own < 128 ->
  0 <= frameIndex (MatrixTransmitter m) < 32 ->
  length (rxBuffer r) = 20%nat ->
  0 <= rxBufferWriteIndex r ->
  let f := last (enqueued (MatrixTransmitter (snd (Matrix_SendSync tok m))))
                zero_tx_frame in
  let g := nth (Z.to_nat (rx_write_slot r))
             (rxBuffer (Matrix_ReceiveCanFrame rcvOwn (driver_id f) (tx_data f)
                          (driver_size f) t r))
             zero_rx_frame in
  let sync := ReceiveCanToken
                (mkTOKEN 0 own KeyTokenSequencerSync (GetRootPatternEnum c ts)) in
  0 <= GetRootPatternEnum c ts < 8192
  /\ ProcessMessagesInStream downstream (S fuel) e [g]
     = Some (downstream sync e, [mkDelivery sync 1 3 (data8 g)])
  /\ Z.land (GetRootPatternEnum c ts) (Z.lnot (Z.shiftl PatternEnumPrefixMask 8))
     = GetRootPatternEnum c ts.
Proof.
  intros own Hd Hv Hown Hfi Hbuf Hwi f g sync.
  pose proof (GetRootPatternEnum_range c ts Hd) as Hr.
  split; [exact Hr|].
  assert (Hf : f = sync_frame own (MatrixEventIndex m) (GetRootPatternEnum c ts)
                     (frameIndex (MatrixTransmitter m))).
  { unfold f. rewrite (proj2 (SendSync_spec tok m)), last_last, Hv. reflexivity. }
  split.
  - destruct (sync_process (GetRootPatternEnum c ts) own (MatrixEventIndex m)
                (frameIndex (MatrixTransmitter m)) rcvOwn t e r Hown Hfi Hbuf Hwi)
      as (Hfl & Hds & Hp).
    rewrite <- Hf in Hfl, Hds, Hp. fold g in Hfl, Hds, Hp. cbv zeta in Hp.
    assert (Hbit : Z.testbit (GetRootPatternEnum c ts) 14 = false).
    { apply Z.testbit_false; [lia|]. rewrite Z.div_small; [reflexivity|].
      change (2 ^ 14) with 16384. lia. }
    rewrite Hbit, Z.eqb_refl, Z.mod_small in Hp by lia.
    assert (Hrange : 0 <= rx_dataSize g < 65536) by (rewrite Hds; lia).
    rewrite (stream_single downstream fuel e g _ _ Hfl Hrange Hp). reflexivity.
  - change (Z.lnot (Z.shiftl PatternEnumPrefixMask 8)) with (Z.lnot 0xE000).
    rewrite land_16bit by lia.
    change (Z.land 0xFFFF (Z.lnot 0xE000)) with (Z.ones 13).
    rewrite Z.land_ones by lia. apply Z.mod_small. change (2 ^ 13) with 8192. lia.
Qed.

Lemma root_pattern_sync_arrives_witness :
  let c := mkController [] (Some [0x3B; 0x43; 0x65; 0x48; 0x20; 0x24; 0x06]) 7 in
  let ts := mkSequencer 0 0 0 [mkPattern (Some 4) (Some 7) (Some 7) None 0 0] 0 0 0 1 in
  GetRootPatternEnum c ts = 1030 /\ 0 <= GetRootPatternEnum c ts < 8192.
Proof.
  cbv zeta. split; [reflexivity|].
  assert (Hd : forall d,
             patternData (mkController [] (Some [0x3B; 0x43; 0x65; 0x48; 0x20; 0x24; 0x06]) 7)
             = Some d -> Forall (fun b => 0 <= b < 256) d).
  { intros d H. injection H as <-. repeat constructor; lia. }
  assert (Hv : value (mkTOKEN 0 133 KeyTokenSequencerSync 1030)
               = GetRootPatternEnum
                   (mkController [] (Some [0x3B; 0x43; 0x65; 0x48; 0x20; 0x24; 0x06]) 7)
                   (mkSequencer 0 0 0 [mkPattern (Some 4) (Some 7) (Some 7) None 0 0]
                                0 0 0 1)) by reflexivity.
  assert (Hown : 0 <= 5 < 128) by lia.
  assert (Hfi : 0 <= 30 < 32) by lia.
  assert (Hbuf : length (repeat zero_rx_frame 20) = 20%nat) by reflexivity.
  assert (Hwi : 0 <= 0) by lia.
  exact (proj1 (root_pattern_sync_arrives _ _ (mkTOKEN 0 133 KeyTokenSequencerSync 1030)
                  (mkState 1000 2000 7 (mkCanAddress 0 0 0 0 5 0)
                     (mkTransmitter (mkFrameId 0 0 0 0 0 0) [] 0 0 30 [] 39 0 []))
                  9 1000 3 (mkReceiver (repeat zero_rx_frame 20) 0 0 0 0)
                  (fun _ e => e) 0 Hd Hv Hown Hfi Hbuf Hwi)).
Defined.

(** ** A multi-frame message from the transmitter to the receiver *)

(** The identifier fields that all frames of one message share. *)
Definition header (id : ECCONET_CAN_FRAME_ID) : Z * Z * Z * Z :=
  (id_destinationAddress id, id_isEvent id, id_reserved id, id_sourceAddress id).

(** The frames of one message: consecutive frame indices modulo 32 from
    [i] on, the header of [id0], and a data size between 1 and 8 that is the
    number of data bytes. *)
Fixpoint framed (id0 : ECCONET_CAN_FRAME_ID) (i : Z) (frames : list MATRIX_TX_CAN_FRAME)
  : Prop :=
  match frames with
  | [] => True
  | f :: rest =>
      id_frameIndex (tx_id f) = Z.land i MATRIX_CAN_ID_FRAME_INDEX_MASK
      /\ header (tx_id f) = header id0
      /\ tx_dataSize f = Z.of_nat (length (tx_data f))
      /\ 1 <= tx_dataSize f <= 8
      /\ framed id0 (i + 1) rest
  end.

Definition wire_inv (tx0 tx : MATRIX_TRANSMITTER) : Prop :=
  header (idAddress tx) = header (idAddress tx0)
  /\ id_frameIndex (idAddress tx) = 0
  /\ exists frames,
       enqueued tx = enqueued tx0 ++ frames
       /\ framed (idAddress tx0) (frameIndex tx0) frames
       /\ frameIndex tx
          = Z.land (frameIndex tx0 + Z.of_nat (length frames))
                   MATRIX_CAN_ID_FRAME_INDEX_MASK.

Lemma framed_snoc id0 f : forall frames i,
  framed id0 i frames ->
  id_frameIndex (tx_id f)
  = Z.land (i + Z.of_nat (length frames)) MATRIX_CAN_ID_FRAME_INDEX_MASK ->
  header (tx_id f) = header id0 ->
  tx_dataSize f = Z.of_nat (length (tx_data f)) ->
  1 <= tx_dataSize f <= 8 ->
  framed id0 i (frames ++ [f]).
Proof.
  induction frames as [|g frames IH]; intros i Hfr Hi Hh Hs Hr; cbn [app framed].
  - cbn [length] in Hi. rewrite Z.add_0_r in Hi. repeat split; auto; lia.
  - destruct Hfr as (H1 & H2 & H3 & H4 & H5). repeat split; auto; try lia.
    apply IH; auto. rewrite Hi. f_equal. cbn [length]. lia.
Qed.

Lemma land_31_succ a :
  Z.land (Z.land a MATRIX_CAN_ID_FRAME_INDEX_MASK + 1) MATRIX_CAN_ID_FRAME_INDEX_MASK
  = Z.land (a + 1) MATRIX_CAN_ID_FRAME_INDEX_MASK.
Proof.
  unfold MATRIX_CAN_ID_FRAME_INDEX_MASK. change 0x1F with (Z.ones 5).
  rewrite !Z.land_ones by lia. change (2 ^ 5) with 32.
  rewrite Z.add_mod_idemp_l by lia. reflexivity.
Qed.

Lemma wire_inv_SendFrame tx0 tx :
  wire_inv tx0 tx -> wire_inv tx0 (snd (SendFrame tx))
                     /\ idAddress (snd (SendFrame tx)) = idAddress tx.
Proof.
  intros (Hh & Hi & frames & He & Hfr & Hfi).
  destruct (fifo tx) as [|b fifo'] eqn:Ef.
  - assert (Hs : SendFrame tx = (-1, tx)).
    { unfold SendFrame, fifoIndex. rewrite Ef. reflexivity. }
    rewrite Hs. cbn [snd]. split; [|reflexivity].
    split; [exact Hh|]. split; [exact Hi|]. exists frames. auto.
  - assert (Hne : fifo tx <> []) by (rewrite Ef; discriminate).
    destruct (SendFrame_nonempty tx Hne) as (tx' & Hs & Hid & _ & _ & _ & Hfi' & He').
    rewrite Hs. cbn [snd]. split; [|exact Hid].
    split; [rewrite Hid; exact Hh|]. split; [rewrite Hid; exact Hi|].
    exists (frames ++ [frame_of tx (Nat.min (length (fifo tx)) 8)]).
    split; [rewrite He', He, app_assoc; reflexivity|].
    split.
    + apply framed_snoc; [exact Hfr | | | |];
        unfold frame_of; cbn [tx_id tx_dataSize tx_data id_frameIndex].
      * rewrite Hi, Z.lor_0_l. exact Hfi.
      * unfold header in *.
        cbn [id_destinationAddress id_isEvent id_reserved id_sourceAddress].
        exact Hh.
      * rewrite length_firstn. lia.
      * rewrite Ef. cbn [length]. lia.
    + rewrite Hfi', Hfi, land_31_succ, length_app. cbn [length]. f_equal. lia.
Qed.

Lemma wire_inv_keep tx0 tx tx' :
  header (idAddress tx') = header (idAddress tx) ->
  id_frameIndex (idAddress tx') = id_frameIndex (idAddress tx) ->
  enqueued tx' = enqueued tx -> frameIndex tx' = frameIndex tx ->
  wire_inv tx0 tx -> wire_inv tx0 tx'.
Proof.
  intros H1 H2 H3 H4 (Hh & Hi & frames & He & Hfr & Hfi).
  split; [congruence|]. split; [congruence|].
  exists frames. repeat split; congruence.
Qed.

Lemma wire_inv_AddByte tx0 tx b :
  wire_inv tx0 tx -> wire_inv tx0 (MatrixTransmitter_AddByte b tx).
Proof.
  intros H. unfold MatrixTransmitter_AddByte. cbv zeta.
  match goal with
  | |- context [if _ then snd (SendFrame ?t) else _] =>
      assert (Ht : wire_inv tx0 t) by (apply (wire_inv_keep tx0 tx); auto)
  end.
  destruct (CAN_TX_STREAM_FIFO_SIZE <=? _); [|exact Ht].
  apply wire_inv_SendFrame, Ht.
Qed.

Lemma wire_inv_add_bytes tx0 bytes : forall tx,
  wire_inv tx0 tx -> wire_inv tx0 (add_bytes bytes tx).
Proof.
  induction bytes as [|b bytes IH]; intros tx H; [exact H|].
  apply IH, wire_inv_AddByte, H.
Qed.

Lemma wire_inv_loop tx0 isSingle fuel : forall tx,
  wire_inv tx0 tx -> wire_inv tx0 (snd (FinishMessage_loop fuel isSingle tx)).
Proof.
  induction fuel as [|fuel IH]; intros tx H; [exact H|].
  cbn [FinishMessage_loop].
  destruct (0 =? fifoIndex tx); [exact H|]. cbv zeta.
  match goal with
  | |- context [SendFrame ?t] =>
      assert (Ht : wire_inv tx0 t)
        by (destruct (fifoIndex tx =? _); [apply (wire_inv_keep tx0 tx); auto | exact H]);
      pose proof (proj1 (wire_inv_SendFrame tx0 t Ht)) as Hs;
      destruct (SendFrame t) as [status tx1]
  end.
  cbn [snd] in Hs. destruct (negb (0 =? status)); [exact Hs | apply IH, Hs].
Qed.

Lemma wire_inv_transmit own ei dest key body tx :
  0 <= frameIndex tx < 32 ->
  wire_inv (fresh_tx (start_id own dest key) tx) (transmit own ei dest key body tx).
Proof.
  intros Hfi. unfold transmit. rewrite StartMessage_spec. cbn [fst].
  unfold MatrixTransmitter_FinishMessage. cbv zeta.
  apply wire_inv_loop.
  assert (H : wire_inv (fresh_tx (start_id own dest key) tx)
                (add_bytes body
                   (MatrixTransmitter_AddByte (start_byte key ei)
                      (fresh_tx (start_id own dest key) tx)))).
  { apply wire_inv_add_bytes, wire_inv_AddByte.
    split; [reflexivity|]. split; [reflexivity|].
    exists []. rewrite app_nil_r. cbn [length framed Z.of_nat].
    rewrite Z.add_0_r. repeat split.
    cbn [fresh_tx frameIndex]. unfold MATRIX_CAN_ID_FRAME_INDEX_MASK.
    change 0x1F with (Z.ones 5). rewrite Z.land_ones by lia.
    symmetry. apply Z.mod_small. change (2 ^ 5) with 32. lia. }
  destruct (negb _); [|exact H].
  apply wire_inv_AddByte, wire_inv_AddByte, H.
Qed.

Lemma transmit_multi own ei dest key body tx :
  0 <= frameIndex tx < 32 ->
  8 < Z.of_nat (length (message_bytes key ei body)) < 65544 ->
  exists bodyFrames lastFrame,
    enqueued (transmit own ei dest key body tx)
    = enqueued tx ++ bodyFrames ++ [lastFrame]
    /\ bodyFrames <> []
    /\ Forall (fun f => id_frameType (tx_id f) = MATRIX_MESSAGE_FRAME_TYPE_BODY
                        /\ length (tx_data f) = 8%nat) bodyFrames
    /\ id_frameType (tx_id lastFrame) = MATRIX_MESSAGE_FRAME_TYPE_LAST
    /\ framed (start_id own dest key) (frameIndex tx) (bodyFrames ++ [lastFrame])
    /\ concat (map tx_data (bodyFrames ++ [lastFrame]))
       = message_bytes key ei body
         ++ [u8 (Z.shiftr (crc16_of (message_bytes key ei body)) 8);
             u8 (crc16_of (message_bytes key ei body))].
Proof.
  intros Hfi Hlen.
  pose proof (transmit_inv own ei dest key body tx) as Hinv.
  destruct (finish_multi _ _ _ Hinv Hlen eq_refl)
    as (tx' & bodyFrames & lastFrame & Hfin & He & Hne & Hall & Hty & _ & Hcat).
  destruct (wire_inv_transmit own ei dest key body tx Hfi)
    as (_ & _ & frames & He' & Hfr & _).
  unfold transmit in *. rewrite Hfin in He'. cbn [snd] in He'.
  rewrite Hfin. cbn [snd].
  exists bodyFrames, lastFrame.
  cbn [fresh_tx enqueued idAddress frameIndex] in He, He', Hfr.
  split; [exact He|]. split; [exact Hne|]. split.
  { eapply Forall_impl; [|exact Hall]. intros f (H1 & _ & _ & H4). split; assumption. }
  split; [exact Hty|]. split; [|exact Hcat].
  rewrite He in He'. apply app_inv_head in He'. rewrite He'. exact Hfr.
Qed.

(** The receiver taking in the frames of a list one after the other. *)
Definition receive_frames (own t : Z) (frames : list MATRIX_TX_CAN_FRAME)
    (r : MATRIX_RECEIVER) : MATRIX_RECEIVER :=
  fold_left
    (fun r f => Matrix_ReceiveCanFrame own (driver_id f) (tx_data f) (driver_size f) t r)
    frames r.

(** A frame that [Matrix_ReceiveCanFrame] on node [own] stores. *)
Definition storable (own filter : Z) (f : MATRIX_TX_CAN_FRAME) : Prop :=
  frame_fields_ok f
  /\ MATRIX_MESSAGE_FRAME_TYPE_SINGLE <= id_frameType (tx_id f)
     <= MATRIX_MESSAGE_FRAME_TYPE_LAST
  /\ tx_dataSize f <= 8
  /\ accepts own filter f = true.

Lemma receive_frames_spec own t : forall frames r,
  length (rxBuffer r) = 20%nat ->
  0 <= rxBufferWriteIndex r ->
  (Z.to_nat (rx_write_slot r) + length frames <= 20)%nat ->
  Forall (storable own (senderAddressFilter r)) frames ->
  let r' := receive_frames own t frames r in
  (forall k, (k < length frames)%nat ->
     nth (Z.to_nat (rx_write_slot r) + k) (rxBuffer r') zero_rx_frame
     = rx_frame_of (nth k frames zero_tx_frame) t
         (nth (Z.to_nat (rx_write_slot r) + k) (rxBuffer r) zero_rx_frame))
  /\ (forall j, (j < Z.to_nat (rx_write_slot r))%nat ->
        nth j (rxBuffer r') zero_rx_frame = nth j (rxBuffer r) zero_rx_frame)
  /\ length (rxBuffer r') = 20%nat.
Proof.
  induction frames as [|f frames IH]; intros r Hbuf Hwi Hfit Hall; cbv zeta.
  - cbn [receive_frames fold_left length]. repeat split; auto. intros k Hk. lia.
  - pose proof (Forall_inv Hall) as (Hok & Hty & Hsz & Hacc).
    pose proof (Forall_inv_tail Hall) as Hall'.
    unfold receive_frames. cbn [fold_left]. fold (receive_frames own t frames).
    rewrite (intake_frame own t f r Hok Hty Hsz), Hacc.
    set (w := rx_write_slot r) in *.
    assert (Hw : 0 <= w < 20).
    { unfold w, rx_write_slot, CAN_RX_STREAM_BUFFER_BACK_SIZE.
      destruct (Z.geb_spec (rxBufferWriteIndex r) 20); lia. }
    set (x := rx_frame_of f t (nth (Z.to_nat w) (rxBuffer r) zero_rx_frame)).
    set (r1 := mkReceiver (array_set (rxBuffer r) (Z.to_nat w) x)
                 (if u16 (w + 1) >=? CAN_RX_STREAM_BUFFER_BACK_SIZE
                  then 0 else u16 (w + 1))
                 (rxBufferReadIndex r) (senderAddressFilterTimeout r)
                 (senderAddressFilter r)).
    assert (Hbuf1 : length (rxBuffer r1) = 20%nat)
      by (unfold r1; cbn [rxBuffer]; rewrite length_array_set; exact Hbuf).
    destruct frames as [|f2 frames].
    + cbn [receive_frames fold_left length]. split; [|split].
      * intros k Hk. assert (k = 0%nat) by lia. subst k. rewrite Nat.add_0_r.
        unfold r1. cbn [rxBuffer nth]. apply nth_array_set_same. lia.
      * intros j Hj. unfold r1. cbn [rxBuffer]. apply nth_array_set_other; lia.
      * exact Hbuf1.
    + cbn [length] in Hfit.
      assert (Hw1 : rxBufferWriteIndex r1 = w + 1).
      { unfold r1. cbn [rxBufferWriteIndex]. unfold u16, CAN_RX_STREAM_BUFFER_BACK_SIZE.
        rewrite Z.mod_small by lia.
        destruct (Z.geb_spec (w + 1) 20); [lia | reflexivity]. }
      assert (Hs1 : rx_write_slot r1 = w + 1).
      { unfold rx_write_slot. rewrite Hw1. unfold CAN_RX_STREAM_BUFFER_BACK_SIZE.
        destruct (Z.geb_spec (w + 1) 20); [lia | reflexivity]. }
      destruct (IH r1 Hbuf1 ltac:(lia)
                  ltac:(rewrite Hs1; cbn [length]; lia) Hall') as (H1 & H2 & H3).
      rewrite Hs1 in H1, H2.
      replace (Z.to_nat (w + 1)) with (S (Z.to_nat w)) in H1, H2 by lia.
      split; [|split].
      * intros k Hk. destruct k as [|k].
        -- rewrite Nat.add_0_r, H2 by lia. cbn [nth].
           unfold r1. cbn [rxBuffer]. apply nth_array_set_same. lia.
        -- replace (Z.to_nat w + S k)%nat with (S (Z.to_nat w) + k)%nat by lia.
           rewrite H1 by (cbn [length] in Hk |- *; lia). cbn [nth].
           f_equal. unfold r1. cbn [rxBuffer]. apply nth_array_set_other; lia.
      * intros j Hj. rewrite H2 by lia. unfold r1. cbn [rxBuffer].
        apply nth_array_set_other; lia.
      * exact H3.
Qed.

(** The receiver-side frame [g] was built from the transmitter frame [f]. *)
Definition rx_of (f : MATRIX_TX_CAN_FRAME) (g : MATRIX_RX_CAN_FRAME) : Prop :=
  exists t old, g = rx_frame_of f t old.

Lemma Forall2_by_nth {A B : Type} (R : A -> B -> Prop) (da : A) (db : B) :
  forall l1 l2, length l1 = length l2 ->
    (forall k, (k < length l1)%nat -> R (nth k l1 da) (nth k l2 db)) ->
    Forall2 R l1 l2.
Proof.
  induction l1 as [|a l1 IH]; intros [|b l2] Hl H; try discriminate Hl; constructor.
  - exact (H 0%nat ltac:(cbn; lia)).
  - apply IH; [cbn in Hl; lia|]. intros k Hk. exact (H (S k) ltac:(cbn; lia)).
Qed.

Lemma nth_window {A : Type} (d : A) (l : list A) (w n k : nat) :
  (k < n)%nat -> nth k (firstn n (skipn w l)) d = nth (w + k) l d.
Proof.
  revert l k n. induction w as [|w IH]; intros l k n Hk.
  - cbn [skipn Nat.add]. revert k n Hk.
    induction l as [|a l IHl]; intros k n Hk.
    + rewrite firstn_nil. reflexivity.
    + destruct n; [lia|]. destruct k; cbn [firstn nth]; [reflexivity|].
      apply IHl. lia.
  - destruct l as [|a l]; cbn [skipn Nat.add nth].
    + rewrite firstn_nil. destruct k; reflexivity.
    + apply IH. exact Hk.
Qed.

Lemma stream_of_frames own t frames r :
  length (rxBuffer r) = 20%nat ->
  0 <= rxBufferWriteIndex r ->
  (Z.to_nat (rx_write_slot r) + length frames <= 20)%nat ->
  Forall (storable own (senderAddressFilter r)) frames ->
  Forall2 rx_of frames
    (firstn (length frames)
       (skipn (Z.to_nat (rx_write_slot r))
              (rxBuffer (receive_frames own t frames r)))).
Proof.
  intros Hbuf Hwi Hfit Hall.
  destruct (receive_frames_spec own t frames r Hbuf Hwi Hfit Hall) as (H1 & _ & H3).
  apply (Forall2_by_nth rx_of zero_tx_frame zero_rx_frame).
  - rewrite length_firstn, length_skipn, H3. lia.
  - intros k Hk. rewrite nth_window by exact Hk. rewrite H1 by exact Hk.
    eexists _, _. reflexivity.
Qed.

Lemma u16_add_l a b : u16 (u16 a + b) = u16 (a + b).
Proof. unfold u16. apply Z.add_mod_idemp_l. lia. Qed.

Lemma rx_sender f t old : senderAddress (rx_frame_of f t old) = id_sourceAddress (tx_id f).
Proof. reflexivity. Qed.

Lemma rx_index f t old : rx_frameIndex (rx_frame_of f t old) = id_frameIndex (tx_id f).
Proof. reflexivity. Qed.

Lemma rx_flags f t old :
  frameFlags (rx_frame_of f t old)
  = id_frameType (tx_id f) - MATRIX_MESSAGE_FRAME_TYPE_SINGLE + 1.
Proof. reflexivity. Qed.

Lemma rx_size f t old : rx_dataSize (rx_frame_of f t old) = tx_dataSize f.
Proof. reflexivity. Qed.

(** The search of [ProcessMessagesInStream] over the frames of a
    multi-frame message. *)
Lemma next_message_multi id0 lastFrame rest : forall bodyFrames gs i cnt bytes passed,
  Forall2 rx_of (bodyFrames ++ [lastFrame]) gs ->
  framed id0 i (bodyFrames ++ [lastFrame]) ->
  Forall (fun f => id_frameType (tx_id f) = MATRIX_MESSAGE_FRAME_TYPE_BODY
                   /\ length (tx_data f) = 8%nat) bodyFrames ->
  id_frameType (tx_id lastFrame) = MATRIX_MESSAGE_FRAME_TYPE_LAST ->
  0 <= cnt -> cnt + Z.of_nat (length bodyFrames) + 1 < 65536 ->
  next_message (id_sourceAddress id0) (Z.land i MATRIX_CAN_ID_FRAME_INDEX_MASK)
               cnt bytes passed (gs ++ rest)
  = (cnt + Z.of_nat (length bodyFrames) + 1,
     u16 (bytes + Z.of_nat (length (concat (map tx_data (bodyFrames ++ [lastFrame]))))),
     passed ++ gs, rest,
     cnt + Z.of_nat (length bodyFrames) + 1 >? 1).
Proof.
  induction bodyFrames as [|f bodyFrames IH];
    intros gs i cnt bytes passed Hgs Hfr Hbody Hlast Hcnt Hmax.
  - cbn [app] in Hgs, Hfr. inversion Hgs as [|f0 g l1 l2 Hg Hnil]; subst.
    inversion Hnil; subst. destruct Hg as (t & old & ->).
    destruct Hfr as (Hi & Hh & Hs & _ & _).
    unfold header in Hh. injection Hh as _ _ _ Hsrc.
    cbn [app next_message length Z.of_nat map concat].
    rewrite !rx_sender, !rx_index, !rx_flags, !rx_size.
    rewrite Hi, Hsrc, !Z.eqb_refl. cbn [negb orb]. rewrite Hlast.
    change (MR_FRAME_FLAG_SINGLE
            =? MATRIX_MESSAGE_FRAME_TYPE_LAST - MATRIX_MESSAGE_FRAME_TYPE_SINGLE + 1)
      with false.
    change (MR_FRAME_FLAG_LAST
            =? MATRIX_MESSAGE_FRAME_TYPE_LAST - MATRIX_MESSAGE_FRAME_TYPE_SINGLE + 1)
      with true.
    cbv iota zeta. rewrite app_nil_r, Hs, Z.add_0_r.
    unfold u16 at 1 3. rewrite Z.mod_small by lia. reflexivity.
  - cbn [app] in Hgs, Hfr. inversion Hgs as [|f0 g l1 gs' Hg Hgs']; subst.
    destruct Hg as (t & old & ->).
    destruct Hfr as (Hi & Hh & Hs & _ & Hfr').
    pose proof (Forall_inv Hbody) as [Hty H8]. pose proof (Forall_inv_tail Hbody) as Hbody'.
    pose proof Hh as Hh'. unfold header in Hh'. injection Hh' as _ _ _ Hsrc.
    cbn [app next_message].
    rewrite !rx_sender, !rx_index, !rx_flags, !rx_size.
    rewrite Hi, Hsrc, !Z.eqb_refl. cbn [negb orb]. rewrite Hty.
    change (MR_FRAME_FLAG_SINGLE
            =? MATRIX_MESSAGE_FRAME_TYPE_BODY - MATRIX_MESSAGE_FRAME_TYPE_SINGLE + 1)
      with false.
    change (MR_FRAME_FLAG_LAST
            =? MATRIX_MESSAGE_FRAME_TYPE_BODY - MATRIX_MESSAGE_FRAME_TYPE_SINGLE + 1)
      with false.
    cbv iota zeta. rewrite land_31_succ.
    cbn [length] in Hmax.
    replace (u16 (cnt + 1)) with (cnt + 1) by (unfold u16; rewrite Z.mod_small; lia).
    rewrite (IH gs' (i + 1) (cnt + 1) _ _ Hgs' Hfr' Hbody' Hlast) by lia.
    cbn [length map concat]. rewrite u16_add_l, length_app, Hs, <- app_assoc.
    cbn [app].
    replace (cnt + 1 + Z.of_nat (length bodyFrames) + 1)
      with (cnt + Z.of_nat (S (length bodyFrames)) + 1) by lia.
    replace (bytes + Z.of_nat (length (tx_data f))
             + Z.of_nat (length (concat (map tx_data (bodyFrames ++ [lastFrame])))))
      with (bytes
            + Z.of_nat (length (tx_data f)
                        + length (concat (map tx_data (bodyFrames ++ [lastFrame])))))
      by lia.
    reflexivity.
Qed.

Lemma concat_data8 id0 lastFrame : forall bodyFrames gs i,
  Forall2 rx_of (bodyFrames ++ [lastFrame]) gs ->
  framed id0 i (bodyFrames ++ [lastFrame]) ->
  Forall (fun f => id_frameType (tx_id f) = MATRIX_MESSAGE_FRAME_TYPE_BODY
                   /\ length (tx_data f) = 8%nat) bodyFrames ->
  exists stale,
    concat (map data8 gs) = concat (map tx_data (bodyFrames ++ [lastFrame])) ++ stale.
Proof.
  induction bodyFrames as [|f bodyFrames IH]; intros gs i Hgs Hfr Hbody.
  - cbn [app] in Hgs, Hfr. inversion Hgs as [|f0 g l1 l2 Hg Hnil]; subst.
    inversion Hnil; subst. destruct Hg as (t & old & ->).
    destruct Hfr as (_ & _ & Hs & Hr & _).
    cbn [app map concat]. rewrite !app_nil_r.
    eexists. apply data8_rx_frame_of; lia.
  - cbn [app] in Hgs, Hfr. inversion Hgs as [|f0 g l1 gs' Hg Hgs']; subst.
    destruct Hg as (t & old & ->).
    destruct Hfr as (_ & _ & Hs & Hr & Hfr').
    pose proof (Forall_inv Hbody) as [_ H8]. pose proof (Forall_inv_tail Hbody) as Hbody'.
    destruct (IH gs' (i + 1) Hgs' Hfr' Hbody') as [stale Hst].
    exists stale. cbn [app map concat]. rewrite Hst, <- app_assoc. f_equal.
    rewrite data8_rx_frame_of by lia.
    rewrite skipn_all2 by (rewrite data8_length; lia). apply app_nil_r.
Qed.

Lemma checksum_prefix bytes stale :
  Matrix_IsMessageChecksumValid (bytes ++ stale) (length bytes)
  = Matrix_IsMessageChecksumValid bytes (length bytes).
Proof.
  unfold Matrix_IsMessageChecksumValid.
  destruct (length bytes) as [|[|n]] eqn:E; [reflexivity | reflexivity|].
  rewrite !app_nth1 by lia. unfold Matrix_ComputeCRC16.
  destruct n; [reflexivity|].
  rewrite firstn_app. replace (S n - length bytes)%nat with 0%nat by lia.
  cbn [firstn]. rewrite app_nil_r. reflexivity.
Qed.

(** [process_message] on a multi-frame message whose reassembled bytes are
    [msg], its CRC and whatever the last frame's slot held before. *)
Lemma process_multi e g0 gs n msg stale :
  let c := crc16_of msg in
  concat (map data8 gs) = (msg ++ [u8 (Z.shiftr c 8); u8 c]) ++ stale ->
  n <> 1 -> (8 < length msg)%nat -> Z.of_nat (length msg) + 2 < 65536 ->
  process_message e g0 gs n (Z.of_nat (length msg) + 2)
  = let deliver d :=
      Some (mkDelivery d n (Z.of_nat (length msg) + 2) (concat (map data8 gs))) in
    let byte1 := nth 1 msg 0 in
    let byte2 := nth 2 msg 0 in
    let k := u16 (Z.lor (Z.shiftl (u16 (Z.land byte1 (Z.lnot KeyPrefix_Mask))) 8) byte2) in
    if KeyPrefix_PatternSync =? Z.land byte1 KeyPrefix_Mask then
      Some (e, deliver (ReceiveCanToken
                          (mkTOKEN 0 (u8 (senderAddress g0)) KeyTokenSequencerSync k)))
    else if Key_IsFtpResponse k then
      Some (e, deliver (FTPClient_ServerResponseIn (u8 (senderAddress g0)) k (skipn 3 msg)))
    else if Key_IsFtpRequest k then
      Some (e, deliver (FTPServer_ClientRequestIn (u8 (senderAddress g0)) k (skipn 3 msg)))
    else
      let e' := Matrix_NewEventIndex (nth 0 msg 0) e in
      if negb (rx_isEvent g0 =? 0)
         || negb (Matrix_IsEventIndexExpired (nth 0 msg 0) e')
      then Some (e', deliver (Codec_Decompress (u8 (senderAddress g0)) (skipn 1 msg)))
      else Some (e', None).
Proof.
  intros c Hd Hn Hl Hmax. unfold process_message. cbv zeta.
  replace (n =? 1) with false by (symmetry; apply Z.eqb_neq; exact Hn).
  assert (Hvalid : Matrix_IsMessageChecksumValid (concat (map data8 gs))
                     (Z.to_nat (Z.of_nat (length msg) + 2)) = Some true).
  { rewrite Hd.
    replace (Z.to_nat (Z.of_nat (length msg) + 2))
      with (length (msg ++ [u8 (Z.shiftr c 8); u8 c]))
      by (rewrite length_app; cbn [length]; lia).
    rewrite checksum_prefix. apply checksum_valid_suffix. }
  rewrite Hvalid.
  replace (CAN_FRAME_MAX_NUM_BYTES <? Z.of_nat (length msg) + 2) with true
    by (symmetry; apply Z.ltb_lt; unfold CAN_FRAME_MAX_NUM_BYTES; lia).
  unfold MATRIX_MESSAGE_CRC_SIZE.
  replace (u16 (Z.of_nat (length msg) + 2 - 2)) with (Z.of_nat (length msg))
    by (unfold u16; rewrite Z.mod_small; lia).
  replace (3 <=? Z.of_nat (length msg)) with true by (symmetry; apply Z.leb_le; lia).
  assert (Hd' : concat (map data8 gs)
                = msg ++ ([u8 (Z.shiftr c 8); u8 c] ++ stale))
    by (rewrite Hd, <- app_assoc; reflexivity).
  set (frameData := concat (map data8 gs)) in *.
  assert (Hnth : forall i, (i < length msg)%nat -> nth i frameData 0 = nth i msg 0)
    by (intros i Hi; rewrite Hd'; apply app_nth1; exact Hi).
  rewrite !Hnth by lia.
  assert (Hbody : firstn (Z.to_nat (Z.of_nat (length msg) - 3)) (skipn 3 frameData)
                  = skipn 3 msg).
  { rewrite Hd'.
    replace (Z.to_nat (Z.of_nat (length msg) - 3)) with (length msg - 3)%nat by lia.
    apply firstn_skipn_app. lia. }
  assert (Htail : firstn (Z.to_nat (u16 (Z.of_nat (length msg) - 1)))
                         (skipn 1 frameData) = skipn 1 msg).
  { rewrite Hd'. unfold u16. rewrite Z.mod_small by lia.
    replace (Z.to_nat (Z.of_nat (length msg) - 1)) with (length msg - 1)%nat by lia.
    apply firstn_skipn_app. lia. }
  rewrite Hbody, Htail.
  pose proof (Key_ValueSize_range
                (u16 (Z.lor (Z.shiftl (u16 (Z.land (nth 1 msg 0) (Z.lnot KeyPrefix_Mask))) 8)
                            (nth 2 msg 0)))) as Hvs.
  replace (Z.of_nat (length msg)
           =? 3 + Key_ValueSize
                    (u16 (Z.lor (Z.shiftl (u16 (Z.land (nth 1 msg 0)
                                                       (Z.lnot KeyPrefix_Mask))) 8)
                                (nth 2 msg 0))))
    with false by (symmetry; apply Z.eqb_neq; lia).
  rewrite andb_false_r, orb_false_r. reflexivity.
Qed.

Lemma stream_one_message downstream fuel e g0 gs' n N e' d :
  MR_FRAME_FLAG_NONE <> frameFlags g0 ->
  next_message (senderAddress g0) (rx_frameIndex g0) 0 0 [] (g0 :: gs')
  = (n, N, g0 :: gs', [], true) ->
  process_message e g0 (g0 :: gs') n N = Some (e', Some d) ->
  ProcessMessagesInStream downstream (S fuel) e (g0 :: gs')
  = Some (downstream (delivered d) e', [d]).
Proof.
  intros Hf Hn Hp. cbn [ProcessMessagesInStream].
  replace (MR_FRAME_FLAG_NONE =? frameFlags g0) with false
    by (symmetry; apply Z.eqb_neq; exact Hf).
  cbn [next_message] in Hn. cbn [next_message]. rewrite Hn, Hp.
  destruct fuel; reflexivity.
Qed.

Lemma framed_storable id0 rcvOwn filter : forall frames i,
  framed id0 i frames ->
  Forall (fun f => MATRIX_MESSAGE_FRAME_TYPE_SINGLE <= id_frameType (tx_id f)
                   <= MATRIX_MESSAGE_FRAME_TYPE_LAST) frames ->
  0 <= id_destinationAddress id0 < 128 -> 0 <= id_isEvent id0 < 2 ->
  id_reserved id0 = 0 -> 0 <= id_sourceAddress id0 < 128 ->
  id_destinationAddress id0 = MATRIX_CAN_BROADCAST_ADDRESS
  \/ id_destinationAddress id0 = rcvOwn ->
  filter = 0 \/ filter = id_sourceAddress id0 ->
  Forall (storable rcvOwn filter) frames.
Proof.
  induction frames as [|f frames IH]; intros i Hfr Hty Hd He Hr Hs Hdest Hfilt;
    constructor.
  - destruct Hfr as (Hi & Hh & Hsz & Hrange & _).
    pose proof (Forall_inv Hty) as Ht.
    unfold header in Hh. injection Hh as H1 H2 H3 H4.
    unfold storable, frame_fields_ok, accepts.
    rewrite Hi, H1, H2, H3, H4.
    assert (Hidx : 0 <= Z.land i MATRIX_CAN_ID_FRAME_INDEX_MASK < 32).
    { unfold MATRIX_CAN_ID_FRAME_INDEX_MASK. change 0x1F with (Z.ones 5).
      rewrite Z.land_ones by lia. apply Z.mod_pos_bound. lia. }
    unfold MATRIX_MESSAGE_FRAME_TYPE_SINGLE, MATRIX_MESSAGE_FRAME_TYPE_LAST in *.
    repeat split; try lia.
  - destruct Hfr as (_ & _ & _ & _ & Hfr').
    apply (IH (i + 1)); auto. exact (Forall_inv_tail Hty).
Qed.

Lemma framed_data_bound id0 : forall frames i,
  framed id0 i frames ->
  (length frames <= length (concat (map tx_data frames)) <= 8 * length frames)%nat.
Proof.
  induction frames as [|f frames IH]; intros i Hfr; [cbn; lia|].
  destruct Hfr as (_ & _ & Hs & Hr & Hfr'). specialize (IH (i + 1) Hfr').
  cbn [map concat length]. rewrite length_app. lia.
Qed.

Lemma long_message_process (own ei dest key : Z) (body : list Z)
    (tx : MATRIX_TRANSMITTER) (rcvOwn t e : Z) (r : MATRIX_RECEIVER) :
  let msg := message_bytes key ei body in
  let c := Matrix_ComputeCRC16 msg (length msg) in
  let frames := skipn (length (enqueued tx)) (enqueued (transmit own ei dest key body tx)) in
  let r' := receive_frames rcvOwn t frames r in
  let stream := firstn (length frames)
                  (skipn (Z.to_nat (rx_write_slot r)) (rxBuffer r')) in
  let data := concat (map data8 stream) in
  let n := Z.of_nat (length frames) in
  let size := Z.of_nat (length msg) + 2 in
  let byte1 := nth 1 msg 0 in
  let k := u16 (Z.lor (Z.shiftl (u16 (Z.land byte1 (Z.lnot KeyPrefix_Mask))) 8)
                      (nth 2 msg 0)) in
  0 <= own < 128 -> 0 <= dest < 128 ->
  dest = MATRIX_CAN_BROADCAST_ADDRESS \/ dest = rcvOwn ->
  0 <= frameIndex tx < 32 ->
  (8 < length msg)%nat ->
  length (rxBuffer r) = 20%nat -> 0 <= rxBufferWriteIndex r ->
  size <= 8 * (20 - rx_write_slot r) ->
  senderAddressFilter r = 0 \/ senderAddressFilter r = own ->
  firstn (length msg + 2) data = msg ++ [u8 (Z.shiftr c 8); u8 c]
  /\ next_message own (frameIndex tx) 0 0 [] stream = (n, size, stream, [], true)
  /\ Matrix_IsMessageChecksumValid data (Z.to_nat size) = Some true
  /\ exists g0 gs',
       stream = g0 :: gs'
       /\ MR_FRAME_FLAG_NONE <> frameFlags g0
       /\ senderAddress g0 = own
       /\ rx_frameIndex g0 = frameIndex tx
       /\ process_message e g0 stream n size
          = let deliver d := Some (mkDelivery d n size data) in
            if KeyPrefix_PatternSync =? Z.land byte1 KeyPrefix_Mask then
              Some (e, deliver (ReceiveCanToken
                                  (mkTOKEN 0 own KeyTokenSequencerSync k)))
            else if Key_IsFtpResponse k then
              Some (e, deliver (FTPClient_ServerResponseIn own k (skipn 3 msg)))
            else if Key_IsFtpRequest k then
              Some (e, deliver (FTPServer_ClientRequestIn own k (skipn 3 msg)))
            else
              let e' := Matrix_NewEventIndex (nth 0 msg 0) e in
              if negb ((if is_event_key key then 1 else 0) =? 0)
                 || negb (Matrix_IsEventIndexExpired (nth 0 msg 0) e')
              then Some (e', deliver (Codec_Decompress own (skipn 1 msg)))
              else Some (e', None).
Proof.
  intros msg c frames r' stream data n size byte1 k
         Hown Hdst Hdest Hfi Hlen Hbuf Hwi Hfit Hfilt.
  assert (Hw : 0 <= rx_write_slot r < 20).
  { unfold rx_write_slot, CAN_RX_STREAM_BUFFER_BACK_SIZE.
    destruct (Z.geb_spec (rxBufferWriteIndex r) 20); lia. }
  destruct (transmit_multi own ei dest key body tx Hfi)
    as (bodyFrames & lastFrame & He & Hne & Hbody & Hlast & Hfr & Hcat).
  { fold msg. unfold size in Hfit. lia. }
  fold msg in Hcat.
  assert (Hframes : frames = bodyFrames ++ [lastFrame]).
  { unfold frames. rewrite He, skipn_app, skipn_all, Nat.sub_diag. reflexivity. }
  pose proof (framed_data_bound _ _ _ Hfr) as Hbound.
  rewrite Hcat, length_app in Hbound. cbn [length] in Hbound.
  assert (Hcount : (2 <= length frames)%nat).
  { rewrite Hframes, length_app. cbn [length].
    destruct bodyFrames; [congruence | cbn [length]; lia]. }
  assert (Hroom : (Z.to_nat (rx_write_slot r) + length frames <= 20)%nat).
  { rewrite Hframes, length_app. cbn [length].
    assert (H8 : length (concat (map tx_data bodyFrames)) = (8 * length bodyFrames)%nat).
    { clear -Hbody. induction Hbody as [|f l [_ Hf] _ IH]; [reflexivity|].
      cbn [map concat length]. rewrite length_app, IH, Hf. lia. }
    assert (H1 : (1 <= length (tx_data lastFrame))%nat).
    { clear -Hfr. revert Hfr. generalize (frameIndex tx).
      induction bodyFrames as [|f l IH]; intros i Hfr.
      - destruct Hfr as (_ & _ & Hs & Hr & _). lia.
      - destruct Hfr as (_ & _ & _ & _ & Hfr'). exact (IH _ Hfr'). }
    assert (Hsum : length (concat (map tx_data (bodyFrames ++ [lastFrame])))
                   = (length msg + 2)%nat)
      by (rewrite Hcat, length_app; reflexivity).
    rewrite map_app, concat_app, length_app, H8 in Hsum.
    cbn [map concat] in Hsum. rewrite app_nil_r in Hsum.
    unfold size in Hfit. lia. }
  assert (Hsrc : id_sourceAddress (start_id own dest key) = own)
    by (cbn; apply land_7F; exact Hown).
  assert (Hstor : Forall (storable rcvOwn (senderAddressFilter r)) frames).
  { rewrite Hframes.
    apply (framed_storable (start_id own dest key) rcvOwn _ _ _ Hfr).
    - apply Forall_app. split.
      + eapply Forall_impl; [|exact Hbody]. intros f [Hf _]. rewrite Hf.
        unfold MATRIX_MESSAGE_FRAME_TYPE_SINGLE, MATRIX_MESSAGE_FRAME_TYPE_BODY,
          MATRIX_MESSAGE_FRAME_TYPE_LAST. lia.
      + constructor; [|constructor]. rewrite Hlast.
        unfold MATRIX_MESSAGE_FRAME_TYPE_SINGLE, MATRIX_MESSAGE_FRAME_TYPE_LAST. lia.
    - cbn. rewrite land_7F by exact Hdst. exact Hdst.
    - cbn. destruct (is_event_key key); lia.
    - reflexivity.
    - rewrite Hsrc. exact Hown.
    - cbn. rewrite land_7F by exact Hdst. exact Hdest.
    - rewrite Hsrc. exact Hfilt. }
  pose proof (stream_of_frames rcvOwn t frames r Hbuf Hwi Hroom Hstor) as Hgs.
  fold r' in Hgs. fold stream in Hgs. rewrite Hframes in Hgs.
  destruct (concat_data8 _ _ _ _ _ Hgs Hfr Hbody) as [stale Hdata].
  fold data in Hdata. rewrite Hcat in Hdata.
  assert (Hc : c = crc16_of msg).
  { pose proof (ComputeCRC16_crc16_of msg []) as H. rewrite app_nil_r in H.
    exact H. }
  rewrite <- Hc in Hdata.
  assert (Hnext : next_message own (frameIndex tx) 0 0 [] stream
                  = (n, size, stream, [], true)).
  { assert (Hnb : 0 + Z.of_nat (length bodyFrames) + 1 < 65536).
    { rewrite Hframes, length_app in Hroom. cbn [length] in Hroom. lia. }
    pose proof (next_message_multi (start_id own dest key) lastFrame [] bodyFrames
                  stream (frameIndex tx) 0 0 [] Hgs Hfr Hbody Hlast
                  ltac:(lia) Hnb) as Hnm.
    rewrite Hsrc, app_nil_r in Hnm.
    replace (Z.land (frameIndex tx) MATRIX_CAN_ID_FRAME_INDEX_MASK)
      with (frameIndex tx) in Hnm.
    2:{ unfold MATRIX_CAN_ID_FRAME_INDEX_MASK. change 0x1F with (Z.ones 5).
        rewrite Z.land_ones by lia. symmetry. apply Z.mod_small.
        change (2 ^ 5) with 32. lia. }
    rewrite Hnm. cbn [app]. rewrite Hcat, length_app. cbn [length].
    unfold n, size. rewrite Hframes, length_app. cbn [length].
    unfold u16. rewrite Z.mod_small by lia.
    replace (0 + Z.of_nat (length bodyFrames) + 1 >? 1) with true
      by (symmetry; apply Z.gtb_lt; destruct bodyFrames; [congruence | cbn [length]; lia]).
    replace (0 + Z.of_nat (length bodyFrames) + 1)
      with (Z.of_nat (length bodyFrames + 1)) by lia.
    replace (0 + Z.of_nat (length msg + 2)) with (Z.of_nat (length msg) + 2) by lia.
    reflexivity. }
  assert (Hvalid : Matrix_IsMessageChecksumValid data (Z.to_nat size) = Some true).
  { rewrite Hdata.
    replace (Z.to_nat size) with (length (msg ++ [u8 (Z.shiftr c 8); u8 c]))
      by (rewrite length_app; cbn [length]; unfold size; lia).
    rewrite checksum_prefix, Hc. apply checksum_valid_suffix. }
  split.
  { rewrite Hdata.
    replace (length msg + 2)%nat with (length (msg ++ [u8 (Z.shiftr c 8); u8 c]))
      by (rewrite length_app; reflexivity).
    rewrite firstn_app, firstn_all, Nat.sub_diag. cbn [firstn]. apply app_nil_r. }
  split; [exact Hnext|]. split; [exact Hvalid|].
  destruct stream as [|g0 gs'] eqn:Es.
  { inversion Hgs as [Hnil|]. destruct bodyFrames; discriminate Hnil. }
  assert (Hg0 : exists f0 t0 old0,
             g0 = rx_frame_of f0 t0 old0
             /\ id_frameType (tx_id f0) = MATRIX_MESSAGE_FRAME_TYPE_BODY
             /\ header (tx_id f0) = header (start_id own dest key)
             /\ id_frameIndex (tx_id f0)
                = Z.land (frameIndex tx) MATRIX_CAN_ID_FRAME_INDEX_MASK).
  { destruct bodyFrames as [|f0 bodyFrames]; [congruence|].
    cbn [app] in Hgs, Hfr. inversion Hgs as [|x y l1 l2 Hg _]; subst.
    destruct Hg as (t0 & old0 & Hg). destruct Hfr as (Hi & Hh & _).
    exists f0, t0, old0. repeat split; auto. exact (proj1 (Forall_inv Hbody)). }
  destruct Hg0 as (f0 & t0 & old0 & Hg0 & Hty0 & Hh0 & Hi0).
  unfold header in Hh0. injection Hh0 as _ Hev0 _ Hsrc0.
  assert (Hsender : senderAddress g0 = own)
    by (rewrite Hg0, rx_sender, Hsrc0; exact Hsrc).
  assert (Hindex : rx_frameIndex g0 = frameIndex tx).
  { rewrite Hg0, rx_index, Hi0. unfold MATRIX_CAN_ID_FRAME_INDEX_MASK.
    change 0x1F with (Z.ones 5). rewrite Z.land_ones by lia.
    apply Z.mod_small. change (2 ^ 5) with 32. lia. }
  assert (Hflag : MR_FRAME_FLAG_NONE <> frameFlags g0)
    by (rewrite Hg0, rx_flags, Hty0; discriminate).
  assert (Hevent : rx_isEvent g0 = if is_event_key key then 1 else 0).
  { rewrite Hg0. unfold rx_frame_of. cbn [rx_isEvent]. rewrite Hty0.
    change (MATRIX_MESSAGE_FRAME_TYPE_BODY =? MATRIX_MESSAGE_FRAME_TYPE_SINGLE) with false.
    cbn [andb]. exact Hev0. }
  pose proof (process_multi e g0 (g0 :: gs') n msg stale) as Hp.
  cbv zeta in Hp. rewrite <- Hc in Hp. fold data in Hp.
  specialize (Hp Hdata ltac:(unfold n; lia) Hlen ltac:(unfold size in Hfit; lia)).
  fold size byte1 k in Hp. rewrite Hsender in Hp.
  replace (u8 own) with own in Hp by (unfold u8; rewrite Z.mod_small; lia).
  rewrite Hevent in Hp.
  exists g0, gs'. split; [reflexivity|]. split; [exact Hflag|].
  split; [exact Hsender|]. split; [exact Hindex|]. exact Hp.
Qed.

(** X22.  A message of more than eight bytes that fits the receiver's
    interrupt buffer reaches the receiver whole.  The conditions are that
    the message is sent to broadcast or to the receiving node, that the
    receiver's sender filter is unset or set to the sender, and that the
    message with its two CRC bytes fits the slots from the write slot to the
    end of the 20-frame buffer ([size <= 8 * (20 - write slot)]: no
    wrap-around).  The frames that the transmitter enqueues for it carry
    consecutive frame indices; when the receiver has taken them in one after
    the other and they are the frames in the stream, in that order, the
    search of [ProcessMessagesInStream] finds them as one complete message
    of all the frames, their data is the message followed by its CRC, and
    the checksum test passes.  A message that is neither a sync nor FTP is
    handed to the decompressor, from the byte after the event index on,
    when the message was started as an event or its event index has not
    expired; an FTP request is handed to the FTP server with the bytes after
    the key. *)
Theorem long_message_is_reassembled (own ei dest key : Z) (body : list Z)
    (tx : MATRIX_TRANSMITTER) (rcvOwn t e : Z) (r : MATRIX_RECEIVER)
    (downstream : DISPATCH -> Z -> Z) (fuel : nat) :
  let msg := message_bytes key ei body in
  let c := Matrix_ComputeCRC16 msg (length msg) in
  let frames := skipn (length (enqueued tx)) (enqueued (transmit own ei dest key body tx)) in
  let r' := receive_frames rcvOwn t frames r in
  let stream := firstn (length frames)
                  (skipn (Z.to_nat (rx_write_slot r)) (rxBuffer r')) in
  let data := concat (map data8 stream) in
  let n := Z.of_nat (length frames) in
  let size := Z.of_nat (length msg) + 2 in
  let byte1 := nth 1 msg 0 in
  let k := u16 (Z.lor (Z.shiftl (u16 (Z.land byte1 (Z.lnot KeyPrefix_Mask))) 8)
                      (nth 2 msg 0)) in
  0 <= own < 128 -> 0 <= dest < 128 ->
  dest = MATRIX_CAN_BROADCAST_ADDRESS \/ dest = rcvOwn ->
  0 <= frameIndex tx < 32 ->
  (8 < length msg)%nat ->
  length (rxBuffer r) = 20%nat -> 0 <= rxBufferWriteIndex r ->
  size <= 8 * (20 - rx_write_slot r) ->
  senderAddressFilter r = 0 \/ senderAddressFilter r = own ->
  firstn (length msg + 2) data = msg ++ [u8 (Z.shiftr c 8); u8 c]
  /\ next_message own (frameIndex tx) 0 0 [] stream = (n, size, stream, [], true)
  /\ Matrix_IsMessageChecksumValid data (Z.to_nat size) = Some true
  /\ ((KeyPrefix_PatternSync =? Z.land byte1 KeyPrefix_Mask) = false ->
      Key_IsFtpResponse k = false -> Key_IsFtpRequest k = false ->
      is_event_key key = true
      \/ Matrix_IsEventIndexExpired (nth 0 msg 0) (Matrix_NewEventIndex (nth 0 msg 0) e)
         = false ->
      ProcessMessagesInStream downstream (S fuel) e stream
      = Some (downstream (Codec_Decompress own (skipn 1 msg))
                         (Matrix_NewEventIndex (nth 0 msg 0) e),
              [mkDelivery (Codec_Decompress own (skipn 1 msg)) n size data]))
  /\ ((KeyPrefix_PatternSync =? Z.land byte1 KeyPrefix_Mask) = false ->
      Key_IsFtpResponse k = false -> Key_IsFtpRequest k = true ->
      ProcessMessagesInStream downstream (S fuel) e stream
      = Some (downstream (FTPServer_ClientRequestIn own k (skipn 3 msg)) e,
              [mkDelivery (FTPServer_ClientRequestIn own k (skipn 3 msg)) n size data])).
Proof.
  intros msg c frames r' stream data n size byte1 k
         Hown Hdst Hdest Hfi Hlen Hbuf Hwi Hfit Hfilt.
  destruct (long_message_process own ei dest key body tx rcvOwn t e r
              Hown Hdst Hdest Hfi Hlen Hbuf Hwi Hfit Hfilt)
    as (H1 & Hnext & H3 & g0 & gs' & Hs & Hflag & Hsender & Hindex & Hp).
  fold msg c frames r' stream data n size byte1 k in H1, Hnext, H3, Hs, Hp.
  split; [exact H1|]. split; [exact Hnext|]. split; [exact H3|].
  cbv zeta in Hp. rewrite Hs in Hnext, Hp |- *.
  rewrite <- Hsender, <- Hindex in Hnext.
  split.
  - intros Hsync Hresp Hreq Hdel. rewrite Hsync, Hresp, Hreq in Hp.
    replace (negb ((if is_event_key key then 1 else 0) =? 0)
             || negb (Matrix_IsEventIndexExpired (nth 0 msg 0)
                        (Matrix_NewEventIndex (nth 0 msg 0) e)))
      with true in Hp.
    2:{ symmetry. destruct Hdel as [-> | ->]; [reflexivity | apply orb_true_r]. }
    rewrite (stream_one_message downstream fuel e g0 gs' n size _ _ Hflag Hnext Hp).
    reflexivity.
  - intros Hsync Hresp Hreq. rewrite Hsync, Hresp, Hreq in Hp.
    rewrite (stream_one_message downstream fuel e g0 gs' n size _ _ Hflag Hnext Hp).
    reflexivity.
Qed.

Definition sample_body : list Z :=
  [0x43; 0xE8; 1; 0x43; 0xE9; 2; 0x43; 0xEA; 3; 0x43; 0xEB; 4].
Definition sample_tx : MATRIX_TRANSMITTER :=
  mkTransmitter (mkFrameId 0 0 0 0 0 0) [] 0 0 30 [] 39 0 [].
Definition sample_receiver : MATRIX_RECEIVER :=
  mkReceiver (repeat zero_rx_frame 20) 0 0 0 0.

Lemma long_message_is_reassembled_witness :
  let msg := message_bytes KeyNull 7 sample_body in
  let frames := skipn (length (enqueued sample_tx))
                  (enqueued (transmit 5 7 0 KeyNull sample_body sample_tx)) in
  let r' := receive_frames 9 1000 frames sample_receiver in
  let stream := firstn (length frames)
                  (skipn (Z.to_nat (rx_write_slot sample_receiver)) (rxBuffer r')) in
  Matrix_IsMessageChecksumValid (concat (map data8 stream))
    (Z.to_nat (Z.of_nat (length msg) + 2)) = Some true.
Proof.
  assert (Hown : 0 <= 5 < 128) by lia.
  assert (Hdst : 0 <= 0 < 128) by lia.
  assert (Hdest : 0 = MATRIX_CAN_BROADCAST_ADDRESS \/ 0 = 9) by (left; reflexivity).
  assert (Hfi : 0 <= frameIndex sample_tx < 32) by (cbn; lia).
  assert (Hlen : Nat.lt 8 (length (message_bytes KeyNull 7 sample_body)))
    by (vm_compute; lia).
  assert (Hbuf : length (rxBuffer sample_receiver) = 20%nat) by reflexivity.
  assert (Hwi : 0 <= rxBufferWriteIndex sample_receiver) by (cbn; lia).
  assert (Hfit : Z.of_nat (length (message_bytes KeyNull 7 sample_body)) + 2
                 <= 8 * (20 - rx_write_slot sample_receiver))
    by (vm_compute; discriminate).
  assert (Hfilt : senderAddressFilter sample_receiver = 0
                  \/ senderAddressFilter sample_receiver = 5)
    by (left; reflexivity).
  exact (proj1 (proj2 (proj2
           (long_message_is_reassembled 5 7 0 KeyNull sample_body sample_tx
              9 1000 3 sample_receiver (fun _ e => e) 0
              Hown Hdst Hdest Hfi Hlen Hbuf Hwi Hfit Hfilt)))).
Defined.

(** ** [MatrixCodec_Decompress] on arbitrary input *)

(** The stream pointer [rest] lies inside the input [bytes], at or after
    its start and not past its end. *)
Definition within (rest bytes : list Z) : Prop := exists consumed, bytes = consumed ++ rest.

(** A token as the decompressor may hand it to its sink: the fields it
    writes are the address, the key and the value. *)
Definition from_sender (a : Z) (t : TOKEN) : Prop :=
  address t = a /\ 0 <= key t < 65536
  /\ -2147483648 <= value t < 2147483648.

Lemma within_refl bytes : within bytes bytes.
Proof. exists []. reflexivity. Qed.

Lemma within_trans a b c : within a b -> within b c -> within a c.
Proof.
  intros [p ->] [q ->]. exists (q ++ p). rewrite app_assoc. reflexivity.
Qed.

Lemma within_cons b bytes : within bytes (b :: bytes).
Proof. exists [b]. reflexivity. Qed.

Lemma within_nil bytes : within [] bytes.
Proof. exists bytes. symmetry. apply app_nil_r. Qed.

Lemma i32_range z : -2147483648 <= i32 z < 2147483648.
Proof. unfold i32. pose proof (Z.mod_pos_bound (z + 2147483648) 4294967296). lia. Qed.

Lemma u16_range z : 0 <= u16 z < 65536.
Proof. unfold u16. apply Z.mod_pos_bound. lia. Qed.

Lemma read_value_within wrap n : forall acc bytes v rest,
  read_value wrap n acc bytes = Some (v, rest) -> within rest bytes.
Proof.
  induction n as [|n IH]; intros acc bytes v rest H; cbn [read_value] in H.
  - injection H as _ <-. apply within_refl.
  - destruct bytes as [|b bytes]; cbn [read_byte] in H; [discriminate|].
    eapply within_trans; [exact (IH _ _ _ _ H) | apply within_cons].
Qed.

(** The value loop fails exactly when fewer than [n] bytes are left, and
    then it has used them up. *)
Lemma read_value_short wrap n : forall acc bytes,
  read_value wrap n acc bytes = None <-> (length bytes < n)%nat.
Proof.
  induction n as [|n IH]; intros acc bytes; cbn [read_value].
  - split; [discriminate | lia].
  - destruct bytes as [|b bytes]; cbn [read_byte length].
    + split; [lia | reflexivity].
    + rewrite IH. lia.
Qed.

Lemma read_value_i32_range n : forall acc bytes v rest,
  -2147483648 <= acc < 2147483648 ->
  read_value i32 n acc bytes = Some (v, rest) -> -2147483648 <= v < 2147483648.
Proof.
  induction n as [|n IH]; intros acc bytes v rest Ha H; cbn [read_value] in H.
  - injection H as <- _. exact Ha.
  - destruct bytes as [|b bytes]; cbn [read_byte] in H; [discriminate|].
    exact (IH _ _ _ _ (i32_range _) H).
Qed.

Lemma decompress_analog_sound a valueSize n : forall k0 bytes,
  0 <= k0 < 65536 ->
  let '(ok, tokens, rest) := decompress_analog n valueSize k0 a bytes in
  Forall (from_sender a) tokens /\ within rest bytes
  /\ (length tokens <= n)%nat /\ (ok = true -> length tokens = n)
  /\ (ok = false -> rest = []).
Proof.
  induction n as [|n IH]; intros k0 bytes Hk; cbn [decompress_analog].
  - repeat split; [constructor | apply within_refl | cbn; lia | discriminate].
  - destruct (read_value i32 valueSize 0 bytes) as [[v bytes']|] eqn:E.
    + specialize (IH (u16 (k0 + 1)) bytes' (u16_range _)).
      destruct (decompress_analog n valueSize (u16 (k0 + 1)) a bytes')
        as [[ok tokens] rest].
      destruct IH as (H1 & H2 & H3 & H4 & H5). repeat split.
      * constructor; [|exact H1].
        assert (H0 : -2147483648 <= 0 < 2147483648) by lia.
        pose proof (read_value_i32_range _ _ _ _ _ H0 E) as Hv.
        repeat split; cbn [address key value]; lia.
      * eapply within_trans; [exact H2 | exact (read_value_within _ _ _ _ _ _ E)].
      * cbn [length]. lia.
      * intros Hok. cbn [length]. rewrite H4 by exact Hok. reflexivity.
      * exact H5.
    + repeat split; [constructor | apply within_nil | cbn; lia | discriminate].
Qed.

Lemma decompress_binary_sound a v0 n : forall bitIndex bitFlags k0 bytes,
  0 <= k0 < 65536 ->
  let '(ok, tokens, rest) :=
    decompress_binary n bitIndex bitFlags k0 v0 a bytes in
  Forall (from_sender a) tokens /\ within rest bytes
  /\ (length tokens <= n)%nat /\ (ok = true -> length tokens = n)
  /\ (ok = false -> rest = []).
Proof.
  induction n as [|n IH]; intros bitIndex bitFlags k0 bytes Hk;
    cbn [decompress_binary].
  - repeat split; [constructor | apply within_refl | cbn; lia | discriminate].
  - cbv zeta.
    assert (Hemit : forall bi bf bs, within bs bytes ->
              let '(ok, tokens, rest) :=
                (let '(ok, tokens, rest) :=
                   decompress_binary n bi bf (u16 (k0 + 1)) v0 a bs in
                 (ok,
                  mkTOKEN 0 a k0 (if negb (Z.land bf 1 =? 0) then i32 v0 else 0)
                  :: tokens, rest)) in
              Forall (from_sender a) tokens /\ within rest bytes
              /\ (length tokens <= S n)%nat /\ (ok = true -> length tokens = S n)
              /\ (ok = false -> rest = [])).
    { intros bi bf bs Hbs.
      specialize (IH bi bf (u16 (k0 + 1)) bs (u16_range _)).
      destruct (decompress_binary n bi bf (u16 (k0 + 1)) v0 a bs)
        as [[ok tokens] rest].
      destruct IH as (H1 & H2 & H3 & H4 & H5). repeat split.
      - constructor; [|exact H1]. pose proof (i32_range v0) as Hv.
        repeat split; cbn [address key value]; try lia;
          destruct (negb (Z.land bf 1 =? 0)); lia.
      - eapply within_trans; [exact H2 | exact Hbs].
      - cbn [length]. lia.
      - intros Hok. cbn [length]. rewrite H4 by exact Hok. reflexivity.
      - exact H5. }
    destruct (u16 (bitIndex + 1) >=? 8).
    + destruct bytes as [|b bytes']; cbn [read_byte].
      * repeat split; [constructor | apply within_refl | cbn; lia | discriminate].
      * apply Hemit, within_cons.
    + apply Hemit, within_refl.
Qed.

Lemma Decompress_step_sound a b bytes' :
  let '(status, tokens, rest) := Decompress_step a b bytes' in
  Forall (from_sender a) tokens /\ within rest (b :: bytes')
  /\ (status = None \/ status = Some 0 \/ status = Some (-1))
  /\ (status = None -> (length rest < length (b :: bytes'))%nat)
  /\ (status = Some (-1) -> rest = [])
  /\ (status = Some 0 ->
      rest = b :: bytes' /\ KeyPrefix_AnalogRepeat < Z.land b KeyPrefix_Mask).
Proof.
  unfold Decompress_step. cbv zeta.
  destruct (Z.ltb_spec KeyPrefix_AnalogRepeat (Z.land b KeyPrefix_Mask)) as [Hstop|_].
  { repeat split; try discriminate; auto using within_refl. }
  set (isRepeat := (KeyPrefix_BinaryRepeat =? Z.land b KeyPrefix_Mask)
                   || (KeyPrefix_AnalogRepeat =? Z.land b KeyPrefix_Mask)).
  set (start := if isRepeat then bytes' else b :: bytes').
  assert (Hstart : within start (b :: bytes'))
    by (unfold start; destruct isRepeat; [apply within_cons | apply within_refl]).
  destruct start as [|k1 s1] eqn:E1; cbn [read_byte].
  { repeat split; try discriminate; auto. }
  assert (Hs1 : within s1 (b :: bytes'))
    by (eapply within_trans; [apply within_cons | exact Hstart]).
  assert (Hl1 : (length s1 < length (b :: bytes'))%nat).
  { destruct Hstart as [pre Hpre]. rewrite Hpre, length_app. cbn [length]. lia. }
  destruct s1 as [|k2 s2] eqn:E2; cbn [read_byte].
  { repeat split; try discriminate; auto. }
  assert (Hs2 : within s2 (b :: bytes'))
    by (eapply within_trans; [apply within_cons | exact Hs1]).
  assert (Hl2 : (length s2 < length (b :: bytes'))%nat) by (cbn [length] in Hl1 |- *; lia).
  set (k := u16 (Z.lor (u16 (Z.shiftl k1 8)) k2)).
  assert (Hk : 0 <= k < 65536) by apply u16_range.
  assert (Hshort : forall rest, within rest s2 -> (length rest < length (b :: bytes'))%nat).
  { intros rest [pre Hpre]. rewrite Hpre, length_app in Hl2. lia. }
  destruct (Z.land b KeyPrefix_Mask =? KeyPrefix_AnalogRepeat).
  - pose proof (decompress_analog_sound a (Z.to_nat (Key_ValueSize k))
                  (Z.to_nat (Z.land b (MATRIX_MESSAGE_MAX_TOKEN_REPEATS - 1) + 1))
                  k s2 Hk) as H.
    destruct (decompress_analog _ _ k a s2) as [[ok tokens] rest].
    destruct H as (H1 & H2 & _ & _ & H5). repeat split.
    + exact H1.
    + eapply within_trans; [exact H2 | exact Hs2].
    + destruct ok; auto.
    + intros _. apply Hshort, H2.
    + destruct ok; [discriminate | intros _; apply H5; reflexivity].
    + destruct ok; discriminate.
    + destruct ok; discriminate.
  - destruct (Z.land b KeyPrefix_Mask =? KeyPrefix_BinaryRepeat).
    + destruct (read_value u32 (Z.to_nat (Key_ValueSize k)) 0 s2)
        as [[v s3]|] eqn:Ev.
      * pose proof (read_value_within _ _ _ _ _ _ Ev) as Hs3.
        pose proof (decompress_binary_sound a v
                      (Z.to_nat (Z.land b (MATRIX_MESSAGE_MAX_TOKEN_REPEATS - 1) + 1))
                      8 0 k s3 Hk) as H.
        destruct (decompress_binary _ 8 0 k v a s3) as [[ok tokens] rest].
        destruct H as (H1 & H2 & _ & _ & H5). repeat split.
        -- exact H1.
        -- eapply within_trans; [exact H2|]. eapply within_trans; [exact Hs3 | exact Hs2].
        -- destruct ok; auto.
        -- intros _. apply Hshort. eapply within_trans; [exact H2 | exact Hs3].
        -- destruct ok; [discriminate | intros _; apply H5; reflexivity].
        -- destruct ok; discriminate.
        -- destruct ok; discriminate.
      * repeat split; try discriminate; auto using within_nil.
    + destruct (read_value i32 (Z.to_nat (Key_ValueSize k)) 0 s2)
        as [[v s3]|] eqn:Ev.
      * pose proof (read_value_within _ _ _ _ _ _ Ev) as Hs3. repeat split.
        -- constructor; [|constructor].
           assert (H0 : -2147483648 <= 0 < 2147483648) by lia.
           pose proof (read_value_i32_range _ _ _ _ _ H0 Ev) as Hv.
           repeat split; cbn [address key value]; lia.
        -- eapply within_trans; [exact Hs3 | exact Hs2].
        -- auto.
        -- intros _. apply Hshort, Hs3.
        -- discriminate.
        -- discriminate.
        -- discriminate.
      * repeat split; try discriminate; auto using within_nil.
Qed.

Lemma Decompress_loop_sound a fuel : forall bytes,
  (length bytes <= fuel)%nat ->
  let '(status, tokens, rest) := Decompress_loop fuel a bytes in
  Forall (from_sender a) tokens /\ within rest bytes /\ (status = 0 \/ status = -1)
  /\ (status = -1 -> rest = [])
  /\ (status = 0 ->
      rest = []
      \/ exists b rest', rest = b :: rest'
                         /\ KeyPrefix_AnalogRepeat < Z.land b KeyPrefix_Mask).
Proof.
  induction fuel as [|fuel IH]; intros bytes Hfuel; cbn [Decompress_loop].
  - destruct bytes; [|cbn in Hfuel; lia].
    repeat split; try discriminate; auto using within_refl.
  - destruct bytes as [|b bytes'].
    + repeat split; try discriminate; auto using within_refl.
    + pose proof (Decompress_step_sound a b bytes') as Hs.
      destruct (Decompress_step a b bytes') as [[[status|] tokens] rest].
      * destruct Hs as (H1 & H2 & H3 & _ & H5 & H6).
        repeat split; [exact H1 | exact H2 | | | ].
        -- destruct H3 as [H | [H | H]]; [discriminate | | ]; injection H as ->; auto.
        -- intros ->. apply H5. reflexivity.
        -- intros ->. right. exists b, bytes'. apply H6. reflexivity.
      * destruct Hs as (H1 & H2 & _ & H4 & _).
        specialize (H4 eq_refl). cbn [length] in H4, Hfuel.
        specialize (IH rest ltac:(lia)).
        destruct (Decompress_loop fuel a rest) as [[status more] rest'].
        destruct IH as (I1 & I2 & I3 & I4 & I5). repeat split.
        -- apply Forall_app. split; assumption.
        -- eapply within_trans; [exact I2 | exact H2].
        -- exact I3.
        -- exact I4.
        -- exact I5.
Qed.

(** X23.  Whatever bytes it is given, [MatrixCodec_Decompress] returns 0 or
    -1, leaves the stream pointer inside the input (it never moves past the
    last byte), and hands its sink only tokens that carry the sender address
    it was called with, a 16-bit key and a value in the [int32_t] range.
    When it returns -1 the pointer is at the end of the data (the bytes of a
    value cut short have been consumed); when it returns 0 the pointer is at
    the end or at a byte whose prefix bits are above [KeyPrefix_AnalogRepeat].
    The empty input gives -1 and no token, and so does an input that ends
    inside the key of its first token. *)
Theorem Decompress_never_overruns (bytes : list Z) (a : Z) :
  let '(status, tokens, rest) := MatrixCodec_Decompress bytes a in
  (status = 0 \/ status = -1)
  /\ within rest bytes
  /\ Forall (from_sender a) tokens
  /\ (status = -1 -> rest = [])
  /\ (status = 0 ->
      rest = []
      \/ exists b rest', rest = b :: rest'
                         /\ KeyPrefix_AnalogRepeat < Z.land b KeyPrefix_Mask)
  /\ (bytes = [] -> status = -1 /\ tokens = [])
  /\ (forall b, bytes = [b] -> Z.land b KeyPrefix_Mask <= KeyPrefix_AnalogRepeat ->
        status = -1 /\ tokens = []).
Proof.
  unfold MatrixCodec_Decompress. destruct bytes as [|b bytes'].
  - split; [right; reflexivity|]. split; [apply within_refl|].
    split; [constructor|]. split; [reflexivity|]. split; [discriminate|].
    split; [intros _; split; reflexivity|].
    intros b H. discriminate H.
  - pose proof (Decompress_loop_sound a (length (b :: bytes')) (b :: bytes')
                  (Nat.le_refl _)) as H.
    destruct (Decompress_loop (length (b :: bytes')) a (b :: bytes'))
      as [[status tokens] rest] eqn:E.
    destruct H as (H1 & H2 & H3 & H4 & H5).
    split; [exact H3|]. split; [exact H2|]. split; [exact H1|].
    split; [exact H4|]. split; [exact H5|].
    split; [intros H; discriminate H|].
    intros b0 Hb Hle. injection Hb as -> ->.
    cbn [length Decompress_loop] in E. unfold Decompress_step in E. cbv zeta in E.
    replace (KeyPrefix_AnalogRepeat <? Z.land b0 KeyPrefix_Mask) with false in E
      by (symmetry; apply Z.ltb_ge; exact Hle).
    destruct ((KeyPrefix_BinaryRepeat =? Z.land b0 KeyPrefix_Mask)
              || (KeyPrefix_AnalogRepeat =? Z.land b0 KeyPrefix_Mask));
      cbn [read_byte] in E; injection E as <- <- _; split; reflexivity.
Qed.

(** A value cut short: key 7000 has a four-byte value, of which three bytes
    are there.  The decompressor returns -1 with the pointer at the end of
    the data. *)
Lemma Decompress_value_cut_short :
  MatrixCodec_Decompress [0x1B; 0x58; 1; 2; 3] 5 = (-1, [], [])
  /\ MatrixCodec_Decompress [0x1B; 0x58; 1; 2; 3; 4] 5
     = (0, [mkTOKEN 0 5 7000 0x01020304], []).
Proof. split; vm_compute; reflexivity. Qed.

(** ** The status message of [Matrix_Clock] from node to node *)

(** The frame enqueued for a message of at most eight bytes. *)
Definition message_frame (own dest key : Z) (msg : list Z) (frameIndex : Z)
  : MATRIX_TX_CAN_FRAME :=
  mkTxFrame
    (mkFrameId frameIndex (Z.land dest 0x7F) (if is_event_key key then 1 else 0) 0
               (Z.land own 0x7F) MATRIX_MESSAGE_FRAME_TYPE_SINGLE)
    (Z.of_nat (length msg)) msg.

Lemma transmit_single own ei dest key body tx :
  (length (message_bytes key ei body) <= 8)%nat ->
  enqueued (transmit own ei dest key body tx)
  = enqueued tx ++ [message_frame own dest key (message_bytes key ei body) (frameIndex tx)].
Proof.
  intros Hlen.
  pose proof (transmit_inv own ei dest key body tx) as Hinv.
  destruct (finish_single _ _ _ Hinv) as (tx' & Hfin & He & _).
  { unfold message_bytes. discriminate. }
  { exact Hlen. }
  unfold transmit. rewrite Hfin. cbn [snd]. rewrite He.
  cbn [fresh_tx enqueued idAddress]. f_equal. f_equal.
  unfold message_frame, start_id.
  cbn [id_frameIndex id_destinationAddress id_isEvent id_reserved id_sourceAddress].
  rewrite StartMessage_spec. cbn [fst].
  change (MatrixTransmitter_AddByte (start_byte key ei)
            (fresh_tx (start_id own dest key) tx))
    with (add_bytes [start_byte key ei] (fresh_tx (start_id own dest key) tx)).
  unfold add_bytes. rewrite <- fold_left_app.
  fold (add_bytes ([start_byte key ei] ++ body) (fresh_tx (start_id own dest key) tx)).
  rewrite add_bytes_frameIndex_small.
  - rewrite Z.lor_0_l. reflexivity.
  - cbn [fresh_tx fifo length app]. unfold message_bytes in Hlen.
    cbn [map length] in Hlen. rewrite length_map in Hlen. lia.
Qed.

(** What [process_message] makes of a received message of three to eight
    bytes. *)
Lemma short_message_process (own dest key : Z) (msg : list Z) (fi rcvOwn t e : Z)
    (r : MATRIX_RECEIVER) :
  0 <= own < 128 -> 0 <= dest < 128 ->
  dest = MATRIX_CAN_BROADCAST_ADDRESS \/ dest = rcvOwn ->
  0 <= fi < 32 -> (3 <= length msg <= 8)%nat ->
  length (rxBuffer r) = 20%nat -> 0 <= rxBufferWriteIndex r ->
  let f := message_frame own dest key msg fi in
  let g := nth (Z.to_nat (rx_write_slot r))
             (rxBuffer (Matrix_ReceiveCanFrame rcvOwn (driver_id f) (tx_data f)
                          (driver_size f) t r))
             zero_rx_frame in
  let size := Z.of_nat (length msg) in
  let byte1 := nth 1 msg 0 in
  let k := u16 (Z.lor (Z.shiftl (u16 (Z.land byte1 (Z.lnot KeyPrefix_Mask))) 8)
                      (nth 2 msg 0)) in
  frameFlags g = MR_FRAME_FLAG_SINGLE
  /\ rx_dataSize g = size
  /\ process_message e g [g] 1 size
     = let deliver d := Some (mkDelivery d 1 size (data8 g)) in
       if KeyPrefix_PatternSync =? Z.land byte1 KeyPrefix_Mask then
         Some (e, deliver (ReceiveCanToken (mkTOKEN 0 own KeyTokenSequencerSync k)))
       else if Key_IsFtpResponse k then
         Some (e, deliver (FTPClient_ServerResponseIn own k (skipn 3 msg)))
       else if Key_IsFtpRequest k then
         Some (e, deliver (FTPServer_ClientRequestIn own k (skipn 3 msg)))
       else
         let e' := Matrix_NewEventIndex (nth 0 msg 0) e in
         let isCommand :=
           (0 =? Z.land byte1 KeyPrefix_Mask) && (size =? 3 + Key_ValueSize k) in
         if negb ((if own =? MATRIX_VEHICLE_BUS_ADDRESS then 1
                   else if is_event_key key then 1 else 0) =? 0)
            || isCommand
            || negb (Matrix_IsEventIndexExpired (nth 0 msg 0) e')
         then Some (e', deliver (Codec_Decompress own (skipn 1 msg)))
         else Some (e', None).
Proof.
  intros Hown Hdst Hdest Hfi Hlen Hbuf Hwi f g size byte1 k.
  assert (Hok : frame_fields_ok f).
  { unfold frame_fields_ok, f, message_frame.
    cbn [tx_id tx_dataSize id_frameIndex id_destinationAddress id_isEvent id_reserved
         id_sourceAddress id_frameType].
    rewrite !land_7F by assumption. unfold MATRIX_MESSAGE_FRAME_TYPE_SINGLE.
    destruct (is_event_key key); lia. }
  destruct (single_frame_received rcvOwn t f r Hok)
    as (Hs & Hi & Hfl & Hev & Hds & stale & Hd).
  { reflexivity. }
  { unfold f, message_frame. cbn [tx_id id_destinationAddress].
    rewrite land_7F by assumption. exact Hdest. }
  { unfold f, message_frame. cbn [tx_data tx_dataSize]. lia. }
  { unfold f, message_frame. cbn [tx_dataSize]. lia. }
  { exact Hbuf. }
  { exact Hwi. }
  fold g in Hs, Hi, Hfl, Hev, Hds, Hd.
  change (tx_dataSize f) with size in Hds. change (tx_data f) with msg in Hd.
  assert (Hsrc : u8 (senderAddress g) = own).
  { rewrite Hs. unfold f, message_frame. cbn [tx_id id_sourceAddress].
    rewrite land_7F by exact Hown. unfold u8. apply Z.mod_small. lia. }
  assert (Hevent : rx_isEvent g = if own =? MATRIX_VEHICLE_BUS_ADDRESS then 1
                                  else if is_event_key key then 1 else 0).
  { rewrite Hev. unfold f, message_frame. cbn [tx_id id_sourceAddress id_isEvent].
    rewrite land_7F by exact Hown. reflexivity. }
  split; [exact Hfl|]. split; [exact Hds|].
  pose proof (process_single e g msg stale Hd Hlen Hds) as Hp.
  rewrite Hds in Hp. cbv zeta in Hp. rewrite Hsrc, Hevent in Hp. exact Hp.
Qed.

Definition is_byte (b : Z) : Prop := 0 <= b < 256.

Lemma output_value_bytes_bytes n v : Forall is_byte (output_value_bytes n v).
Proof.
  induction n as [|n IH]; cbn [output_value_bytes]; constructor;
    [apply u8_range | exact IH].
Qed.

Lemma OutputToken_bytes t : Forall is_byte (OutputToken t).
Proof.
  unfold OutputToken. apply Forall_app. split.
  - repeat constructor; apply u8_range.
  - apply output_value_bytes_bytes.
Qed.

Lemma binary_bitmap_bytes n : forall bit byte token,
  is_byte byte -> Forall is_byte (fst (binary_bitmap n bit byte token)).
Proof.
  induction n as [|n IH]; intros bit byte token Hb; cbn [binary_bitmap].
  - destruct (bit =? 0); cbn [fst]; [constructor | constructor; [exact Hb | constructor]].
  - cbv zeta.
    set (byte' := if negb (0 =? token_value (deref token))
                  then u8 (Z.lor byte (Z.shiftl 1 bit)) else byte).
    assert (Hb' : is_byte byte')
      by (unfold byte'; destruct (negb _); [apply u8_range | exact Hb]).
    destruct (bit + 1 >=? 8).
    + pose proof (IH 0 0 (next_status_token token) ltac:(unfold is_byte; lia)) as H.
      destruct (binary_bitmap n 0 0 (next_status_token token)) as [bytes token'].
      cbn [fst] in *. constructor; assumption.
    + apply IH, Hb'.
Qed.

Lemma analog_values_bytes n vs : forall token,
  Forall is_byte (fst (analog_values n vs token)).
Proof.
  induction n as [|n IH]; intros token; cbn [analog_values]; [constructor|].
  cbv zeta. specialize (IH (next_status_token token)).
  destruct (analog_values n vs (next_status_token token)) as [more token'].
  cbn [fst] in *. apply Forall_app. split; [apply output_value_bytes_bytes | exact IH].
Qed.

Lemma Compress_step_bytes t rest : Forall is_byte (fst (Compress_step t rest)).
Proof.
  unfold Compress_step. cbv zeta.
  destruct (negb (should_broadcast t)); [constructor|].
  destruct (0 =? Key_ValueSize (token_key t)); [apply OutputToken_bytes|].
  destruct (find_series 31 _ 0 0 _ _ _) as [[nA nB] V].
  destruct (negb (nB =? 0) && (nB <? MATRIX_MESSAGE_MAX_TOKEN_REPEATS)).
  - pose proof (binary_bitmap_bytes (Z.to_nat (nB + 1)) 0 0 (t :: rest)
                  ltac:(unfold is_byte; lia)) as H.
    destruct (binary_bitmap (Z.to_nat (nB + 1)) 0 0 (t :: rest)) as [bitmap token'].
    cbn [fst] in *. apply Forall_app. split; [|exact H].
    apply Forall_app. split; [repeat constructor; apply u8_range|].
    apply Forall_app. split; [repeat constructor; apply u8_range|].
    apply output_value_bytes_bytes.
  - destruct (negb (nA =? 0)); [|apply OutputToken_bytes].
    pose proof (analog_values_bytes (Z.to_nat nA) (Key_ValueSize (token_key t))
                  (next_status_token (t :: rest))) as H.
    destruct (analog_values (Z.to_nat nA) _ (next_status_token (t :: rest)))
      as [values token'].
    cbn [fst] in *. apply Forall_app. split; [|exact H].
    apply Forall_app. split; [repeat constructor; apply u8_range|].
    apply OutputToken_bytes.
Qed.

Lemma Compress_loop_bytes fuel : forall tokens,
  Forall is_byte (Compress_loop fuel tokens).
Proof.
  induction fuel as [|fuel IH]; intros tokens; cbn [Compress_loop]; [constructor|].
  destruct tokens as [|t rest]; [constructor|].
  pose proof (Compress_step_bytes t rest) as H.
  destruct (Compress_step t rest) as [bytes token']. cbn [fst] in H.
  apply Forall_app. split; [exact H | apply IH].
Qed.

Lemma map_u8_bytes bytes : Forall is_byte bytes -> map u8 bytes = bytes.
Proof.
  induction 1 as [|b bytes Hb _ IH]; [reflexivity|].
  cbn [map]. rewrite IH. f_equal. unfold u8. apply Z.mod_small. exact Hb.
Qed.

(** The receiver's reading of the second and third message byte as a key. *)
Definition rx_message_key (byte1 byte2 : Z) : Z :=
  u16 (Z.lor (Z.shiftl (u16 (Z.land byte1 (Z.lnot KeyPrefix_Mask))) 8) byte2).

Lemma small_key_not_ftp k :
  0 <= k < 8160 -> Key_IsFtpResponse k = false /\ Key_IsFtpRequest k = false.
Proof.
  intros Hk. unfold Key_IsFtpResponse, Key_IsFtpRequest. cbv zeta.
  change (Z.land k (Z.lnot (Z.shiftl KeyPrefix_Mask 8))) with (Key_WithoutPrefix k).
  rewrite key_body by lia. rewrite Z.mod_small by lia.
  unfold Region_Base__FTP_Responses, Region_Base__FTP_Requests.
  split; apply andb_false_iff; left; rewrite Z.geb_leb; apply Z.leb_gt; lia.
Qed.

Lemma repeat_head_key n pfx h :
  1 <= n <= 31 -> pfx = KeyPrefix_BinaryRepeat \/ pfx = KeyPrefix_AnalogRepeat ->
  0 <= h < 0x60 ->
  (KeyPrefix_PatternSync =? Z.land (u8 (Z.lor n pfx)) KeyPrefix_Mask) = false
  /\ 0 <= rx_message_key (u8 (Z.lor n pfx)) h < 8160.
Proof.
  intros Hn Hp Hh. destruct (repeat_header n pfx Hn Hp) as [H1 _]. split.
  - rewrite H1. destruct Hp as [-> | ->]; reflexivity.
  - unfold rx_message_key.
    assert (Hlow : u16 (Z.land (u8 (Z.lor n pfx)) (Z.lnot KeyPrefix_Mask)) = n).
    { assert (Hb : 0 <= n < 256) by lia. revert Hn. apply Z.eqb_eq in H1. clear H1.
      destruct Hp as [-> | ->]; intros Hn; apply Z.eqb_eq;
        [ pose proof (byte_forall
            (fun n => negb ((1 <=? n) && (n <=? 31))
                      || (u16 (Z.land (u8 (Z.lor n KeyPrefix_BinaryRepeat))
                                      (Z.lnot KeyPrefix_Mask)) =? n))
            ltac:(vm_compute; reflexivity) n Hb) as H
        | pose proof (byte_forall
            (fun n => negb ((1 <=? n) && (n <=? 31))
                      || (u16 (Z.land (u8 (Z.lor n KeyPrefix_AnalogRepeat))
                                      (Z.lnot KeyPrefix_Mask)) =? n))
            ltac:(vm_compute; reflexivity) n Hb) as H ];
        cbv beta in H;
        replace ((1 <=? n) && (n <=? 31)) with true in H
          by (symmetry; apply andb_true_iff; split; apply Z.leb_le; lia);
        exact H. }
    rewrite Hlow, lor_shiftl_add by lia. unfold u16. change (2 ^ 8) with 256.
    rewrite Z.mod_small by lia. lia.
Qed.

Lemma plain_head_key key0 :
  0 <= key0 < 0x6000 ->
  (KeyPrefix_PatternSync =? Z.land (u8 (Z.shiftr key0 8)) KeyPrefix_Mask) = false
  /\ rx_message_key (u8 (Z.shiftr key0 8)) (u8 key0) = Key_WithoutPrefix key0.
Proof.
  intros Hk. split.
  - destruct (key_high_byte key0 Hk) as [H | [H | H]]; cbv zeta in H; rewrite H;
      reflexivity.
  - apply rx_key. lia.
Qed.

Lemma high_byte_small key0 : 0 <= key0 < 0x6000 -> 0 <= u8 (Z.shiftr key0 8) < 0x60.
Proof.
  intros Hk. rewrite Z.shiftr_div_pow2 by lia. change (2 ^ 8) with 256. unfold u8.
  rewrite Z.mod_small; Z.div_mod_to_equations; lia.
Qed.

(** The first two bytes that [MatrixCodec_Compress] emits for a flagged
    token, as the receiver classifies them. *)
Lemma Compress_step_head t rest :
  should_broadcast t = true -> token_prefix_key t ->
  Key_IsFtpResponse (token_key t) = false -> Key_IsFtpRequest (token_key t) = false ->
  exists b1 b2 more,
    fst (Compress_step t rest) = b1 :: b2 :: more
    /\ (KeyPrefix_PatternSync =? Z.land b1 KeyPrefix_Mask) = false
    /\ Key_IsFtpResponse (rx_message_key b1 b2) = false
    /\ Key_IsFtpRequest (rx_message_key b1 b2) = false.
Proof.
  intros Hflag Hk Hresp Hreq. unfold token_prefix_key in Hk.
  assert (Hplain : exists b1 b2 more,
            OutputToken t = b1 :: b2 :: more
            /\ (KeyPrefix_PatternSync =? Z.land b1 KeyPrefix_Mask) = false
            /\ Key_IsFtpResponse (rx_message_key b1 b2) = false
            /\ Key_IsFtpRequest (rx_message_key b1 b2) = false).
  { destruct (plain_head_key (token_key t) Hk) as [H1 H2].
    eexists _, _, _. split; [reflexivity|]. split; [exact H1|].
    rewrite H2, Key_IsFtpResponse_WithoutPrefix, Key_IsFtpRequest_WithoutPrefix.
    split; assumption. }
  assert (Hrepeat : forall n pfx tail,
            1 <= n <= 31 ->
            pfx = KeyPrefix_BinaryRepeat \/ pfx = KeyPrefix_AnalogRepeat ->
            exists b1 b2 more,
              u8 (Z.lor n pfx) :: u8 (Z.shiftr (token_key t) 8) :: tail = b1 :: b2 :: more
              /\ (KeyPrefix_PatternSync =? Z.land b1 KeyPrefix_Mask) = false
              /\ Key_IsFtpResponse (rx_message_key b1 b2) = false
              /\ Key_IsFtpRequest (rx_message_key b1 b2) = false).
  { intros n pfx tail Hn Hp.
    destruct (repeat_head_key n pfx _ Hn Hp (high_byte_small _ Hk)) as [H1 H2].
    eexists _, _, _. split; [reflexivity|]. split; [exact H1|].
    apply small_key_not_ftp, H2. }
  unfold Compress_step. cbv zeta. rewrite Hflag. cbn [negb].
  destruct (0 =? Key_ValueSize (token_key t)); [exact Hplain|].
  destruct (find_series 31 (Key_ValueSize (token_key t)) 0 0 (token_value t)
                        (token_key t + 1) (t :: rest)) as [[nA nB] V] eqn:Ef.
  destruct (find_series_spec _ _ _ _ _ _ _ _ _ _ _ Ef ltac:(lia) ltac:(lia))
    as (cs & fin & _ & HnA & HnA31 & _ & HnB).
  destruct (negb (nB =? 0) && (nB <? MATRIX_MESSAGE_MAX_TOKEN_REPEATS)) eqn:Eb.
  - apply andb_true_iff in Eb. destruct Eb as [Eb0 Eb32].
    apply negb_true_iff, Z.eqb_neq in Eb0. apply Z.ltb_lt in Eb32.
    unfold MATRIX_MESSAGE_MAX_TOKEN_REPEATS in Eb32.
    destruct (HnB Eb32) as (_ & HnBv & _).
    destruct (binary_bitmap (Z.to_nat (nB + 1)) 0 0 (t :: rest)) as [bitmap token'].
    cbn [fst]. unfold OutputTokenKey. cbn [app].
    apply Hrepeat; [lia | left; reflexivity].
  - destruct (negb (nA =? 0)) eqn:Ea; [|exact Hplain].
    apply negb_true_iff, Z.eqb_neq in Ea.
    destruct (analog_values (Z.to_nat nA) _ (next_status_token (t :: rest)))
      as [values token'].
    cbn [fst]. unfold OutputToken. cbn [app].
    apply Hrepeat; [lia | right; reflexivity].
Qed.

Lemma Compress_loop_head fuel : forall tokens t cs,
  (length tokens <= fuel)%nat ->
  filter should_broadcast tokens = t :: cs ->
  token_prefix_key t ->
  Key_IsFtpResponse (token_key t) = false -> Key_IsFtpRequest (token_key t) = false ->
  exists b1 b2 more,
    Compress_loop fuel tokens = b1 :: b2 :: more
    /\ (KeyPrefix_PatternSync =? Z.land b1 KeyPrefix_Mask) = false
    /\ Key_IsFtpResponse (rx_message_key b1 b2) = false
    /\ Key_IsFtpRequest (rx_message_key b1 b2) = false.
Proof.
  induction fuel as [|fuel IH]; intros tokens t cs Hlen Hf Hk Hresp Hreq.
  - destruct tokens; [discriminate Hf | cbn in Hlen; lia].
  - destruct tokens as [|t0 rest]; [discriminate Hf|].
    cbn [Compress_loop]. cbn [filter] in Hf.
    destruct (should_broadcast t0) eqn:E0.
    + injection Hf as -> _.
      destruct (Compress_step_head t rest E0 Hk Hresp Hreq)
        as (b1 & b2 & more & Hs & H1 & H2 & H3).
      destruct (Compress_step t rest) as [bytes token']. cbn [fst] in Hs. subst bytes.
      exists b1, b2, (more ++ Compress_loop fuel token'). repeat split; assumption.
    + assert (Hs : Compress_step t0 rest = ([], rest))
        by (unfold Compress_step; rewrite E0; reflexivity).
      rewrite Hs. cbn [app]. apply (IH rest t cs); auto. cbn [length] in Hlen. lia.
Qed.

Lemma ReceiveCanFrame_length own id data dataSize t r :
  length (rxBuffer (Matrix_ReceiveCanFrame own id data dataSize t r))
  = length (rxBuffer r).
Proof.
  unfold Matrix_ReceiveCanFrame. cbv zeta.
  repeat match goal with
         | |- context [if ?c then r else _] => destruct c; [reflexivity|]
         end.
  cbn [rxBuffer]. apply length_array_set.
Qed.

Lemma window_one {A : Type} (d : A) : forall (l : list A) (w : nat),
  (w < length l)%nat -> firstn 1 (skipn w l) = [nth w l d].
Proof.
  induction l as [|a l IH]; intros w Hw; [cbn in Hw; lia|].
  destruct w; [reflexivity|]. cbn [skipn nth]. apply IH. cbn in Hw. lia.
Qed.

(** X24.  The status message from node to node.  When its status timer has
    expired, no sender filter is set and its address is valid, the status
    part of [Matrix_Clock] schedules the next status message
    [address + 940] ms later and sends the compressed token table as one
    broadcast message.
    If the table has entries flagged for broadcast, all with Command,
    OutputStatus or InputStatus keys outside the FTP regions, and the
    message fits the receiver's buffer, then a receiver that has taken the
    frames in, holds them as the frames in its stream and does not class
    the sender's event index as expired hands
    the compressed bytes to [MatrixCodec_Decompress], which yields exactly
    the flagged entries in table order, each with the sender's address, its
    key, and its value cut to the value size of the key. *)
Theorem status_message_round_trip (lib : MATRIX_LIB) (rcvOwn t e : Z)
    (r : MATRIX_RECEIVER) (downstream : DISPATCH -> Z -> Z) (fuel : nat) :
  let m := Matrix lib in
  let own := Matrix_GetCanAddress (MatrixCanAddress m) in
  let table := MatrixTimeLogic_TokenTable lib in
  let sent := filter should_broadcast table in
  let bytes := snd (MatrixCodec_Compress table) in
  let index := u8 (fst (Matrix_GetEventIndex (MatrixEventIndex m))) in
  let lib' := Matrix_Clock_status 0 lib in
  let frames := skipn (length (enqueued (MatrixTransmitter m)))
                  (enqueued (MatrixTransmitter (Matrix lib'))) in
  let stream := firstn (length frames)
                  (skipn (Z.to_nat (rx_write_slot r))
                         (rxBuffer (receive_frames rcvOwn t frames r))) in
  IsMatrixTimerExpired (systemTime m) (nextStatusTime m) = true ->
  Matrix_IsCanAddressValid (MatrixCanAddress m) = true ->
  0 <= own < 128 ->
  0 <= frameIndex (MatrixTransmitter m) < 32 ->
  sent <> [] ->
  Forall (fun c => token_prefix_key c
                   /\ Key_IsFtpResponse (token_key c) = false
                   /\ Key_IsFtpRequest (token_key c) = false) sent ->
  length (rxBuffer r) = 20%nat -> 0 <= rxBufferWriteIndex r ->
  Z.of_nat (length bytes) + 3 <= 8 * (20 - rx_write_slot r) ->
  senderAddressFilter r = 0 \/ senderAddressFilter r = own ->
  Matrix_IsEventIndexExpired index (Matrix_NewEventIndex index e) = false ->
  nextStatusTime (Matrix lib') = u32 (nextStatusTime m + (own + 940))
  /\ (exists d,
        ProcessMessagesInStream downstream (S fuel) e stream
        = Some (downstream (delivered d) (Matrix_NewEventIndex index e), [d])
        /\ delivered d = Codec_Decompress own bytes)
  /\ MatrixCodec_Decompress bytes own = (0, map (wire_token own) sent, []).
Proof.
  intros m own table sent bytes index lib' frames stream
         Htimer Hvalid Hown Hfi Hsent Hkeys Hbuf Hwi Hfit Hfilt Hfresh.
  assert (Hprefix : Forall token_prefix_key sent)
    by (eapply Forall_impl; [|exact Hkeys]; intros c [H _]; exact H).
  assert (Htable : table <> [])
    by (intros H; apply Hsent; exact (f_equal (filter should_broadcast) H)).
  assert (Hbytes : bytes = Compress_loop (length table) table).
  { unfold bytes, MatrixCodec_Compress. destruct table; [congruence | reflexivity]. }
  assert (Hcons : exists c0 cs, sent = c0 :: cs)
    by (destruct sent as [|c0 cs]; [congruence | eauto]).
  destruct Hcons as (c0 & cs & Es). rewrite Es in Hkeys, Hprefix |- *.
  pose proof (Forall_inv Hkeys) as (Hk0 & Hresp0 & Hreq0).
  destruct (Compress_loop_head (length table) table c0 cs (Nat.le_refl _) Es
              Hk0 Hresp0 Hreq0) as (b1 & b2 & more & Hhead & Hsync & Hresp & Hreq).
  rewrite <- Hbytes in Hhead.
  assert (Hisb : Forall is_byte bytes) by (rewrite Hbytes; apply Compress_loop_bytes).
  assert (Hdec : MatrixCodec_Decompress bytes own = (0, map (wire_token own) (c0 :: cs), [])).
  { unfold MatrixCodec_Decompress. rewrite Hhead, <- Hhead, Hbytes, <- Es.
    apply Decompress_loop_Compress_loop; [lia | lia |].
    fold sent. rewrite Es. exact Hprefix. }
  assert (Hlib' : Matrix lib'
                  = mkState (systemTime m) (u32 (nextStatusTime m + (own + (1000 - 60))))
                      (snd (Matrix_GetEventIndex (MatrixEventIndex m)))
                      (MatrixCanAddress m)
                      (transmit own (MatrixEventIndex m) CAN_BROADCAST_ADDRESS KeyNull
                         bytes (MatrixTransmitter m))).
  { unfold lib', Matrix_Clock_status. fold m. rewrite Htimer, Hvalid. cbn [andb Z.eqb].
    fold own. unfold transmit, MatrixTransmitter_StartMessage, add_bytes. fold table bytes.
    rewrite StartMessage_spec. cbn [fst snd set_Matrix Matrix]. reflexivity. }
  split; [rewrite Hlib'; reflexivity|]. split; [|exact Hdec].
  set (msg := message_bytes KeyNull (MatrixEventIndex m) bytes).
  assert (Hmsg : msg = index :: b1 :: b2 :: more).
  { unfold msg, message_bytes. cbn [map]. rewrite (map_u8_bytes bytes Hisb), Hhead.
    reflexivity. }
  assert (Hlenmsg : length msg = S (length bytes))
    by (rewrite Hmsg, Hhead; reflexivity).
  assert (Htail : skipn 1 msg = bytes) by (rewrite Hmsg, Hhead; reflexivity).
  assert (Hn0 : nth 0 msg 0 = index) by (rewrite Hmsg; reflexivity).
  assert (Hn1 : nth 1 msg 0 = b1) by (rewrite Hmsg; reflexivity).
  assert (Hn2 : nth 2 msg 0 = b2) by (rewrite Hmsg; reflexivity).
  assert (Hw : 0 <= rx_write_slot r < 20).
  { unfold rx_write_slot, CAN_RX_STREAM_BUFFER_BACK_SIZE.
    destruct (Z.geb_spec (rxBufferWriteIndex r) 20); lia. }
  assert (Htx : MatrixTransmitter (Matrix lib')
                = transmit own (MatrixEventIndex m) CAN_BROADCAST_ADDRESS KeyNull bytes
                    (MatrixTransmitter m)) by (rewrite Hlib'; reflexivity).
  destruct (Nat.le_gt_cases (length msg) 8) as [Hshort | Hlong].
  - pose proof (transmit_single own (MatrixEventIndex m) CAN_BROADCAST_ADDRESS KeyNull
                  bytes (MatrixTransmitter m) Hshort) as He.
    fold msg in He.
    set (f := message_frame own CAN_BROADCAST_ADDRESS KeyNull msg
                (frameIndex (MatrixTransmitter m))) in He.
    assert (Hframes : frames = [f]).
    { unfold frames. rewrite Htx, He, skipn_app, skipn_all, Nat.sub_diag. reflexivity. }
    destruct (short_message_process own CAN_BROADCAST_ADDRESS KeyNull msg
                (frameIndex (MatrixTransmitter m)) rcvOwn t e r Hown
                ltac:(unfold CAN_BROADCAST_ADDRESS; lia) ltac:(left; reflexivity) Hfi
                ltac:(rewrite Hlenmsg, Hhead in *; cbn [length] in *; lia) Hbuf Hwi)
      as (Hfl & Hds & Hp).
    fold f in Hfl, Hds, Hp.
    set (g := nth (Z.to_nat (rx_write_slot r))
                (rxBuffer (Matrix_ReceiveCanFrame rcvOwn (driver_id f) (tx_data f)
                             (driver_size f) t r)) zero_rx_frame) in *.
    assert (Hstream : stream = [g]).
    { unfold stream. rewrite Hframes. cbn [length receive_frames fold_left].
      apply window_one. rewrite ReceiveCanFrame_length, Hbuf. lia. }
    cbv zeta in Hp.
    rewrite Hn0, Hn1, Hn2 in Hp.
    fold (rx_message_key b1 b2) in Hp. rewrite Hsync, Hresp, Hreq in Hp.
    fold index in Hfresh. rewrite Hfresh in Hp. cbn [negb] in Hp.
    rewrite !orb_true_r in Hp. rewrite Htail in Hp.
    rewrite <- Hds in Hp at 1.
    assert (Hrange : 0 <= rx_dataSize g < 65536) by (rewrite Hds; lia).
    eexists. rewrite Hstream. split.
    + apply (stream_single downstream fuel e g _ _ Hfl Hrange Hp).
    + reflexivity.
  - destruct (long_message_process own (MatrixEventIndex m) CAN_BROADCAST_ADDRESS
                KeyNull bytes (MatrixTransmitter m) rcvOwn t e r Hown
                ltac:(unfold CAN_BROADCAST_ADDRESS; lia) ltac:(left; reflexivity) Hfi
                Hlong Hbuf Hwi ltac:(fold msg; lia) Hfilt)
      as (_ & Hnext & _ & g0 & gs' & Hs & Hflag & Hsender & Hindex & Hp).
    rewrite <- Htx in Hnext, Hs, Hp. fold frames in Hnext, Hs, Hp.
    fold stream in Hnext, Hs, Hp. fold msg in Hnext, Hp.
    cbv zeta in Hp.
    rewrite Hn0, Hn1, Hn2 in Hp.
    fold (rx_message_key b1 b2) in Hp. rewrite Hsync, Hresp, Hreq in Hp.
    fold index in Hfresh. rewrite Hfresh in Hp. cbn [negb] in Hp.
    rewrite orb_true_r in Hp. rewrite Htail in Hp.
    rewrite Hs in Hnext, Hp |- *. rewrite <- Hsender, <- Hindex in Hnext.
    eexists. split.
    + apply (stream_one_message downstream fuel e g0 gs' _ _ _ _ Hflag Hnext Hp).
    + reflexivity.
Qed.

Definition sample_status_node : MATRIX_LIB :=
  mkLib (mkState 7000 6000 7 (mkCanAddress 0 0 0 0 5 0) sample_tx)
        (TokenSequencerController (node_running_1030 5))
        [mkMtlToken (mkTOKEN 0x0C 0 0x43E8 1) 0 0; mkMtlToken (mkTOKEN 0 0 0x0005 9) 0 0]
        true [].

Lemma status_message_round_trip_witness :
  MatrixCodec_Decompress
    (snd (MatrixCodec_Compress (MatrixTimeLogic_TokenTable sample_status_node)))
    (Matrix_GetCanAddress (MatrixCanAddress (Matrix sample_status_node)))
  = (0,
     map (wire_token (Matrix_GetCanAddress (MatrixCanAddress (Matrix sample_status_node))))
         (filter should_broadcast (MatrixTimeLogic_TokenTable sample_status_node)),
     []).
Proof.
  assert (Htimer : IsMatrixTimerExpired (systemTime (Matrix sample_status_node))
                     (nextStatusTime (Matrix sample_status_node)) = true)
    by (vm_compute; reflexivity).
  assert (Hvalid : Matrix_IsCanAddressValid (MatrixCanAddress (Matrix sample_status_node))
                   = true) by (vm_compute; reflexivity).
  assert (Hown : 0 <= Matrix_GetCanAddress (MatrixCanAddress (Matrix sample_status_node))
                 < 128) by (vm_compute; split; [discriminate | reflexivity]).
  assert (Hfi : 0 <= frameIndex (MatrixTransmitter (Matrix sample_status_node)) < 32)
    by (vm_compute; split; [discriminate | reflexivity]).
  assert (Hsent : filter should_broadcast (MatrixTimeLogic_TokenTable sample_status_node)
                  <> []) by (vm_compute; discriminate).
  assert (Hkeys : Forall (fun c => token_prefix_key c
                                   /\ Key_IsFtpResponse (token_key c) = false
                                   /\ Key_IsFtpRequest (token_key c) = false)
                    (filter should_broadcast
                       (MatrixTimeLogic_TokenTable sample_status_node))).
  { vm_compute. constructor; [|constructor].
    split; [split; [discriminate | reflexivity] | split; reflexivity]. }
  assert (Hbuf : length (rxBuffer sample_receiver) = 20%nat) by reflexivity.
  assert (Hwi : 0 <= rxBufferWriteIndex sample_receiver) by (cbn; lia).
  assert (Hfit : Z.of_nat (length (snd (MatrixCodec_Compress
                                         (MatrixTimeLogic_TokenTable sample_status_node))))
                 + 3 <= 8 * (20 - rx_write_slot sample_receiver))
    by (vm_compute; discriminate).
  assert (Hfilt : senderAddressFilter sample_receiver = 0
                  \/ senderAddressFilter sample_receiver
                     = Matrix_GetCanAddress (MatrixCanAddress (Matrix sample_status_node)))
    by (left; reflexivity).
  assert (Hfresh : Matrix_IsEventIndexExpired
                     (u8 (fst (Matrix_GetEventIndex
                                 (MatrixEventIndex (Matrix sample_status_node)))))
                     (Matrix_NewEventIndex
                        (u8 (fst (Matrix_GetEventIndex
                                    (MatrixEventIndex (Matrix sample_status_node))))) 3)
                   = false) by (vm_compute; reflexivity).
  exact (proj2 (proj2
           (status_message_round_trip sample_status_node 9 1000 3 sample_receiver
              (fun _ e => e) 0
              Htimer Hvalid Hown Hfi Hsent Hkeys Hbuf Hwi Hfit Hfilt Hfresh))).
Defined.

(** ** [MatrixReceiver_Clock]: from the interrupt buffer to the stream *)

Lemma wrap_new_frames_spec fuel w r :
  (2 <= fuel)%nat -> 0 <= w < 20 -> 0 <= r < 20 ->
  wrap_new_frames fuel (u16 (w - r)) = (w - r) mod 20.
Proof.
  intros Hfuel Hw Hr. destruct fuel as [|[|fuel]]; try lia.
  unfold u16, CAN_RX_STREAM_BUFFER_BACK_SIZE.
  destruct (Z.le_gt_cases r w) as [Hle|Hgt].
  - rewrite (Z.mod_small (w - r) 65536) by lia. cbn [wrap_new_frames].
    unfold CAN_RX_STREAM_BUFFER_BACK_SIZE.
    replace (w - r >? 20) with false by (symmetry; rewrite Z.gtb_ltb; apply Z.ltb_ge; lia).
    symmetry. apply Z.mod_small. lia.
  - assert (H1 : (w - r) mod 65536 = w - r + 65536)
      by (symmetry; apply (Z.mod_unique _ _ (-1)); lia).
    assert (H2 : (w - r) mod 20 = w - r + 20)
      by (symmetry; apply (Z.mod_unique _ _ (-1)); lia).
    rewrite H1, H2. cbn [wrap_new_frames]. unfold CAN_RX_STREAM_BUFFER_BACK_SIZE, u16.
    replace (w - r + 65536 >? 20) with true by (symmetry; rewrite Z.gtb_ltb; apply Z.ltb_lt; lia).
    assert (H3 : (w - r + 65536 + 20) mod 65536 = w - r + 20)
      by (symmetry; apply (Z.mod_unique _ _ 1); lia).
    rewrite H3.
    replace (w - r + 20 >? 20) with false by (symmetry; rewrite Z.gtb_ltb; apply Z.ltb_ge; lia).
    reflexivity.
Qed.

(** The slots of the interrupt buffer from [readIndex] on, going round. *)
Definition rx_ring (rxBuffer : list MATRIX_RX_CAN_FRAME) (readIndex : Z) (count : nat)
  : list MATRIX_RX_CAN_FRAME :=
  map (fun i => nth (Z.to_nat ((readIndex + Z.of_nat i) mod 20)) rxBuffer zero_rx_frame)
      (seq 0 count).

Lemma copy_new_frames_spec rxb : forall count r,
  0 <= r < 20 ->
  copy_new_frames count rxb r = (rx_ring rxb r count, (r + Z.of_nat count) mod 20).
Proof.
  induction count as [|count IH]; intros r Hr.
  - cbn [copy_new_frames]. unfold rx_ring. cbn [seq map Z.of_nat].
    rewrite Z.add_0_r, Z.mod_small by lia. reflexivity.
  - cbn [copy_new_frames]. cbv zeta. unfold CAN_RX_STREAM_BUFFER_BACK_SIZE, u16.
    rewrite (Z.mod_small (r + 1) 65536) by lia.
    assert (Hnext : (if r + 1 >=? 20 then 0 else r + 1) = (r + 1) mod 20).
    { destruct (Z.geb_spec (r + 1) 20).
      - assert (r = 19) by lia. subst r. reflexivity.
      - symmetry. apply Z.mod_small. lia. }
    rewrite Hnext, IH by (apply Z.mod_pos_bound; lia).
    unfold rx_ring. cbn [seq map]. rewrite <- seq_shift, map_map.
    f_equal; [f_equal|].
    + rewrite Z.add_0_r, Z.mod_small by lia. reflexivity.
    + apply map_ext. intros i. f_equal. f_equal.
      rewrite Z.add_mod_idemp_l by lia. f_equal. lia.
    + rewrite Z.add_mod_idemp_l by lia. f_equal. lia.
Qed.

(** X25.  [MatrixReceiver_Clock] moves the frames that arrived since the
    last clock from the interrupt buffer to the end of the stream buffer,
    oldest first, shifting the older stream content towards the front; the
    number of new frames is the distance from the read to the write index
    modulo 20, also when the write index has gone round; afterwards the
    read index equals the write index.  When the filter timer has expired
    the sender filter is cleared and the timer is set 1000 ms ahead. *)
Theorem receiver_clock_moves_new_frames (t : Z) (stream : list MATRIX_RX_CAN_FRAME)
    (r : MATRIX_RECEIVER) :
  0 <= rxBufferWriteIndex r < 20 -> 0 <= rxBufferReadIndex r < 20 ->
  let '(r', stream', n) := MatrixReceiver_Clock t stream r in
  n = (rxBufferWriteIndex r - rxBufferReadIndex r) mod 20
  /\ stream' = skipn (Z.to_nat n) stream
               ++ rx_ring (rxBuffer r) (rxBufferReadIndex r) (Z.to_nat n)
  /\ (length stream = 72%nat -> length stream' = 72%nat)
  /\ rxBufferReadIndex r' = rxBufferWriteIndex r
  /\ rxBufferWriteIndex r' = rxBufferWriteIndex r
  /\ rxBuffer r' = rxBuffer r
  /\ senderAddressFilter r'
     = (if IsMatrixTimerExpired t (senderAddressFilterTimeout r)
        then 0 else senderAddressFilter r)
  /\ senderAddressFilterTimeout r'
     = (if IsMatrixTimerExpired t (senderAddressFilterTimeout r)
        then u32 (t + 1000) else senderAddressFilterTimeout r).
Proof.
  intros Hw Hr. unfold MatrixReceiver_Clock.
  replace (rxBufferReadIndex r >=? CAN_RX_STREAM_BUFFER_BACK_SIZE) with false
    by (symmetry; unfold CAN_RX_STREAM_BUFFER_BACK_SIZE; rewrite Z.geb_leb;
        apply Z.leb_gt; lia).
  rewrite (wrap_new_frames_spec 3277 _ _ ltac:(lia) Hw Hr).
  set (n := (rxBufferWriteIndex r - rxBufferReadIndex r) mod 20).
  assert (Hn : 0 <= n < 20) by (apply Z.mod_pos_bound; lia).
  destruct (IsMatrixTimerExpired t (senderAddressFilterTimeout r)) eqn:Et;
    cbv iota beta;
    (destruct (Z.ltb_spec 0 n) as [Hpos|Hzero];
     [ rewrite copy_new_frames_spec by exact Hr;
       assert (Hri : (rxBufferReadIndex r + Z.of_nat (Z.to_nat n)) mod 20
                     = rxBufferWriteIndex r)
         by (rewrite Z2Nat.id by lia; unfold n;
             rewrite Z.add_mod_idemp_r by lia;
             replace (rxBufferReadIndex r + (rxBufferWriteIndex r - rxBufferReadIndex r))
               with (rxBufferWriteIndex r) by lia;
             apply Z.mod_small; lia);
       cbn [rxBufferReadIndex rxBufferWriteIndex rxBuffer senderAddressFilter
            senderAddressFilterTimeout];
       repeat split; try reflexivity; try exact Hri;
       intros Hlen; rewrite length_app, length_skipn; unfold rx_ring;
       rewrite length_map, length_seq; lia
     | assert (Hn0 : n = 0) by lia;
       assert (Heq : rxBufferWriteIndex r = rxBufferReadIndex r)
         by (unfold n in Hn0; apply Z.mod_divide in Hn0; [|lia];
             destruct Hn0 as [q Hq]; lia);
       cbn [rxBufferReadIndex rxBufferWriteIndex rxBuffer senderAddressFilter
            senderAddressFilterTimeout];
       rewrite Hn0; unfold rx_ring; cbn [Z.to_nat seq map skipn];
       rewrite app_nil_r; repeat split; auto ]).
Qed.

Lemma receiver_clock_moves_new_frames_witness :
  let r := mkReceiver (repeat zero_rx_frame 20) 2 18 0 0 in
  fst (MatrixReceiver_Clock 5000 (repeat zero_rx_frame 72) r)
  = (mkReceiver (repeat zero_rx_frame 20) 2 2 6000 0, repeat zero_rx_frame 72)
  /\ snd (MatrixReceiver_Clock 5000 (repeat zero_rx_frame 72) r) = 4.
Proof.
  cbv zeta.
  assert (Hw : 0 <= rxBufferWriteIndex (mkReceiver (repeat zero_rx_frame 20) 2 18 0 0) < 20)
    by (cbn; lia).
  assert (Hr : 0 <= rxBufferReadIndex (mkReceiver (repeat zero_rx_frame 20) 2 18 0 0) < 20)
    by (cbn; lia).
  pose proof (receiver_clock_moves_new_frames 5000 (repeat zero_rx_frame 72)
                (mkReceiver (repeat zero_rx_frame 20) 2 18 0 0) Hw Hr) as H.
  destruct (MatrixReceiver_Clock 5000 (repeat zero_rx_frame 72)
              (mkReceiver (repeat zero_rx_frame 20) 2 18 0 0)) as [[r' stream'] n] eqn:E.
  destruct H as (Hn & _). cbn [fst snd]. split; [|exact Hn].
  vm_compute in E. injection E as <- <- _. reflexivity.
Defined.

Lemma receive_frames_indices own t : forall frames r,
  0 <= rxBufferWriteIndex r < 20 ->
  Forall (storable own (senderAddressFilter r)) frames ->
  rxBufferReadIndex (receive_frames own t frames r) = rxBufferReadIndex r
  /\ rxBufferWriteIndex (receive_frames own t frames r)
     = (rxBufferWriteIndex r + Z.of_nat (length frames)) mod 20.
Proof.
  induction frames as [|f frames IH]; intros r Hw Hall.
  - cbn [receive_frames fold_left length Z.of_nat].
    rewrite Z.add_0_r, Z.mod_small by lia. split; reflexivity.
  - pose proof (Forall_inv Hall) as (Hok & Hty & Hsz & Hacc).
    pose proof (Forall_inv_tail Hall) as Hall'.
    unfold receive_frames. cbn [fold_left]. fold (receive_frames own t frames).
    rewrite (intake_frame own t f r Hok Hty Hsz), Hacc.
    assert (Hslot : rx_write_slot r = rxBufferWriteIndex r).
    { unfold rx_write_slot, CAN_RX_STREAM_BUFFER_BACK_SIZE.
      destruct (Z.geb_spec (rxBufferWriteIndex r) 20); [lia | reflexivity]. }
    rewrite Hslot.
    assert (Hnext : (if u16 (rxBufferWriteIndex r + 1) >=? CAN_RX_STREAM_BUFFER_BACK_SIZE
                     then 0 else u16 (rxBufferWriteIndex r + 1))
                    = (rxBufferWriteIndex r + 1) mod 20).
    { unfold u16, CAN_RX_STREAM_BUFFER_BACK_SIZE.
      rewrite (Z.mod_small (rxBufferWriteIndex r + 1) 65536) by lia.
      destruct (Z.geb_spec (rxBufferWriteIndex r + 1) 20) as [Hge|Hlt].
      - replace (rxBufferWriteIndex r + 1) with 20 by lia. reflexivity.
      - symmetry. apply Z.mod_small. lia. }
    rewrite Hnext.
    match goal with |- context [fold_left ?g frames ?x] =>
      set (r1 := x); change (fold_left g frames r1) with (receive_frames own t frames r1)
    end.
    assert (Hw1 : rxBufferWriteIndex r1 = (rxBufferWriteIndex r + 1) mod 20)
      by reflexivity.
    destruct (IH r1) as [H1 H2].
    + rewrite Hw1. apply Z.mod_pos_bound. lia.
    + exact Hall'.
    + rewrite H1, H2, Hw1. split; [reflexivity|].
      rewrite Zplus_mod_idemp_l. f_equal. cbn [length]. lia.
Qed.

Lemma rx_ring_window rxb (w : Z) (n : nat) :
  0 <= w -> (Z.to_nat w + n <= 20)%nat -> length rxb = 20%nat ->
  rx_ring rxb w n = firstn n (skipn (Z.to_nat w) rxb).
Proof.
  intros Hw Hfit Hlen.
  apply (nth_ext _ _ zero_rx_frame zero_rx_frame).
  - unfold rx_ring. rewrite length_map, length_seq, length_firstn, length_skipn. lia.
  - intros i Hi. unfold rx_ring in *. rewrite length_map, length_seq in Hi.
    rewrite nth_window by exact Hi.
    rewrite (nth_indep _ zero_rx_frame
               ((fun i0 : nat => nth (Z.to_nat ((w + Z.of_nat i0) mod 20)) rxb
                                     zero_rx_frame) 0%nat))
      by (rewrite length_map, length_seq; exact Hi).
    rewrite (map_nth (fun i0 : nat => nth (Z.to_nat ((w + Z.of_nat i0) mod 20)) rxb
                                          zero_rx_frame)).
    rewrite seq_nth by exact Hi. cbn [Nat.add].
    rewrite Z.mod_small by lia. f_equal. lia.
Qed.

Lemma stream_skip_empty downstream e rest : forall empties fuel,
  Forall (fun g => frameFlags g = MR_FRAME_FLAG_NONE) empties ->
  ProcessMessagesInStream downstream (length empties + fuel) e (empties ++ rest)
  = ProcessMessagesInStream downstream fuel e rest.
Proof.
  induction empties as [|g empties IH]; intros fuel Hall; [reflexivity|].
  cbn [length Nat.add app ProcessMessagesInStream].
  rewrite (Forall_inv Hall), Z.eqb_refl. apply IH. exact (Forall_inv_tail Hall).
Qed.

Lemma Forall_skipn_list {A : Type} (P : A -> Prop) : forall n (l : list A),
  Forall P l -> Forall P (skipn n l).
Proof.
  induction n as [|n IH]; intros l H; [exact H|].
  destruct l as [|a l]; [constructor|]. cbn [skipn]. apply IH.
  exact (Forall_inv_tail H).
Qed.

(** ** [RemoveUnprocessedFrames]: which frames leave the stream *)

(** The test of [RemoveUnprocessedFrames] on one frame. *)
Definition timed_out (systemTime : Z) (f : MATRIX_RX_CAN_FRAME) : bool :=
  negb (frameFlags f =? MR_FRAME_FLAG_NONE)
  && (Z.land (u32 (systemTime - timeStamp f)) 0x0fff >? MATRIX_RECEIVED_FRAME_TIMEOUT_MS).

(** A frame in use. *)
Definition in_use (f : MATRIX_RX_CAN_FRAME) : bool :=
  negb (frameFlags f =? MR_FRAME_FLAG_NONE).

(** A frame in use that has been in the buffer for at most the timeout. *)
Definition fresh (systemTime : Z) (f : MATRIX_RX_CAN_FRAME) : bool :=
  in_use f && negb (timed_out systemTime f).

Lemma split_at {A : Type} (d : A) : forall (l : list A) (p : nat),
  (p < length l)%nat -> l = firstn p l ++ nth p l d :: skipn (S p) l.
Proof.
  induction l as [|a l IH]; intros p Hp; [cbn in Hp; lia|].
  destruct p as [|p]; [reflexivity|].
  cbn [firstn nth skipn app]. f_equal. apply IH. cbn in Hp. lia.
Qed.

Lemma drop_frame_spec s p :
  (p < length s)%nat ->
  drop_frame s p
  = set_frameFlags (nth 0 s zero_rx_frame) MR_FRAME_FLAG_NONE
      :: firstn p s ++ skipn (S p) s.
Proof.
  intros Hp. unfold drop_frame, move_frames.
  destruct s as [|s0 s]; [cbn in Hp; lia|].
  destruct p as [|p].
  - reflexivity.
  - change (0 <? S p)%nat with true. cbv iota. reflexivity.
Qed.

Lemma drop_frame_length s p :
  (p < length s)%nat -> length (drop_frame s p) = length s.
Proof.
  intros Hp. rewrite drop_frame_spec by exact Hp.
  cbn [length]. rewrite length_app, length_firstn, length_skipn. lia.
Qed.

Lemma timed_out_in_range t s p :
  timed_out t (nth p s zero_rx_frame) = true -> (p < length s)%nat.
Proof.
  intros H. destruct (Nat.lt_ge_cases p (length s)) as [Hlt|Hge]; [exact Hlt|].
  rewrite nth_overflow in H by exact Hge. discriminate H.
Qed.

Lemma drop_frame_fresh t s p :
  timed_out t (nth p s zero_rx_frame) = true ->
  filter (fresh t) (drop_frame s p) = filter (fresh t) s.
Proof.
  intros H. pose proof (timed_out_in_range t s p H) as Hp.
  assert (Hs : filter (fresh t) s
               = filter (fresh t) (firstn p s) ++ filter (fresh t) (skipn (S p) s)).
  { rewrite (split_at zero_rx_frame s p Hp) at 1.
    rewrite filter_app. cbn [filter]. unfold fresh at 2. rewrite H, andb_false_r.
    reflexivity. }
  rewrite drop_frame_spec, Hs by exact Hp.
  cbn [filter]. rewrite filter_app.
  unfold fresh at 1, in_use. cbn [set_frameFlags frameFlags].
  rewrite Z.eqb_refl. reflexivity.
Qed.

Lemma drop_frame_in_use t s p :
  timed_out t (nth p s zero_rx_frame) = true ->
  S (length (filter in_use (drop_frame s p))) = length (filter in_use s).
Proof.
  intros H. pose proof (timed_out_in_range t s p H) as Hp.
  assert (Hu : in_use (nth p s zero_rx_frame) = true).
  { unfold timed_out in H. apply andb_prop in H. exact (proj1 H). }
  assert (Hs : length (filter in_use s)
               = S (length (filter in_use (firstn p s))
                    + length (filter in_use (skipn (S p) s)))).
  { rewrite (split_at zero_rx_frame s p Hp) at 1.
    rewrite filter_app. cbn [filter]. rewrite Hu, length_app. cbn [length]. lia. }
  rewrite drop_frame_spec, Hs by exact Hp.
  cbn [filter]. rewrite filter_app.
  unfold in_use at 1. cbn [set_frameFlags frameFlags].
  rewrite Z.eqb_refl. cbn [negb]. rewrite length_app. reflexivity.
Qed.

Lemma Remove_from_length t : forall p s,
  length (RemoveUnprocessedFrames_from t p s) = length s.
Proof.
  induction p as [|p IH]; intros s; [reflexivity|].
  cbn [RemoveUnprocessedFrames_from]. rewrite IH.
  fold (timed_out t (nth p s zero_rx_frame)).
  destruct (timed_out t (nth p s zero_rx_frame)) eqn:E; [|reflexivity].
  apply drop_frame_length, (timed_out_in_range t), E.
Qed.

Lemma Remove_from_fresh t : forall p s,
  filter (fresh t) (RemoveUnprocessedFrames_from t p s) = filter (fresh t) s.
Proof.
  induction p as [|p IH]; intros s; [reflexivity|].
  cbn [RemoveUnprocessedFrames_from]. rewrite IH.
  fold (timed_out t (nth p s zero_rx_frame)).
  destruct (timed_out t (nth p s zero_rx_frame)) eqn:E; [|reflexivity].
  apply drop_frame_fresh, E.
Qed.

Lemma Remove_from_none t : forall p s,
  Forall (fun f => timed_out t f = false) s ->
  RemoveUnprocessedFrames_from t p s = s.
Proof.
  induction p as [|p IH]; intros s Hs; [reflexivity|].
  cbn [RemoveUnprocessedFrames_from].
  fold (timed_out t (nth p s zero_rx_frame)).
  assert (E : timed_out t (nth p s zero_rx_frame) = false).
  { destruct (Nat.lt_ge_cases p (length s)) as [Hlt|Hge].
    - exact (proj1 (Forall_forall _ _) Hs _ (nth_In _ _ Hlt)).
    - rewrite nth_overflow by exact Hge. reflexivity. }
  rewrite E. apply IH, Hs.
Qed.

Lemma Remove_from_in_use_le t : forall p s,
  (length (filter in_use (RemoveUnprocessedFrames_from t p s))
   <= length (filter in_use s))%nat.
Proof.
  induction p as [|p IH]; intros s; [apply Nat.le_refl|].
  cbn [RemoveUnprocessedFrames_from].
  fold (timed_out t (nth p s zero_rx_frame)).
  destruct (timed_out t (nth p s zero_rx_frame)) eqn:E; [|apply IH].
  pose proof (IH (drop_frame s p)). pose proof (drop_frame_in_use t s p E). lia.
Qed.

Lemma Remove_from_in_use_lt t : forall p s i,
  (i < p)%nat -> timed_out t (nth i s zero_rx_frame) = true ->
  (length (filter in_use (RemoveUnprocessedFrames_from t p s))
   < length (filter in_use s))%nat.
Proof.
  induction p as [|p IH]; intros s i Hi Hout; [lia|].
  cbn [RemoveUnprocessedFrames_from].
  fold (timed_out t (nth p s zero_rx_frame)).
  destruct (timed_out t (nth p s zero_rx_frame)) eqn:E.
  - pose proof (Remove_from_in_use_le t p (drop_frame s p)).
    pose proof (drop_frame_in_use t s p E). lia.
  - apply (IH s i); [|exact Hout].
    assert (i <> p) by (intros ->; rewrite Hout in E; discriminate E). lia.
Qed.

(** X27.  [RemoveUnprocessedFrames] keeps the size of the stream buffer and
    never removes a frame that is in use and has been there for at most
    [MATRIX_RECEIVED_FRAME_TIMEOUT_MS] (on the 12-bit clock difference):
    those frames stay, in their order.  With no timed-out frame the buffer
    is left as it is; with at least one among the 72 frames, the number of
    frames in use goes down. *)
Theorem RemoveUnprocessedFrames_keeps_fresh (systemTime : Z)
    (streamBuffer : list MATRIX_RX_CAN_FRAME) :
  length (RemoveUnprocessedFrames systemTime streamBuffer) = length streamBuffer
  /\ filter (fresh systemTime) (RemoveUnprocessedFrames systemTime streamBuffer)
     = filter (fresh systemTime) streamBuffer
  /\ (Forall (fun f => timed_out systemTime f = false) streamBuffer ->
      RemoveUnprocessedFrames systemTime streamBuffer = streamBuffer)
  /\ (forall i, (i < 72)%nat ->
        timed_out systemTime (nth i streamBuffer zero_rx_frame) = true ->
        (length (filter in_use (RemoveUnprocessedFrames systemTime streamBuffer))
         < length (filter in_use streamBuffer))%nat).
Proof.
  unfold RemoveUnprocessedFrames. repeat split.
  - apply Remove_from_length.
  - apply Remove_from_fresh.
  - apply Remove_from_none.
  - intros i Hi Hout. apply (Remove_from_in_use_lt systemTime _ _ i); [|exact Hout].
    exact Hi.
Qed.

(** ** [SortNewFrames]: frames in order, and frames kept *)

(** [new] may stay right after [prev]: the slot before it is unused, or holds
    a frame of the same sender whose frame index is 1 to 15 steps earlier
    (modulo 32). *)
Definition follows (prev new : MATRIX_RX_CAN_FRAME) : Prop :=
  frameFlags prev = MR_FRAME_FLAG_NONE
  \/ (senderAddress prev = senderAddress new
      /\ rx_frameIndex prev <> rx_frameIndex new
      /\ Z.land (u32 (rx_frameIndex new - rx_frameIndex prev))
                MATRIX_CAN_ID_FRAME_INDEX_MASK < 16).

Definition in_arrival_order (s : list MATRIX_RX_CAN_FRAME) (j : nat) : Prop :=
  match j with
  | O => True
  | S j' => follows (nth j' s zero_rx_frame) (nth j s zero_rx_frame)
  end.

Lemma sort_new_frame_in_order s j :
  in_arrival_order s j -> sort_new_frame j s = s.
Proof.
  destruct j as [|j]; intros H; [reflexivity|].
  unfold sort_new_frame. cbn [in_arrival_order] in H. cbn [find_same_source].
  destruct (Z.eqb_spec (frameFlags (nth j s zero_rx_frame)) MR_FRAME_FLAG_NONE)
    as [E|E]; [reflexivity|].
  destruct H as [H | (Hs & Hi & Hl)]; [contradiction|].
  rewrite Hs, Z.eqb_refl. cbn [find_position].
  destruct (Z.eqb_spec (frameFlags (nth j s zero_rx_frame)) MR_FRAME_FLAG_NONE)
    as [E'|_]; [contradiction|].
  rewrite Hs, Z.eqb_refl. cbn [negb andb].
  change (15 - 1 >=? 0) with true. cbv iota.
  destruct (Z.eqb_spec (rx_frameIndex (nth j s zero_rx_frame))
              (rx_frameIndex (nth (S j) s zero_rx_frame))) as [E'|_]; [contradiction|].
  change ((MATRIX_CAN_ID_FRAME_INDEX_MASK + 1) / 2) with 16.
  destruct (Z.ltb_spec (Z.land (u32 (rx_frameIndex (nth (S j) s zero_rx_frame)
                                     - rx_frameIndex (nth j s zero_rx_frame)))
                               MATRIX_CAN_ID_FRAME_INDEX_MASK) 16) as [_|Hge]; [|lia].
  destruct (Z.ltb_spec (Z.of_nat j + 1) (Z.of_nat (S j))) as [Hlt|_]; [lia|].
  reflexivity.
Qed.

Lemma SortNewFrames_from_in_order : forall count j s,
  (forall k, (j <= k < j + count)%nat -> in_arrival_order s k) ->
  SortNewFrames_from count j s = s.
Proof.
  induction count as [|count IH]; intros j s H; [reflexivity|].
  cbn [SortNewFrames_from].
  rewrite sort_new_frame_in_order by (apply H; lia).
  apply IH. intros k Hk. apply H. lia.
Qed.

(** X28.  [SortNewFrames] leaves the stream buffer as it is when every new
    frame is already in its place: the slot before it is unused, or holds a
    frame of the same sender with a frame index 1 to 15 steps earlier modulo
    32 (so in particular the frames of one message that arrived in order). *)
Theorem SortNewFrames_in_order_unchanged (numNewFrames : Z)
    (streamBuffer : list MATRIX_RX_CAN_FRAME) :
  0 <= numNewFrames <= CAN_RX_STREAM_BUFFER_FRONT_SIZE ->
  (forall j, (72 - Z.to_nat numNewFrames <= j < 72)%nat ->
     in_arrival_order streamBuffer j) ->
  SortNewFrames numNewFrames streamBuffer = streamBuffer.
Proof.
  intros Hn H. unfold SortNewFrames. apply SortNewFrames_from_in_order.
  intros k Hk. apply H. unfold CAN_RX_STREAM_BUFFER_FRONT_SIZE in *.
  change (Z.to_nat 72) with 72%nat in Hk. lia.
Qed.

(** Two frames of sender 5 with frame indices 31 and 0, behind an
    otherwise empty stream. *)
Definition sample_stream : list MATRIX_RX_CAN_FRAME :=
  repeat zero_rx_frame 70
  ++ [mkRxFrame 5 31 MR_FRAME_FLAG_BODY 0 8 100 [7; 1; 2; 3; 4; 5; 6; 7];
      mkRxFrame 5 0 MR_FRAME_FLAG_LAST 0 3 101 [8; 244; 214]].

Lemma SortNewFrames_in_order_unchanged_witness :
  SortNewFrames 2 sample_stream = sample_stream.
Proof.
  assert (Hn : 0 <= 2 <= CAN_RX_STREAM_BUFFER_FRONT_SIZE) by (vm_compute; split; discriminate).
  apply (SortNewFrames_in_order_unchanged 2 sample_stream Hn).
  intros j Hj. change (Z.to_nat 2) with 2%nat in Hj.
  assert (Hcases : j = 70%nat \/ j = 71%nat) by lia.
  destruct Hcases as [-> | ->].
  - left. reflexivity.
  - right. vm_compute. repeat split; discriminate.
Defined.

(** The sender and frame index of a frame, which [SortNewFrames] compares. *)
Definition sender_and_index (f : MATRIX_RX_CAN_FRAME) : Z * Z :=
  (senderAddress f, rx_frameIndex f).

Lemma in_use_nth_In (s : list MATRIX_RX_CAN_FRAME) (j : nat) :
  (j < length s)%nat -> in_use (nth j s zero_rx_frame) = true ->
  In (nth j s zero_rx_frame) (filter in_use s).
Proof.
  intros Hj Hu. apply filter_In. split; [apply nth_In, Hj | exact Hu].
Qed.

Lemma distinct_nth : forall (s : list MATRIX_RX_CAN_FRAME) (i j : nat),
  NoDup (map sender_and_index (filter in_use s)) ->
  (i < j)%nat -> (j < length s)%nat ->
  in_use (nth i s zero_rx_frame) = true ->
  in_use (nth j s zero_rx_frame) = true ->
  sender_and_index (nth i s zero_rx_frame) <> sender_and_index (nth j s zero_rx_frame).
Proof.
  induction s as [|a s IH]; intros i j Hnd Hij Hj Hui Huj; [cbn in Hj; lia|].
  destruct j as [|j]; [lia|]. cbn [length] in Hj.
  destruct i as [|i]; cbn [nth] in *.
  - cbn [filter] in Hnd. rewrite Hui in Hnd. cbn [map] in Hnd.
    apply NoDup_cons_iff in Hnd. destruct Hnd as [Hnot _].
    intros E. apply Hnot. rewrite E. apply in_map.
    apply in_use_nth_In; [lia | exact Huj].
  - apply IH; try assumption; try lia.
    cbn [filter] in Hnd. destruct (in_use a); [|exact Hnd].
    cbn [map] in Hnd. apply NoDup_cons_iff in Hnd. exact (proj2 Hnd).
Qed.

Lemma find_same_source_spec s new : forall c i,
  find_same_source c s new = Some i -> (i < c)%nat.
Proof.
  induction c as [|c IH]; intros i H; [discriminate H|].
  cbn [find_same_source] in H.
  destruct (frameFlags (nth c s zero_rx_frame) =? MR_FRAME_FLAG_NONE);
    [discriminate H|].
  destruct (senderAddress (nth c s zero_rx_frame) =? senderAddress new).
  - injection H as <-. lia.
  - pose proof (IH i H). lia.
Qed.

Lemma find_position_spec s new : forall c n z m,
  find_position c n s new = (z, m) ->
  -1 <= z < Z.of_nat c
  /\ (m = true ->
      in_use (nth (Z.to_nat z) s zero_rx_frame) = true
      /\ sender_and_index (nth (Z.to_nat z) s zero_rx_frame) = sender_and_index new).
Proof.
  induction c as [|c IH]; intros n z m H.
  - cbn [find_position] in H. injection H as <- <-. split; [cbn; lia | discriminate].
  - cbn [find_position] in H.
    destruct (negb (frameFlags (nth c s zero_rx_frame) =? MR_FRAME_FLAG_NONE)) eqn:Eu;
      cbn [andb] in H.
    2:{ injection H as <- <-. split; [lia | discriminate]. }
    destruct (Z.eqb_spec (senderAddress (nth c s zero_rx_frame)) (senderAddress new))
      as [Es|_]; cbn [andb] in H.
    2:{ injection H as <- <-. split; [lia | discriminate]. }
    destruct (n - 1 >=? 0).
    2:{ injection H as <- <-. split; [lia | discriminate]. }
    destruct (Z.eqb_spec (rx_frameIndex (nth c s zero_rx_frame)) (rx_frameIndex new))
      as [Ei|_].
    + injection H as <- <-. split; [lia|]. intros _. rewrite Nat2Z.id.
      split; [exact Eu|]. unfold sender_and_index. rewrite Es, Ei. reflexivity.
    + destruct (_ <? _).
      * injection H as <- <-. split; [lia | discriminate].
      * destruct (IH _ _ _ H) as [Hz Hm]. split; [lia | exact Hm].
Qed.

Lemma array_set_app {A : Type} (x y : A) : forall (l1 l2 : list A),
  array_set (l1 ++ y :: l2) (length l1) x = l1 ++ x :: l2.
Proof.
  induction l1 as [|a l1 IH]; intros l2; [reflexivity|].
  cbn [app length array_set]. rewrite IH. reflexivity.
Qed.

Lemma firstn_S_nth {A : Type} (d : A) : forall (l : list A) (c : nat),
  (c < length l)%nat -> firstn (S c) l = firstn c l ++ [nth c l d].
Proof.
  induction l as [|a l IH]; intros c Hc; [cbn in Hc; lia|].
  destruct c as [|c]; [reflexivity|].
  cbn [firstn nth app]. f_equal. apply IH. cbn in Hc. lia.
Qed.

(** The move of [SortNewFrames] that puts the frame at [j] in at [c]. *)
Lemma move_into_place (s : list MATRIX_RX_CAN_FRAME) (c j : nat) x :
  (c < j)%nat -> (j < length s)%nat ->
  array_set (move_frames s (c + 1) c (j - c)) c x
  = firstn c s ++ x :: firstn (j - c) (skipn c s) ++ skipn (S j) s.
Proof.
  intros Hc Hj. unfold move_frames.
  replace (c + 1)%nat with (S c) by lia.
  rewrite (firstn_S_nth zero_rx_frame) by lia.
  replace (S c + (j - c))%nat with (S j) by lia.
  rewrite <- app_assoc. cbn [app].
  assert (Hlen : length (firstn c s) = c) by (rewrite length_firstn; lia).
  pose proof (array_set_app x (nth c s zero_rx_frame) (firstn c s)
                (firstn (j - c) (skipn c s) ++ skipn (S j) s)) as H.
  rewrite Hlen in H. exact H.
Qed.

Lemma split_around (s : list MATRIX_RX_CAN_FRAME) (c j : nat) :
  (c < j)%nat -> (j < length s)%nat ->
  s = firstn c s ++ firstn (j - c) (skipn c s)
      ++ nth j s zero_rx_frame :: skipn (S j) s.
Proof.
  intros Hc Hj.
  rewrite <- (firstn_skipn c s) at 1. f_equal.
  rewrite (split_at zero_rx_frame (skipn c s) (j - c)) at 1
    by (rewrite length_skipn; lia).
  f_equal. f_equal.
  - rewrite nth_skipn. f_equal. lia.
  - rewrite skipn_skipn. f_equal. lia.
Qed.

Lemma sort_new_frame_keeps s j :
  (j < length s)%nat ->
  in_use (nth j s zero_rx_frame) = true ->
  NoDup (map sender_and_index (filter in_use s)) ->
  Permutation (sort_new_frame j s) s
  /\ skipn (S j) (sort_new_frame j s) = skipn (S j) s.
Proof.
  intros Hj Hu Hnd. unfold sort_new_frame.
  destruct (find_same_source j s (nth j s zero_rx_frame)) as [found|] eqn:Ef;
    [|split; [apply Permutation_refl | reflexivity]].
  pose proof (find_same_source_spec _ _ _ _ Ef) as Hfound.
  destruct (find_position (S found) 15 s (nth j s zero_rx_frame)) as [z m] eqn:Ep.
  destruct (find_position_spec _ _ _ _ _ _ Ep) as [Hz Hm].
  destruct m.
  - exfalso. destruct (Hm eq_refl) as [Huz Hk].
    apply (distinct_nth s (Z.to_nat z) j Hnd); try assumption. lia.
  - destruct (Z.ltb_spec (z + 1) (Z.of_nat j)) as [Hlt|Hge];
      [|split; [apply Permutation_refl | reflexivity]].
    set (c := Z.to_nat (z + 1)).
    assert (Hc : (c < j)%nat) by (unfold c; lia).
    rewrite (move_into_place s c j _ Hc Hj).
    split.
    + rewrite (split_around s c j Hc Hj) at 5.
      apply Permutation_app_head. apply Permutation_middle.
    + replace (firstn c s ++ nth j s zero_rx_frame
                 :: firstn (j - c) (skipn c s) ++ skipn (S j) s)
        with ((firstn c s ++ nth j s zero_rx_frame :: firstn (j - c) (skipn c s))
              ++ skipn (S j) s)
        by (rewrite <- app_assoc; reflexivity).
      assert (Hlen : length (firstn c s ++ nth j s zero_rx_frame
                               :: firstn (j - c) (skipn c s)) = S j).
      { rewrite length_app. cbn [length].
        rewrite !length_firstn, length_skipn. lia. }
      rewrite skipn_app, Hlen, Nat.sub_diag, skipn_all2 by (rewrite Hlen; lia).
      reflexivity.
Qed.

Lemma filter_Permutation {A : Type} (f : A -> bool) (l l' : list A) :
  Permutation l l' -> Permutation (filter f l) (filter f l').
Proof.
  induction 1 as [|x l l' _ IH|x y l|l l' l'' _ IH1 _ IH2]; cbn [filter].
  - apply perm_nil.
  - destruct (f x); [apply perm_skip|]; exact IH.
  - destruct (f x), (f y); try apply Permutation_refl. apply perm_swap.
  - exact (perm_trans IH1 IH2).
Qed.

Lemma skipn_cons_nth {A : Type} (d : A) : forall (l : list A) (j : nat),
  (j < length l)%nat -> skipn j l = nth j l d :: skipn (S j) l.
Proof.
  induction l as [|a l IH]; intros j Hj; [cbn in Hj; lia|].
  destruct j as [|j]; [reflexivity|].
  cbn [skipn nth]. apply IH. cbn in Hj. lia.
Qed.

Lemma SortNewFrames_from_keeps : forall count j s,
  (j + count <= length s)%nat ->
  Forall (fun f => in_use f = true) (firstn count (skipn j s)) ->
  NoDup (map sender_and_index (filter in_use s)) ->
  Permutation (SortNewFrames_from count j s) s.
Proof.
  induction count as [|count IH]; intros j s Hlen Hnew Hnd;
    cbn [SortNewFrames_from]; [apply Permutation_refl|].
  assert (Hj : (j < length s)%nat) by lia.
  rewrite (skipn_cons_nth zero_rx_frame s j Hj) in Hnew. cbn [firstn] in Hnew.
  destruct (sort_new_frame_keeps s j Hj (Forall_inv Hnew) Hnd) as [Hperm Hrest].
  eapply perm_trans; [|exact Hperm]. apply IH.
  - rewrite (Permutation_length Hperm). lia.
  - rewrite Hrest. exact (Forall_inv_tail Hnew).
  - apply (Permutation_NoDup (l := map sender_and_index (filter in_use s)));
      [|exact Hnd].
    apply Permutation_map, filter_Permutation, Permutation_sym, Hperm.
Qed.

(** X29.  [SortNewFrames] only reorders when no new frame repeats a frame
    already there: if no two frames in use in the stream buffer have the
    same sender address and frame index, and the new frames are in use,
    the buffer after the call is a permutation of the buffer before it. *)
Theorem SortNewFrames_keeps_frames (numNewFrames : Z)
    (streamBuffer : list MATRIX_RX_CAN_FRAME) :
  length streamBuffer = 72%nat ->
  0 <= numNewFrames <= CAN_RX_STREAM_BUFFER_FRONT_SIZE ->
  Forall (fun f => in_use f = true)
         (skipn (72 - Z.to_nat numNewFrames) streamBuffer) ->
  NoDup (map sender_and_index (filter in_use streamBuffer)) ->
  Permutation (SortNewFrames numNewFrames streamBuffer) streamBuffer.
Proof.
  intros Hlen Hn Hnew Hnd. unfold SortNewFrames.
  change (Z.to_nat CAN_RX_STREAM_BUFFER_FRONT_SIZE) with 72%nat.
  unfold CAN_RX_STREAM_BUFFER_FRONT_SIZE in Hn.
  apply SortNewFrames_from_keeps; [rewrite Hlen; lia | | exact Hnd].
  rewrite firstn_all2; [exact Hnew|]. rewrite length_skipn, Hlen. lia.
Qed.

Lemma SortNewFrames_keeps_frames_witness :
  Permutation (SortNewFrames 2 sample_stream) sample_stream.
Proof.
  assert (Hlen : length sample_stream = 72%nat) by reflexivity.
  assert (Hn : 0 <= 2 <= CAN_RX_STREAM_BUFFER_FRONT_SIZE)
    by (vm_compute; split; discriminate).
  assert (Hnew : Forall (fun f => in_use f = true)
                   (skipn (72 - Z.to_nat 2) sample_stream))
    by (repeat constructor).
  assert (Hnd : NoDup (map sender_and_index (filter in_use sample_stream))).
  { change (NoDup [(5, 31); (5, 0)]).
    constructor; [|constructor; [intros []|constructor]].
    intros [H|[]]. discriminate H. }
  exact (SortNewFrames_keeps_frames 2 sample_stream Hlen Hn Hnew Hnd).
Defined.

(** ** The checksum test and a SINGLE frame that follows BODY frames *)

Lemma nth_app_data8 (b : MATRIX_RX_CAN_FRAME) (more : list Z) (k : nat) :
  (k < 8)%nat -> nth k (data8 b ++ more) 0 = nth k (data8 b) 0.
Proof. intros Hk. apply app_nth1. rewrite data8_length. exact Hk. Qed.

Lemma firstn_skipn_data8 (b : MATRIX_RX_CAN_FRAME) (more : list Z) (j k : nat) :
  (j + k <= 8)%nat ->
  firstn k (skipn j (data8 b ++ more)) = firstn k (skipn j (data8 b)).
Proof.
  intros H. pose proof (data8_length b) as Hl.
  rewrite skipn_app, firstn_app, length_skipn.
  replace (k - (length (data8 b) - j))%nat with 0%nat by lia.
  cbn [firstn]. apply app_nil_r.
Qed.

(** C2.  The search for the next message sets [numMessageFrames = 1] when
    it meets a SINGLE frame, also when BODY frames of the same sender with
    the preceding frame indices came before it.  The message then starts at
    the first BODY frame, its length is the SINGLE frame's size, and the
    test [(numMessageFrames == 1) || Matrix_IsMessageChecksumValid(...)]
    passes without a checksum: the bytes of the BODY frame (here, of an
    event frame with a plain key) go to the decompressor unchecked. *)
Theorem body_then_single_skips_checksum (downstream : DISPATCH -> Z -> Z) (fuel : nat)
    (e : Z) (b s : MATRIX_RX_CAN_FRAME) (rest : list MATRIX_RX_CAN_FRAME) :
  frameFlags b = MR_FRAME_FLAG_BODY ->
  frameFlags s = MR_FRAME_FLAG_SINGLE ->
  senderAddress s = senderAddress b ->
  rx_frameIndex s = Z.land (rx_frameIndex b + 1) MATRIX_CAN_ID_FRAME_INDEX_MASK ->
  3 <= rx_dataSize s <= 8 ->
  rx_isEvent b <> 0 ->
  let byte1 := nth 1 (data8 b) 0 in
  let k := u16 (Z.lor (Z.shiftl (u16 (Z.land byte1 (Z.lnot KeyPrefix_Mask))) 8)
                      (nth 2 (data8 b) 0)) in
  Z.land byte1 KeyPrefix_Mask <> KeyPrefix_PatternSync ->
  Key_IsFtpResponse k = false -> Key_IsFtpRequest k = false ->
  let d := mkDelivery
             (Codec_Decompress (u8 (senderAddress b))
                (firstn (Z.to_nat (rx_dataSize s - 1)) (skipn 1 (data8 b))))
             1 (rx_dataSize s) (data8 b ++ data8 s) in
  next_message (senderAddress b) (rx_frameIndex b) 0 0 [] (b :: s :: rest)
  = (1, rx_dataSize s, [b; s], rest, true)
  /\ ProcessMessagesInStream downstream (S fuel) e (b :: s :: rest)
     = match ProcessMessagesInStream downstream fuel
               (downstream (delivered d) (Matrix_NewEventIndex (nth 0 (data8 b) 0) e))
               rest with
       | None => None
       | Some (e2, ds) => Some (e2, d :: ds)
       end.
Proof.
  intros Hb Hs Hsender Hidx Hsize Hev byte1 k Hsync Hresp Hreq d.
  assert (Hnext : next_message (senderAddress b) (rx_frameIndex b) 0 0 []
                    (b :: s :: rest)
                  = (1, rx_dataSize s, [b; s], rest, true)).
  { cbn [next_message]. rewrite Hb, Hs, <- Hidx, Hsender, !Z.eqb_refl.
    cbn [negb orb app].
    destruct (Z.eqb_spec MR_FRAME_FLAG_SINGLE MR_FRAME_FLAG_BODY) as [E|_];
      [discriminate E|].
    destruct (Z.eqb_spec MR_FRAME_FLAG_LAST MR_FRAME_FLAG_BODY) as [E|_];
      [discriminate E|].
    unfold u16. rewrite (Z.mod_small (rx_dataSize s)) by lia. reflexivity. }
  split; [exact Hnext|].
  assert (Hp : process_message e b [b; s] 1 (rx_dataSize s)
               = Some (Matrix_NewEventIndex (nth 0 (data8 b) 0) e, Some d)).
  { unfold process_message. cbn [map concat]. rewrite app_nil_r.
    change (1 =? 1) with true. cbv iota.
    replace (CAN_FRAME_MAX_NUM_BYTES <? rx_dataSize s) with false
      by (symmetry; apply Z.ltb_ge; unfold CAN_FRAME_MAX_NUM_BYTES; lia).
    replace (3 <=? rx_dataSize s) with true by (symmetry; apply Z.leb_le; lia).
    rewrite !nth_app_data8 by lia. fold byte1. fold k.
    replace (KeyPrefix_PatternSync =? Z.land byte1 KeyPrefix_Mask) with false
      by (symmetry; apply Z.eqb_neq; congruence).
    rewrite Hresp, Hreq.
    replace (rx_isEvent b =? 0) with false by (symmetry; apply Z.eqb_neq; exact Hev).
    cbn [negb orb]. unfold u16. rewrite (Z.mod_small (rx_dataSize s - 1)) by lia.
    rewrite firstn_skipn_data8 by lia. reflexivity. }
  cbn [ProcessMessagesInStream].
  replace (MR_FRAME_FLAG_NONE =? frameFlags b) with false
    by (rewrite Hb; reflexivity).
  cbn [next_message] in Hnext. cbn [next_message]. rewrite Hnext, Hp. reflexivity.
Qed.

(** A BODY frame whose message was never completed, followed by a
    single-frame message of the same sender with the next frame index. *)
Definition stray_body : MATRIX_RX_CAN_FRAME :=
  mkRxFrame 5 3 MR_FRAME_FLAG_BODY 1 8 100 [7; 0x23; 0xE8; 1; 0x23; 0xE9; 2; 0x23].
Definition stray_single : MATRIX_RX_CAN_FRAME :=
  mkRxFrame 5 4 MR_FRAME_FLAG_SINGLE 1 4 101 [8; 0x23; 0xEA; 3].

Lemma body_then_single_skips_checksum_witness :
  ProcessMessagesInStream (fun _ e => e) 1 0 [stray_body; stray_single]
  = Some (7, [mkDelivery (Codec_Decompress 5 [0x23; 0xE8; 1]) 1 4
                (data8 stray_body ++ data8 stray_single)])
  /\ forallb (fun n => match Matrix_IsMessageChecksumValid
                              (data8 stray_body ++ data8 stray_single) n with
                       | Some true => false
                       | _ => true
                       end) (seq 0 17) = true.
Proof.
  assert (Hb : frameFlags stray_body = MR_FRAME_FLAG_BODY) by reflexivity.
  assert (Hs : frameFlags stray_single = MR_FRAME_FLAG_SINGLE) by reflexivity.
  assert (Hsender : senderAddress stray_single = senderAddress stray_body)
    by reflexivity.
  assert (Hidx : rx_frameIndex stray_single
                 = Z.land (rx_frameIndex stray_body + 1) MATRIX_CAN_ID_FRAME_INDEX_MASK)
    by reflexivity.
  assert (Hsize : 3 <= rx_dataSize stray_single <= 8) by (cbn; lia).
  assert (Hev : rx_isEvent stray_body <> 0) by (cbn; lia).
  pose proof (body_then_single_skips_checksum (fun _ e => e) 0 0
                stray_body stray_single [] Hb Hs Hsender Hidx Hsize Hev) as H.
  cbv zeta in H.
  assert (Hsync : Z.land (nth 1 (data8 stray_body) 0) KeyPrefix_Mask
                  <> KeyPrefix_PatternSync) by (vm_compute; discriminate).
  destruct (H Hsync eq_refl eq_refl) as [_ Hrun].
  split; [|vm_compute; reflexivity].
  rewrite Hrun. reflexivity.
Defined.

(** ** From the interrupt buffer to the message search *)

Lemma clock_after_receive (own t t' : Z) (frames : list MATRIX_TX_CAN_FRAME)
    (r : MATRIX_RECEIVER) (stream : list MATRIX_RX_CAN_FRAME) :
  length (rxBuffer r) = 20%nat ->
  0 <= rxBufferWriteIndex r < 20 ->
  rxBufferReadIndex r = rxBufferWriteIndex r ->
  (Z.to_nat (rxBufferWriteIndex r) + length frames <= 20)%nat ->
  (length frames < 20)%nat ->
  Forall (storable own (senderAddressFilter r)) frames ->
  let r1 := receive_frames own t frames r in
  let taken := firstn (length frames)
                 (skipn (Z.to_nat (rx_write_slot r)) (rxBuffer r1)) in
  (exists r2,
     MatrixReceiver_Clock t' stream r1
     = (r2, skipn (length frames) stream ++ taken, Z.of_nat (length frames))
     /\ rxBufferReadIndex r2 = rxBufferWriteIndex r2)
  /\ Forall2 rx_of frames taken
  /\ Forall (fun g => timeStamp g = t) taken.
Proof.
  intros Hbuf Hw Hread Hfit Hcount Hall r1 taken.
  assert (Hslot : rx_write_slot r = rxBufferWriteIndex r).
  { unfold rx_write_slot, CAN_RX_STREAM_BUFFER_BACK_SIZE.
    destruct (Z.geb_spec (rxBufferWriteIndex r) 20); [lia | reflexivity]. }
  destruct (receive_frames_indices own t frames r Hw Hall) as [Hri Hwi].
  fold r1 in Hri, Hwi.
  destruct (receive_frames_spec own t frames r Hbuf ltac:(lia)
              ltac:(rewrite Hslot; exact Hfit) Hall) as (Hnth & _ & Hbuf1).
  fold r1 in Hbuf1, Hnth.
  pose proof (stream_of_frames own t frames r Hbuf ltac:(lia)
                ltac:(rewrite Hslot; exact Hfit) Hall) as Htaken.
  fold r1 in Htaken. fold taken in Htaken.
  assert (Hlt : length taken = length frames).
  { unfold taken. rewrite length_firstn, length_skipn, Hbuf1, Hslot. lia. }
  assert (Hstamp : Forall (fun g => timeStamp g = t) taken).
  { apply Forall_forall. intros g Hg.
    destruct (In_nth _ _ zero_rx_frame Hg) as (k & Hk & <-).
    rewrite Hlt in Hk. unfold taken. rewrite nth_window by exact Hk.
    rewrite (Hnth k Hk). reflexivity. }
  split; [|split; [exact Htaken | exact Hstamp]].
  assert (Hw1 : 0 <= rxBufferWriteIndex r1 < 20)
    by (rewrite Hwi; apply Z.mod_pos_bound; lia).
  assert (Hr1 : 0 <= rxBufferReadIndex r1 < 20) by (rewrite Hri, Hread; exact Hw).
  assert (Hn : (rxBufferWriteIndex r1 - rxBufferReadIndex r1) mod 20
               = Z.of_nat (length frames)).
  { rewrite Hwi, Hri, Hread. rewrite Zminus_mod_idemp_l.
    replace (rxBufferWriteIndex r + Z.of_nat (length frames) - rxBufferWriteIndex r)
      with (Z.of_nat (length frames)) by lia.
    apply Z.mod_small. lia. }
  unfold MatrixReceiver_Clock.
  replace (rxBufferReadIndex r1 >=? CAN_RX_STREAM_BUFFER_BACK_SIZE) with false
    by (symmetry; unfold CAN_RX_STREAM_BUFFER_BACK_SIZE; rewrite Z.geb_leb;
        apply Z.leb_gt; lia).
  rewrite (wrap_new_frames_spec 3277 _ _ ltac:(lia) Hw1 Hr1), Hn.
  rewrite copy_new_frames_spec by exact Hr1. rewrite Nat2Z.id.
  assert (Hring : rx_ring (rxBuffer r1) (rxBufferReadIndex r1) (length frames) = taken).
  { unfold taken. rewrite Hslot, Hri, Hread.
    apply rx_ring_window; [lia | exact Hfit | exact Hbuf1]. }
  rewrite Hring.
  assert (Hidx : (rxBufferReadIndex r1 + Z.of_nat (length frames)) mod 20
                 = rxBufferWriteIndex r1) by (rewrite Hwi, Hri, Hread; reflexivity).
  destruct (IsMatrixTimerExpired t' (senderAddressFilterTimeout r1)); cbv iota beta;
    (destruct (Z.ltb_spec 0 (Z.of_nat (length frames))) as [Hpos|Hzero];
     [ eexists; split; [reflexivity | exact Hidx]
     | assert (Hnil : length frames = 0%nat) by lia;
       assert (Ht0 : taken = [])
         by (apply length_zero_iff_nil; rewrite Hlt; exact Hnil);
       rewrite Ht0, Hnil, app_nil_r; cbn [skipn Z.of_nat];
       eexists; split; [reflexivity|];
       cbn [rxBufferReadIndex rxBufferWriteIndex];
       rewrite <- Hidx, Hnil; cbn [Z.of_nat];
       rewrite Z.add_0_r, Z.mod_small by lia; reflexivity ]).
Qed.

(** New frames behind an otherwise empty stream, not older than the
    timeout and each in place behind its predecessor, are left where they
    are by [RemoveUnprocessedFrames] and [SortNewFrames]. *)
Lemma settle_new_frames (t' : Z) (empties taken : list MATRIX_RX_CAN_FRAME) :
  (length empties + length taken = 72)%nat ->
  Forall (fun g => frameFlags g = MR_FRAME_FLAG_NONE) empties ->
  Forall (fun g => Z.land (u32 (t' - timeStamp g)) 0x0fff
                   <= MATRIX_RECEIVED_FRAME_TIMEOUT_MS) taken ->
  (forall k, (S k < length taken)%nat ->
     follows (nth k taken zero_rx_frame) (nth (S k) taken zero_rx_frame)) ->
  RemoveUnprocessedFrames t' (empties ++ taken) = empties ++ taken
  /\ SortNewFrames (Z.of_nat (length taken)) (empties ++ taken) = empties ++ taken.
Proof.
  intros Hlen Hempty Hfresh Horder. split.
  - unfold RemoveUnprocessedFrames. apply Remove_from_none. apply Forall_app. split.
    + eapply Forall_impl; [|exact Hempty]. intros g Hg. unfold timed_out.
      rewrite Hg. reflexivity.
    + eapply Forall_impl; [|exact Hfresh]. intros g Hg. unfold timed_out.
      replace (Z.land (u32 (t' - timeStamp g)) 0x0fff >? MATRIX_RECEIVED_FRAME_TIMEOUT_MS)
        with false by (symmetry; rewrite Z.gtb_ltb; apply Z.ltb_ge; exact Hg).
      apply andb_false_r.
  - unfold SortNewFrames. rewrite Nat2Z.id.
    change (Z.to_nat CAN_RX_STREAM_BUFFER_FRONT_SIZE) with 72%nat.
    replace (72 - length taken)%nat with (length empties) by lia.
    apply SortNewFrames_from_in_order. intros j Hj.
    destruct j as [|j]; [exact I|]. cbn [in_arrival_order].
    destruct (Nat.lt_ge_cases j (length empties)) as [Hlt|Hge].
    + left. rewrite app_nth1 by exact Hlt.
      exact (proj1 (Forall_forall _ _) Hempty _ (nth_In _ _ Hlt)).
    + rewrite !app_nth2 by lia.
      replace (S j - length empties)%nat with (S (j - length empties)) by lia.
      apply Horder. lia.
Qed.

Lemma process_after_clock (downstream : DISPATCH -> Z -> Z) (t' e : Z)
    (stream taken : list MATRIX_RX_CAN_FRAME) (r1 r2 : MATRIX_RECEIVER) :
  MatrixReceiver_Clock t' stream r1
  = (r2, skipn (length taken) stream ++ taken, Z.of_nat (length taken)) ->
  length stream = 72%nat -> (length taken <= 72)%nat ->
  Forall (fun g => frameFlags g = MR_FRAME_FLAG_NONE) stream ->
  Forall (fun g => Z.land (u32 (t' - timeStamp g)) 0x0fff
                   <= MATRIX_RECEIVED_FRAME_TIMEOUT_MS) taken ->
  (forall k, (S k < length taken)%nat ->
     follows (nth k taken zero_rx_frame) (nth (S k) taken zero_rx_frame)) ->
  MatrixReceiver_Clock_process downstream t' e stream r1
  = (r2, ProcessMessagesInStream downstream (length taken) e taken).
Proof.
  intros Hclock Hlen Hn Hempty Hfresh Horder.
  unfold MatrixReceiver_Clock_process. rewrite Hclock.
  destruct (Z.ltb_spec 0 (Z.of_nat (length taken))) as [Hpos|Hzero].
  - assert (Hel : (length (skipn (length taken) stream) + length taken = 72)%nat)
      by (rewrite length_skipn; lia).
    destruct (settle_new_frames t' (skipn (length taken) stream) taken Hel
                (Forall_skipn_list _ _ _ Hempty) Hfresh Horder) as [Hrem Hsort].
    cbv zeta. rewrite Hrem, Hsort. f_equal.
    change (Z.to_nat CAN_RX_STREAM_BUFFER_FRONT_SIZE) with 72%nat.
    rewrite <- Hel. apply stream_skip_empty, Forall_skipn_list, Hempty.
  - assert (Ht0 : taken = []) by (apply length_zero_iff_nil; lia).
    rewrite Ht0. reflexivity.
Qed.

(** X26.  From the interrupt to the message search.  Fewer than twenty
    accepted frames that [Matrix_ReceiveCanFrame] has stored since the last
    clock, without the write index going round, are after
    [MatrixReceiver_Clock] the last entries of the stream buffer, in the
    order of their arrival and with the fields of the frames sent;
    [numNewFrames] is their number and the read index has caught up with
    the write index.  If moreover the stream buffer (72 frames) was empty,
    the frames are at most [MATRIX_RECEIVED_FRAME_TIMEOUT_MS] old on the
    12-bit clock difference, and each is in place behind its predecessor
    (same sender, frame index 1 to 15 steps later), then
    [RemoveUnprocessedFrames] and [SortNewFrames] leave them where they are
    and the message search of the clock runs over exactly these frames. *)
Theorem taken_in_frames_reach_stream (own t t' e : Z) (frames : list MATRIX_TX_CAN_FRAME)
    (r : MATRIX_RECEIVER) (stream : list MATRIX_RX_CAN_FRAME)
    (downstream : DISPATCH -> Z -> Z) :
  length (rxBuffer r) = 20%nat ->
  0 <= rxBufferWriteIndex r < 20 ->
  rxBufferReadIndex r = rxBufferWriteIndex r ->
  (Z.to_nat (rxBufferWriteIndex r) + length frames <= 20)%nat ->
  (length frames < 20)%nat ->
  Forall (storable own (senderAddressFilter r)) frames ->
  let r1 := receive_frames own t frames r in
  let taken := firstn (length frames)
                 (skipn (Z.to_nat (rx_write_slot r)) (rxBuffer r1)) in
  (let '(r2, stream', n) := MatrixReceiver_Clock t' stream r1 in
   n = Z.of_nat (length frames)
   /\ stream' = skipn (length frames) stream ++ taken
   /\ rxBufferReadIndex r2 = rxBufferWriteIndex r2)
  /\ Forall2 rx_of frames taken
  /\ (length stream = 72%nat ->
      Forall (fun g => frameFlags g = MR_FRAME_FLAG_NONE) stream ->
      Z.land (u32 (t' - t)) 0x0fff <= MATRIX_RECEIVED_FRAME_TIMEOUT_MS ->
      (forall k, (S k < length taken)%nat ->
         follows (nth k taken zero_rx_frame) (nth (S k) taken zero_rx_frame)) ->
      snd (MatrixReceiver_Clock_process downstream t' e stream r1)
      = ProcessMessagesInStream downstream (length frames) e taken).
Proof.
  intros Hbuf Hw Hread Hfit Hcount Hall r1 taken.
  destruct (clock_after_receive own t t' frames r stream Hbuf Hw Hread Hfit Hcount Hall)
    as ((r2 & Hclock & Hidx) & Hrx & Hstamp).
  fold r1 in Hclock. fold r1 taken in Hrx, Hstamp. fold taken in Hclock.
  assert (Hlt : length taken = length frames)
    by (symmetry; exact (Forall2_length Hrx)).
  split; [|split; [exact Hrx|]].
  - rewrite Hclock. repeat split. exact Hidx.
  - intros Hlen Hempty Hage Horder.
    rewrite <- Hlt in Hclock.
    rewrite (process_after_clock downstream t' e stream taken r1 r2 Hclock Hlen
               ltac:(lia) Hempty); [rewrite Hlt; reflexivity | | exact Horder].
    eapply Forall_impl; [|exact Hstamp]. intros g Hg. rewrite Hg. exact Hage.
Qed.

Definition sample_frames : list MATRIX_TX_CAN_FRAME :=
  Eval vm_compute in
    skipn (length (enqueued sample_tx))
      (enqueued (transmit 5 7 0 KeyNull sample_body sample_tx)).
Definition sample_clock_receiver : MATRIX_RECEIVER :=
  mkReceiver (repeat zero_rx_frame 20) 3 3 0 0.

Lemma sample_frames_storable :
  Forall (storable 9 (senderAddressFilter sample_clock_receiver)) sample_frames.
Proof.
  unfold sample_frames.
  repeat (apply Forall_cons;
          [ unfold storable, frame_fields_ok, MATRIX_MESSAGE_FRAME_TYPE_SINGLE,
              MATRIX_MESSAGE_FRAME_TYPE_LAST;
            cbn; repeat split; try lia; reflexivity | ]).
  apply Forall_nil.
Qed.

Lemma taken_in_frames_reach_stream_witness :
  snd (MatrixReceiver_Clock_process (fun _ e => e) 1010 0 (repeat zero_rx_frame 72)
         (receive_frames 9 1000 sample_frames sample_clock_receiver))
  = ProcessMessagesInStream (fun _ e => e) (length sample_frames) 0
      (firstn (length sample_frames)
         (skipn (Z.to_nat (rx_write_slot sample_clock_receiver))
            (rxBuffer (receive_frames 9 1000 sample_frames sample_clock_receiver)))).
Proof.
  assert (Hbuf : length (rxBuffer sample_clock_receiver) = 20%nat) by reflexivity.
  assert (Hw : 0 <= rxBufferWriteIndex sample_clock_receiver < 20) by (cbn; lia).
  assert (Hread : rxBufferReadIndex sample_clock_receiver
                  = rxBufferWriteIndex sample_clock_receiver) by reflexivity.
  assert (Hfit : (Z.to_nat (rxBufferWriteIndex sample_clock_receiver)
                  + length sample_frames <= 20)%nat) by (vm_compute; lia).
  assert (Hcount : (length sample_frames < 20)%nat) by (vm_compute; lia).
  pose proof (taken_in_frames_reach_stream 9 1000 1010 0 sample_frames
                sample_clock_receiver (repeat zero_rx_frame 72) (fun _ e => e)
                Hbuf Hw Hread Hfit Hcount sample_frames_storable) as H.
  cbv zeta in H. destruct H as (_ & _ & H). apply H.
  - apply repeat_length.
  - apply Forall_forall. intros g Hg. apply repeat_spec in Hg. subst g. reflexivity.
  - vm_compute. discriminate.
  - intros k Hk.
    assert (Hl : length (firstn (length sample_frames)
                   (skipn (Z.to_nat (rx_write_slot sample_clock_receiver))
                      (rxBuffer (receive_frames 9 1000 sample_frames
                                   sample_clock_receiver)))) = 2%nat)
      by (vm_compute; reflexivity).
    rewrite Hl in Hk. assert (k = 0%nat) by lia. subst k.
    right. vm_compute. repeat split; discriminate.
Defined.

(** ** A long message from [MatrixTransmitter_FinishMessage] through the
    receiver's clock *)

Lemma long_message_frames (own ei dest key : Z) (body : list Z)
    (tx : MATRIX_TRANSMITTER) (rcvOwn : Z) (r : MATRIX_RECEIVER) :
  let msg := message_bytes key ei body in
  let frames := skipn (length (enqueued tx)) (enqueued (transmit own ei dest key body tx)) in
  let size := Z.of_nat (length msg) + 2 in
  0 <= own < 128 -> 0 <= dest < 128 ->
  dest = MATRIX_CAN_BROADCAST_ADDRESS \/ dest = rcvOwn ->
  0 <= frameIndex tx < 32 ->
  (8 < length msg)%nat ->
  0 <= rxBufferWriteIndex r ->
  size <= 8 * (20 - rx_write_slot r) ->
  senderAddressFilter r = 0 \/ senderAddressFilter r = own ->
  framed (start_id own dest key) (frameIndex tx) frames
  /\ Forall (storable rcvOwn (senderAddressFilter r)) frames
  /\ (Z.to_nat (rx_write_slot r) + length frames <= 20)%nat
  /\ 8 * (Z.of_nat (length frames) - 1) < size.
Proof.
  intros msg frames size Hown Hdst Hdest Hfi Hlen Hwi Hfit Hfilt.
  assert (Hw : 0 <= rx_write_slot r < 20).
  { unfold rx_write_slot, CAN_RX_STREAM_BUFFER_BACK_SIZE.
    destruct (Z.geb_spec (rxBufferWriteIndex r) 20); lia. }
  destruct (transmit_multi own ei dest key body tx Hfi)
    as (bodyFrames & lastFrame & He & Hne & Hbody & Hlast & Hfr & Hcat).
  { fold msg. unfold size in Hfit. lia. }
  fold msg in Hcat.
  assert (Hframes : frames = bodyFrames ++ [lastFrame]).
  { unfold frames. rewrite He, skipn_app, skipn_all, Nat.sub_diag. reflexivity. }
  assert (H8 : length (concat (map tx_data bodyFrames)) = (8 * length bodyFrames)%nat).
  { clear -Hbody. induction Hbody as [|f l [_ Hf] _ IH]; [reflexivity|].
    cbn [map concat length]. rewrite length_app, IH, Hf. lia. }
  assert (H1 : (1 <= length (tx_data lastFrame))%nat).
  { clear -Hfr. revert Hfr. generalize (frameIndex tx).
    induction bodyFrames as [|f l IH]; intros i Hfr.
    - destruct Hfr as (_ & _ & Hs & Hr & _). lia.
    - destruct Hfr as (_ & _ & _ & _ & Hfr'). exact (IH _ Hfr'). }
  assert (Hsum : length (concat (map tx_data (bodyFrames ++ [lastFrame])))
                 = (length msg + 2)%nat)
    by (rewrite Hcat, length_app; reflexivity).
  rewrite map_app, concat_app, length_app, H8 in Hsum.
  cbn [map concat] in Hsum. rewrite app_nil_r in Hsum.
  assert (Hsrc : id_sourceAddress (start_id own dest key) = own)
    by (cbn; apply land_7F; exact Hown).
  rewrite Hframes. split; [exact Hfr|]. split; [|split].
  - apply (framed_storable (start_id own dest key) rcvOwn _ _ _ Hfr).
    + apply Forall_app. split.
      * eapply Forall_impl; [|exact Hbody]. intros f [Hf _]. rewrite Hf.
        unfold MATRIX_MESSAGE_FRAME_TYPE_SINGLE, MATRIX_MESSAGE_FRAME_TYPE_BODY,
          MATRIX_MESSAGE_FRAME_TYPE_LAST. lia.
      * constructor; [|constructor]. rewrite Hlast.
        unfold MATRIX_MESSAGE_FRAME_TYPE_SINGLE, MATRIX_MESSAGE_FRAME_TYPE_LAST. lia.
    + cbn. rewrite land_7F by exact Hdst. exact Hdst.
    + cbn. destruct (is_event_key key); lia.
    + reflexivity.
    + rewrite Hsrc. exact Hown.
    + cbn. rewrite land_7F by exact Hdst. exact Hdest.
    + rewrite Hsrc. exact Hfilt.
  - rewrite length_app. cbn [length]. unfold size in Hfit. lia.
  - rewrite length_app. cbn [length]. unfold size. lia.
Qed.

(** Frames with consecutive frame indices from one sender stay in place. *)
Lemma framed_follows id0 : forall frames gs i k,
  framed id0 i frames -> Forall2 rx_of frames gs ->
  (S k < length gs)%nat ->
  follows (nth k gs zero_rx_frame) (nth (S k) gs zero_rx_frame).
Proof.
  induction frames as [|f frames IH]; intros gs i k Hfr Hgs Hk.
  - inversion Hgs; subst. cbn in Hk. lia.
  - inversion Hgs as [|f0 g l1 gs1 Hg Hgs1]; subst.
    destruct frames as [|f' frames].
    + inversion Hgs1; subst. cbn in Hk. lia.
    + inversion Hgs1 as [|f0' g' l1' gs2 Hg' Hgs2]; subst.
      destruct k as [|k].
      * cbn [nth]. right.
        destruct Hg as (t0 & old0 & ->). destruct Hg' as (t1 & old1 & ->).
        destruct Hfr as (Hi & Hh & _ & _ & (Hi' & Hh' & _)).
        rewrite !rx_sender, !rx_index, Hi, Hi'.
        unfold header in Hh, Hh'. injection Hh as _ _ _ Hs. injection Hh' as _ _ _ Hs'.
        unfold MATRIX_CAN_ID_FRAME_INDEX_MASK. change 0x1F with (Z.ones 5).
        rewrite !Z.land_ones by lia. change (2 ^ 5) with 32. unfold u32.
        split; [congruence|]. split; Z.div_mod_to_equations; lia.
      * cbn [nth]. destruct Hfr as (_ & _ & _ & _ & Hfr').
        apply (IH (g' :: gs2) (i + 1) k Hfr' Hgs1). cbn [length] in Hk |- *. lia.
Qed.

(** X30.  A message of more than eight bytes from the transmitter through
    the receiver's clock.  The message is sent to broadcast or to the
    receiving node, whose sender filter is unset or set to the sender.  The
    frames of the message (with its CRC, at most
    152 bytes, fitting the interrupt buffer from the write index on without
    going round) are taken in by [Matrix_ReceiveCanFrame] at time [t]; the
    stream buffer is empty and the interrupt buffer has been read up to the
    write index.  At the next [MatrixReceiver_Clock], at most
    [MATRIX_RECEIVED_FRAME_TIMEOUT_MS] later on the 12-bit clock, the frames
    are moved to the stream, [RemoveUnprocessedFrames] and [SortNewFrames]
    leave them in place, the search finds one complete message and the
    checksum test passes.  A message that is neither a sync nor FTP, started
    as an event or with an event index that has not expired, is handed to
    the decompressor from the byte after the event index on, and that is the
    only hand-over of this clock. *)
Theorem long_message_through_clock (own ei dest key : Z) (body : list Z)
    (tx : MATRIX_TRANSMITTER) (rcvOwn t t' e : Z) (r : MATRIX_RECEIVER)
    (stream : list MATRIX_RX_CAN_FRAME) (downstream : DISPATCH -> Z -> Z) :
  let msg := message_bytes key ei body in
  let frames := skipn (length (enqueued tx)) (enqueued (transmit own ei dest key body tx)) in
  let r' := receive_frames rcvOwn t frames r in
  let taken := firstn (length frames)
                 (skipn (Z.to_nat (rx_write_slot r)) (rxBuffer r')) in
  let size := Z.of_nat (length msg) + 2 in
  let byte1 := nth 1 msg 0 in
  let k := u16 (Z.lor (Z.shiftl (u16 (Z.land byte1 (Z.lnot KeyPrefix_Mask))) 8)
                      (nth 2 msg 0)) in
  0 <= own < 128 -> 0 <= dest < 128 ->
  dest = MATRIX_CAN_BROADCAST_ADDRESS \/ dest = rcvOwn ->
  0 <= frameIndex tx < 32 ->
  (8 < length msg)%nat ->
  length (rxBuffer r) = 20%nat ->
  0 <= rxBufferWriteIndex r < 20 ->
  rxBufferReadIndex r = rxBufferWriteIndex r ->
  size <= 8 * (20 - rxBufferWriteIndex r) -> size <= 152 ->
  senderAddressFilter r = 0 \/ senderAddressFilter r = own ->
  length stream = 72%nat ->
  Forall (fun g => frameFlags g = MR_FRAME_FLAG_NONE) stream ->
  Z.land (u32 (t' - t)) 0x0fff <= MATRIX_RECEIVED_FRAME_TIMEOUT_MS ->
  (KeyPrefix_PatternSync =? Z.land byte1 KeyPrefix_Mask) = false ->
  Key_IsFtpResponse k = false -> Key_IsFtpRequest k = false ->
  is_event_key key = true
  \/ Matrix_IsEventIndexExpired (nth 0 msg 0) (Matrix_NewEventIndex (nth 0 msg 0) e)
     = false ->
  snd (MatrixReceiver_Clock_process downstream t' e stream r')
  = Some (downstream (Codec_Decompress own (skipn 1 msg))
                     (Matrix_NewEventIndex (nth 0 msg 0) e),
          [mkDelivery (Codec_Decompress own (skipn 1 msg))
             (Z.of_nat (length frames)) size (concat (map data8 taken))])
  /\ Matrix_IsMessageChecksumValid (concat (map data8 taken)) (Z.to_nat size)
     = Some true.
Proof.
  intros msg frames r' taken size byte1 k
         Hown Hdst Hdest Hfi Hlen Hbuf Hw Hread Hfit Hmax Hfilt
         Hslen Hempty Hage Hsync Hresp Hreq Hdel.
  assert (Hslot : rx_write_slot r = rxBufferWriteIndex r).
  { unfold rx_write_slot, CAN_RX_STREAM_BUFFER_BACK_SIZE.
    destruct (Z.geb_spec (rxBufferWriteIndex r) 20); [lia | reflexivity]. }
  assert (Hwi : 0 <= rxBufferWriteIndex r) by lia.
  assert (Hfit' : size <= 8 * (20 - rx_write_slot r)) by (rewrite Hslot; exact Hfit).
  destruct (long_message_frames own ei dest key body tx rcvOwn r
              Hown Hdst Hdest Hfi Hlen Hwi Hfit' Hfilt)
    as (Hfr & Hstor & Hroom & Hcount).
  fold frames in Hfr, Hstor, Hroom, Hcount. fold size in Hcount.
  assert (Hn20 : (length frames < 20)%nat) by (unfold size, msg in Hmax; lia).
  assert (Hroom' : (Z.to_nat (rxBufferWriteIndex r) + length frames <= 20)%nat)
    by (rewrite <- Hslot; exact Hroom).
  destruct (clock_after_receive rcvOwn t t' frames r stream Hbuf Hw Hread Hroom'
              Hn20 Hstor) as ((r2 & Hclock & _) & Hrx & Hstamp).
  fold r' in Hclock, Hrx, Hstamp. fold taken in Hclock, Hrx, Hstamp.
  assert (Hlt : length taken = length frames)
    by (symmetry; exact (Forall2_length Hrx)).
  rewrite <- Hlt in Hclock.
  rewrite (process_after_clock downstream t' e stream taken r' r2 Hclock Hslen
             ltac:(lia) Hempty).
  2:{ eapply Forall_impl; [|exact Hstamp]. intros g Hg. rewrite Hg. exact Hage. }
  2:{ intros j Hj. exact (framed_follows _ _ _ _ _ Hfr Hrx Hj). }
  cbn [snd].
  destruct (long_message_process own ei dest key body tx rcvOwn t e r
              Hown Hdst Hdest Hfi Hlen Hbuf Hwi Hfit' Hfilt)
    as (_ & Hnext & Hvalid & g0 & gs' & Hs & Hflag & Hsender & Hindex & Hp).
  fold msg frames r' taken size byte1 k in Hnext, Hvalid, Hs, Hp.
  split; [|exact Hvalid].
  cbv zeta in Hp. rewrite Hsync, Hresp, Hreq in Hp.
  replace (negb ((if is_event_key key then 1 else 0) =? 0)
           || negb (Matrix_IsEventIndexExpired (nth 0 msg 0)
                      (Matrix_NewEventIndex (nth 0 msg 0) e)))
    with true in Hp.
  2:{ symmetry. destruct Hdel as [-> | ->]; [reflexivity | apply orb_true_r]. }
  rewrite <- Hsender, <- Hindex in Hnext.
  assert (Hfuel : exists fuel, length taken = S fuel)
    by (rewrite Hs; cbn [length]; eexists; reflexivity).
  destruct Hfuel as [fuel Hfuel]. rewrite Hfuel.
  rewrite Hs in Hnext, Hp |- *.
  rewrite (stream_one_message downstream fuel e g0 gs' _ size _ _ Hflag Hnext Hp).
  reflexivity.
Qed.

Lemma long_message_through_clock_witness :
  let msg := message_bytes KeyNull 7 sample_body in
  let frames := skipn (length (enqueued sample_tx))
                  (enqueued (transmit 5 7 0 KeyNull sample_body sample_tx)) in
  let r' := receive_frames 9 1000 frames sample_clock_receiver in
  let taken := firstn (length frames)
                 (skipn (Z.to_nat (rx_write_slot sample_clock_receiver)) (rxBuffer r')) in
  let size := Z.of_nat (length msg) + 2 in
  snd (MatrixReceiver_Clock_process (fun _ e => e) 1010 3 (repeat zero_rx_frame 72) r')
  = Some ((fun (_ : DISPATCH) (e : Z) => e) (Codec_Decompress 5 (skipn 1 msg))
            (Matrix_NewEventIndex (nth 0 msg 0) 3),
          [mkDelivery (Codec_Decompress 5 (skipn 1 msg))
             (Z.of_nat (length frames)) size (concat (map data8 taken))]).
Proof.
  assert (Hown : 0 <= 5 < 128) by lia.
  assert (Hdst : 0 <= 0 < 128) by lia.
  assert (Hdest : 0 = MATRIX_CAN_BROADCAST_ADDRESS \/ 0 = 9) by (left; reflexivity).
  assert (Hfi : 0 <= frameIndex sample_tx < 32) by (cbn; lia).
  assert (Hlen : Nat.lt 8 (length (message_bytes KeyNull 7 sample_body)))
    by (vm_compute; lia).
  assert (Hbuf : length (rxBuffer sample_clock_receiver) = 20%nat) by reflexivity.
  assert (Hw : 0 <= rxBufferWriteIndex sample_clock_receiver < 20) by (cbn; lia).
  assert (Hread : rxBufferReadIndex sample_clock_receiver
                  = rxBufferWriteIndex sample_clock_receiver) by reflexivity.
  assert (Hfit : Z.of_nat (length (message_bytes KeyNull 7 sample_body)) + 2
                 <= 8 * (20 - rxBufferWriteIndex sample_clock_receiver))
    by (vm_compute; discriminate).
  assert (Hmax : Z.of_nat (length (message_bytes KeyNull 7 sample_body)) + 2 <= 152)
    by (vm_compute; discriminate).
  assert (Hfilt : senderAddressFilter sample_clock_receiver = 0
                  \/ senderAddressFilter sample_clock_receiver = 5)
    by (left; reflexivity).
  assert (Hslen : length (repeat zero_rx_frame 72) = 72%nat) by apply repeat_length.
  assert (Hempty : Forall (fun g => frameFlags g = MR_FRAME_FLAG_NONE)
                     (repeat zero_rx_frame 72)).
  { apply Forall_forall. intros g Hg. apply repeat_spec in Hg. subst g. reflexivity. }
  assert (Hage : Z.land (u32 (1010 - 1000)) 0x0fff <= MATRIX_RECEIVED_FRAME_TIMEOUT_MS)
    by (vm_compute; discriminate).
  assert (Hdel : is_event_key KeyNull = true
                 \/ Matrix_IsEventIndexExpired
                      (nth 0 (message_bytes KeyNull 7 sample_body) 0)
                      (Matrix_NewEventIndex
                         (nth 0 (message_bytes KeyNull 7 sample_body) 0) 3) = false)
    by (right; reflexivity).
  exact (proj1 (long_message_through_clock 5 7 0 KeyNull sample_body sample_tx
                  9 1000 1010 3 sample_clock_receiver (repeat zero_rx_frame 72)
                  (fun _ e => e)
                  Hown Hdst Hdest Hfi Hlen Hbuf Hw Hread Hfit Hmax Hfilt
                  Hslen Hempty Hage eq_refl eq_refl eq_refl Hdel)).
Defined.
